(** * cupyx.distributed._array : index algebra and chunked distributed arrays

    A shallow embedding of [cupyx/distributed/_array.py].

    Python integers are [Z]; [//] and [%] are floor division and its
    remainder, which is what [Z.div] and [Z.modulo] compute, and a zero
    divisor raises.  A [tuple] or [list] is a [list]; a [dict] is an
    association list in insertion order.  Exceptions are the [Raise] branch
    of [result]. *)

From Stdlib Require Import ZArith List Lia Znumtheory Bool String.
From stdpp Require Import base list.
From Equations Require Import Equations.
Import ListNotations.

Local Open Scope Z_scope.

(** ** Exceptions *)

Inductive exn : Set :=
| IndexError
| ValueError
| RuntimeError
| AssertionError
| TypeError
| KeyError
| AttributeError
| ZeroDivisionError
| AxisError
| NoSuchBuffer.

Inductive result (A : Type) : Type :=
| Ok (a : A)
| Raise (e : exn).
Arguments Ok {A} a.
Arguments Raise {A} e.

#[global] Instance result_ret : MRet result := fun A a => Ok a.
#[global] Instance result_bind : MBind result := fun A B k m =>
  match m with
  | Ok a => k a
  | Raise e => Raise e
  end.

(** [a // b] and [a % b]. *)
Definition floordiv (a b : Z) : result Z :=
  if b =? 0 then Raise ZeroDivisionError else Ok (a / b).

Definition pymod (a b : Z) : result Z :=
  if b =? 0 then Raise ZeroDivisionError else Ok (a mod b).

(** [tuple(f(x) for x in xs)]: left to right, the first exception wins. *)
Fixpoint mapM {A B} (f : A -> result B) (xs : list A) : result (list B) :=
  match xs with
  | [] => Ok []
  | x :: xs' =>
      y ← f x;
      ys ← mapM f xs';
      Ok (y :: ys)
  end.

(** [zip(a, b, c)] stops at the shortest argument. *)
Fixpoint zip3 {A B C} (a : list A) (b : list B) (c : list C)
  : list (A * B * C) :=
  match a, b, c with
  | x :: a', y :: b', z :: c' => (x, y, z) :: zip3 a' b' c'
  | _, _, _ => []
  end.

Definition len {A} (l : list A) : Z := Z.of_nat (length l).

(** ** Python slices *)

Record slice : Set := Slice {
  start : option Z;
  stop : option Z;
  step : option Z
}.

(** [slice(None)] *)
Definition slice_all : slice := Slice None None None.

(** [s.indices(length)], after CPython's [slice_indices]. *)
Definition slice_indices (s : slice) (length : Z) : result (Z * Z * Z) :=
  if length <? 0 then Raise ValueError else
  let stp := match step s with None => 1 | Some k => k end in
  if stp =? 0 then Raise ValueError else
  let lower := if stp <? 0 then -1 else 0 in
  let upper := if stp <? 0 then length - 1 else length in
  let clamp (v : Z) :=
    if v <? 0 then Z.max (v + length) lower else Z.min v upper in
  let st :=
    match start s with
    | None => if stp <? 0 then upper else lower
    | Some v => clamp v
    end in
  let sp :=
    match stop s with
    | None => if stp <? 0 then lower else upper
    | Some v => clamp v
    end in
  Ok (st, sp, stp).

(** [len(range(start, stop, step))] for a nonzero step. *)
Definition range_len (st sp stp : Z) : Z :=
  if 0 <? stp then
    if st <? sp then (sp - st - 1) / stp + 1 else 0
  else
    if sp <? st then (st - sp - 1) / (- stp) + 1 else 0.

(** [i in range(start, stop, step)] *)
Definition range_mem (st sp stp i : Z) : bool :=
  if 0 <? stp then
    (st <=? i) && (i <? sp) && ((i - st) mod stp =? 0)
  else
    (i <=? st) && (sp <? i) && ((st - i) mod (- stp) =? 0).

(** [list(range(start, stop, step))] *)
Definition range_list (st sp stp : Z) : list Z :=
  map (fun k => st + Z.of_nat k * stp)
      (seq 0 (Z.to_nat (range_len st sp stp))).

(** The positions a slice selects on an axis of the given length. *)
Definition slice_mem (s : slice) (length i : Z) : bool :=
  match slice_indices s length with
  | Ok (st, sp, stp) => range_mem st sp stp i
  | Raise _ => false
  end.

(** The step a slice stands for ([None] is 1). *)
Definition step_of (s : slice) : Z :=
  match step s with None => 1 | Some k => k end.

Definition pos_step (s : slice) : Prop := 0 < step_of s.

(** ** _extgcd *)

Equations? extgcd_loop (c d x u : Z) : Z * Z by wf (Z.abs_nat d) lt :=
  extgcd_loop c d x u with Z.eq_dec d 0 := {
    | left _ => (c, x)
    | right _ =>
        let r := c / d in
        extgcd_loop d (c - d * r) u (x - u * r) }.
Proof.
  pose proof (Z.mod_bound_or c d ltac:(assumption)).
  rewrite Z.mod_eq in H by assumption. lia.
Qed.

Definition _extgcd (a b : Z) : Z * Z := extgcd_loop a b 1 0.

(** ** _slice_intersection *)

Definition _slice_intersection (a b : slice) (length : Z)
  : result (option slice) :=
  '(a_start, a_stop, a_step) ← slice_indices a length;
  '(b_start, b_stop, b_step) ← slice_indices b length;
  let '(g, x) := _extgcd a_step b_step in
  m ← pymod (b_start - a_start) g;
  if negb (m =? 0) then Ok None else
  q ← floordiv a_step g;
  let c_step := q * b_step in
  d ← floordiv (b_start - a_start) g;
  n ← floordiv c_step a_step;
  a_skip ← pymod (x * d) n;
  let c_start := a_start + a_step * a_skip in
  c_start ←
    (if c_start <? b_start then
       k ← floordiv (b_start - c_start - 1) c_step;
       Ok (c_start + (k + 1) * c_step)
     else Ok c_start);
  let c_stop := Z.min a_stop b_stop in
  if c_start <? c_stop then
    Ok (Some (Slice (Some c_start) (Some c_stop) (Some c_step)))
  else
    Ok None.

(** ** _index_for_subslice *)

Definition _index_for_subslice (a sub : slice) (length : Z) : result slice :=
  '(a_start, a_stop, a_step) ← slice_indices a length;
  '(sub_start, sub_stop, sub_step) ← slice_indices sub length;
  c_start ← floordiv (sub_start - a_start) a_step;
  k ← floordiv (sub_stop - a_start - 1) a_step;
  let c_stop := k + 1 in
  c_step ← floordiv sub_step a_step;
  Ok (Slice (Some c_start) (Some c_stop) (Some c_step)).

(** ** _index_intersection *)

Definition index : Set := list slice.

(** [None not in xs] *)
Fixpoint has_no_none {A} (xs : list (option A)) : option (list A) :=
  match xs with
  | [] => Some []
  | None :: _ => None
  | Some x :: xs' =>
      match has_no_none xs' with
      | Some ys => Some (x :: ys)
      | None => None
      end
  end.

Definition _index_intersection (a_idx b_idx : index) (shape : list Z)
  : result (option index) :=
  let ndim := len shape in
  if negb ((len a_idx =? len b_idx) && (len b_idx =? ndim))
  then Raise AssertionError else
  res ← mapM (fun '(a, b, length) => _slice_intersection a b length)
             (zip3 a_idx b_idx shape);
  Ok (has_no_none res).

(** ** _index_for_subindex *)

Definition _index_for_subindex (a_idx sub_idx : index) (shape : list Z)
  : result index :=
  let ndim := len shape in
  if negb ((len a_idx =? len sub_idx) && (len sub_idx =? ndim))
  then Raise AssertionError else
  mapM (fun '(a, sub, length) => _index_for_subslice a sub length)
       (zip3 a_idx sub_idx shape).

(** ** _shape_after_indexing *)

(** The loop over [i]: [shape[i]] is replaced where [idx] has an entry. *)
Fixpoint _shape_after_indexing (outer_shape : list Z) (idx : index)
         {struct idx} : result (list Z) :=
  match idx with
  | [] => Ok outer_shape
  | s :: idx' =>
      match outer_shape with
      | [] => Raise IndexError
      | n :: shape' =>
          '(st, sp, stp) ← slice_indices s n;
          q ← floordiv (sp - st - 1) stp;
          rest ← _shape_after_indexing shape' idx';
          Ok (q + 1 :: rest)
      end
  end.

(** ** _convert_chunk_idx_to_slices *)

(** What one entry of a chunk index can be: an [int], a [slice], or any
    other object. *)
Inductive idx_item : Set :=
| IInt (i : Z)
| ISlice (s : slice)
| IOther.

(** The [idx] argument: a tuple of entries, or one bare entry. *)
Inductive chunk_idx : Set :=
| ITuple (items : list idx_item)
| ISingle (item : idx_item).

Definition convert_axis (length : Z) (item : idx_item) : result slice :=
  match item with
  | IInt i =>
      if length <=? i then Raise IndexError
      else Ok (Slice (Some i) (Some (i + 1)) None)
  | ISlice s =>
      '(st, sp, stp) ← slice_indices s length;
      if stp =? 0 then Raise ValueError else
      if stp <? 0 then Raise ValueError else
      if st =? sp then Raise ValueError else
      Ok (Slice (Some st) (Some sp) (Some stp))
  | IOther => Raise ValueError
  end.

(** The loop [for i in range(ndim)] over [shape[i]] and [idx[i]]. *)
Fixpoint convert_axes (shape : list Z) (idx : list idx_item)
  : result (list slice) :=
  match shape, idx with
  | length :: shape', item :: idx' =>
      s ← convert_axis length item;
      rest ← convert_axes shape' idx';
      Ok (s :: rest)
  | _, _ => Ok []
  end.

Definition _convert_chunk_idx_to_slices (shape : list Z) (idx : chunk_idx)
  : result index :=
  let idx := match idx with ITuple items => items | ISingle item => [item] end in
  let ndim := length shape in
  if (ndim <? length idx)%nat then Raise IndexError else
  let idx := idx ++ repeat (ISlice slice_all) (ndim - length idx) in
  convert_axes shape idx.
(** ** N-dimensional arrays

    An array is its shape and its elements by coordinate; only coordinates
    within the shape are meaningful.  The element type [V] stands for the
    one dtype of all arrays in a computation. *)

Section Arrays.

Context {V : Type}.

Record ndarray : Type := NDArray {
  nd_shape : list Z;
  nd_item : list Z -> V
}.

(** [c] is a coordinate of an array of the given shape. *)
Fixpoint in_bounds (shape c : list Z) : bool :=
  match shape, c with
  | [], [] => true
  | n :: shape', i :: c' => (0 <=? i) && (i <? n) && in_bounds shape' c'
  | _, _ => false
  end.

(** Equality of arrays: the same shape and the same elements. *)
Definition nd_eq (a b : ndarray) : Prop :=
  nd_shape a = nd_shape b /\
  forall c, in_bounds (nd_shape a) c = true -> nd_item a c = nd_item b c.

(** All coordinates of a shape in row-major order, and the elements of an
    array in that order. *)
Fixpoint coords (shape : list Z) : list (list Z) :=
  match shape with
  | [] => [[]]
  | n :: shape' =>
      flat_map (fun i => map (cons (Z.of_nat i)) (coords shape'))
               (seq 0 (Z.to_nat n))
  end.

Definition nd_to_list (a : ndarray) : list V :=
  map (nd_item a) (coords (nd_shape a)).

(** *** Basic indexing with a tuple of slices *)

(** The per-axis [(start, stop, step)] that [a[idx]] selects: missing
    trailing entries are [slice(None)]. *)
Definition axes_of (shape : list Z) (idx : index)
  : result (list (Z * Z * Z)) :=
  if (length shape <? length idx)%nat then Raise IndexError else
  let idx := idx ++ repeat slice_all (length shape - length idx) in
  mapM (fun '(s, n) => slice_indices s n) (zip idx shape).

Definition view_shape (axes : list (Z * Z * Z)) : list Z :=
  map (fun '(st, sp, stp) => range_len st sp stp) axes.

(** The coordinate in the indexed array of coordinate [c] of [a[idx]]. *)
Fixpoint to_base (axes : list (Z * Z * Z)) (c : list Z) : list Z :=
  match axes, c with
  | (st, _, stp) :: axes', k :: c' => (st + k * stp) :: to_base axes' c'
  | _, _ => []
  end.

(** Whether [a[idx]] selects coordinate [c] of [a], and where. *)
Fixpoint in_axes (axes : list (Z * Z * Z)) (c : list Z) : bool :=
  match axes, c with
  | [], [] => true
  | (st, sp, stp) :: axes', i :: c' =>
      range_mem st sp stp i && in_axes axes' c'
  | _, _ => false
  end.

Fixpoint to_local (axes : list (Z * Z * Z)) (c : list Z) : list Z :=
  match axes, c with
  | (st, _, stp) :: axes', i :: c' => ((i - st) / stp) :: to_local axes' c'
  | _, _ => []
  end.

(** Whether the index [idx] into an array of shape [shape] selects the
    coordinate [c]. *)
Definition index_mem (shape : list Z) (idx : index) (c : list Z) : bool :=
  match axes_of shape idx with
  | Ok axes => in_axes axes c
  | Raise _ => false
  end.

(** *** Broadcasting

    Shapes are aligned at their last axis; an axis of size 1 is repeated. *)

Fixpoint broadcastable_rev (vs ts : list Z) : bool :=
  match vs, ts with
  | [], _ => true
  | v :: vs', [] => (v =? 1) && broadcastable_rev vs' []
  | v :: vs', t :: ts' => ((v =? 1) || (v =? t)) && broadcastable_rev vs' ts'
  end.

(** A value of shape [vshape] can be assigned to a target of shape
    [tshape]. *)
Definition broadcastable (vshape tshape : list Z) : bool :=
  broadcastable_rev (rev vshape) (rev tshape).

Fixpoint bcast_rev (vs cs : list Z) : list Z :=
  match vs with
  | [] => []
  | v :: vs' =>
      match cs with
      | [] => 0 :: bcast_rev vs' []
      | c :: cs' => (if v =? 1 then 0 else c) :: bcast_rev vs' cs'
      end
  end.

(** The coordinate of the value that lands on target coordinate [c]. *)
Definition bcast (vshape c : list Z) : list Z :=
  rev (bcast_rev (rev vshape) (rev c)).

(** The common shape of two operands of an elementwise operation. *)
Fixpoint broadcast_shapes_rev (s t : list Z) : result (list Z) :=
  match s, t with
  | [], _ => Ok t
  | _, [] => Ok s
  | m :: s', n :: t' =>
      rest ← broadcast_shapes_rev s' t';
      if m =? n then Ok (m :: rest)
      else if m =? 1 then Ok (n :: rest)
      else if n =? 1 then Ok (m :: rest)
      else Raise ValueError
  end.

Definition broadcast_shapes (s t : list Z) : result (list Z) :=
  r ← broadcast_shapes_rev (rev s) (rev t); Ok (rev r).

(** [a[idx]] *)
Definition getitem (a : ndarray) (idx : index) : result ndarray :=
  axes ← axes_of (nd_shape a) idx;
  Ok (NDArray (view_shape axes) (fun c => nd_item a (to_base axes c))).

(** [a[idx] = v], as the new value of [a]. *)
Definition setitem (a : ndarray) (idx : index) (v : ndarray) : result ndarray :=
  axes ← axes_of (nd_shape a) idx;
  if negb (broadcastable (nd_shape v) (view_shape axes)) then Raise ValueError
  else
    Ok (NDArray (nd_shape a)
          (fun c => if in_axes axes c
                    then nd_item v (bcast (nd_shape v) (to_local axes c))
                    else nd_item a c)).

(** A scalar as a 0-dimensional array; [a[idx] = x] for a scalar [x]. *)
Definition scalar (x : V) : ndarray := NDArray [] (fun _ => x).

(** [numpy.full(shape, x)] *)
Definition full (shape : list Z) (x : V) : ndarray :=
  NDArray shape (fun _ => x).

(** [atleast_1d(a)] *)
Definition atleast_1d (a : ndarray) : ndarray :=
  match nd_shape a with
  | [] => NDArray [1] (fun _ => nd_item a [])
  | _ => a
  end.

(** An elementwise kernel over positional and keyword arrays: the shapes
    are broadcast together and the scalar function is applied at each
    coordinate. *)
Definition kernel_fn : Type := list V -> list (string * V) -> V.

Fixpoint broadcast_all (shapes : list (list Z)) : result (list Z) :=
  match shapes with
  | [] => Ok []
  | s :: rest => t ← broadcast_all rest; broadcast_shapes s t
  end.

Definition elementwise (f : kernel_fn)
           (args : list ndarray) (kwargs : list (string * ndarray))
  : result ndarray :=
  shape ← broadcast_all (map nd_shape args ++ map (fun kv => nd_shape kv.2) kwargs);
  Ok (NDArray shape
        (fun c => f (map (fun a => nd_item a (bcast (nd_shape a) c)) args)
                    (map (fun kv => (kv.1, nd_item kv.2 (bcast (nd_shape kv.2) c)))
                         kwargs))).

(** [func(x1, x2)] for a binary ufunc. *)
Definition ufunc2 (func : V -> V -> V) (x1 x2 : ndarray) : result ndarray :=
  shape ← broadcast_shapes (nd_shape x1) (nd_shape x2);
  Ok (NDArray shape
        (fun c => func (nd_item x1 (bcast (nd_shape x1) c))
                       (nd_item x2 (bcast (nd_shape x2) c)))).

(** A reduction along one axis: [f] folded over the axis from its first
    element; over an empty axis the result is [init], and an error when the
    reduction has none. *)
Definition insert_at (k : nat) (i : Z) (c : list Z) : list Z :=
  take k c ++ i :: drop k c.

Definition reduce_axis (f : V -> V -> V) (init : option V) (a : ndarray)
           (axis : Z) : result ndarray :=
  let ndim := len (nd_shape a) in
  if negb ((- ndim <=? axis) && (axis <? ndim)) then Raise AxisError else
  let ax := Z.to_nat (if axis <? 0 then axis + ndim else axis) in
  let n := Z.to_nat (nth ax (nd_shape a) 0) in
  match n, init with
  | O, None => Raise ValueError
  | O, Some z => Ok (NDArray (delete ax (nd_shape a)) (fun _ => z))
  | S m, _ =>
      Ok (NDArray (delete ax (nd_shape a))
            (fun c =>
               foldl (fun acc k => f acc (nd_item a (insert_at ax (Z.of_nat k) c)))
                     (nd_item a (insert_at ax 0 c))
                     (seq 1 m)))
  end.

End Arrays.

Arguments ndarray V : clear implicits.
Arguments kernel_fn V : clear implicits.

(** ** Python containers *)

(** [l[i]] on a list, for a nonnegative position. *)
Definition list_get {A} (l : list A) (i : nat) : result A :=
  match l !! i with
  | Some x => Ok x
  | None => Raise IndexError
  end.

(** A [dict] keyed by device ids or other integers, in insertion order. *)
Definition dict (A : Type) : Type := list (Z * A).

Fixpoint dict_find {A} (d : dict A) (k : Z) : option A :=
  match d with
  | [] => None
  | (k', v) :: d' => if k' =? k then Some v else dict_find d' k
  end.

(** [d[k]] *)
Definition dict_get {A} (d : dict A) (k : Z) : result A :=
  match dict_find d k with
  | Some v => Ok v
  | None => Raise KeyError
  end.

(** [d[k] = v]: a new key goes last, a known key keeps its place. *)
Fixpoint dict_set {A} (d : dict A) (k : Z) (v : A) : dict A :=
  match d with
  | [] => [(k, v)]
  | (k', v') :: d' =>
      if k' =? k then (k', v) :: d' else (k', v') :: dict_set d' k v
  end.

(** [k in d] *)
Definition dict_mem {A} (d : dict A) (k : Z) : bool :=
  match dict_find d k with Some _ => true | None => false end.

(** [d1 == d2] for dicts: the same keys with equal values, in any order. *)
Definition dict_eqb {A} (eqb : A -> A -> bool) (d1 d2 : dict A) : bool :=
  (length d1 =? length d2)%nat &&
  forallb (fun '(k, v) =>
             match dict_find d2 k with
             | Some v' => eqb v v'
             | None => false
             end) d1.

(** A [dict] keyed by strings. *)
Fixpoint str_find {A} (d : list (string * A)) (k : string) : option A :=
  match d with
  | [] => None
  | (k', v) :: d' => if String.eqb k' k then Some v else str_find d' k
  end.

Fixpoint str_set {A} (d : list (string * A)) (k : string) (v : A)
  : list (string * A) :=
  match d with
  | [] => [(k, v)]
  | (k', v') :: d' =>
      if String.eqb k' k then (k', v) :: d' else (k', v') :: str_set d' k v
  end.

(** Equality of slices and of index tuples ([==] on [slice] compares the
    three fields). *)
Definition opt_Z_eqb (a b : option Z) : bool :=
  match a, b with
  | None, None => true
  | Some x, Some y => x =? y
  | _, _ => false
  end.

Definition slice_eqb (a b : slice) : bool :=
  opt_Z_eqb (start a) (start b) && opt_Z_eqb (stop a) (stop b) &&
  opt_Z_eqb (step a) (step b).

Fixpoint list_eqb {A} (eqb : A -> A -> bool) (l1 l2 : list A) : bool :=
  match l1, l2 with
  | [], [] => true
  | x :: l1', y :: l2' => eqb x y && list_eqb eqb l1' l2'
  | _, _ => false
  end.

(** [l[s]] for a list and a slice. *)
Definition list_slice {A} (l : list A) (s : slice) : result (list A) :=
  '(st, sp, stp) ← slice_indices s (len l);
  Ok (omap (fun i => l !! Z.to_nat i) (range_list st sp stp)).

(** *** list.sort(key=...)

    A stable sort; keys are lists of [(start, stop, step)] triples compared
    as Python compares lists of tuples. *)

Definition triple_ltb (a b : Z * Z * Z) : bool :=
  let '(a1, a2, a3) := a in
  let '(b1, b2, b3) := b in
  (a1 <? b1) || ((a1 =? b1) && ((a2 <? b2) || ((a2 =? b2) && (a3 <? b3)))).

Definition triple_eqb (a b : Z * Z * Z) : bool :=
  let '(a1, a2, a3) := a in
  let '(b1, b2, b3) := b in
  (a1 =? b1) && (a2 =? b2) && (a3 =? b3).

Fixpoint key_ltb (a b : list (Z * Z * Z)) : bool :=
  match a, b with
  | [], [] => false
  | [], _ :: _ => true
  | _ :: _, [] => false
  | x :: a', y :: b' =>
      triple_ltb x y || (triple_eqb x y && key_ltb a' b')
  end.

Fixpoint sort_insert {K A} (ltb : K -> K -> bool) (x : K * A)
         (l : list (K * A)) : list (K * A) :=
  match l with
  | [] => [x]
  | y :: l' =>
      if ltb y.1 x.1 then y :: sort_insert ltb x l' else x :: y :: l'
  end.

Definition sort_by_key {K A} (ltb : K -> K -> bool) (l : list (K * A))
  : list A :=
  map snd (foldr (sort_insert ltb) [] l).

(** ** Memory

    Device and host buffers live in one store; an array object is a
    reference to a buffer and the chain of basic-index views taken of it
    (empty for the array that owns the buffer).  Streams and events only
    order device work; here every device operation takes effect where the
    host issues it. *)

Record array : Set := Array {
  arr_dev : Z;
  arr_buf : nat;
  arr_view : list index
}.

(** The dtype of the arrays: its [0] and [1], its least and greatest
    values, and the four ufuncs the modes use. *)
Class Dtype (V : Type) : Type := {
  zero : V;
  one : V;
  min_value : V;
  max_value : V;
  add : V -> V -> V;
  multiply : V -> V -> V;
  minimum : V -> V -> V;
  maximum : V -> V -> V
}.

(** The runtime: [nccl.available], whether the dtype is in [_nccl_dtypes],
    and what a buffer from [empty] holds before it is written (any values,
    by buffer). *)
Class Runtime (V : Type) : Type := {
  nccl_available : bool;
  nccl_dtype_known : bool;
  junk : nat -> list Z -> V
}.

(** The store: the buffers by number. *)
Abbreviation store V := (list (ndarray V)) (only parsing).

Section Distributed.

Context {V : Type} `{!Dtype V} `{!Runtime V}.

Definition M (A : Type) : Type := store V -> result A * store V.

#[global] Instance M_ret : MRet M := fun A a σ => (Ok a, σ).
#[global] Instance M_bind : MBind M := fun A B k m σ =>
  match m σ with
  | (Ok a, σ') => k a σ'
  | (Raise e, σ') => (Raise e, σ')
  end.

Definition lift {A} (r : result A) : M A := fun σ => (r, σ).
Definition raise {A} (e : exn) : M A := fun σ => (Raise e, σ).

Fixpoint forM {A B} (f : A -> M B) (l : list A) : M (list B) :=
  match l with
  | [] => mret []
  | x :: l' => y ← f x; ys ← forM f l'; mret (y :: ys)
  end.

Fixpoint foldM {A S} (f : S -> A -> M S) (s : S) (l : list A) : M S :=
  match l with
  | [] => mret s
  | x :: l' => s' ← f s x; foldM f s' l'
  end.

(** The content seen through a chain of views. *)
Fixpoint through (a : ndarray V) (chain : list index) : result (ndarray V) :=
  match chain with
  | [] => Ok a
  | idx :: chain' => sub ← getitem a idx; through sub chain'
  end.

(** The content of the buffer after the part seen through the chain is
    replaced by [f] of it. *)
Fixpoint update_through (a : ndarray V) (chain : list index)
         (f : ndarray V -> result (ndarray V)) : result (ndarray V) :=
  match chain with
  | [] => f a
  | idx :: chain' =>
      sub ← getitem a idx;
      sub' ← update_through sub chain' f;
      setitem a idx sub'
  end.

(** A new buffer on a device. *)
Definition alloc (dev : Z) (a : ndarray V) : M array :=
  fun σ => (Ok (Array dev (length σ) []), σ ++ [a]).

(** [empty(shape)] *)
Definition alloc_empty (dev : Z) (shape : list Z) : M array :=
  fun σ => (Ok (Array dev (length σ) []),
            σ ++ [NDArray shape (junk (length σ))]).

(** The elements of an array object. *)
Definition load (r : array) : M (ndarray V) :=
  fun σ =>
    match σ !! arr_buf r with
    | Some a => (through a (arr_view r), σ)
    | None => (Raise NoSuchBuffer, σ)
    end.

(** [r[idx]], a view. *)
Definition subscript (r : array) (idx : index) : M array :=
  a ← load r;
  _ ← lift (getitem a idx);
  mret (Array (arr_dev r) (arr_buf r) (arr_view r ++ [idx])).

(** [r[idx] = v] *)
Definition assign (r : array) (idx : index) (v : ndarray V) : M unit :=
  fun σ =>
    match σ !! arr_buf r with
    | Some a =>
        match update_through a (arr_view r) (fun x => setitem x idx v) with
        | Ok a' => (Ok tt, <[arr_buf r := a']> σ)
        | Raise e => (Raise e, σ)
        end
    | None => (Raise NoSuchBuffer, σ)
    end.

(** [r.copy()], [cupy.array(r)], [cupy.asnumpy(r)]: a new buffer with the
    elements of [r]. *)
Definition copy_to (dev : Z) (r : array) : M array :=
  a ← load r; alloc dev a.

(** ** Modes *)

Record _OpMode : Type := OpMode {
  func_name : string;
  func : V -> V -> V;
  idempotent : bool;
  identity_of : V
}.

Definition _Mode : Type := option _OpMode.

Definition _REPLICA_MODE : _Mode := None.

Definition _is_op_mode (mode : _Mode) : bool :=
  match mode with Some _ => true | None => false end.

Definition _MODES : list (string * _Mode) :=
  [ ("replica"%string, _REPLICA_MODE);
    ("min"%string, Some (OpMode "minimum" minimum true max_value));
    ("max"%string, Some (OpMode "maximum" maximum true min_value));
    ("sum"%string, Some (OpMode "add" add false zero));
    ("prod"%string, Some (OpMode "multiply" multiply false one)) ].

(** [a is b] for two mode objects: the objects of [_MODES] are told apart
    by the name of their function. *)
Definition mode_is (a b : _Mode) : bool :=
  match a, b with
  | None, None => true
  | Some x, Some y => String.eqb (func_name x) (func_name y)
  | _, _ => false
  end.

(** ** Chunks *)

Record _ManagedData : Set := ManagedData {
  managed_data : array
}.

Record _DataTransfer : Set := DataTransfer {
  transfer_data : array;
  prevent_gc : option array
}.

Definition _PartialUpdate : Set := _DataTransfer * index.

Record _Chunk : Set := Chunk {
  chunk_data : array;
  chunk_index : index;
  chunk_updates : list _PartialUpdate
}.

(** [_ManagedData.copy] *)
Definition _ManagedData_copy (self : _ManagedData) : M _ManagedData :=
  new_data ← copy_to (arr_dev (managed_data self)) (managed_data self);
  mret (ManagedData new_data).

(** [_Chunk.copy] *)
Definition _Chunk_copy (self : _Chunk) : M _Chunk :=
  managed ← _ManagedData_copy (ManagedData (chunk_data self));
  mret (Chunk (managed_data managed) (chunk_index self) (chunk_updates self)).

(** One turn of the loop of [_apply_updates]. *)
Definition apply_update (chunk : _Chunk) (mode : _Mode) (u : _PartialUpdate)
  : M unit :=
  let '(new_data, idx) := u in
  match mode with
  | Some op =>
      target ← subscript (chunk_data chunk) idx;
      x1 ← load target;
      x2 ← load (transfer_data new_data);
      r ← lift (ufunc2 (func op) x1 x2);
      if negb (list_eqb Z.eqb (nd_shape r) (nd_shape x1)) then raise ValueError
      else assign (chunk_data chunk) idx r
  | None =>
      x ← load (transfer_data new_data);
      assign (chunk_data chunk) idx x
  end.

(** [_apply_updates]: the chunk comes back with its queue cleared. *)
Definition _apply_updates (chunk : _Chunk) (mode : _Mode) : M _Chunk :=
  _ ← forM (apply_update chunk mode) (chunk_updates chunk);
  mret (Chunk (chunk_data chunk) (chunk_index chunk) []).

(** ** _DistributedArray *)

Record _DistributedArray : Type := DistributedArray {
  da_shape : list Z;
  _chunks_map : dict (list _Chunk);
  _mode : _Mode;
  _comms : list Z
}.

(** [_DistributedArray.__new__]; [comms] is the set of devices that have a
    communicator. *)
Definition _DistributedArray_new (shape : list Z)
           (chunks_map : dict (list _Chunk)) (mode : _Mode)
           (comms : option (list Z)) : result _DistributedArray :=
  match comms with
  | Some (d :: ds) => Ok (DistributedArray shape chunks_map mode (d :: ds))
  | _ =>
      if nccl_available
      then Ok (DistributedArray shape chunks_map mode (map fst chunks_map))
      else Raise RuntimeError
  end.

Definition index_map (self : _DistributedArray) : dict (list index) :=
  map (fun '(dev, chunks) => (dev, map chunk_index chunks)) (_chunks_map self).

Definition index_map_eqb (a b : dict (list index)) : bool :=
  dict_eqb (list_eqb (list_eqb slice_eqb)) a b.

(** *** _transfer_async *)

Definition _transfer_async (self : _DistributedArray)
           (src_chunk : _ManagedData) (dst_dev : Z) : M _DataTransfer :=
  let src_dev := arr_dev (managed_data src_chunk) in
  if src_dev =? dst_dev then
    mret (DataTransfer (managed_data src_chunk) None)
  else
    src_array ← load (managed_data src_chunk);
    dst_buf ← alloc_empty dst_dev (nd_shape src_array);
    if negb nccl_dtype_known then raise TypeError else
    if negb (existsb (Z.eqb src_dev) (_comms self)) then raise KeyError else
    if negb (existsb (Z.eqb dst_dev) (_comms self)) then raise KeyError else
    _ ← assign dst_buf [] src_array;
    mret (DataTransfer dst_buf (Some (managed_data src_chunk))).

(** *** _apply_and_update_chunks

    The destination chunk comes back with the new update queued. *)
Definition _apply_and_update_chunks (self : _DistributedArray)
           (op_mode : _OpMode) (shape : list Z)
           (src_chunk dst_chunk : _Chunk) : M _Chunk :=
  let dst_dev := arr_dev (chunk_data dst_chunk) in
  let src_idx := chunk_index src_chunk in
  let dst_idx := chunk_index dst_chunk in
  intersection ← lift (_index_intersection src_idx dst_idx shape);
  match intersection with
  | None => mret dst_chunk
  | Some intersection =>
      src_new_idx ← lift (_index_for_subindex src_idx intersection shape);
      dst_new_idx ← lift (_index_for_subindex dst_idx intersection shape);
      part ← subscript (chunk_data src_chunk) src_new_idx;
      data_to_transfer ←
        (if negb (idempotent op_mode)
         then _ManagedData_copy (ManagedData part)
         else mret (ManagedData part));
      update ← _transfer_async self data_to_transfer dst_dev;
      let dst_chunk' :=
        Chunk (chunk_data dst_chunk) (chunk_index dst_chunk)
              (chunk_updates dst_chunk ++ [(update, dst_new_idx)]) in
      if negb (idempotent op_mode) then
        _ ← assign (chunk_data src_chunk) src_new_idx
                   (scalar (identity_of op_mode));
        mret dst_chunk'
      else mret dst_chunk'
  end.

(** *** _copy_on_intersection *)
Definition _copy_on_intersection (self : _DistributedArray)
           (shape : list Z) (src_chunk dst_chunk : _Chunk) : M _Chunk :=
  if negb (length (chunk_updates src_chunk) =? 0)%nat
  then raise AssertionError else
  let src_idx := chunk_index src_chunk in
  let dst_idx := chunk_index dst_chunk in
  intersection ← lift (_index_intersection src_idx dst_idx shape);
  match intersection with
  | None => mret dst_chunk
  | Some intersection =>
      let dst_dev := arr_dev (chunk_data dst_chunk) in
      src_new_idx ← lift (_index_for_subindex src_idx intersection shape);
      dst_new_idx ← lift (_index_for_subindex dst_idx intersection shape);
      part ← subscript (chunk_data src_chunk) src_new_idx;
      update ← _transfer_async self (ManagedData part) dst_dev;
      mret (Chunk (chunk_data dst_chunk) (chunk_index dst_chunk)
                  (chunk_updates dst_chunk ++ [(update, dst_new_idx)]))
  end.

(** *** _all_reduce_intersections

    The chunks of the map are taken as one list, [chunks_list]; a chunk
    that a step changes is put back at its position. *)

Definition flatten (chunk_map : dict (list _Chunk)) : list _Chunk :=
  flat_map snd chunk_map.

(** The map with the chunks of the list, in order, in place of its own. *)
Fixpoint unflatten (chunk_map : dict (list _Chunk)) (l : list _Chunk)
  : dict (list _Chunk) :=
  match chunk_map with
  | [] => []
  | (dev, chunks) :: rest =>
      (dev, take (length chunks) l) :: unflatten rest (drop (length chunks) l)
  end.

(** [for j in js: f(src, chunks_list[j])] *)
Definition onto_each (f : _Chunk -> _Chunk -> M _Chunk) (src_chunk : _Chunk)
           (js : list nat) (chunks_list : list _Chunk) : M (list _Chunk) :=
  foldM (fun l j =>
           dst_chunk ← lift (list_get l j);
           dst_chunk' ← f src_chunk dst_chunk;
           mret (<[j := dst_chunk']> l))
        chunks_list js.

Definition _all_reduce_intersections (self : _DistributedArray)
           (op_mode : _OpMode) (shape : list Z)
           (chunk_map : dict (list _Chunk)) : M (dict (list _Chunk)) :=
  let chunks_list := flatten chunk_map in
  let n := length chunks_list in
  chunks_list ←
    foldM (fun l i =>
             src_chunk ← lift (list_get l i);
             src_chunk ← _apply_updates src_chunk (Some op_mode);
             let l := <[i := src_chunk]> l in
             onto_each (_apply_and_update_chunks self op_mode shape)
                       src_chunk (seq (S i) (n - S i)) l)
          chunks_list (seq 0 n);
  chunks_list ←
    foldM (fun l j =>
             src_chunk ← lift (list_get l j);
             src_chunk ← _apply_updates src_chunk _REPLICA_MODE;
             let l := <[j := src_chunk]> l in
             onto_each (_copy_on_intersection self shape)
                       src_chunk (seq 0 j) l)
          chunks_list (rev (seq 0 n));
  mret (unflatten chunk_map chunks_list).

(** *** _set_identity_on_intersection *)
Definition _set_identity_on_intersection (self : _DistributedArray)
           (shape : list Z) (identity : V) (a_chunk : _Chunk) (b_idx : index)
  : M unit :=
  let a_idx := chunk_index a_chunk in
  intersection ← lift (_index_intersection a_idx b_idx shape);
  match intersection with
  | None => mret tt
  | Some intersection =>
      a_new_idx ← lift (_index_for_subindex a_idx intersection shape);
      assign (chunk_data a_chunk) a_new_idx (scalar identity)
  end.

(** *** _set_identity_on_ignored_entries *)
Definition _set_identity_on_ignored_entries (self : _DistributedArray)
           (identity : V) (chunk : _Chunk) : M unit :=
  _ ← forM (fun '(_, idx) => assign (chunk_data chunk) idx (scalar identity))
           (chunk_updates chunk);
  mret tt.

(** [{dev: [f(chunk) for chunk in chunks] for dev, chunks in m.items()}] *)
Definition map_chunks (f : _Chunk -> M _Chunk) (m : dict (list _Chunk))
  : M (dict (list _Chunk)) :=
  forM (fun '(dev, chunks) => chunks' ← forM f chunks; mret (dev, chunks')) m.

(** *** _copy_chunks_map *)
Definition _copy_chunks_map (self : _DistributedArray)
  : M (dict (list _Chunk)) :=
  map_chunks _Chunk_copy (_chunks_map self).

(** *** _replica_mode_chunks_map *)
Definition _replica_mode_chunks_map (self : _DistributedArray)
  : M (dict (list _Chunk)) :=
  chunks_map ← _copy_chunks_map self;
  match _mode self with
  | Some op_mode =>
      _all_reduce_intersections self op_mode (da_shape self) chunks_map
  | None => mret chunks_map
  end.

(** *** _op_mode_chunks_map *)
Definition _op_mode_chunks_map (self : _DistributedArray) (op_mode : _OpMode)
  : M (dict (list _Chunk)) :=
  if mode_is (_mode self) (Some op_mode) then _copy_chunks_map self else
  chunks_map ← _replica_mode_chunks_map self;
  chunks_map ← map_chunks (fun chunk => _apply_updates chunk _REPLICA_MODE)
                          chunks_map;
  let chunks_list := flatten chunks_map in
  let identity := identity_of op_mode in
  let n := length chunks_list in
  _ ← forM (fun i =>
              a_chunk ← lift (list_get chunks_list i);
              forM (fun j =>
                      b_chunk ← lift (list_get chunks_list j);
                      _set_identity_on_intersection
                        self (da_shape self) identity a_chunk
                        (chunk_index b_chunk))
                   (seq (S i) (n - S i)))
           (seq 0 n);
  mret chunks_map.

(** *** to_replica_mode *)
Definition to_replica_mode (self : _DistributedArray) : M _DistributedArray :=
  if mode_is (_mode self) _REPLICA_MODE then mret self else
  chunks_map ← _replica_mode_chunks_map self;
  lift (_DistributedArray_new (da_shape self) chunks_map _REPLICA_MODE
                              (Some (_comms self))).

(** *** change_mode *)
Definition change_mode (self : _DistributedArray) (mode : string)
  : M _DistributedArray :=
  match str_find _MODES mode with
  | None => raise RuntimeError
  | Some mode_obj =>
      if mode_is mode_obj (_mode self) then mret self else
      chunks_map ←
        match mode_obj with
        | Some op_mode => _op_mode_chunks_map self op_mode
        | None => _replica_mode_chunks_map self
        end;
      lift (_DistributedArray_new (da_shape self) chunks_map mode_obj
                                  (Some (_comms self)))
  end.

(** *** asnumpy

    The host array comes back together with the array itself, whose chunks
    have had their updates applied. *)

(** [numpy.atleast_1d(numpy.full(...))] or [numpy.atleast_1d(numpy.empty(...))] *)
Definition new_host_array (mode : _Mode) (shape : list Z) : M array :=
  match mode with
  | Some op => alloc (-1) (atleast_1d (full shape (identity_of op)))
  | None =>
      fun σ => (Ok (Array (-1) (length σ) []),
                σ ++ [atleast_1d (NDArray shape (junk (length σ)))])
  end.

(** The body of the loop that folds the chunks into the host array. *)
Definition write_chunk (mode : _Mode) (np_array : array) (chunk : _Chunk)
  : M unit :=
  let idx := chunk_index chunk in
  match mode with
  | Some op =>
      target ← subscript np_array idx;
      x1 ← load target;
      x2 ← load (chunk_data chunk);
      r ← lift (ufunc2 (func op) x1 x2);
      if negb (list_eqb Z.eqb (nd_shape r) (nd_shape x1))
      then raise ValueError
      else assign np_array idx r
  | None =>
      x ← load (chunk_data chunk);
      assign np_array idx x
  end.

Definition asnumpy (self : _DistributedArray) : M (array * _DistributedArray) :=
  chunks_map ← map_chunks (fun chunk => _apply_updates chunk (_mode self))
                          (_chunks_map self);
  let self' := DistributedArray (da_shape self) chunks_map (_mode self)
                                (_comms self) in
  np_array ← new_host_array (_mode self) (da_shape self);
  _ ← forM (write_chunk (_mode self) np_array) (flatten chunks_map);
  mret (np_array, self').

(** *** _count_chunks_on_devices *)

(** Keys of operands: a position or a keyword. *)
Inductive arg_key : Set :=
| KInt (i : nat)
| KStr (k : string).

Definition _count_chunks_on_devices
           (dist_args : list (arg_key * _DistributedArray))
  : result (dict nat) :=
  foldl (fun acc '(_, arg) =>
           foldl (fun acc '(dev, chunks) =>
                    counts ← acc;
                    let counts :=
                      if negb (dict_mem counts dev)
                      then dict_set counts dev (length chunks) else counts in
                    n ← dict_get counts dev;
                    if negb (n =? length chunks)%nat then Raise RuntimeError
                    else Ok counts)
                 acc (_chunks_map arg))
        (Ok []) dist_args.

(** *** _prepare_args *)

(** [arg._chunks_map[dev][chunk_i]] *)
Definition chunk_at (arg : _DistributedArray) (dev : Z) (chunk_i : nat)
  : result _Chunk :=
  chunks ← dict_get (_chunks_map arg) dev;
  list_get chunks chunk_i.

Definition _prepare_args (dist_args : list (arg_key * _DistributedArray))
           (regular_args : list (arg_key * array)) (dev : Z) (chunk_i : nat)
  : result (list (arg_key * _ManagedData)) :=
  args ← mapM (fun '(i, arg) =>
                 chunk ← chunk_at arg dev chunk_i;
                 Ok (i, ManagedData (chunk_data chunk)))
              dist_args;
  if (0 <? length regular_args)%nat then Raise RuntimeError else Ok args.

(** *** _prepare_updates

    The arguments come back as well: when two of them carry updates for the
    chunk, every chunk they have on the device has its updates applied. *)

(** The first loop: the key and queue of the one argument with updates,
    and whether there was at most one. *)
Fixpoint scan_updates (dist_args : list (arg_key * _DistributedArray))
         (dev : Z) (chunk_i : nat)
         (incoming : option arg_key) (updates : list _PartialUpdate)
  : result (option arg_key * list _PartialUpdate * bool) :=
  match dist_args with
  | [] => Ok (incoming, updates, true)
  | (i, arg) :: rest =>
      chunk ← chunk_at arg dev chunk_i;
      let updates_now := chunk_updates chunk in
      match updates_now with
      | [] => scan_updates rest dev chunk_i incoming updates
      | _ :: _ =>
          match updates with
          | _ :: _ => Ok (incoming, updates, false)
          | [] => scan_updates rest dev chunk_i (Some i) updates_now
          end
      end
  end.

Definition _prepare_updates (dist_args : list (arg_key * _DistributedArray))
           (dev : Z) (chunk_i : nat)
  : M (option arg_key * list _PartialUpdate *
       list (arg_key * _DistributedArray)) :=
  '(incoming, updates, at_most_one_update) ←
    lift (scan_updates dist_args dev chunk_i None []);
  if (at_most_one_update : bool) then mret (incoming, updates, dist_args) else
  dist_args ←
    forM (fun '(i, arg) =>
            chunks ← lift (dict_get (_chunks_map arg) dev);
            chunks ← forM (fun chunk => _apply_updates chunk _REPLICA_MODE)
                          chunks;
            mret (i, DistributedArray (da_shape arg)
                       (dict_set (_chunks_map arg) dev chunks)
                       (_mode arg) (_comms arg)))
         dist_args;
  mret (None, [], dist_args).

(** *** _execute_kernel *)

(** An operand of a kernel call: a distributed array, a [cupy.ndarray], or
    another object with a shape (a [numpy.ndarray]). *)
Inductive operand : Type :=
| ODist (d : _DistributedArray)
| OCupy (a : array)
| OOther (a : array).

(** [arg.shape] *)
Definition operand_shape (arg : operand) : M (list Z) :=
  match arg with
  | ODist d => mret (da_shape d)
  | OCupy a | OOther a => x ← load a; mret (nd_shape x)
  end.

(** The array a kernel reads for an operand; it takes device arrays only. *)
Definition operand_value (arg : operand) : M (ndarray V) :=
  match arg with
  | OCupy a => load a
  | ODist _ | OOther _ => raise TypeError
  end.

(** the call of the kernel on [args] and [kwargs], on the current device. *)
Definition kernel_call (kernel : kernel_fn V) (dev : Z)
           (args : list operand) (kwargs : list (string * operand))
  : M array :=
  xs ← forM operand_value args;
  kws ← forM (fun '(k, arg) => x ← operand_value arg; mret (k, x)) kwargs;
  r ← lift (elementwise kernel xs kws);
  alloc dev r.

(** [arg[idx]] for an operand. *)
Definition operand_subscript (arg : operand) (idx : index) : M operand :=
  match arg with
  | OCupy a => a' ← subscript a idx; mret (OCupy a')
  | OOther a => a' ← subscript a idx; mret (OOther a')
  | ODist _ => raise TypeError
  end.

(** The two loops that sort the operands: positional operands are converted
    to replica mode, keyword operands are taken as they are. *)
Definition collect_args (self : _DistributedArray) (args : list operand)
  : M (list (arg_key * _DistributedArray) * list (arg_key * array)) :=
  foldM (fun '(distributed_arrays, regular_arrays) '(i, arg) =>
           shape ← operand_shape arg;
           if negb (list_eqb Z.eqb shape (da_shape self))
           then raise RuntimeError else
           match arg with
           | ODist d =>
               if negb (index_map_eqb (index_map d) (index_map self))
               then raise RuntimeError else
               d' ← to_replica_mode d;
               mret (distributed_arrays ++ [(KInt i, d')], regular_arrays)
           | OCupy a =>
               mret (distributed_arrays, regular_arrays ++ [(KInt i, a)])
           | OOther _ => mret (distributed_arrays, regular_arrays)
           end)
        ([], []) (imap (fun i arg => (i, arg)) args).

Definition collect_kwargs (self : _DistributedArray)
           (kwargs : list (string * operand))
           (acc : list (arg_key * _DistributedArray) * list (arg_key * array))
  : M (list (arg_key * _DistributedArray) * list (arg_key * array)) :=
  foldM (fun '(distributed_arrays, regular_arrays) '(k, arg) =>
           shape ← operand_shape arg;
           if negb (list_eqb Z.eqb shape (da_shape self))
           then raise RuntimeError else
           match arg with
           | ODist d =>
               if negb (index_map_eqb (index_map d) (index_map self))
               then raise RuntimeError else
               mret (distributed_arrays ++ [(KStr k, d)], regular_arrays)
           | OCupy _ | OOther _ => raise AttributeError
           end)
        acc kwargs.

(** [args[i] = arg.data] or [kwargs[i] = arg.data] for each prepared
    argument. *)
Definition bind_args (array_args : list (arg_key * _ManagedData))
           (args : list operand) (kwargs : list (string * operand))
  : list operand * list (string * operand) :=
  foldl (fun '(args, kwargs) '(i, arg) =>
           match i with
           | KInt i => (<[i := OCupy (managed_data arg)]> args, kwargs)
           | KStr k => (args, str_set kwargs k (OCupy (managed_data arg)))
           end)
        (args, kwargs) array_args.

(** The kernel on one pending update: every operand is cut to the region
    of the update, and the update stands in for the operand it is for. *)
Definition kernel_on_update (kernel : kernel_fn V) (dev : Z)
           (args : list operand) (kwargs : list (string * operand))
           (incoming_index : option arg_key) (u : _PartialUpdate)
  : M _PartialUpdate :=
  let '(update, idx) := u in
  args_slice ← forM (fun arg => operand_subscript arg idx) args;
  kwargs_slice ← forM (fun '(k, arg) =>
                         arg' ← operand_subscript arg idx; mret (k, arg'))
                      kwargs;
  '(args_slice, kwargs_slice) ←
    match incoming_index with
    | Some (KInt i) =>
        if (i <? length args_slice)%nat
        then mret (<[i := OCupy (transfer_data update)]> args_slice,
                   kwargs_slice)
        else raise IndexError
    | Some (KStr k) =>
        mret (args_slice, str_set kwargs_slice k (OCupy (transfer_data update)))
    | None => raise TypeError
    end;
  new_data ← kernel_call kernel dev args_slice kwargs_slice;
  mret (DataTransfer new_data None, idx).

(** The body of the loop over [chunk_i]. *)
Definition execute_on_chunk (self : _DistributedArray) (kernel : kernel_fn V)
           (regular_arrays : list (arg_key * array)) (dev : Z)
           (state : list (arg_key * _DistributedArray) *
                    list operand * list (string * operand) * list _Chunk)
           (chunk_i : nat)
  : M (list (arg_key * _DistributedArray) *
       list operand * list (string * operand) * list _Chunk) :=
  let '(distributed_arrays, args, kwargs, new_chunks) := state in
  array_args ← lift (_prepare_args distributed_arrays regular_arrays
                                   dev chunk_i);
  '(incoming_index, update_map, distributed_arrays) ←
    _prepare_updates distributed_arrays dev chunk_i;
  let '(args, kwargs) := bind_args array_args args kwargs in
  chunk ← kernel_call kernel dev args kwargs;
  idxs ← lift (dict_get (index_map self) dev);
  idx ← lift (list_get idxs chunk_i);
  updates ← forM (kernel_on_update kernel dev args kwargs incoming_index)
                 update_map;
  mret (distributed_arrays, args, kwargs,
        new_chunks ++ [Chunk chunk idx updates]).

Definition _execute_kernel (self : _DistributedArray) (kernel : kernel_fn V)
           (args : list operand) (kwargs : list (string * operand))
  : M _DistributedArray :=
  acc ← collect_args self args;
  '(distributed_arrays, regular_arrays) ← collect_kwargs self kwargs acc;
  chunk_counts ← lift (_count_chunks_on_devices distributed_arrays);
  '(_, _, _, new_chunks_map) ←
    foldM (fun '(distributed_arrays, args, kwargs, new_chunks_map)
               '(dev, chunk_count) =>
             '(distributed_arrays, args, kwargs, new_chunks) ←
               foldM (execute_on_chunk self kernel regular_arrays dev)
                     (distributed_arrays, args, kwargs, [])
                     (seq 0 chunk_count);
             mret (distributed_arrays, args, kwargs,
                   dict_set new_chunks_map dev new_chunks))
          (distributed_arrays, args, kwargs, []) chunk_counts;
  lift (_DistributedArray_new (da_shape self) new_chunks_map _REPLICA_MODE
                              (Some (_comms self))).

(** [__cupy_override_elementwise_kernel__] *)
Definition __cupy_override_elementwise_kernel__ (self : _DistributedArray)
           (kernel : kernel_fn V) (args : list operand)
           (kwargs : list (string * operand)) : M _DistributedArray :=
  _execute_kernel self kernel args kwargs.

(** *** __cupy_override_reduction_kernel__ *)

(** A reduction kernel, known by its name. *)
Record reduction_kernel : Set := ReductionKernel {
  kernel_name : string
}.

(** [kernel(a, axis=axis, dtype=dtype)] for the four kernels the override
    accepts. *)
Definition reduction_call (kernel : reduction_kernel) (a : ndarray V)
           (axis : Z) : result (ndarray V) :=
  if String.eqb (kernel_name kernel) "cupy_max"
  then reduce_axis maximum None a axis
  else if String.eqb (kernel_name kernel) "cupy_min"
  then reduce_axis minimum None a axis
  else if String.eqb (kernel_name kernel) "cupy_sum"
  then reduce_axis add (Some zero) a axis
  else if String.eqb (kernel_name kernel) "cupy_prod"
  then reduce_axis multiply (Some one) a axis
  else Raise TypeError.

(** [l[:axis] + l[axis+1:]] *)
Definition without_axis {A} (l : list A) (axis : Z) : result (list A) :=
  before ← list_slice l (Slice None (Some axis) None);
  after ← list_slice l (Slice (Some (axis + 1)) None None);
  Ok (before ++ after).

(** The body of the loop over the chunks of the reduced map. *)
Definition reduce_chunk (kernel : reduction_kernel) (axis : Z) (dev : Z)
           (chunk : _Chunk) : M _Chunk :=
  x ← load (chunk_data chunk);
  r ← lift (reduction_call kernel x axis);
  new_data ← alloc dev (atleast_1d r);
  new_index ← lift (without_axis (chunk_index chunk) axis);
  new_updates ←
    forM (fun '(update, update_index) =>
            u ← load (transfer_data update);
            r ← lift (reduction_call kernel u axis);
            new_update_data ← alloc dev (atleast_1d r);
            new_index ← lift (without_axis update_index axis);
            mret (DataTransfer new_update_data None, new_index))
         (chunk_updates chunk);
  mret (Chunk new_data new_index new_updates).

Definition __cupy_override_reduction_kernel__ (self : _DistributedArray)
           (kernel : reduction_kernel) (axis : Z)
           (out : option array) (keepdims : bool) : M _DistributedArray :=
  match out with
  | Some _ => raise RuntimeError
  | None =>
  if keepdims then raise RuntimeError else
  let idempotent_kind (name : string) : M (_Mode * dict (list _Chunk) * bool) :=
    mode ← lift (match str_find _MODES name with
                 | Some m => Ok m | None => Raise KeyError end);
    if mode_is (_mode self) mode then
      chunks_map ← _copy_chunks_map self; mret (mode, chunks_map, false)
    else
      chunks_map ← _replica_mode_chunks_map self; mret (mode, chunks_map, true) in
  let op_kind (name : string) : M (_Mode * dict (list _Chunk) * bool) :=
    mode ← lift (match str_find _MODES name with
                 | Some (Some m) => Ok m | _ => Raise KeyError end);
    chunks_map ← _op_mode_chunks_map self mode;
    mret (Some mode, chunks_map, false) in
  '(mode, chunks_map, overwrites) ←
    (if String.eqb (kernel_name kernel) "cupy_max" then idempotent_kind "max"%string
     else if String.eqb (kernel_name kernel) "cupy_min" then idempotent_kind "min"%string
     else if String.eqb (kernel_name kernel) "cupy_sum" then op_kind "sum"%string
     else if String.eqb (kernel_name kernel) "cupy_prod" then op_kind "prod"%string
     else raise RuntimeError);
  _ ← (if (overwrites : bool) then
         match mode with
         | Some op =>
             _ ← forM (_set_identity_on_ignored_entries self (identity_of op))
                      (flatten chunks_map);
             mret tt
         | None => raise AttributeError
         end
       else mret tt);
  shape ← lift (without_axis (da_shape self) axis);
  new_chunks_map ←
    foldM (fun new_chunks_map '(dev, chunks) =>
             new_chunks ← forM (reduce_chunk kernel axis dev) chunks;
             mret (dict_set new_chunks_map dev new_chunks))
          [] chunks_map;
  lift (_DistributedArray_new shape new_chunks_map mode (Some (_comms self)))
  end.

(** *** distributed_array *)

(** The [array] argument: a [numpy.ndarray], a [cupy.ndarray], or anything
    else that [numpy.array] turns into an array. *)
Inductive array_like : Type :=
| NumpyArray (a : array)
| CupyArray (a : array)
| OtherLike (v : ndarray V).

(** A value of the index map: a list of chunk indices or a single one. *)
Inductive idxs_arg : Set :=
| IdxList (idxs : list chunk_idx)
| IdxOne (idx : chunk_idx).

(** [[s.indices(l) for s, l in zip(slices, shape)]] *)
Definition sort_key (shape : list Z) (slices : index)
  : result (list (Z * Z * Z)) :=
  mapM (fun '(s, l) => slice_indices s l) (zip slices shape).

(** The loop that builds [new_index_map]: each device's indices converted
    to slices and sorted. *)
Fixpoint normalize_index_map (shape : list Z) (index_map : dict idxs_arg)
         (new_index_map : dict (list index)) : result (dict (list index)) :=
  match index_map with
  | [] => Ok new_index_map
  | (dev, idxs) :: rest =>
      let idxs := match idxs with IdxList l => l | IdxOne i => [i] end in
      idxs ← mapM (_convert_chunk_idx_to_slices shape) idxs;
      keyed ← mapM (fun slices => k ← sort_key shape slices; Ok (k, slices))
                   idxs;
      normalize_index_map shape rest
        (dict_set new_index_map dev (sort_by_key key_ltb keyed))
  end.

(** The body of the loop over a device's indices: the chunk for [idx], and
    in a non-idempotent mode the region of [array] reset. *)
Definition make_chunk (arr : array) (mode_obj : _Mode) (dev : Z) (idx : index)
  : M _Chunk :=
  part ← subscript arr idx;
  data ← copy_to dev part;
  _ ← match mode_obj with
      | Some op =>
          if negb (idempotent op)
          then assign arr idx (scalar (identity_of op))
          else mret tt
      | None => mret tt
      end;
  mret (Chunk data idx []).

(** The loop that builds [chunks_map]. *)
Definition make_chunks (arr : array) (mode_obj : _Mode)
           (new_index_map : dict (list index)) : M (dict (list _Chunk)) :=
  foldM (fun chunks_map '(dev, idxs) =>
           chunks ← forM (make_chunk arr mode_obj dev) idxs;
           mret (dict_set chunks_map dev chunks))
        [] new_index_map.

Definition distributed_array (array : array_like) (index_map : dict idxs_arg)
           (mode : string) (comms : option (list Z)) : M _DistributedArray :=
  match str_find _MODES mode with
  | None => raise RuntimeError
  | Some mode_obj =>
      array ←
        match array with
        | OtherLike v => alloc (-1) v
        | NumpyArray a | CupyArray a =>
            if negb (String.eqb mode "replica") then copy_to (arr_dev a) a
            else mret a
        end;
      x ← load array;
      let shape := nd_shape x in
      new_index_map ← lift (normalize_index_map shape index_map []);
      chunks_map ← make_chunks array mode_obj new_index_map;
      lift (_DistributedArray_new shape chunks_map mode_obj comms)
  end.

End Distributed.

Arguments M V A : clear implicits.
Arguments _OpMode V : clear implicits.
Arguments _Mode V : clear implicits.
Arguments _DistributedArray V : clear implicits.
Arguments operand V : clear implicits.
Arguments array_like V : clear implicits.

(** ** The properties of a distributed array *)

(** The [mode] property: the name under which [_MODES] has the mode
    object of the array. *)
Definition mode {V} `{!Dtype V} (self : _DistributedArray V) : result string :=
  match find (fun kv : string * _Mode V => mode_is (_mode self) kv.2) _MODES with
  | Some (mode_str, _) => Ok mode_str
  | None => Raise RuntimeError
  end.

(** The [devices] property. *)
Definition devices {V} (self : _DistributedArray V) : list Z :=
  map fst (_chunks_map self).

(** The entries [(dev, chunks)] of the chunk maps of the operands, in the
    order in which [_count_chunks_on_devices] visits them. *)
Definition operand_entries {V} (dist_args : list (arg_key * _DistributedArray V))
  : list (Z * list _Chunk) :=
  flat_map (fun kd => _chunks_map kd.2) dist_args.

(** ** reshard

    The new array comes back together with the array itself, whose chunks
    have had their updates applied. *)

(** The chunk that [reshard] makes for [idx] on [dev]: [cupy.empty] or
    [cupy.full] of the shape that [idx] selects, which refuse a negative
    dimension, then [cupy.atleast_1d]. *)
Definition new_chunk {V} `{!Dtype V} `{!Runtime V} (mode : _Mode V)
           (shape : list Z) (dev : Z) (idx : index) : M V _Chunk :=
  dst_shape ← lift (_shape_after_indexing shape idx);
  if existsb (fun n => n <? 0) dst_shape then raise ValueError else
  data ←
    match mode with
    | None =>
        fun σ => (Ok (Array dev (length σ) []),
                  σ ++ [atleast_1d (NDArray dst_shape (junk (length σ)))])
    | Some op => alloc dev (atleast_1d (full dst_shape (identity_of op)))
    end;
  mret (Chunk data idx []).

(** The body of the loop over the chunks of the array: the updates of the
    source chunk are applied, and it is sent to every new chunk. *)
Definition reshard_step {V} `{!Dtype V} `{!Runtime V}
           (self : _DistributedArray V)
           (state : list _Chunk * dict (list _Chunk)) (src_chunk : _Chunk)
  : M V (list _Chunk * dict (list _Chunk)) :=
  let '(old_chunks, new_chunks_map) := state in
  src_chunk ← _apply_updates src_chunk (_mode self);
  src_copy ←
    match _mode self with
    | Some _ => _Chunk_copy src_chunk
    | None => mret src_chunk
    end;
  new_chunks_map ←
    map_chunks
      (fun dst_chunk =>
         match _mode self with
         | Some op =>
             _apply_and_update_chunks self op (da_shape self) src_copy dst_chunk
         | None => _copy_on_intersection self (da_shape self) src_copy dst_chunk
         end)
      new_chunks_map;
  mret (old_chunks ++ [src_chunk], new_chunks_map).

Definition reshard {V} `{!Dtype V} `{!Runtime V} (self : _DistributedArray V)
           (index_map : dict idxs_arg)
  : M V (_DistributedArray V * _DistributedArray V) :=
  if negb (forallb (fun kv : Z * idxs_arg =>
                      existsb (Z.eqb kv.1) (_comms self)) index_map)
  then raise RuntimeError else
  new_index_map ← lift (normalize_index_map (da_shape self) index_map []);
  new_chunks_map ←
    foldM (fun chunks_map '(dev, idxs) =>
             chunks ← forM (new_chunk (_mode self) (da_shape self) dev) idxs;
             mret (dict_set chunks_map dev chunks))
          [] new_index_map;
  '(old_chunks, new_chunks_map) ←
    foldM (reshard_step self) ([], new_chunks_map) (flatten (_chunks_map self));
  d ← lift (_DistributedArray_new (da_shape self) new_chunks_map (_mode self)
                                  (Some (_comms self)));
  mret (d, DistributedArray (da_shape self)
                            (unflatten (_chunks_map self) old_chunks)
                            (_mode self) (_comms self)).

(** ** Index maps, as the caller writes them

    What an entry of an index map selects, by the rules of array indexing;
    which entries are well formed; and when the entries cover a shape or
    keep apart. *)

Definition idxs_list (idxs : idxs_arg) : list chunk_idx :=
  match idxs with IdxList l => l | IdxOne i => [i] end.

Definition items_of (idx : chunk_idx) : list idx_item :=
  match idx with ITuple items => items | ISingle item => [item] end.

(** Every index of the map, device after device. *)
Definition all_indices (index_map : dict idxs_arg) : list chunk_idx :=
  flat_map (fun kv => idxs_list kv.2) index_map.

(** Position [i] of an axis of length [n] is selected by the entry. *)
Definition item_mem (n : Z) (item : idx_item) (i : Z) : bool :=
  match item with
  | IInt k => (0 <=? i) && (i <? n) && (i =? (if k <? 0 then k + n else k))
  | ISlice s => slice_mem s n i
  | IOther => false
  end.

(** Coordinate [c] is selected by the entries, one per axis; an axis
    without an entry is selected whole. *)
Fixpoint items_mem (shape : list Z) (items : list idx_item) (c : list Z)
  : bool :=
  match shape, c with
  | [], [] => match items with [] => true | _ :: _ => false end
  | n :: shape', i :: c' =>
      match items with
      | [] => (0 <=? i) && (i <? n) && items_mem shape' [] c'
      | item :: items' => item_mem n item i && items_mem shape' items' c'
      end
  | _, _ => false
  end.

Definition region_mem (shape : list Z) (idx : chunk_idx) (c : list Z) : bool :=
  items_mem shape (items_of idx) c.

(** A well-formed entry for an axis of length [n]: an integer within the
    axis, or a slice with a positive step that selects something. *)
Definition valid_item (n : Z) (item : idx_item) : Prop :=
  match item with
  | IInt k => 0 <= k < n
  | ISlice s => pos_step s /\ exists i, slice_mem s n i = true
  | IOther => False
  end.

(** A well-formed index: at most one entry per axis, each well formed, and
    no empty axis among those without an entry. *)
Fixpoint valid_items (shape : list Z) (items : list idx_item) {struct items}
  : Prop :=
  match items, shape with
  | [], _ => Forall (fun n => 0 < n) shape
  | _ :: _, [] => False
  | item :: items', n :: shape' => valid_item n item /\ valid_items shape' items'
  end.

Definition valid_chunk_idx (shape : list Z) (idx : chunk_idx) : Prop :=
  valid_items shape (items_of idx).

(** An entry that [_convert_chunk_idx_to_slices] refuses on an axis of
    length [n]: an object that is neither an [int] nor a [slice], an [int]
    beyond the axis, a slice with a zero or negative step, and a slice
    whose normalised start and stop are equal. *)
Definition refused_item (n : Z) (item : idx_item) : Prop :=
  match item with
  | IOther => True
  | IInt i => n <= i
  | ISlice s =>
      step s = Some 0 \/ (exists k, step s = Some k /\ k < 0) \/
      (exists st stp, slice_indices s n = Ok (st, st, stp))
  end.


(** The regions of the map cover the shape without gaps. *)
Definition covers (shape : list Z) (index_map : dict idxs_arg) : Prop :=
  forall c, in_bounds shape c = true ->
            Exists (fun idx => region_mem shape idx c = true)
                   (all_indices index_map).

(** [P] holds of every two elements of the list at different positions,
    the earlier one first. *)
Fixpoint pairwise {A} (P : A -> A -> Prop) (l : list A) : Prop :=
  match l with
  | [] => True
  | x :: l' => Forall (P x) l' /\ pairwise P l'
  end.

(** The regions of the map do not overlap. *)
Definition regions_disjoint (shape : list Z) (index_map : dict idxs_arg) : Prop :=
  pairwise (fun i1 i2 => forall c, ~ (region_mem shape i1 c = true /\
                                      region_mem shape i2 c = true))
           (all_indices index_map).

(** The array-like argument [arr] stands for the array [A] in the store. *)
Definition array_like_value {V} (σ : store V) (arr : array_like V)
           (A : ndarray V) : Prop :=
  match arr with
  | OtherLike v => v = A
  | NumpyArray a | CupyArray a => load a σ = (Ok A, σ)
  end.

(** The [comms] argument holds communicators. *)
Definition has_comms (comms : option (list Z)) : bool :=
  match comms with
  | Some (_ :: _) => true
  | _ => false
  end.

(** [asnumpy] of the replica-mode array that [distributed_array] builds. *)
Definition replica_round_trip {V} `{!Dtype V} `{!Runtime V}
           (arr : array_like V) (index_map : dict idxs_arg)
           (comms : option (list Z)) : M V (ndarray V) :=
  d ← distributed_array arr index_map "replica" comms;
  r ← asnumpy d;
  load r.1.

(** [asnumpy] after [change_mode("replica")] of the sum-mode array that
    [distributed_array] builds. *)
Definition sum_to_replica_round_trip {V} `{!Dtype V} `{!Runtime V}
           (arr : array_like V) (index_map : dict idxs_arg)
           (comms : option (list Z)) : M V (ndarray V) :=
  d ← distributed_array arr index_map "sum" comms;
  d ← change_mode d "replica";
  r ← asnumpy d;
  load r.1.

(** ** Chunks in the store

    What the statements below ask of the chunks of an array whose buffers
    are in the store. *)

Section Chunks.

Context {V : Type} `{!Dtype V} `{!Runtime V}.

(** A chunk of an array of shape [shape] in the store: its data is a whole
    buffer, holding [a]; its index has a positive-step slice for each axis,
    selecting [axes]; and [a] has the shape of that selection. *)
Definition chunk_ok (shape : list Z) (σ : store V) (chunk : _Chunk)
           (a : ndarray V) (axes : list (Z * Z * Z)) : Prop :=
  arr_view (chunk_data chunk) = [] /\
  σ !! arr_buf (chunk_data chunk) = Some a /\
  length (chunk_index chunk) = length shape /\
  Forall pos_step (chunk_index chunk) /\
  axes_of shape (chunk_index chunk) = Ok axes /\
  nd_shape a = view_shape axes.

(** The buffer of the data of a chunk. *)
Definition buf_of (chunk : _Chunk) : nat := arr_buf (chunk_data chunk).

(** A pending update of a chunk whose data has the shape [shape]: its index
    has positive steps and selects [uaxes] of the data, and its payload [p]
    has the shape of that selection. *)
Definition update_ok (σ : store V) (shape : list Z) (u : _PartialUpdate)
           (p : ndarray V) (uaxes : list (Z * Z * Z)) : Prop :=
  load (transfer_data u.1) σ = (Ok p, σ) /\
  Forall pos_step u.2 /\
  axes_of shape u.2 = Ok uaxes /\
  nd_shape p = view_shape uaxes.

(** A chunk of an array of shape [shape] as the code builds them: its data
    is a whole buffer of the shape its index selects, and every pending
    update has a positive-step index into the data and a payload of the
    shape that index selects. *)
Definition well_formed_chunk (shape : list Z) (σ : store V) (chunk : _Chunk)
  : Prop :=
  exists a axes,
    chunk_ok shape σ chunk a axes /\
    Forall (fun u => exists p uaxes, update_ok σ (view_shape axes) u p uaxes)
           (chunk_updates chunk).

End Chunks.

(** ** Operands that can be converted

    Two chunks can exchange data: they are on one device, or the dtype is
    one that NCCL knows and both devices have a communicator. *)
Definition can_transfer {V} `{!Runtime V} (self : _DistributedArray V)
           (r r' : array) : Prop :=
  arr_dev r = arr_dev r' \/
  (nccl_dtype_known = true /\ In (arr_dev r) (_comms self) /\
   In (arr_dev r') (_comms self)).

Definition can_exchange {V} `{!Runtime V} (self : _DistributedArray V)
           (datas : list array) : Prop :=
  forall r r', In r datas -> In r' datas -> can_transfer self r r'.

(** An operand in an op mode can be converted to replica mode: no length
    of its shape is negative, a communicator can be made, and every two of
    its chunks can exchange data.  An operand in replica mode is taken as
    it is. *)
Definition convertible {V} `{!Dtype V} `{!Runtime V}
           (z : _DistributedArray V) : Prop :=
  match _mode z with
  | None => True
  | Some _ =>
      Forall (fun n => 0 <= n) (da_shape z) /\
      (_comms z <> [] \/ nccl_available = true) /\
      can_exchange z (map chunk_data (flatten (_chunks_map z)))
  end.

(** ** Lazy and eager kernel calls

    A kernel on two distributed operands, materialised: as
    [_execute_kernel] runs it, and with the pending updates of both
    operands applied first, each in the mode of its array, the way
    [wait_all_transfer] and [asnumpy] apply them. *)

Definition drain_updates {V} `{!Dtype V} `{!Runtime V}
           (d : _DistributedArray V) : M V (_DistributedArray V) :=
  chunks_map ← map_chunks (fun chunk => _apply_updates chunk (_mode d))
                          (_chunks_map d);
  mret (DistributedArray (da_shape d) chunks_map (_mode d) (_comms d)).

Definition lazy_kernel {V} `{!Dtype V} `{!Runtime V} (kernel : kernel_fn V)
           (x y : _DistributedArray V) : M V (ndarray V) :=
  d ← __cupy_override_elementwise_kernel__ x kernel [ODist x; ODist y] [];
  r ← asnumpy d;
  load r.1.

Definition eager_kernel {V} `{!Dtype V} `{!Runtime V} (kernel : kernel_fn V)
           (x y : _DistributedArray V) : M V (ndarray V) :=
  x ← drain_updates x;
  y ← drain_updates y;
  d ← __cupy_override_elementwise_kernel__ x kernel [ODist x; ODist y] [];
  r ← asnumpy d;
  load r.1.

(** ** An instance: arrays of unbounded integers

    Used to run the functions on concrete inputs. *)

#[global] Instance int_dtype : Dtype Z := {|
  zero := 0;
  one := 1;
  min_value := - 2 ^ 63;
  max_value := 2 ^ 63 - 1;
  add := Z.add;
  multiply := Z.mul;
  minimum := Z.min;
  maximum := Z.max
|}.

(** A runtime with NCCL available for the dtype, where fresh buffers hold
    [-1]. *)
#[global] Instance int_runtime : Runtime Z := {|
  nccl_available := true;
  nccl_dtype_known := true;
  junk := fun _ _ => -1
|}.

(** [slice(a, b)] *)
Definition slice2 (a b : Z) : slice := Slice (Some a) (Some b) None.

(** The 1-d array of the given elements, and the 2-d array of the given
    rows of the given width. *)
Definition array1 (l : list Z) : ndarray Z :=
  NDArray [len l]
          (fun c => match c with
                    | [i] => nth (Z.to_nat i) l 0
                    | _ => 0
                    end).

Definition array2 (width : Z) (rows : list (list Z)) : ndarray Z :=
  NDArray [len rows; width]
          (fun c => match c with
                    | [i; j] => nth (Z.to_nat j) (nth (Z.to_nat i) rows []) 0
                    | _ => 0
                    end).

(** ** Kernel calls on a sum-mode array *)

(** A kernel that returns its only operand, positional or keyword. *)
Definition only_operand : kernel_fn Z := fun args kwargs =>
  match args, kwargs with
  | [x], _ => x
  | _, [(_, x)] => x
  | _, _ => 0
  end.

(** The array [[1, 2]] over two devices that both hold the whole of it, in
    sum mode; the kernel on it, as a positional or as a keyword operand;
    the elements of the result. *)
Definition kernel_on_sum_array (as_keyword : bool) : M Z (list Z) :=
  d ← distributed_array
        (OtherLike (array1 [1; 2]))
        [(0, IdxOne (ISingle (ISlice (slice2 0 2))));
         (1, IdxOne (ISingle (ISlice (slice2 0 2))))]
        "sum" None;
  out ← _execute_kernel d only_operand
          (if as_keyword then [] else [ODist d])
          (if as_keyword then [("x"%string, ODist d)] else []);
  r ← asnumpy out;
  x ← load r.1;
  mret (nd_to_list x).

(** What [collect_kwargs] keeps of that array as a keyword operand: its
    key and whether it is in an op mode. *)
Definition collected_keyword_modes : M Z (list (arg_key * bool)) :=
  d ← distributed_array
        (OtherLike (array1 [1; 2]))
        [(0, IdxOne (ISingle (ISlice (slice2 0 2))));
         (1, IdxOne (ISingle (ISlice (slice2 0 2))))]
        "sum" None;
  acc ← collect_kwargs d [("x"%string, ODist d)] ([], []);
  mret (map (fun kd => (kd.1, _is_op_mode (_mode kd.2))) acc.1).

(** ** Two chunks of an array of four integers

    The chunk of rows [0:3] on device 0 and the chunk of rows [1:4] on
    device 1, their buffers, and an array that has communicators for both
    devices. *)

Definition example_store : store Z := [array1 [1; 2; 3]; array1 [20; 30; 40]].

Definition example_src_chunk : _Chunk :=
  Chunk (Array 0 0 []) [Slice (Some 0) (Some 3) (Some 1)] [].

Definition example_dst_chunk : _Chunk :=
  Chunk (Array 1 1 []) [Slice (Some 1) (Some 4) (Some 1)] [].

Definition example_self : _DistributedArray Z :=
  DistributedArray [4] [(0, [example_src_chunk]); (1, [example_dst_chunk])]
                   _REPLICA_MODE [0; 1].

(** The mode object of ['sum']. *)
Definition sum_mode : _OpMode Z := OpMode "add" add false zero.

(** ** Two operands of a kernel, one with a pending update

    Two replica-mode arrays of four integers, split in halves over two
    devices; the first half of the first one has a pending update of its
    second element. *)

Definition sum_of_operands : kernel_fn Z := fun args _ => foldr Z.add 0 args.

Definition operands_store : store Z :=
  [array1 [1; 2]; array1 [3; 4]; array1 [10; 20]; array1 [30; 40]; array1 [7]].

Definition operand_x : _DistributedArray Z :=
  DistributedArray [4]
    [(0, [Chunk (Array 0 0 []) [Slice (Some 0) (Some 2) (Some 1)]
                [(DataTransfer (Array 0 4 []) None,
                  [Slice (Some 1) (Some 2) (Some 1)])]]);
     (1, [Chunk (Array 1 1 []) [Slice (Some 2) (Some 4) (Some 1)] []])]
    _REPLICA_MODE [0; 1].

Definition operand_y : _DistributedArray Z :=
  DistributedArray [4]
    [(0, [Chunk (Array 0 2 []) [Slice (Some 0) (Some 2) (Some 1)] []]);
     (1, [Chunk (Array 1 3 []) [Slice (Some 2) (Some 4) (Some 1)] []])]
    _REPLICA_MODE [0; 1].

(** An array of four integers in sum mode, in two chunks that share the
    third element, with an update pending on the first chunk, and a
    replica-mode array with the same index map. *)

Definition sum_operands_store : store Z :=
  [array1 [1; 2; 5]; array1 [3; 4]; array1 [10; 20; 30]; array1 [30; 40];
   array1 [7]].

Definition sum_operand_x : _DistributedArray Z :=
  DistributedArray [4]
    [(0, [Chunk (Array 0 0 []) [Slice (Some 0) (Some 3) (Some 1)]
                [(DataTransfer (Array 0 4 []) None,
                  [Slice (Some 1) (Some 2) (Some 1)])]]);
     (1, [Chunk (Array 1 1 []) [Slice (Some 2) (Some 4) (Some 1)] []])]
    (Some sum_mode) [0; 1].

Definition sum_operand_y : _DistributedArray Z :=
  DistributedArray [4]
    [(0, [Chunk (Array 0 2 []) [Slice (Some 0) (Some 3) (Some 1)] []]);
     (1, [Chunk (Array 1 3 []) [Slice (Some 2) (Some 4) (Some 1)] []])]
    _REPLICA_MODE [0; 1].

(** ** A 4 x 4 array split by rows *)

(** The index map that gives rows [0:2] to device 0 and rows [2:4] to
    device 1. *)
Definition rows_index_map : dict idxs_arg :=
  [(0, IdxList [ITuple [ISlice (slice2 0 2); ISlice (slice2 0 4)]]);
   (1, IdxList [ITuple [ISlice (slice2 2 4); ISlice (slice2 0 4)]])].

(** An array of four rows of four integers. *)
Definition array_4x4 : ndarray Z :=
  array2 4 [[1; 2; 3; 4]; [5; 6; 7; 8]; [9; 10; 11; 12]; [13; 14; 15; 16]].

(** * Properties *)

(** ** The result monad *)

Lemma mapM_length {A B} (f : A -> result B) xs ys :
  mapM f xs = Ok ys -> length ys = length xs.
Proof.
  revert ys. induction xs as [|x xs IH]; intros ys; simpl.
  - intros [= <-]. reflexivity.
  - destruct (f x) as [y|]; simpl; [|discriminate].
    destruct (mapM f xs) as [ys'|]; simpl; [|discriminate].
    intros [= <-]. simpl. f_equal. apply IH. reflexivity.
Qed.

(** ** Euclid's loop *)

Lemma extgcd_loop_spec (a b : Z) (c d x u : Z) :
  0 <= c -> 0 <= d ->
  (exists y, c = a * x + b * y) ->
  (exists v, d = a * u + b * v) ->
  fst (extgcd_loop c d x u) = Z.gcd c d /\
  exists y, fst (extgcd_loop c d x u) = a * snd (extgcd_loop c d x u) + b * y.
Proof.
  funelim (extgcd_loop c d x u); intros Hc Hd [y Hy] [v Hv].
  - subst d. simpl. rewrite Z.gcd_0_r, Z.abs_eq by lia. split; [reflexivity|].
    exists y. exact Hy.
  - simpl.
    assert (Hmod : c - d * (c / d) = c mod d) by (rewrite Z.mod_eq by lia; lia).
    destruct (H a b) as [Hg Hbez].
    + lia.
    + rewrite Hmod. apply Z.mod_pos_bound. lia.
    + exists v. exact Hv.
    + exists (y - v * (c / d)). rewrite Hy at 1. rewrite Hv at 1. ring.
    + split.
      * rewrite Hg, Hmod. rewrite Z.gcd_comm, Z.gcd_mod by lia. apply Z.gcd_comm.
      * exact Hbez.
Qed.

Lemma _extgcd_spec (a b : Z) :
  0 < a -> 0 < b ->
  fst (_extgcd a b) = Z.gcd a b /\
  exists y, a * snd (_extgcd a b) + b * y = Z.gcd a b.
Proof.
  intros Ha Hb. unfold _extgcd.
  destruct (extgcd_loop_spec a b a b 1 0) as [Hg [y Hy]]; try lia.
  - exists 0. ring.
  - exists 1. ring.
  - split; [exact Hg|]. exists y. rewrite <- Hg. symmetry. exact Hy.
Qed.

(** ** Slices with a positive step *)

Lemma slice_indices_pos (s : slice) (length : Z) :
  pos_step s -> 0 <= length ->
  exists st sp,
    slice_indices s length = Ok (st, sp, step_of s) /\
    0 <= st <= length /\ 0 <= sp <= length.
Proof.
  unfold pos_step, step_of, slice_indices. intros Hs Hl.
  destruct (Z.ltb_spec length 0); [lia|].
  destruct (step s) as [k|]; simpl.
  - destruct (Z.eqb_spec k 0); [lia|].
    destruct (Z.ltb_spec k 0); [lia|].
    eexists _, _. split; [reflexivity|].
    destruct (start s) as [v|], (stop s) as [w|];
      repeat match goal with |- context [?x <? 0] => destruct (Z.ltb_spec x 0) end;
      lia.
  - eexists _, _. split; [reflexivity|].
    destruct (start s) as [v|], (stop s) as [w|];
      repeat match goal with |- context [?x <? 0] => destruct (Z.ltb_spec x 0) end;
      lia.
Qed.

Lemma slice_indices_normal (st sp stp length : Z) :
  0 <= st <= length -> 0 <= sp <= length -> 0 < stp ->
  slice_indices (Slice (Some st) (Some sp) (Some stp)) length = Ok (st, sp, stp).
Proof.
  intros Hst Hsp Hk. unfold slice_indices; simpl.
  destruct (Z.ltb_spec length 0); [lia|].
  destruct (Z.eqb_spec stp 0); [lia|].
  destruct (Z.ltb_spec stp 0); [lia|].
  destruct (Z.ltb_spec st 0); [lia|].
  destruct (Z.ltb_spec sp 0); [lia|].
  rewrite !Z.min_l by lia. reflexivity.
Qed.

Lemma range_mem_pos (st sp stp i : Z) :
  0 < stp ->
  range_mem st sp stp i = true <-> st <= i < sp /\ (stp | i - st).
Proof.
  intros Hk. unfold range_mem.
  destruct (Z.ltb_spec 0 stp); [|lia].
  rewrite !andb_true_iff, Z.leb_le, Z.ltb_lt, Z.eqb_eq.
  rewrite Z.mod_divide by lia. tauto.
Qed.

(** ** The aligned start of the intersection *)

Lemma gcd_pos (a b : Z) : 0 < a -> 0 < Z.gcd a b.
Proof.
  intros Ha. pose proof (Z.gcd_nonneg a b).
  assert (Z.gcd a b <> 0); [|lia].
  intros H0. apply Z.gcd_eq_0_l in H0. lia.
Qed.

Lemma pos_factor (p g : Z) : 0 < g -> 0 < p * g -> 0 < p.
Proof. intros Hg Hpg. destruct (Z.le_gt_cases p 0); [nia|lia]. Qed.

Lemma lcm_pos_eq (a b : Z) :
  0 < a -> 0 < b -> a / Z.gcd a b * b = Z.lcm a b.
Proof.
  intros Ha Hb. unfold Z.lcm.
  pose proof (gcd_pos a b Ha) as Hg.
  destruct (Z.gcd_divide_l a b) as [p Hp].
  destruct (Z.gcd_divide_r a b) as [q Hq].
  set (g := Z.gcd a b) in *.
  assert (Hap : a / g = p) by (rewrite Hp, Z.div_mul by lia; reflexivity).
  assert (Hbq : b / g = q) by (rewrite Hq, Z.div_mul by lia; reflexivity).
  rewrite Hap, Hbq.
  assert (0 < p) by (apply (pos_factor p g); lia).
  assert (0 < q) by (apply (pos_factor q g); lia).
  rewrite Z.abs_eq by nia. nia.
Qed.

Lemma aligned_start (a_start a_step b_start b_step x y : Z) :
  0 < a_step -> 0 < b_step ->
  a_step * x + b_step * y = Z.gcd a_step b_step ->
  (b_start - a_start) mod Z.gcd a_step b_step = 0 ->
  let g := Z.gcd a_step b_step in
  let c_step := a_step / g * b_step in
  let a_skip := (x * ((b_start - a_start) / g)) mod (c_step / a_step) in
  let c_start := a_start + a_step * a_skip in
  a_start <= c_start < a_start + c_step /\
  (a_step | c_start - a_start) /\ (b_step | c_start - b_start).
Proof.
  intros Ha Hb Hbez Hcong g c_step a_skip c_start.
  pose proof (gcd_pos a_step b_step Ha) as Hg.
  destruct (Z.gcd_divide_l a_step b_step) as [p Hp].
  destruct (Z.gcd_divide_r a_step b_step) as [q Hq].
  fold g in Hp, Hq, Hbez, Hcong, Hg.
  assert (Hpp : 0 < p) by (apply (pos_factor p g); lia).
  assert (Hqq : 0 < q) by (apply (pos_factor q g); lia).
  assert (Hcs : c_step = a_step * q).
  { unfold c_step. rewrite Hp at 1. rewrite Z.div_mul by lia. nia. }
  assert (Hn : c_step / a_step = q).
  { rewrite Hcs, Z.mul_comm, Z.div_mul by lia. reflexivity. }
  apply Z.mod_divide in Hcong; [|lia]. destruct Hcong as [d Hd].
  assert (Hdiv : (b_start - a_start) / g = d).
  { rewrite Hd, Z.div_mul by lia. reflexivity. }
  unfold c_start, a_skip. rewrite Hn, Hdiv.
  pose proof (Z.mod_pos_bound (x * d) q Hqq) as Hbound.
  pose proof (Z.div_mod (x * d) q ltac:(lia)) as Hdm.
  set (k := (x * d) mod q) in *. set (t := (x * d) / q) in *.
  split; [nia|]. split.
  - exists k. ring.
  - exists (- y * d - p * t).
    assert (a_step * k = a_step * (x * d) - a_step * q * t) by nia.
    assert (a_step * x = g - b_step * y) by lia.
    nia.
Qed.

(** ** _slice_intersection *)

Lemma floordiv_ok (a b : Z) : b <> 0 -> floordiv a b = Ok (a / b).
Proof. unfold floordiv. intros H. destruct (Z.eqb_spec b 0); [lia|reflexivity]. Qed.

Lemma pymod_ok (a b : Z) : b <> 0 -> pymod a b = Ok (a mod b).
Proof. unfold pymod. intros H. destruct (Z.eqb_spec b 0); [lia|reflexivity]. Qed.

(** What [_slice_intersection] returns, on the normalised bounds of its two
    arguments. *)
Definition intersection_spec
  (a_start a_stop a_step b_start b_stop b_step : Z) (r : option slice) : Prop :=
  match r with
  | None =>
      forall i, ~ (a_start <= i < a_stop /\ (a_step | i - a_start) /\
                   b_start <= i < b_stop /\ (b_step | i - b_start))
  | Some c =>
      exists c_start,
        c = Slice (Some c_start) (Some (Z.min a_stop b_stop))
                  (Some (Z.lcm a_step b_step)) /\
        c_start < Z.min a_stop b_stop /\
        a_start <= c_start /\ b_start <= c_start /\
        (a_step | c_start - a_start) /\ (b_step | c_start - b_start) /\
        forall i, a_start <= i -> b_start <= i ->
                  (a_step | i - a_start) -> (b_step | i - b_start) ->
                  c_start <= i
  end.

Lemma lcm_class_lower (L c i lo : Z) :
  0 < L -> (L | i - c) -> c - L < lo -> lo <= i -> c <= i.
Proof.
  intros HL [k Hk] Hc Hi. destruct (Z.le_gt_cases 0 k); nia.
Qed.

Lemma _slice_intersection_spec (a b : slice) (length : Z)
      (a_start a_stop a_step b_start b_stop b_step : Z) :
  slice_indices a length = Ok (a_start, a_stop, a_step) ->
  slice_indices b length = Ok (b_start, b_stop, b_step) ->
  0 < a_step -> 0 < b_step ->
  exists r,
    _slice_intersection a b length = Ok r /\
    intersection_spec a_start a_stop a_step b_start b_stop b_step r /\
    ((b_start - a_start) mod Z.gcd a_step b_step <> 0 -> r = None).
Proof.
  intros Ha Hb Hpa Hpb. unfold _slice_intersection.
  rewrite Ha, Hb. cbn [mbind result_bind].
  destruct (_extgcd_spec a_step b_step Hpa Hpb) as [Hg [y Hy]].
  destruct (_extgcd a_step b_step) as [g x]. simpl in Hg, Hy. subst g.
  pose proof (gcd_pos a_step b_step Hpa) as Hgpos.
  set (g := Z.gcd a_step b_step) in *.
  rewrite pymod_ok by lia. cbn [mbind result_bind].
  destruct (Z.eqb_spec ((b_start - a_start) mod g) 0) as [Hcong|Hcong]; cbn [negb].
  2:{ exists None. split; [reflexivity|]. split; [|reflexivity].
      intros i (_ & [p Hp] & _ & [q Hq]). apply Hcong.
      apply Z.mod_divide; [lia|].
      destruct (Z.gcd_divide_l a_step b_step) as [p' Hp'].
      destruct (Z.gcd_divide_r a_step b_step) as [q' Hq'].
      fold g in Hp', Hq'.
      exists (p * p' - q * q'). nia. }
  pose proof (lcm_pos_eq a_step b_step Hpa Hpb) as Hlcm. fold g in Hlcm.
  pose proof (aligned_start a_start a_step b_start b_step x y Hpa Hpb Hy Hcong)
    as Hal. cbv zeta in Hal. fold g in Hal. rewrite Hlcm in Hal.
  assert (HL : 0 < Z.lcm a_step b_step).
  { rewrite <- Hlcm. destruct (Z.gcd_divide_l a_step b_step) as [p Hp].
    fold g in Hp. assert (a_step / g = p) by (rewrite Hp, Z.div_mul by lia; reflexivity).
    assert (0 < p) by (apply (pos_factor p g); lia). nia. }
  rewrite (floordiv_ok a_step g) by lia. cbn [mbind result_bind]. rewrite Hlcm.
  set (L := Z.lcm a_step b_step) in *.
  rewrite (floordiv_ok (b_start - a_start) g) by lia. cbn [mbind result_bind].
  rewrite (floordiv_ok L a_step) by lia. cbn [mbind result_bind].
  rewrite pymod_ok.
  2:{ destruct (Z.divide_lcm_l a_step b_step) as [k Hk]. fold L in Hk.
      rewrite Hk, Z.div_mul by lia.
      assert (0 < k) by (apply (pos_factor k a_step); lia). lia. }
  cbn [mbind result_bind].
  set (c0 := a_start + a_step * ((x * ((b_start - a_start) / g)) mod (L / a_step))) in *.
  destruct Hal as (Hrange & Hda & Hdb).
  assert (HaL : (a_step | L)) by apply Z.divide_lcm_l.
  assert (HbL : (b_step | L)) by apply Z.divide_lcm_r.
  assert (Hcls : forall c i, (a_step | c - a_start) -> (b_step | c - b_start) ->
                 (a_step | i - a_start) -> (b_step | i - b_start) -> (L | i - c)).
  { intros c i H1 H2 H3 H4. apply Z.lcm_least.
    - replace (i - c) with ((i - a_start) - (c - a_start)) by ring.
      apply Z.divide_sub_r; assumption.
    - replace (i - c) with ((i - b_start) - (c - b_start)) by ring.
      apply Z.divide_sub_r; assumption. }
  assert (Hfin : forall c_start,
    a_start <= c_start -> b_start <= c_start ->
    (a_step | c_start - a_start) -> (b_step | c_start - b_start) ->
    (forall i, a_start <= i -> b_start <= i ->
       (a_step | i - a_start) -> (b_step | i - b_start) -> c_start <= i) ->
    exists r,
      (if c_start <? Z.min a_stop b_stop
       then Ok (Some (Slice (Some c_start) (Some (Z.min a_stop b_stop)) (Some L)))
       else Ok None) = Ok r /\
      intersection_spec a_start a_stop a_step b_start b_stop b_step r /\
      ((b_start - a_start) mod g <> 0 -> r = None)).
  { intros c_start H1 H2 H3 H4 H5.
    destruct (Z.ltb_spec c_start (Z.min a_stop b_stop)).
    - eexists. split; [reflexivity|]. split; [|intros; lia].
      exists c_start. repeat split; auto.
    - exists None. split; [reflexivity|]. split; [|reflexivity].
      intros i (Hi1 & Hi2 & Hi3 & Hi4).
      specialize (H5 i ltac:(lia) ltac:(lia) Hi2 Hi4). lia. }
  destruct (Z.ltb_spec c0 b_start) as [Hlt|Hge].
  - rewrite floordiv_ok by lia. cbn [mbind result_bind].
    pose proof (Z.div_mod (b_start - c0 - 1) L ltac:(lia)) as Hdm.
    pose proof (Z.mod_pos_bound (b_start - c0 - 1) L HL) as Hmb.
    set (k := (b_start - c0 - 1) / L) in *.
    assert (0 <= k) by (apply Z.div_pos; lia).
    assert (Hk1 : (L | (k + 1) * L)) by (exists (k + 1); ring).
    apply Hfin.
    + nia.
    + nia.
    + replace (c0 + (k + 1) * L - a_start) with ((c0 - a_start) + (k + 1) * L) by ring.
      apply Z.divide_add_r; [assumption|]. eapply Z.divide_trans; eassumption.
    + replace (c0 + (k + 1) * L - b_start) with ((c0 - b_start) + (k + 1) * L) by ring.
      apply Z.divide_add_r; [assumption|]. eapply Z.divide_trans; eassumption.
    + intros i Hi1 Hi2 Hi3 Hi4.
      apply (lcm_class_lower L _ i b_start HL); [|nia|lia].
      replace (i - (c0 + (k + 1) * L)) with ((i - c0) - (k + 1) * L) by ring.
      apply Z.divide_sub_r; [|assumption]. apply Hcls; assumption.
  - cbn [mbind result_bind]. apply Hfin; try assumption; try lia.
    intros i Hi1 Hi2 Hi3 Hi4.
    apply (lcm_class_lower L _ i a_start HL); [|lia|lia].
    apply Hcls; assumption.
Qed.

Lemma intersection_spec_mem (a_start a_stop a_step b_start b_stop b_step : Z)
      (length : Z) (r : option slice) :
  0 < a_step -> 0 < b_step ->
  0 <= a_start -> a_stop <= length -> 0 <= length ->
  intersection_spec a_start a_stop a_step b_start b_stop b_step r ->
  forall i,
    match r with
    | Some c => slice_mem c length i
    | None => false
    end = range_mem a_start a_stop a_step i && range_mem b_start b_stop b_step i.
Proof.
  intros Hpa Hpb Has Hae Hl Hspec i.
  apply eq_true_iff_eq.
  rewrite andb_true_iff, !range_mem_pos by assumption.
  destruct r as [c|]; simpl in Hspec.
  - destruct Hspec as (c_start & -> & Hlt & H1 & H2 & H3 & H4 & Hmin).
    assert (HL : 0 < Z.lcm a_step b_step).
    { rewrite <- lcm_pos_eq by assumption.
      pose proof (gcd_pos a_step b_step Hpa) as Hg.
      destruct (Z.gcd_divide_l a_step b_step) as [p Hp].
      assert (a_step / Z.gcd a_step b_step = p)
        by (rewrite Hp at 1; rewrite Z.div_mul by lia; reflexivity).
      assert (0 < p) by (apply (pos_factor p (Z.gcd a_step b_step)); lia). nia. }
    unfold slice_mem.
    rewrite slice_indices_normal by lia.
    rewrite range_mem_pos by assumption.
    split.
    + intros [Hr Hd].
      assert (Ha : (a_step | i - c_start))
        by (eapply Z.divide_trans; [apply Z.divide_lcm_l|exact Hd]).
      assert (Hb : (b_step | i - c_start))
        by (eapply Z.divide_trans; [apply Z.divide_lcm_r|exact Hd]).
      repeat split; try lia.
      * replace (i - a_start) with ((i - c_start) + (c_start - a_start)) by ring.
        apply Z.divide_add_r; assumption.
      * replace (i - b_start) with ((i - c_start) + (c_start - b_start)) by ring.
        apply Z.divide_add_r; assumption.
    + intros [[Hr1 Hd1] [Hr2 Hd2]].
      split; [split; [apply Hmin; (lia || assumption)|lia]|].
      apply Z.lcm_least.
      * replace (i - c_start) with ((i - a_start) - (c_start - a_start)) by ring.
        apply Z.divide_sub_r; assumption.
      * replace (i - c_start) with ((i - b_start) - (c_start - b_start)) by ring.
        apply Z.divide_sub_r; assumption.
  - split; [discriminate|]. intros [[Hr1 Hd1] [Hr2 Hd2]].
    exfalso. apply (Hspec i). tauto.
Qed.

(** C5. For slices [a] and [b] with positive steps over an axis of size
    [length], [_slice_intersection a b length] returns without raising; the
    returned slice selects exactly the positions that both [a] and [b]
    select (and [None] is returned exactly when there is none); its step is
    [lcm(step_a, step_b)]; and [None] is returned whenever the two
    normalised starts are incongruent modulo [gcd(step_a, step_b)]. *)
Theorem C5_slice_intersection_correct (a b : slice) (length : Z) :
  pos_step a -> pos_step b -> 0 <= length ->
  exists r,
    _slice_intersection a b length = Ok r /\
    (forall i,
       match r with
       | Some c => slice_mem c length i
       | None => false
       end = slice_mem a length i && slice_mem b length i) /\
    (forall c, r = Some c -> step c = Some (Z.lcm (step_of a) (step_of b))) /\
    (forall a_start a_stop a_step b_start b_stop b_step,
       slice_indices a length = Ok (a_start, a_stop, a_step) ->
       slice_indices b length = Ok (b_start, b_stop, b_step) ->
       (b_start - a_start) mod Z.gcd a_step b_step <> 0 -> r = None).
Proof.
  intros Hpa Hpb Hl.
  destruct (slice_indices_pos a length Hpa Hl) as (a_start & a_stop & Ha & Hab1 & Hab2).
  destruct (slice_indices_pos b length Hpb Hl) as (b_start & b_stop & Hb & Hbb1 & Hbb2).
  destruct (_slice_intersection_spec a b length _ _ _ _ _ _ Ha Hb Hpa Hpb)
    as (r & Hr & Hspec & Hinc).
  exists r. split; [exact Hr|]. split; [|split].
  - intros i. unfold slice_mem at 2 3. rewrite Ha, Hb.
    apply intersection_spec_mem; (assumption || lia).
  - intros c ->. simpl in Hspec. destruct Hspec as (c_start & -> & _). reflexivity.
  - intros ? ? ? ? ? ? Ha' Hb'. rewrite Ha in Ha'. rewrite Hb in Hb'.
    injection Ha' as <- <- <-. injection Hb' as <- <- <-. exact Hinc.
Qed.

Lemma C5_slice_intersection_correct_witness :
  pos_step (Slice (Some 1) None (Some 4)) /\
  pos_step (Slice (Some 3) (Some 20) (Some 6)) /\
  exists r,
    _slice_intersection (Slice (Some 1) None (Some 4))
                        (Slice (Some 3) (Some 20) (Some 6)) 20 = Ok r /\
    (forall i,
       match r with
       | Some c => slice_mem c 20 i
       | None => false
       end = slice_mem (Slice (Some 1) None (Some 4)) 20 i &&
             slice_mem (Slice (Some 3) (Some 20) (Some 6)) 20 i) /\
    (forall c, r = Some c -> step c = Some (Z.lcm 4 6)).
Proof.
  split; [reflexivity|]. split; [reflexivity|].
  destruct (C5_slice_intersection_correct
              (Slice (Some 1) None (Some 4))
              (Slice (Some 3) (Some 20) (Some 6)) 20)
    as (r & Hr & Hmem & Hstep & _); [reflexivity|reflexivity|lia|].
  exists r. split; [exact Hr|]. split; [exact Hmem|exact Hstep].
Defined.

(** ** Symmetry of the intersection *)

Lemma intersection_spec_unique
      (a_start a_stop a_step b_start b_stop b_step : Z) (r1 r2 : option slice) :
  intersection_spec a_start a_stop a_step b_start b_stop b_step r1 ->
  intersection_spec b_start b_stop b_step a_start a_stop a_step r2 ->
  r1 = r2.
Proof.
  destruct r1 as [c1|], r2 as [c2|]; simpl.
  - intros (s1 & -> & Hlt1 & A1 & B1 & C1 & D1 & M1)
           (s2 & -> & Hlt2 & A2 & B2 & C2 & D2 & M2).
    assert (s1 = s2).
    { specialize (M1 s2 ltac:(lia) ltac:(lia) D2 C2).
      specialize (M2 s1 ltac:(lia) ltac:(lia) D1 C1). lia. }
    subst s2. rewrite (Z.min_comm b_stop), (Z.lcm_comm b_step). reflexivity.
  - intros (s1 & -> & Hlt1 & A1 & B1 & C1 & D1 & M1) Hnone.
    exfalso. apply (Hnone s1). repeat split; (lia || assumption).
  - intros Hnone (s2 & -> & Hlt2 & A2 & B2 & C2 & D2 & M2).
    exfalso. apply (Hnone s2). repeat split; (lia || assumption).
  - reflexivity.
Qed.

Lemma _slice_intersection_comm (a b : slice) (length : Z) :
  pos_step a -> pos_step b -> 0 <= length ->
  _slice_intersection a b length = _slice_intersection b a length.
Proof.
  intros Hpa Hpb Hl.
  destruct (slice_indices_pos a length Hpa Hl) as (a_start & a_stop & Ha & _).
  destruct (slice_indices_pos b length Hpb Hl) as (b_start & b_stop & Hb & _).
  destruct (_slice_intersection_spec a b length _ _ _ _ _ _ Ha Hb Hpa Hpb)
    as (r1 & Hr1 & Hspec1 & _).
  destruct (_slice_intersection_spec b a length _ _ _ _ _ _ Hb Ha Hpb Hpa)
    as (r2 & Hr2 & Hspec2 & _).
  rewrite Hr1, Hr2. f_equal. eapply intersection_spec_unique; eassumption.
Qed.

Lemma mapM_zip3_comm (a_idx b_idx : index) (shape : list Z) :
  Forall pos_step a_idx -> Forall pos_step b_idx -> Forall (fun n => 0 <= n) shape ->
  mapM (fun '(a, b, length) => _slice_intersection a b length)
       (zip3 a_idx b_idx shape) =
  mapM (fun '(a, b, length) => _slice_intersection a b length)
       (zip3 b_idx a_idx shape).
Proof.
  intros Ha. revert b_idx shape.
  induction Ha as [|a a_idx Hpa Ha IH]; intros b_idx shape Hb Hs.
  - destruct b_idx as [|b b_idx]; [reflexivity|].
    destruct shape; reflexivity.
  - destruct Hb as [|b b_idx Hpb Hb]; [destruct shape; reflexivity|].
    destruct Hs as [|n shape Hn Hs]; [reflexivity|].
    simpl. rewrite (_slice_intersection_comm a b n) by assumption.
    rewrite (IH b_idx shape) by assumption. reflexivity.
Qed.

(** C7. For index tuples of positive-step slices over a shape,
    [_index_intersection] returns the same value whichever way round its
    two index arguments are given: the same exception, the same emptiness
    ([None]), and otherwise the very same tuple of slices, hence the same
    set of positions. *)
Theorem C7_index_intersection_symmetric (a_idx b_idx : index) (shape : list Z) :
  Forall pos_step a_idx -> Forall pos_step b_idx ->
  Forall (fun n => 0 <= n) shape ->
  _index_intersection a_idx b_idx shape = _index_intersection b_idx a_idx shape.
Proof.
  intros Ha Hb Hs. unfold _index_intersection.
  assert (Hc : (len a_idx =? len b_idx) && (len b_idx =? len shape) =
               (len b_idx =? len a_idx) && (len a_idx =? len shape)).
  { apply eq_true_iff_eq. rewrite !andb_true_iff, !Z.eqb_eq. lia. }
  rewrite Hc, (mapM_zip3_comm a_idx b_idx shape) by assumption. reflexivity.
Qed.

Lemma C7_index_intersection_symmetric_witness :
  _index_intersection
    [Slice (Some 1) None (Some 4); Slice None (Some 3) None]
    [Slice (Some 3) (Some 20) (Some 6); Slice (Some 1) None (Some 2)] [20; 5] =
  _index_intersection
    [Slice (Some 3) (Some 20) (Some 6); Slice (Some 1) None (Some 2)]
    [Slice (Some 1) None (Some 4); Slice None (Some 3) None] [20; 5].
Proof.
  apply C7_index_intersection_symmetric;
    repeat constructor; try reflexivity; lia.
Defined.

(** ** Validation of chunk indices *)

Lemma convert_axis_rejects (length : Z) (s : slice) :
  (step s = Some 0 \/ (exists k, step s = Some k /\ k < 0) \/
   (exists st stp, slice_indices s length = Ok (st, st, stp))) ->
  exists e, convert_axis length (ISlice s) = Raise e.
Proof.
  intros [H0 | [[k [Hk Hneg]] | [st [stp Hs]]]]; simpl.
  - unfold slice_indices. rewrite H0. simpl.
    destruct (length <? 0); eexists; reflexivity.
  - unfold slice_indices. rewrite Hk.
    destruct (length <? 0); [eexists; reflexivity|].
    destruct (Z.eqb_spec k 0); [lia|].
    cbn [mbind result_bind].
    destruct (Z.eqb_spec k 0); [lia|].
    destruct (Z.ltb_spec k 0); [|lia]. eexists; reflexivity.
  - rewrite Hs. cbn [mbind result_bind].
    destruct (stp =? 0); [eexists; reflexivity|].
    destruct (stp <? 0); [eexists; reflexivity|].
    rewrite Z.eqb_refl. eexists; reflexivity.
Qed.

Lemma convert_axis_rejects_large_int (length i : Z) :
  length <= i -> convert_axis length (IInt i) = Raise IndexError.
Proof.
  intros H. simpl. destruct (Z.leb_spec length i); [reflexivity|lia].
Qed.

(** C8. [_convert_chunk_idx_to_slices] lets malformed indices through: on
    an axis of size 4, the out-of-range integer [-5] comes back as
    [slice(-5, -4)], the integer [-1] as [slice(-1, 0)], which selects
    nothing, and the slice [3:1], whose range is empty, as [slice(3, 1, 1)].
    None raises, and the first two are not nonnegative. *)
Theorem C8_convert_chunk_idx_accepts_malformed :
  _convert_chunk_idx_to_slices [4] (ISingle (IInt (-5))) =
    Ok [Slice (Some (-5)) (Some (-4)) None] /\
  _convert_chunk_idx_to_slices [4] (ISingle (IInt (-1))) =
    Ok [Slice (Some (-1)) (Some 0) None] /\
  (forall i, slice_mem (Slice (Some (-1)) (Some 0) None) 4 i = false) /\
  _convert_chunk_idx_to_slices [4] (ISingle (ISlice (slice2 3 1))) =
    Ok [Slice (Some 3) (Some 1) (Some 1)] /\
  (forall i, slice_mem (slice2 3 1) 4 i = false).
Proof.
  repeat split; try reflexivity.
  - intros i. unfold slice_mem, range_mem; simpl.
    destruct (Z.leb_spec 3 i), (Z.ltb_spec i 0); simpl; try reflexivity; lia.
  - intros i. unfold slice_mem, range_mem; simpl.
    destruct (Z.leb_spec 3 i), (Z.ltb_spec i 1); simpl; try reflexivity; lia.
Qed.

(** ** The reduction override *)

(** C9. When [out] is given or [keepdims] is true,
    [__cupy_override_reduction_kernel__] raises [RuntimeError] whatever the
    array, the kernel, the axis and the memory are, and leaves the memory as
    it was: no buffer has been allocated or written and no kernel has
    run. *)
Theorem C9_reduction_rejects_out_and_keepdims
        {V : Type} `{!Dtype V} `{!Runtime V}
        (self : _DistributedArray V) (kernel : reduction_kernel) (axis : Z)
        (out : option array) (keepdims : bool) (σ : store V) :
  out <> None \/ keepdims = true ->
  __cupy_override_reduction_kernel__ self kernel axis out keepdims σ =
    (Raise RuntimeError, σ).
Proof.
  intros H. unfold __cupy_override_reduction_kernel__.
  destruct out as [o|]; [reflexivity|].
  destruct H as [H|H]; [congruence|]. rewrite H. reflexivity.
Qed.

Lemma C9_reduction_rejects_out_and_keepdims_witness :
  (@None array <> None \/ true = true) /\
  __cupy_override_reduction_kernel__
    (DistributedArray [2] [] _REPLICA_MODE [0])
    (ReductionKernel "cupy_sum") 0 None true [array1 [1; 2]] =
    (Raise RuntimeError, [array1 [1; 2]]).
Proof.
  split; [right; reflexivity|].
  apply C9_reduction_rejects_out_and_keepdims. right; reflexivity.
Defined.

(** ** Operands of a kernel call *)

(** C6. A keyword operand is not converted to replica mode: the sum-mode
    array stays in its op mode in the list of operands, and the kernel runs
    on the chunks as they are.  On the sum-mode array that stands for
    [[1, 2]] with chunks [[1, 2]] and [[0, 0]], the positional call gives
    [[1, 2]] and the keyword call gives [[0, 0]]. *)
Theorem C6_keyword_operand_not_converted :
  (collected_keyword_modes []).1 = Ok [(KStr "x", true)] /\
  (kernel_on_sum_array false []).1 = Ok [1; 2] /\
  (kernel_on_sum_array true []).1 = Ok [0; 0].
Proof. repeat split; vm_compute; reflexivity. Qed.

(** ** Running computations on the store *)

Section StoreFacts.

Context {V : Type} `{!Dtype V} `{!Runtime V}.

Lemma bind_run {A B} (m : M V A) (k : A -> M V B) (σ σ' : store V) (a : A) :
  m σ = (Ok a, σ') -> (m ≫= k) σ = k a σ'.
Proof. intros H. unfold mbind, M_bind. rewrite H. reflexivity. Qed.

Lemma bind_raise {A B} (m : M V A) (k : A -> M V B) (σ σ' : store V) (e : exn) :
  m σ = (Raise e, σ') -> (m ≫= k) σ = (Raise e, σ').
Proof. intros H. unfold mbind, M_bind. rewrite H. reflexivity. Qed.

(** *** Computations that leave the first [n] buffers alone *)

Definition keeps (n : nat) {A} (m : M V A) : Prop :=
  forall σ : store V,
    (n <= length σ)%nat ->
    (n <= length (m σ).2)%nat /\
    forall i, (i < n)%nat -> (m σ).2 !! i = σ !! i.

Lemma keeps_ret n {A} (a : A) : keeps n (mret a).
Proof. intros σ Hn. split; [exact Hn|reflexivity]. Qed.

Lemma keeps_lift n {A} (r : result A) : keeps n (lift r).
Proof. intros σ Hn. split; [exact Hn|reflexivity]. Qed.

Lemma keeps_raise n {A} (e : exn) : keeps n (raise (A := A) e).
Proof. intros σ Hn. split; [exact Hn|reflexivity]. Qed.

Lemma keeps_bind n {A B} (m : M V A) (k : A -> M V B) :
  keeps n m -> (forall a, keeps n (k a)) -> keeps n (m ≫= k).
Proof.
  intros Hm Hk σ Hn. destruct (Hm σ Hn) as [Hlen Hsame].
  unfold mbind, M_bind. destruct (m σ) as [[a|e] σ1]; simpl in *.
  - destruct (Hk a σ1 Hlen) as [Hlen' Hsame'].
    split; [exact Hlen'|]. intros i Hi. rewrite Hsame', Hsame; auto.
  - split; assumption.
Qed.

Lemma keeps_forM n {A B} (f : A -> M V B) (l : list A) :
  (forall x, keeps n (f x)) -> keeps n (forM f l).
Proof.
  intros Hf. induction l as [|x l IH]; simpl.
  - apply keeps_ret.
  - apply keeps_bind; [apply Hf|]. intros y.
    apply keeps_bind; [exact IH|]. intros ys. apply keeps_ret.
Qed.

Lemma keeps_foldM n {A S} (f : S -> A -> M V S) (l : list A) (s : S) :
  (forall s x, keeps n (f s x)) -> keeps n (foldM f s l).
Proof.
  intros Hf. revert s. induction l as [|x l IH]; intros s; simpl.
  - apply keeps_ret.
  - apply keeps_bind; [apply Hf|]. intros s'. apply IH.
Qed.

Lemma keeps_alloc n dev (a : ndarray V) : keeps n (alloc dev a).
Proof.
  intros σ Hn. unfold alloc; simpl. split.
  - rewrite length_app. lia.
  - intros i Hi. apply lookup_app_l. lia.
Qed.

Lemma keeps_load n (r : array) : keeps n (load r).
Proof.
  intros σ Hn. unfold load. destruct (σ !! arr_buf r); simpl; auto.
Qed.

Lemma keeps_subscript n (r : array) (idx : index) : keeps n (subscript r idx).
Proof.
  unfold subscript. apply keeps_bind; [apply keeps_load|]. intros a.
  apply keeps_bind; [apply keeps_lift|]. intros _. apply keeps_ret.
Qed.

Lemma keeps_copy_to n dev (r : array) : keeps n (copy_to dev r).
Proof.
  unfold copy_to. apply keeps_bind; [apply keeps_load|]. intros a.
  apply keeps_alloc.
Qed.

Lemma keeps_assign n (r : array) (idx : index) (v : ndarray V) :
  (n <= arr_buf r)%nat -> keeps n (assign r idx v).
Proof.
  intros Hr σ Hn. unfold assign.
  destruct (σ !! arr_buf r) as [a|]; cbn [fst snd]; [|auto].
  destruct (update_through a (arr_view r) _) as [a'|e]; cbn [fst snd]; [|auto].
  split.
  - rewrite length_insert. exact Hn.
  - intros i Hi. apply list_lookup_insert_ne. lia.
Qed.

End StoreFacts.

(** ** distributed_array and the caller's array *)

Section CallerArray.

Context {V : Type} `{!Dtype V} `{!Runtime V}.

Lemma replica_is_the_only_name (mode : string) (op : _OpMode V) :
  str_find _MODES mode = Some (Some op) -> String.eqb mode "replica" = false.
Proof.
  unfold _MODES. cbn [str_find].
  destruct (String.eqb_spec "replica" mode) as [<-|Hne]; [discriminate|].
  intros _. destruct (String.eqb_spec mode "replica"); congruence.
Qed.

(** The loop of [distributed_array] that builds the chunks keeps every
    buffer below [n], when [array] itself is not below [n] or is never
    written. *)
Lemma keeps_make_chunks (n : nat) (arr : array) (mode_obj : _Mode V)
      (new_index_map : dict (list index)) :
  (mode_obj = None \/ (n <= arr_buf arr)%nat) ->
  keeps n (make_chunks arr mode_obj new_index_map).
Proof.
  intros Hw. apply keeps_foldM. intros chunks_map [dev idxs].
  apply keeps_bind; [|intros; apply keeps_ret].
  apply keeps_forM. intros idx. unfold make_chunk.
  apply keeps_bind; [apply keeps_subscript|]. intros part.
  apply keeps_bind; [apply keeps_copy_to|]. intros data.
  apply keeps_bind; [|intros; apply keeps_ret].
  destruct mode_obj as [op|]; [|apply keeps_ret].
  destruct (idempotent op); cbn [negb]; [apply keeps_ret|].
  apply keeps_assign. destruct Hw as [Hw|Hw]; [discriminate|exact Hw].
Qed.

(** C10. [distributed_array] leaves every buffer that exists when it is
    called as it is, the caller's array among them, in every mode and
    whether it returns or raises: what it writes in a non-idempotent mode
    goes to the copy it made, a new buffer. *)
Theorem C10_distributed_array_keeps_input
        (arr : array_like V) (index_map : dict idxs_arg) (mode : string)
        (comms : option (list Z)) (σ : store V) :
  take (length σ) (distributed_array arr index_map mode comms σ).2 = σ.
Proof.
  assert (Hk : forall (m : M V (_DistributedArray V)),
             keeps (length σ) m -> take (length σ) (m σ).2 = σ).
  { intros m Hm. destruct (Hm σ (le_n _)) as [Hlen Hsame].
    apply list_eq. intros i. destruct (decide (i < length σ)%nat) as [Hi|Hi].
    - rewrite lookup_take_lt by exact Hi. apply Hsame. exact Hi.
    - rewrite lookup_take_ge by lia. symmetry. apply lookup_ge_None. lia. }
  unfold distributed_array.
  destruct (str_find _MODES mode) as [mode_obj|] eqn:Hmode;
    [|apply Hk, keeps_raise].
  set (rest := fun a : array => _).
  assert (Hrest : forall a, (mode_obj = None \/ (length σ <= arr_buf a)%nat) ->
                            keeps (length σ) (rest a)).
  { intros a Ha. unfold rest.
    apply keeps_bind; [apply keeps_load|]. intros x.
    apply keeps_bind; [apply keeps_lift|]. intros new_index_map.
    apply keeps_bind; [apply keeps_make_chunks; exact Ha|]. intros chunks_map.
    apply keeps_lift. }
  assert (Hfresh : forall (m : M V array),
             (forall σ1 a σ2, m σ1 = (Ok a, σ2) -> (length σ1 <= arr_buf a)%nat) ->
             keeps (length σ) m ->
             take (length σ) ((m ≫= rest) σ).2 = σ).
  { intros m Hbuf Hm. destruct (Hm σ (le_n _)) as [Hlen Hsame].
    assert (Hpre : forall i, (i < length σ)%nat -> ((m ≫= rest) σ).2 !! i = σ !! i).
    { intros i Hi. unfold mbind, M_bind.
      destruct (m σ) as [[a|e] σ1] eqn:Hrun; cbn [fst snd] in *.
      - destruct (Hrest a (or_intror (Hbuf _ _ _ Hrun)) σ1 Hlen) as [_ Hsame'].
        rewrite Hsame', Hsame; auto.
      - apply Hsame. exact Hi. }
    assert (Hl : (length σ <= length ((m ≫= rest) σ).2)%nat).
    { unfold mbind, M_bind.
      destruct (m σ) as [[a|e] σ1] eqn:Hrun; cbn [fst snd] in *; [|exact Hlen].
      apply (Hrest a (or_intror (Hbuf _ _ _ Hrun)) σ1 Hlen). }
    apply list_eq. intros i. destruct (decide (i < length σ)%nat) as [Hi|Hi].
    - rewrite lookup_take_lt by exact Hi. apply Hpre. exact Hi.
    - rewrite lookup_take_ge by lia. symmetry. apply lookup_ge_None. lia. }
  assert (Halloc : forall dev (v : ndarray V) (σ1 : store V) a σ2,
             alloc dev v σ1 = (Ok a, σ2) -> (length σ1 <= arr_buf a)%nat).
  { intros dev v σ1 a σ2 [= <- _]. simpl. lia. }
  assert (Hcopy : forall dev (r : array) (σ1 : store V) a σ2,
             copy_to dev r σ1 = (Ok a, σ2) -> (length σ1 <= arr_buf a)%nat).
  { intros dev r σ1 a σ2. unfold copy_to, mbind, M_bind, load.
    destruct (σ1 !! arr_buf r) as [x|]; [|discriminate].
    destruct (through x (arr_view r)) as [y|]; [|discriminate].
    apply Halloc. }
  destruct mode_obj as [op|].
  - pose proof (replica_is_the_only_name mode op Hmode) as Hname.
    rewrite Hname. cbn [negb].
    destruct arr as [a|a|v].
    + apply Hfresh; [apply Hcopy|apply keeps_copy_to].
    + apply Hfresh; [apply Hcopy|apply keeps_copy_to].
    + apply Hfresh; [apply Halloc|apply keeps_alloc].
  - apply Hk. apply keeps_bind.
    + destruct arr as [a|a|v]; try apply keeps_alloc;
        destruct (negb _); (apply keeps_copy_to || apply keeps_ret).
    + intros a. apply Hrest. left. reflexivity.
Qed.

End CallerArray.

(** ** Indexing and assignment on arrays *)

Section ArrayFacts.

Context {V : Type}.

Implicit Types a v : ndarray V.

Lemma nd_eq_refl a : nd_eq a a.
Proof. split; reflexivity. Qed.

Lemma nd_eq_sym a b : nd_eq a b -> nd_eq b a.
Proof.
  intros [Hs Hi]. split; [symmetry; exact Hs|].
  intros c Hc. symmetry. apply Hi. rewrite Hs. exact Hc.
Qed.

Lemma nd_eq_trans a b c : nd_eq a b -> nd_eq b c -> nd_eq a c.
Proof.
  intros [Hs1 Hi1] [Hs2 Hi2]. split; [congruence|].
  intros k Hk. rewrite Hi1 by exact Hk. apply Hi2. rewrite <- Hs1. exact Hk.
Qed.

Lemma range_len_nonneg st sp stp : 0 < stp -> 0 <= range_len st sp stp.
Proof.
  intros H. unfold range_len. destruct (Z.ltb_spec 0 stp); [|lia].
  destruct (Z.ltb_spec st sp); [|lia].
  pose proof (Z.div_pos (sp - st - 1) stp ltac:(lia) ltac:(lia)). lia.
Qed.

Lemma in_bounds_length shape c :
  in_bounds shape c = true -> length c = length shape.
Proof.
  revert c. induction shape as [|n shape IH]; intros [|i c]; simpl;
    try discriminate; [reflexivity|].
  rewrite !andb_true_iff. intros [_ H]. f_equal. apply IH, H.
Qed.

Lemma in_axes_length axes c :
  in_axes axes c = true -> length c = length axes.
Proof.
  revert c. induction axes as [|[[st sp] stp] axes IH]; intros [|i c]; simpl;
    try discriminate; [reflexivity|].
  rewrite andb_true_iff. intros [_ H]. f_equal. apply IH, H.
Qed.

(** A selected coordinate is the base coordinate of its local one, and
    its local coordinate is within the shape of the selection. *)
Lemma to_base_to_local axes c :
  Forall (fun t => 0 < t.2) axes ->
  in_axes axes c = true -> to_base axes (to_local axes c) = c.
Proof.
  intros Hpos. revert c.
  induction Hpos as [|[[st sp] stp] axes Hstp Hpos IH]; intros [|i c]; simpl;
    try discriminate; [reflexivity|].
  simpl in Hstp. rewrite andb_true_iff. intros [Hm Hc].
  apply range_mem_pos in Hm; [|exact Hstp]. destruct Hm as [Hr [k Hk]].
  rewrite Hk, Z.div_mul by lia. f_equal; [lia|]. apply IH, Hc.
Qed.

Lemma to_local_in_bounds axes c :
  Forall (fun t => 0 < t.2) axes ->
  in_axes axes c = true -> in_bounds (view_shape axes) (to_local axes c) = true.
Proof.
  intros Hpos. revert c.
  induction Hpos as [|[[st sp] stp] axes Hstp Hpos IH]; intros [|i c]; simpl;
    try discriminate; [reflexivity|].
  simpl in Hstp. rewrite andb_true_iff. intros [Hm Hc].
  apply range_mem_pos in Hm; [|exact Hstp]. destruct Hm as [Hr [k Hk]].
  rewrite IH by exact Hc. rewrite andb_true_r.
  rewrite Hk, Z.div_mul by lia.
  unfold range_len. destruct (Z.ltb_spec 0 stp); [|lia].
  destruct (Z.ltb_spec st sp); [|lia].
  apply andb_true_iff. split.
  - apply Z.leb_le. nia.
  - apply Z.ltb_lt.
    assert (k <= (sp - st - 1) / stp); [|lia].
    apply Z.div_le_lower_bound; [lia|]. nia.
Qed.

(** A local coordinate within the selection is selected, and is the local
    coordinate of its base coordinate. *)
Lemma in_axes_to_base axes c :
  Forall (fun t => 0 < t.2) axes ->
  in_bounds (view_shape axes) c = true ->
  in_axes axes (to_base axes c) = true /\ to_local axes (to_base axes c) = c.
Proof.
  intros Hpos. revert c.
  induction Hpos as [|[[st sp] stp] axes Hstp Hpos IH]; intros [|k c]; simpl;
    try discriminate; [split; reflexivity|].
  simpl in Hstp. rewrite !andb_true_iff, Z.leb_le, Z.ltb_lt.
  intros [[Hk0 Hk1] Hc]. destruct (IH c Hc) as [IH1 IH2].
  rewrite IH2.
  replace (st + k * stp - st) with (k * stp) by ring.
  rewrite Z.div_mul by lia. split; [split; [|exact IH1]|reflexivity].
  apply range_mem_pos; [exact Hstp|]. split; [|exists k; ring].
  unfold range_len in Hk1. destruct (Z.ltb_spec 0 stp); [|lia].
  destruct (Z.ltb_spec st sp); [|lia].
  assert (k <= (sp - st - 1) / stp) by lia.
  assert (stp * ((sp - st - 1) / stp) <= sp - st - 1)
    by (apply Z.mul_div_le; lia).
  nia.
Qed.

(** *** Broadcasting a shape to itself *)

Lemma broadcastable_rev_refl s : broadcastable_rev s s = true.
Proof.
  induction s as [|n s IH]; simpl; [reflexivity|].
  rewrite Z.eqb_refl, orb_true_r. exact IH.
Qed.

Lemma broadcastable_refl s : broadcastable s s = true.
Proof. apply broadcastable_rev_refl. Qed.

Lemma broadcastable_scalar s : broadcastable [] s = true.
Proof. reflexivity. Qed.

Lemma in_bounds_app s1 s2 c1 c2 :
  length s1 = length c1 ->
  in_bounds (s1 ++ s2) (c1 ++ c2) = in_bounds s1 c1 && in_bounds s2 c2.
Proof.
  revert c1. induction s1 as [|n s1 IH]; intros [|i c1]; simpl;
    try discriminate; [reflexivity|].
  intros [= Hl]. rewrite IH by exact Hl. rewrite andb_assoc. reflexivity.
Qed.

Lemma in_bounds_rev s c : in_bounds (rev s) (rev c) = in_bounds s c.
Proof.
  destruct (decide (length s = length c)) as [Hl|Hl].
  - revert c Hl. induction s as [|n s IH]; intros [|i c]; simpl;
      try discriminate; [reflexivity|].
    intros [= Hl]. rewrite in_bounds_app by (rewrite !length_rev; exact Hl).
    rewrite IH by exact Hl. simpl. rewrite andb_true_r. apply andb_comm.
  - transitivity false.
    + destruct (in_bounds (rev s) (rev c)) eqn:H; [|reflexivity].
      apply in_bounds_length in H. rewrite !length_rev in H. congruence.
    + destruct (in_bounds s c) eqn:H; [|reflexivity].
      apply in_bounds_length in H. congruence.
Qed.

Lemma bcast_rev_id s c : in_bounds s c = true -> bcast_rev s c = c.
Proof.
  revert c. induction s as [|n s IH]; intros [|i c]; simpl;
    try discriminate; [reflexivity|].
  rewrite !andb_true_iff, Z.leb_le, Z.ltb_lt. intros [[H0 H1] Hc].
  rewrite IH by exact Hc. destruct (Z.eqb_spec n 1); f_equal; lia.
Qed.

Lemma bcast_id s c : in_bounds s c = true -> bcast s c = c.
Proof.
  intros H. unfold bcast. rewrite bcast_rev_id.
  - apply rev_involutive.
  - rewrite in_bounds_rev. exact H.
Qed.

Lemma bcast_scalar c : bcast [] c = [].
Proof. reflexivity. Qed.

(** *** getitem and setitem *)

Lemma getitem_ok a idx axes :
  axes_of (nd_shape a) idx = Ok axes ->
  getitem a idx =
    Ok (NDArray (view_shape axes) (fun c => nd_item a (to_base axes c))).
Proof. intros H. unfold getitem. rewrite H. reflexivity. Qed.

Lemma setitem_ok a idx v axes :
  axes_of (nd_shape a) idx = Ok axes ->
  broadcastable (nd_shape v) (view_shape axes) = true ->
  setitem a idx v =
    Ok (NDArray (nd_shape a)
          (fun c => if in_axes axes c
                    then nd_item v (bcast (nd_shape v) (to_local axes c))
                    else nd_item a c)).
Proof. intros H Hb. unfold setitem. rewrite H. cbn. rewrite Hb. reflexivity. Qed.

(** Assigning a value of the shape of the selection: the selected
    coordinates take the value's elements, the others keep theirs. *)
Lemma setitem_same_shape a idx v axes :
  axes_of (nd_shape a) idx = Ok axes ->
  Forall (fun t => 0 < t.2) axes ->
  nd_shape v = view_shape axes ->
  exists a',
    setitem a idx v = Ok a' /\
    nd_shape a' = nd_shape a /\
    forall c, nd_item a' c =
              if in_axes axes c then nd_item v (to_local axes c)
              else nd_item a c.
Proof.
  intros Hax Hpos Hv. eexists. split.
  - apply setitem_ok; [exact Hax|]. rewrite Hv. apply broadcastable_refl.
  - split; [reflexivity|]. intros c. simpl.
    destruct (in_axes axes c) eqn:Hin; [|reflexivity].
    rewrite bcast_id; [reflexivity|]. rewrite Hv.
    apply to_local_in_bounds; assumption.
Qed.

Lemma setitem_scalar_ok a idx (x : V) axes :
  axes_of (nd_shape a) idx = Ok axes ->
  setitem a idx (scalar x) =
    Ok (NDArray (nd_shape a)
          (fun c => if in_axes axes c then x else nd_item a c)).
Proof.
  intros Hax. rewrite (setitem_ok a idx (scalar x) axes Hax); reflexivity.
Qed.

End ArrayFacts.

(** ** _index_for_subslice *)

(** For a slice [a] and a normalised slice [(c_start, c_stop, c_step)]
    contained in it, [_index_for_subslice] gives the slice of [array[a]]
    that selects the same elements: as many of them, at the same
    positions of [array]. *)
Lemma _index_for_subslice_spec (a : slice) (n : Z)
      (a_start a_stop a_step c_start c_stop c_step : Z) :
  slice_indices a n = Ok (a_start, a_stop, a_step) ->
  0 < a_step -> 0 < c_step ->
  0 <= a_start -> a_start <= c_start -> c_start < c_stop ->
  c_stop <= a_stop -> a_stop <= n ->
  (a_step | c_start - a_start) -> (a_step | c_step) ->
  exists l_start l_stop l_step,
    _index_for_subslice a (Slice (Some c_start) (Some c_stop) (Some c_step)) n =
      Ok (Slice (Some l_start) (Some l_stop) (Some l_step)) /\
    slice_indices (Slice (Some l_start) (Some l_stop) (Some l_step))
                  (range_len a_start a_stop a_step) =
      Ok (l_start, l_stop, l_step) /\
    0 < l_step /\
    range_len l_start l_stop l_step = range_len c_start c_stop c_step /\
    forall k, a_start + (l_start + k * l_step) * a_step = c_start + k * c_step.
Proof.
  intros Ha Hpa Hpc H0 H1 H2 H3 H4 [p Hp] [q Hq].
  assert (Hq1 : 0 < q) by (apply (pos_factor q a_step); lia).
  assert (Hp0 : 0 <= p) by nia.
  unfold _index_for_subslice. rewrite Ha. cbn [mbind result_bind].
  rewrite slice_indices_normal by lia. cbn [mbind result_bind].
  rewrite !floordiv_ok by lia. cbn [mbind result_bind].
  assert (E1 : (c_start - a_start) / a_step = p)
    by (rewrite Hp, Z.div_mul by lia; reflexivity).
  assert (E2 : c_step / a_step = q)
    by (rewrite Hq, Z.div_mul by lia; reflexivity).
  rewrite E1, E2.
  set (t := (c_stop - a_start - 1) / a_step).
  assert (Ht : a_step * t <= c_stop - a_start - 1 < a_step * t + a_step).
  { pose proof (Z.div_mod (c_stop - a_start - 1) a_step ltac:(lia)).
    pose proof (Z.mod_pos_bound (c_stop - a_start - 1) a_step Hpa).
    fold t in H. lia. }
  assert (Hpt : p <= t) by nia.
  assert (Hm : range_len a_start a_stop a_step = (a_stop - a_start - 1) / a_step + 1).
  { unfold range_len. destruct (Z.ltb_spec 0 a_step); [|lia].
    destruct (Z.ltb_spec a_start a_stop); [reflexivity|lia]. }
  assert (Htm : t <= (a_stop - a_start - 1) / a_step)
    by (apply Z.div_le_mono; lia).
  exists p, (t + 1), q. split; [reflexivity|]. split; [|split; [exact Hq1|split]].
  - apply slice_indices_normal; lia.
  - unfold range_len.
    destruct (Z.ltb_spec 0 q); [|lia]. destruct (Z.ltb_spec 0 c_step); [|lia].
    destruct (Z.ltb_spec p (t + 1)); [|lia].
    destruct (Z.ltb_spec c_start c_stop); [|lia].
    f_equal.
    replace (t + 1 - p - 1) with (t - p) by ring.
    rewrite Hq, (Z.mul_comm q a_step), <- Z.div_div by lia.
    f_equal.
    replace (c_stop - c_start - 1) with ((c_stop - a_start - 1) + (- p) * a_step) by lia.
    rewrite Z.div_add by lia. fold t. ring.
  - intros k. nia.
Qed.

(** ** Regions within a chunk *)

(** On an axis of length [n], the normalised slice [r] selects positions
    that the slice [a] selects too. *)
Definition sub_axis (n : Z) (a r : slice) : Prop :=
  exists a_start a_stop a_step c_start c_stop c_step,
    slice_indices a n = Ok (a_start, a_stop, a_step) /\
    r = Slice (Some c_start) (Some c_stop) (Some c_step) /\
    0 < a_step /\ 0 < c_step /\
    0 <= a_start /\ a_start <= c_start /\ c_start < c_stop /\
    c_stop <= a_stop /\ a_stop <= n /\
    (a_step | c_start - a_start) /\ (a_step | c_step).

Lemma lcm_pos (a b : Z) : 0 < a -> 0 < b -> 0 < Z.lcm a b.
Proof.
  intros Ha Hb. pose proof (Z.lcm_nonneg a b).
  assert (Z.lcm a b <> 0); [|lia].
  intros H0. apply Z.lcm_eq_0 in H0. lia.
Qed.

Lemma _slice_intersection_sub_axis (a b : slice) (n : Z) (r : slice) :
  pos_step a -> pos_step b -> 0 <= n ->
  _slice_intersection a b n = Ok (Some r) ->
  sub_axis n a r /\ sub_axis n b r.
Proof.
  intros Hpa Hpb Hn Hr.
  destruct (slice_indices_pos a n Hpa Hn) as (a_start & a_stop & Ha & Ha1 & Ha2).
  destruct (slice_indices_pos b n Hpb Hn) as (b_start & b_stop & Hb & Hb1 & Hb2).
  destruct (_slice_intersection_spec a b n _ _ _ _ _ _ Ha Hb Hpa Hpb)
    as (r' & Hr' & Hspec & _).
  rewrite Hr in Hr'. injection Hr' as <-. simpl in Hspec.
  destruct Hspec as (c_start & -> & Hlt & H1 & H2 & H3 & H4 & _).
  pose proof (lcm_pos _ _ Hpa Hpb) as HL.
  split.
  - exists a_start, a_stop, (step_of a), c_start, (Z.min a_stop b_stop),
           (Z.lcm (step_of a) (step_of b)).
    repeat split; try assumption; try lia. apply Z.divide_lcm_l.
  - exists b_start, b_stop, (step_of b), c_start, (Z.min a_stop b_stop),
           (Z.lcm (step_of a) (step_of b)).
    repeat split; try assumption; try lia. apply Z.divide_lcm_r.
Qed.

Lemma _index_intersection_sub_axes (a_idx b_idx : index) (shape : list Z)
      (region : index) :
  Forall pos_step a_idx -> Forall pos_step b_idx ->
  Forall (fun n => 0 <= n) shape ->
  _index_intersection a_idx b_idx shape = Ok (Some region) ->
  Forall3 sub_axis shape a_idx region /\ Forall3 sub_axis shape b_idx region.
Proof.
  intros Ha Hb Hs. unfold _index_intersection.
  destruct (negb _) eqn:Hlen; [discriminate|].
  apply negb_false_iff, andb_true_iff in Hlen. destruct Hlen as [Hl1 Hl2].
  apply Z.eqb_eq in Hl1, Hl2. unfold len in Hl1, Hl2.
  assert (Hab : length a_idx = length b_idx) by lia.
  assert (Hbs : length b_idx = length shape) by lia.
  clear Hl1 Hl2. revert b_idx shape region Hb Hs Hab Hbs.
  induction Ha as [|a a_idx Hpa Ha IH]; intros b_idx shape region Hb Hs Hab Hbs.
  - destruct b_idx; [|discriminate]. destruct shape; [|discriminate].
    simpl. intros [= <-]. split; constructor.
  - destruct Hb as [|b b_idx Hpb Hb]; [discriminate|].
    destruct Hs as [|n shape Hn Hs]; [discriminate|].
    simpl in Hab, Hbs. cbn [zip3 mapM].
    destruct (_slice_intersection a b n) as [[r|]|] eqn:Hr;
      cbn [mbind result_bind]; try discriminate.
    2:{ destruct (mapM _ _); cbn; discriminate. }
    destruct (mapM _ (zip3 a_idx b_idx shape)) as [res|] eqn:Hres;
      cbn [mbind result_bind has_no_none]; [|discriminate].
    destruct (has_no_none res) as [region'|] eqn:Hnn; [|discriminate].
    intros [= <-].
    destruct (_slice_intersection_sub_axis a b n r Hpa Hpb Hn Hr) as [S1 S2].
    destruct (IH b_idx shape region' Hb Hs ltac:(lia) ltac:(lia)) as [I1 I2].
    { rewrite Hres. cbn [mbind result_bind]. rewrite Hnn. reflexivity. }
    split; constructor; assumption.
Qed.

Lemma length_zip3 {A B C} (a : list A) (b : list B) (c : list C) :
  length a = length b -> length b = length c ->
  length (zip3 a b c) = length a.
Proof.
  revert b c. induction a as [|x a IH]; intros [|y b] [|z c]; simpl;
    try discriminate; [reflexivity|].
  intros [= H1] [= H2]. f_equal. apply IH; assumption.
Qed.

Lemma length_zip_eq {A B} (a : list A) (b : list B) :
  length a = length b -> length (zip a b) = length a.
Proof.
  revert b. induction a as [|x a IH]; intros [|y b]; simpl;
    try discriminate; [reflexivity|].
  intros [= H1]. f_equal. apply IH; assumption.
Qed.

Section Regions.

Context {V : Type}.

Lemma axes_of_full (shape : list Z) (idx : index) :
  length idx = length shape ->
  axes_of shape idx = mapM (fun '(s, n) => slice_indices s n) (zip idx shape).
Proof.
  intros Hl. unfold axes_of.
  destruct (Nat.ltb_spec (length shape) (length idx)); [lia|].
  rewrite Hl, Nat.sub_diag. simpl. rewrite app_nil_r. reflexivity.
Qed.

(** The index of a region within a chunk, from [_index_for_subindex]:
    it selects, in the chunk's buffer, as many elements as the region has,
    and the element at each local coordinate is the chunk's element for
    the region's coordinate. *)
Lemma _index_for_subindex_spec (a_idx region : index) (shape : list Z)
      (axes_a axes_r : list (Z * Z * Z)) :
  Forall3 sub_axis shape a_idx region ->
  axes_of shape a_idx = Ok axes_a ->
  axes_of shape region = Ok axes_r ->
  exists new_idx axes_n,
    _index_for_subindex a_idx region shape = Ok new_idx /\
    axes_of (view_shape axes_a) new_idx = Ok axes_n /\
    Forall (fun t => 0 < t.2) axes_n /\
    view_shape axes_n = view_shape axes_r /\
    forall k, to_base axes_a (to_base axes_n k) = to_base axes_r k.
Proof.
  intros Hsub.
  pose proof (Forall3_length_lr _ _ _ _ Hsub) as Hl1.
  pose proof (Forall3_length_lm _ _ _ _ Hsub) as Hl2.
  rewrite !axes_of_full by lia.
  unfold _index_for_subindex.
  assert (Hlen : negb ((len a_idx =? len region) && (len region =? len shape)) = false).
  { apply negb_false_iff, andb_true_iff. unfold len.
    split; apply Z.eqb_eq; lia. }
  rewrite Hlen. clear Hlen Hl1 Hl2. revert axes_a axes_r.
  induction Hsub as [|n a r shape a_idx region Hax Hsub IH]; intros axes_a axes_r.
  - simpl. intros [= <-] [= <-]. exists [], []. simpl.
    repeat split; constructor.
  - destruct Hax as (a_start & a_stop & a_step & c_start & c_stop & c_step &
                     Ha & -> & Hpa & Hpc & H0 & H1 & H2 & H3 & H4 & Hd1 & Hd2).
    cbn [zip zip_with zip3 mapM]. rewrite Ha. cbn [mbind result_bind].
    rewrite slice_indices_normal by lia. cbn [mbind result_bind].
    destruct (mapM _ (zip a_idx shape)) as [axes_a'|] eqn:Ea;
      cbn [mbind result_bind]; [|discriminate].
    destruct (mapM _ (zip region shape)) as [axes_r'|] eqn:Er;
      cbn [mbind result_bind]; [|discriminate].
    intros [= <-] [= <-].
    destruct (IH axes_a' axes_r' eq_refl eq_refl)
      as (new_idx & axes_n & Hn1 & Hn2 & Hn3 & Hn4 & Hn5).
    destruct (_index_for_subslice_spec a n a_start a_stop a_step
                c_start c_stop c_step Ha Hpa Hpc H0 H1 H2 H3 H4 Hd1 Hd2)
      as (l_start & l_stop & l_step & Hs1 & Hs2 & Hs3 & Hs4 & Hs5).
    assert (Hlen' : length new_idx = length (view_shape axes_a')).
    { unfold view_shape. rewrite length_map.
      pose proof (Forall3_length_lr _ _ _ _ Hsub).
      pose proof (Forall3_length_lm _ _ _ _ Hsub).
      rewrite (mapM_length _ _ _ Hn1), (mapM_length _ _ _ Ea).
      rewrite length_zip3, length_zip_eq by lia. reflexivity. }
    rewrite Hs1, Hn1. cbn [mbind result_bind].
    exists (Slice (Some l_start) (Some l_stop) (Some l_step) :: new_idx),
           ((l_start, l_stop, l_step) :: axes_n).
    split; [reflexivity|]. split; [|split; [|split]].
    + rewrite axes_of_full.
      2:{ simpl. f_equal. exact Hlen'. }
      cbn [view_shape map zip zip_with mapM]. rewrite Hs2.
      cbn [mbind result_bind].
      rewrite axes_of_full in Hn2.
      2:{ exact Hlen'. }
      unfold view_shape in Hn2. rewrite Hn2. reflexivity.
    + constructor; assumption.
    + cbn [view_shape map]. f_equal; [exact Hs4|exact Hn4].
    + intros [|k ks]; [reflexivity|]. cbn [to_base]. f_equal; [|apply Hn5].
      rewrite <- Hs5. ring.
Qed.

End Regions.

(** ** Whole-array indexing *)

Section FullIndex.

Context {V : Type}.

Definition full_axes (shape : list Z) : list (Z * Z * Z) :=
  map (fun n => (0, n, 1)) shape.

Lemma mapM_slice_all (shape : list Z) :
  Forall (fun n => 0 <= n) shape ->
  mapM (fun '(s, n) => slice_indices s n)
       (zip (repeat slice_all (length shape)) shape) = Ok (full_axes shape).
Proof.
  induction 1 as [|n shape Hn Hs IH]; [reflexivity|].
  cbn [length repeat zip zip_with mapM]. fold (zip (repeat slice_all (length shape)) shape).
  rewrite IH. unfold slice_indices, slice_all; simpl.
  destruct (Z.ltb_spec n 0); [lia|]. reflexivity.
Qed.

Lemma axes_of_nil (shape : list Z) :
  Forall (fun n => 0 <= n) shape -> axes_of shape [] = Ok (full_axes shape).
Proof.
  intros Hs. unfold axes_of. simpl. rewrite Nat.sub_0_r.
  apply mapM_slice_all. exact Hs.
Qed.

Lemma view_shape_full (shape : list Z) :
  Forall (fun n => 0 <= n) shape -> view_shape (full_axes shape) = shape.
Proof.
  induction 1 as [|n shape Hn Hs IH]; [reflexivity|].
  simpl. f_equal; [|exact IH].
  unfold range_len. simpl. destruct (Z.ltb_spec 0 n).
  - rewrite Z.div_1_r. lia.
  - lia.
Qed.

Lemma full_axes_pos (shape : list Z) :
  Forall (fun t : Z * Z * Z => 0 < t.2) (full_axes shape).
Proof. induction shape; constructor; simpl; (lia || assumption). Qed.

Lemma in_axes_full (shape c : list Z) :
  in_axes (full_axes shape) c = in_bounds shape c.
Proof.
  revert c. induction shape as [|n shape IH]; intros [|i c]; simpl;
    try reflexivity.
  rewrite IH. f_equal. unfold range_mem. simpl.
  rewrite Z.sub_0_r, Z.mod_1_r, Z.eqb_refl, andb_true_r. reflexivity.
Qed.

Lemma to_local_full (shape c : list Z) :
  length c = length shape -> to_local (full_axes shape) c = c.
Proof.
  revert c. induction shape as [|n shape IH]; intros [|i c]; simpl;
    try discriminate; [reflexivity|].
  intros [= Hl]. rewrite IH by exact Hl. rewrite Z.sub_0_r, Z.div_1_r.
  reflexivity.
Qed.

Lemma to_base_full (shape c : list Z) :
  length c = length shape -> to_base (full_axes shape) c = c.
Proof.
  revert c. induction shape as [|n shape IH]; intros [|i c]; simpl;
    try discriminate; [reflexivity|].
  intros [= Hl]. rewrite IH by exact Hl. f_equal. lia.
Qed.

(** [a[...] = v] for a value of the shape of [a] makes [a] equal to [v]. *)
Lemma setitem_whole (a v : ndarray V) :
  Forall (fun n => 0 <= n) (nd_shape a) ->
  nd_shape v = nd_shape a ->
  exists a', setitem a [] v = Ok a' /\ nd_eq a' v.
Proof.
  intros Hs Hv.
  destruct (setitem_same_shape a [] v (full_axes (nd_shape a)))
    as (a' & Ha' & Hshape & Hitem).
  - apply axes_of_nil, Hs.
  - apply full_axes_pos.
  - rewrite view_shape_full by exact Hs. exact Hv.
  - exists a'. split; [exact Ha'|]. split; [congruence|].
    intros c Hc. rewrite Hitem, in_axes_full. rewrite Hshape in Hc.
    rewrite Hc. rewrite to_local_full; [reflexivity|].
    apply in_bounds_length. exact Hc.
Qed.

Lemma view_shape_nonneg (axes : list (Z * Z * Z)) :
  Forall (fun t => 0 < t.2) axes ->
  Forall (fun n => 0 <= n) (view_shape axes).
Proof.
  induction 1 as [|[[st sp] stp] axes Hp Hs IH]; constructor; [|exact IH].
  apply range_len_nonneg. exact Hp.
Qed.

Lemma slice_indices_step (s : slice) (n st sp stp : Z) :
  slice_indices s n = Ok (st, sp, stp) -> stp = step_of s.
Proof.
  unfold slice_indices, step_of.
  destruct (n <? 0); [discriminate|].
  destruct (_ =? 0); [discriminate|]. intros [= _ _ <-]. reflexivity.
Qed.

Lemma mapM_slice_indices_pos (idx : index) (shape : list Z)
      (axes : list (Z * Z * Z)) :
  Forall pos_step idx ->
  mapM (fun '(s, n) => slice_indices s n) (zip idx shape) = Ok axes ->
  Forall (fun t => 0 < t.2) axes.
Proof.
  intros Hp. revert shape axes.
  induction Hp as [|s idx Hs Hp IH]; intros [|n shape] axes; simpl;
    try (intros [= <-]; constructor).
  destruct (slice_indices s n) as [[[st sp] stp]|] eqn:E;
    cbn [mbind result_bind]; [|discriminate].
  destruct (mapM _ (zip idx shape)) as [axes'|] eqn:Ea;
    cbn [mbind result_bind]; [|discriminate].
  intros [= <-]. constructor.
  - simpl. rewrite (slice_indices_step _ _ _ _ _ E). exact Hs.
  - eapply IH. exact Ea.
Qed.

Lemma axes_of_pos (shape : list Z) (idx : index) (axes : list (Z * Z * Z)) :
  Forall pos_step idx -> axes_of shape idx = Ok axes ->
  Forall (fun t => 0 < t.2) axes.
Proof.
  intros Hp. unfold axes_of.
  destruct (_ <? _)%nat; [discriminate|].
  apply mapM_slice_indices_pos. apply Forall_app. split; [exact Hp|].
  apply Forall_forall. intros s Hs. apply list_elem_of_In, repeat_spec in Hs. subst s.
  unfold pos_step, step_of. simpl. lia.
Qed.

Lemma sub_axes_region (shape : list Z) (a_idx region : index) :
  Forall3 sub_axis shape a_idx region ->
  exists axes_r,
    axes_of shape region = Ok axes_r /\ Forall (fun t => 0 < t.2) axes_r.
Proof.
  intros Hsub.
  pose proof (Forall3_length_lr _ _ _ _ Hsub) as Hl.
  rewrite axes_of_full by lia. clear Hl.
  induction Hsub as [|n a r shape a_idx region Hax Hsub [axes_r [IH1 IH2]]].
  - exists []. split; [reflexivity|constructor].
  - destruct Hax as (a_start & a_stop & a_step & c_start & c_stop & c_step &
                     Ha & -> & Hpa & Hpc & H0 & H1 & H2 & H3 & H4 & Hd1 & Hd2).
    exists ((c_start, c_stop, c_step) :: axes_r). split.
    + cbn [zip zip_with mapM]. rewrite slice_indices_normal by lia.
      cbn [mbind result_bind]. fold (zip region shape). rewrite IH1. reflexivity.
    + constructor; [exact Hpc|exact IH2].
Qed.

End FullIndex.

(** ** _apply_and_update_chunks *)

Lemma _slice_intersection_total (a b : slice) (n : Z) :
  pos_step a -> pos_step b -> 0 <= n ->
  exists r, _slice_intersection a b n = Ok r.
Proof.
  intros Hpa Hpb Hn.
  destruct (slice_indices_pos a n Hpa Hn) as (a_start & a_stop & Ha & _).
  destruct (slice_indices_pos b n Hpb Hn) as (b_start & b_stop & Hb & _).
  destruct (_slice_intersection_spec a b n _ _ _ _ _ _ Ha Hb Hpa Hpb)
    as (r & Hr & _).
  exists r. exact Hr.
Qed.

Lemma _index_intersection_total (a_idx b_idx : index) (shape : list Z) :
  Forall pos_step a_idx -> Forall pos_step b_idx ->
  Forall (fun n => 0 <= n) shape ->
  length a_idx = length shape -> length b_idx = length shape ->
  exists inter, _index_intersection a_idx b_idx shape = Ok inter.
Proof.
  intros Ha Hb Hs Hla Hlb. unfold _index_intersection.
  assert (Hlen : negb ((len a_idx =? len b_idx) && (len b_idx =? len shape)) = false).
  { apply negb_false_iff, andb_true_iff. unfold len.
    split; apply Z.eqb_eq; lia. }
  rewrite Hlen.
  enough (exists res, mapM (fun '(a, b, length) => _slice_intersection a b length)
                           (zip3 a_idx b_idx shape) = Ok res) as [res Hres].
  { rewrite Hres. eexists. reflexivity. }
  clear Hlen. revert b_idx shape Hb Hs Hla Hlb.
  induction Ha as [|a a_idx Hpa Ha IH]; intros b_idx shape Hb Hs Hla Hlb.
  - exists []. destruct b_idx, shape; reflexivity.
  - destruct Hb as [|b b_idx Hpb Hb]; [destruct shape; discriminate|].
    destruct Hs as [|n shape Hn Hs]; [discriminate|].
    simpl in Hla, Hlb.
    destruct (IH b_idx shape Hb Hs ltac:(lia) ltac:(lia)) as [res Hres].
    destruct (_slice_intersection_total a b n Hpa Hpb Hn) as [r Hr].
    exists (r :: res). cbn [zip3 mapM]. rewrite Hr, Hres. reflexivity.
Qed.

Section ApplyAndUpdate.

Context {V : Type} `{!Dtype V} `{!Runtime V}.

Lemma ret_run {A} (a : A) (σ : store V) :
  (mret a : M V A) σ = (Ok a, σ).
Proof. reflexivity. Qed.

Lemma load_run (r : array) (σ : store V) (a x : ndarray V) :
  σ !! arr_buf r = Some a -> through a (arr_view r) = Ok x ->
  load r σ = (Ok x, σ).
Proof. intros H1 H2. unfold load. rewrite H1, H2. reflexivity. Qed.

Lemma assign_run (r : array) (idx : index) (v : ndarray V) (σ : store V)
      (a a' : ndarray V) :
  σ !! arr_buf r = Some a ->
  update_through a (arr_view r) (fun x => setitem x idx v) = Ok a' ->
  assign r idx v σ = (Ok tt, <[arr_buf r := a']> σ).
Proof. intros H1 H2. unfold assign. rewrite H1, H2. reflexivity. Qed.

Lemma subscript_run (r : array) (idx : index) (σ : store V)
      (a x y : ndarray V) :
  σ !! arr_buf r = Some a -> through a (arr_view r) = Ok x ->
  getitem x idx = Ok y ->
  subscript r idx σ =
    (Ok (Array (arr_dev r) (arr_buf r) (arr_view r ++ [idx])), σ).
Proof.
  intros H1 H2 H3. unfold subscript.
  rewrite (bind_run _ _ _ _ _ (load_run r σ a x H1 H2)).
  unfold lift. unfold mbind at 1, M_bind. rewrite H3. reflexivity.
Qed.

Lemma through_app (a : ndarray V) (chain1 chain2 : list index) :
  through a (chain1 ++ chain2) = (x ← through a chain1; through x chain2).
Proof.
  revert a. induction chain1 as [|idx chain1 IH]; intros a; simpl.
  - reflexivity.
  - destruct (getitem a idx) as [sub|]; cbn [mbind result_bind];
      [apply IH|reflexivity].
Qed.

Lemma existsb_In (d : Z) (l : list Z) : In d l -> existsb (Z.eqb d) l = true.
Proof.
  intros H. apply existsb_exists. exists d. split; [exact H|apply Z.eqb_refl].
Qed.

(** A transfer within a device hands over the source itself. *)
Lemma _transfer_async_same (self : _DistributedArray V) (d : array)
      (dst_dev : Z) (σ : store V) :
  arr_dev d = dst_dev ->
  _transfer_async self (ManagedData d) dst_dev σ =
    (Ok (DataTransfer d None), σ).
Proof.
  intros Hd. unfold _transfer_async. cbn [managed_data].
  rewrite Hd, Z.eqb_refl. reflexivity.
Qed.

(** A transfer to another device: a new buffer there with the elements of
    the source. *)
Lemma _transfer_async_across (self : _DistributedArray V) (d : array)
      (dst_dev : Z) (σ : store V) (x : ndarray V) :
  arr_dev d <> dst_dev ->
  load d σ = (Ok x, σ) ->
  Forall (fun n => 0 <= n) (nd_shape x) ->
  nccl_dtype_known = true ->
  In (arr_dev d) (_comms self) -> In dst_dev (_comms self) ->
  exists x',
    _transfer_async self (ManagedData d) dst_dev σ =
      (Ok (DataTransfer (Array dst_dev (length σ) []) (Some d)), σ ++ [x']) /\
    nd_eq x' x.
Proof.
  intros Hdev Hload Hshape Hdt Hc1 Hc2. unfold _transfer_async.
  cbn [managed_data]. destruct (Z.eqb_spec (arr_dev d) dst_dev); [contradiction|].
  rewrite (bind_run _ _ _ _ _ Hload).
  unfold alloc_empty. unfold mbind at 1, M_bind.
  rewrite Hdt, (existsb_In _ _ Hc1), (existsb_In _ _ Hc2). cbn [negb].
  destruct (setitem_whole (NDArray (nd_shape x) (junk (length σ))) x Hshape eq_refl)
    as (x' & Hset & Heq).
  exists x'. split; [|exact Heq].
  assert (Hrun : assign (Array dst_dev (length σ) []) [] x
                   (σ ++ [NDArray (nd_shape x) (junk (length σ))]) =
                 (Ok tt, <[length σ := x']>
                           (σ ++ [NDArray (nd_shape x) (junk (length σ))]))).
  { unfold assign. cbn [arr_buf arr_view update_through].
    rewrite lookup_app_r by lia. rewrite Nat.sub_diag. cbn [lookup list_lookup].
    rewrite Hset. reflexivity. }
  rewrite (bind_run _ _ _ _ _ Hrun).
  unfold mret, M_ret. f_equal.
  rewrite insert_app_r_alt by lia. rewrite Nat.sub_diag. reflexivity.
Qed.

(** The steps of [_apply_and_update_chunks] on two chunks of an array in
    different buffers: what [_index_intersection] and [_index_for_subindex]
    give, the update that is queued, and the stores before and after. *)
Lemma _apply_and_update_chunks_steps
        (self : _DistributedArray V) (op_mode : _OpMode V) (shape : list Z)
        (src_chunk dst_chunk : _Chunk) (σ : store V)
        (a_src a_dst : ndarray V) (axes_src axes_dst : list (Z * Z * Z)) :
  Forall (fun n => 0 <= n) shape ->
  chunk_ok shape σ src_chunk a_src axes_src ->
  chunk_ok shape σ dst_chunk a_dst axes_dst ->
  arr_buf (chunk_data src_chunk) <> arr_buf (chunk_data dst_chunk) ->
  (arr_dev (chunk_data src_chunk) = arr_dev (chunk_data dst_chunk) \/
   (nccl_dtype_known = true /\
    In (arr_dev (chunk_data src_chunk)) (_comms self) /\
    In (arr_dev (chunk_data dst_chunk)) (_comms self))) ->
  exists inter,
    _index_intersection (chunk_index src_chunk) (chunk_index dst_chunk) shape =
      Ok inter /\
    match inter with
    | None =>
        _apply_and_update_chunks self op_mode shape src_chunk dst_chunk σ =
          (Ok dst_chunk, σ)
    | Some region =>
        exists src_new_idx dst_new_idx part update payload σ',
          _index_for_subindex (chunk_index src_chunk) region shape =
            Ok src_new_idx /\
          _index_for_subindex (chunk_index dst_chunk) region shape =
            Ok dst_new_idx /\
          getitem a_src src_new_idx = Ok part /\
          _apply_and_update_chunks self op_mode shape src_chunk dst_chunk σ =
            (Ok (Chunk (chunk_data dst_chunk) (chunk_index dst_chunk)
                       (chunk_updates dst_chunk ++ [(update, dst_new_idx)])),
             σ') /\
          σ' !! arr_buf (chunk_data dst_chunk) = Some a_dst /\
          load (transfer_data update) σ' = (Ok payload, σ') /\
          nd_eq payload part /\
          arr_dev (transfer_data update) = arr_dev (chunk_data dst_chunk) /\
          (length σ <= length σ')%nat /\
          (forall i, (i < length σ)%nat ->
                     i <> arr_buf (chunk_data src_chunk) ->
                     σ' !! i = σ !! i) /\
          if idempotent op_mode
          then σ' !! arr_buf (chunk_data src_chunk) = Some a_src
          else exists a_src',
                 setitem a_src src_new_idx (scalar (identity_of op_mode)) =
                   Ok a_src' /\
                 σ' !! arr_buf (chunk_data src_chunk) = Some a_src'
    end.
Proof.
  intros Hshape (Hv1 & Hb1 & Hl1 & Hp1 & Hax1 & Hs1)
         (Hv2 & Hb2 & Hl2 & Hp2 & Hax2 & Hs2) Hne Hcomm.
  destruct (_index_intersection_total _ _ shape Hp1 Hp2 Hshape Hl1 Hl2)
    as [inter Hinter].
  exists inter. split; [exact Hinter|].
  unfold _apply_and_update_chunks.
  unfold lift at 1. unfold mbind at 1, M_bind. rewrite Hinter.
  destruct inter as [region|]; [|reflexivity].
  destruct (_index_intersection_sub_axes _ _ _ _ Hp1 Hp2 Hshape Hinter)
    as [Hsub1 Hsub2].
  destruct (sub_axes_region _ _ _ Hsub1) as (axes_r & Haxr & Hposr).
  destruct (_index_for_subindex_spec _ _ _ _ _ Hsub1 Hax1 Haxr)
    as (src_new_idx & axes_n1 & Hn1 & Hn1a & Hn1p & Hn1s & _).
  destruct (_index_for_subindex_spec _ _ _ _ _ Hsub2 Hax2 Haxr)
    as (dst_new_idx & axes_n2 & Hn2 & _).
  rewrite <- Hs1 in Hn1a.
  pose proof (getitem_ok a_src src_new_idx axes_n1 Hn1a) as Hget.
  set (part := NDArray (view_shape axes_n1)
                       (fun c => nd_item a_src (to_base axes_n1 c))) in *.
  set (part_ref := Array (arr_dev (chunk_data src_chunk))
                         (arr_buf (chunk_data src_chunk)) [src_new_idx]).
  exists src_new_idx, dst_new_idx, part.
  unfold lift at 1. unfold mbind at 1, M_bind. rewrite Hn1.
  unfold lift at 1. unfold mbind at 1, M_bind. rewrite Hn2.
  assert (Hsubs : subscript (chunk_data src_chunk) src_new_idx σ =
                  (Ok part_ref, σ)).
  { assert (Hth : through a_src (arr_view (chunk_data src_chunk)) = Ok a_src)
      by (rewrite Hv1; reflexivity).
    rewrite (subscript_run _ _ _ a_src a_src part Hb1 Hth Hget).
    unfold part_ref. rewrite Hv1. reflexivity. }
  rewrite (bind_run _ _ _ _ _ Hsubs).
  assert (Hpart_shape : Forall (fun n => 0 <= n) (nd_shape part))
    by (apply view_shape_nonneg, Hn1p).
  assert (Hload_part : forall σ1 : store V,
             σ1 !! arr_buf (chunk_data src_chunk) = Some a_src ->
             load part_ref σ1 = (Ok part, σ1)).
  { intros σ1 H1. apply (load_run part_ref σ1 a_src part H1).
    simpl. rewrite Hget. reflexivity. }
  pose proof (lookup_lt_Some _ _ _ Hb1) as Hlt1.
  pose proof (lookup_lt_Some _ _ _ Hb2) as Hlt2.
  assert (Hset : exists a_src',
             setitem a_src src_new_idx (scalar (identity_of op_mode)) = Ok a_src').
  { eexists. apply (setitem_scalar_ok a_src src_new_idx _ axes_n1 Hn1a). }
  destruct Hset as [a_src' Hset].
  destruct (idempotent op_mode) eqn:Hidem; cbn [negb].
  - (* idempotent: the part itself is transferred *)
    rewrite (bind_run _ _ _ _ _ (ret_run (ManagedData part_ref) σ)).
    destruct (Z.eq_dec (arr_dev (chunk_data src_chunk))
                       (arr_dev (chunk_data dst_chunk))) as [Hd|Hd].
    + exists (DataTransfer part_ref None), part, σ.
      repeat match goal with |- _ /\ _ => split end;
        try assumption; try reflexivity; try exact Hd;
        try solve [intros i0 Hi0 Hne0;
                   rewrite ?list_lookup_insert_ne by congruence;
                   rewrite ?lookup_app_l by (rewrite ?length_app; lia);
                   reflexivity];
        try (rewrite ?length_insert, ?length_app; lia).
      * rewrite (bind_run _ _ _ _ _ (_transfer_async_same self part_ref _ σ Hd)).
        reflexivity.
      * apply Hload_part, Hb1.
      * apply nd_eq_refl.
    + destruct Hcomm as [Hc|(Hc0 & Hc1 & Hc2)]; [contradiction|].
      destruct (_transfer_async_across self part_ref
                  (arr_dev (chunk_data dst_chunk)) σ part Hd
                  (Hload_part σ Hb1) Hpart_shape Hc0 Hc1 Hc2)
        as (x' & Hrun & Heq).
      exists (DataTransfer (Array (arr_dev (chunk_data dst_chunk)) (length σ) [])
                           (Some part_ref)), x', (σ ++ [x']).
      repeat match goal with |- _ /\ _ => split end;
        try assumption; try reflexivity; try exact Hd;
        try solve [intros i0 Hi0 Hne0;
                   rewrite ?list_lookup_insert_ne by congruence;
                   rewrite ?lookup_app_l by (rewrite ?length_app; lia);
                   reflexivity];
        try (rewrite ?length_insert, ?length_app; lia).
      * rewrite (bind_run _ _ _ _ _ Hrun). reflexivity.
      * rewrite lookup_app_l by lia. exact Hb2.
      * apply (load_run _ _ x' x'); [|reflexivity]. cbn [transfer_data arr_buf].
        rewrite lookup_app_r by lia. rewrite Nat.sub_diag. reflexivity.
      * rewrite lookup_app_l by lia. exact Hb1.
  - (* not idempotent: a copy is transferred, then the source is reset *)
    assert (Hcopy : _ManagedData_copy (ManagedData part_ref) σ =
                    (Ok (ManagedData (Array (arr_dev (chunk_data src_chunk))
                                            (length σ) [])), σ ++ [part])).
    { unfold _ManagedData_copy, copy_to. cbn [managed_data].
      rewrite (bind_run _ _ _ _ _ (bind_run _ _ _ _ _ (Hload_part σ Hb1))).
      reflexivity. }
    rewrite (bind_run _ _ _ _ _ Hcopy).
    set (copy_ref := Array (arr_dev (chunk_data src_chunk)) (length σ) []).
    assert (Hload_copy : forall ext : store V,
               load copy_ref (σ ++ [part] ++ ext) = (Ok part, σ ++ [part] ++ ext)).
    { intros ext. apply (load_run _ _ part part); [|reflexivity].
      cbn [copy_ref arr_buf]. rewrite lookup_app_r by lia.
      rewrite Nat.sub_diag. reflexivity. }
    destruct (Z.eq_dec (arr_dev (chunk_data src_chunk))
                       (arr_dev (chunk_data dst_chunk))) as [Hd|Hd].
    + exists (DataTransfer copy_ref None), part,
             (<[arr_buf (chunk_data src_chunk) := a_src']> (σ ++ [part])).
      assert (Htr : _transfer_async self (ManagedData copy_ref)
                      (arr_dev (chunk_data dst_chunk)) (σ ++ [part]) =
                    (Ok (DataTransfer copy_ref None), σ ++ [part])).
      { apply _transfer_async_same. exact Hd. }
      rewrite (bind_run _ _ _ _ _ Htr).
      assert (Hassign : assign (chunk_data src_chunk) src_new_idx
                          (scalar (identity_of op_mode)) (σ ++ [part]) =
                        (Ok tt, <[arr_buf (chunk_data src_chunk) := a_src']>
                                  (σ ++ [part]))).
      { unfold assign. rewrite lookup_app_l by lia. rewrite Hb1, Hv1.
        cbn [update_through]. rewrite Hset. reflexivity. }
      rewrite (bind_run _ _ _ _ _ Hassign).
      repeat match goal with |- _ /\ _ => split end;
        try assumption; try reflexivity; try exact Hd;
        try solve [intros i0 Hi0 Hne0;
                   rewrite ?list_lookup_insert_ne by congruence;
                   rewrite ?lookup_app_l by (rewrite ?length_app; lia);
                   reflexivity];
        try (rewrite ?length_insert, ?length_app; lia).
      * rewrite list_lookup_insert_ne by exact Hne.
        rewrite lookup_app_l by lia. exact Hb2.
      * apply (load_run _ _ part part); [|reflexivity].
        cbn [transfer_data copy_ref arr_buf].
        rewrite list_lookup_insert_ne by lia.
        rewrite lookup_app_r by lia. rewrite Nat.sub_diag. reflexivity.
      * apply nd_eq_refl.
      * exists a_src'. split; [exact Hset|].
        apply list_lookup_insert_eq. rewrite length_app. lia.
    + destruct Hcomm as [Hc|(Hc0 & Hc1 & Hc2)]; [contradiction|].
      destruct (_transfer_async_across self copy_ref
                  (arr_dev (chunk_data dst_chunk)) (σ ++ [part]) part Hd)
        as (x' & Hrun & Heq); try assumption.
      { specialize (Hload_copy []). rewrite app_nil_r in Hload_copy.
        exact Hload_copy. }
      rewrite (bind_run _ _ _ _ _ Hrun).
      exists (DataTransfer (Array (arr_dev (chunk_data dst_chunk))
                                  (length (σ ++ [part])) [])
                           (Some copy_ref)), x',
             (<[arr_buf (chunk_data src_chunk) := a_src']> ((σ ++ [part]) ++ [x'])).
      assert (Hassign : assign (chunk_data src_chunk) src_new_idx
                          (scalar (identity_of op_mode)) ((σ ++ [part]) ++ [x']) =
                        (Ok tt, <[arr_buf (chunk_data src_chunk) := a_src']>
                                  ((σ ++ [part]) ++ [x']))).
      { unfold assign. rewrite !lookup_app_l by (rewrite ?length_app; lia).
        rewrite Hb1, Hv1. cbn [update_through]. rewrite Hset. reflexivity. }
      rewrite (bind_run _ _ _ _ _ Hassign).
      repeat match goal with |- _ /\ _ => split end;
        try assumption; try reflexivity; try exact Hd;
        try solve [intros i0 Hi0 Hne0;
                   rewrite ?list_lookup_insert_ne by congruence;
                   rewrite ?lookup_app_l by (rewrite ?length_app; lia);
                   reflexivity];
        try (rewrite ?length_insert, ?length_app; lia).
      * rewrite list_lookup_insert_ne by exact Hne.
        rewrite !lookup_app_l by (rewrite ?length_app; lia). exact Hb2.
      * apply (load_run _ _ x' x'); [|reflexivity].
        cbn [transfer_data arr_buf].
        rewrite list_lookup_insert_ne by (rewrite length_app; simpl; lia).
        rewrite lookup_app_r by lia. rewrite Nat.sub_diag. reflexivity.
      * exists a_src'. split; [exact Hset|].
        apply list_lookup_insert_eq. rewrite !length_app. lia.
Qed.

End ApplyAndUpdate.

(** ** Materialising a replica-mode array *)

Section Materialise.

Context {V : Type} `{!Dtype V} `{!Runtime V}.

(** The chunk holds, in a whole buffer and with no update pending, the
    elements of the array [A] that its index selects. *)
Definition chunk_holds (σ : store V) (A : ndarray V) (chunk : _Chunk) : Prop :=
  arr_view (chunk_data chunk) = [] /\
  chunk_updates chunk = [] /\
  length (chunk_index chunk) = length (nd_shape A) /\
  Forall pos_step (chunk_index chunk) /\
  exists v axes,
    σ !! arr_buf (chunk_data chunk) = Some v /\
    axes_of (nd_shape A) (chunk_index chunk) = Ok axes /\
    nd_shape v = view_shape axes /\
    forall c, in_bounds (view_shape axes) c = true ->
              nd_item v c = nd_item A (to_base axes c).

Lemma chunk_holds_app (σ ext : store V) (A : ndarray V) (chunk : _Chunk) :
  chunk_holds σ A chunk -> chunk_holds (σ ++ ext) A chunk.
Proof.
  intros (H1 & H2 & H3 & H4 & v & axes & Hb & Hrest).
  repeat split; try assumption. exists v, axes. split; [|exact Hrest].
  rewrite lookup_app_l; [exact Hb|]. eapply lookup_lt_Some, Hb.
Qed.

Lemma _apply_updates_none (chunk : _Chunk) (mode : _Mode V) (σ : store V) :
  chunk_updates chunk = [] -> _apply_updates chunk mode σ = (Ok chunk, σ).
Proof.
  intros H. unfold _apply_updates. rewrite H. destruct chunk as [d i u].
  simpl in H. subst u. reflexivity.
Qed.

Lemma forM_same {A} (f : A -> M V A) (l : list A) (σ : store V) :
  Forall (fun x => f x σ = (Ok x, σ)) l -> forM f l σ = (Ok l, σ).
Proof.
  induction 1 as [|x l Hx Hl IH]; [reflexivity|]. simpl.
  rewrite (bind_run _ _ _ _ _ Hx), (bind_run _ _ _ _ _ IH). reflexivity.
Qed.

Lemma map_chunks_same (f : _Chunk -> M V _Chunk) (m : dict (list _Chunk))
      (σ : store V) :
  Forall (fun chunk => f chunk σ = (Ok chunk, σ)) (flatten m) ->
  map_chunks f m σ = (Ok m, σ).
Proof.
  intros H. unfold map_chunks. apply forM_same.
  induction m as [|[dev chunks] m IH]; constructor.
  - unfold flatten in H. simpl in H. apply Forall_app in H. destruct H as [H _].
    rewrite (bind_run _ _ _ _ _ (forM_same f chunks σ H)). reflexivity.
  - apply IH. unfold flatten in *. simpl in H. apply Forall_app in H. tauto.
Qed.

Lemma classic_exists_rest (chunks : list _Chunk) (c : list Z) (A : ndarray V) :
  Exists (fun chunk => index_mem (nd_shape A) (chunk_index chunk) c = true) chunks \/
  ~ Exists (fun chunk => index_mem (nd_shape A) (chunk_index chunk) c = true) chunks.
Proof.
  induction chunks as [|chunk chunks [IH|IH]].
  - right. intros H. inversion H.
  - left. right. exact IH.
  - destruct (index_mem (nd_shape A) (chunk_index chunk) c) eqn:E.
    + left. left. exact E.
    + right. intros H. apply Exists_cons in H. destruct H; congruence.
Qed.

(** The loop of [asnumpy] over chunks that hold [A]: the host array ends up
    with the elements of [A] wherever a chunk's index selects, and is not
    touched elsewhere. *)
Lemma write_chunks_replica (A : ndarray V) (chunks : list _Chunk)
      (σ : store V) (cur : ndarray V) :
  Forall (chunk_holds σ A) chunks ->
  nd_shape cur = nd_shape A ->
  exists R us,
    forM (write_chunk None (Array (-1) (length σ) [])) chunks (σ ++ [cur]) =
      (Ok us, σ ++ [R]) /\
    nd_shape R = nd_shape A /\
    (forall c,
       Exists (fun chunk => index_mem (nd_shape A) (chunk_index chunk) c = true)
              chunks ->
       nd_item R c = nd_item A c) /\
    (forall c, nd_item R c = nd_item A c \/ nd_item R c = nd_item cur c).
Proof.
  intros Hall. revert cur.
  induction Hall as [|chunk chunks Hc Hall IH]; intros cur Hshape.
  - exists cur, []. split; [reflexivity|]. split; [exact Hshape|]. split.
    + intros c Hex. inversion Hex.
    + intros c. right. reflexivity.
  - destruct Hc as (Hv & Hu & Hl & Hp & v & axes & Hb & Hax & Hvs & Hitems).
    pose proof (axes_of_pos _ _ _ Hp Hax) as Hpos.
    pose proof (lookup_lt_Some _ _ _ Hb) as Hlt.
    destruct (setitem_same_shape cur (chunk_index chunk) v axes)
      as (cur' & Hset & Hshape' & Hitem'); try assumption.
    { rewrite Hshape. exact Hax. }
    assert (Hstep : write_chunk None (Array (-1) (length σ) []) chunk (σ ++ [cur]) =
                    (Ok tt, σ ++ [cur'])).
    { unfold write_chunk.
      assert (Hload : load (chunk_data chunk) (σ ++ [cur]) = (Ok v, σ ++ [cur])).
      { apply (load_run _ _ v v).
        - rewrite lookup_app_l by lia. exact Hb.
        - rewrite Hv. reflexivity. }
      rewrite (bind_run _ _ _ _ _ Hload).
      unfold assign. cbn [arr_buf arr_view update_through].
      rewrite lookup_app_r by lia. rewrite Nat.sub_diag. cbn [lookup list_lookup].
      rewrite Hset. rewrite insert_app_r_alt by lia. rewrite Nat.sub_diag.
      reflexivity. }
    destruct (IH cur' ltac:(congruence)) as (R & us & Hrun & HRs & HR1 & HR2).
    exists R, (tt :: us). split.
    { cbn [forM]. rewrite (bind_run _ _ _ _ _ Hstep), (bind_run _ _ _ _ _ Hrun).
      reflexivity. }
    split; [exact HRs|].
    assert (Hcur' : forall c, index_mem (nd_shape A) (chunk_index chunk) c = true ->
                              nd_item cur' c = nd_item A c).
    { intros c Hm. unfold index_mem in Hm. rewrite Hax in Hm.
      rewrite Hitem', Hm. rewrite Hitems.
      - rewrite to_base_to_local by assumption. reflexivity.
      - apply to_local_in_bounds; assumption. }
    split.
    + intros c Hex. apply Exists_cons in Hex.
      destruct (classic_exists_rest chunks c A) as [Hrest|Hrest].
      * apply HR1, Hrest.
      * destruct Hex as [Hm|Hex]; [|contradiction].
        destruct (HR2 c) as [H|H]; [exact H|]. rewrite H. apply Hcur', Hm.
    + intros c. destruct (HR2 c) as [H|H]; [left; exact H|].
      rewrite H, Hitem'. unfold index_mem in Hcur'. rewrite Hax in Hcur'.
      destruct (in_axes axes c) eqn:Hin; [|right; reflexivity].
      left. rewrite <- (Hcur' c Hin), Hitem', Hin. reflexivity.
Qed.

End Materialise.

(** ** Converting a well-formed index *)

Lemma slice_mem_range (s : slice) (n i : Z) :
  slice_mem s n i = true ->
  exists st sp stp, slice_indices s n = Ok (st, sp, stp) /\
                    range_mem st sp stp i = true.
Proof.
  unfold slice_mem. destruct (slice_indices s n) as [[[st sp] stp]|];
    [|discriminate]. intros H. exists st, sp, stp. split; [reflexivity|exact H].
Qed.

Lemma convert_axis_valid (n : Z) (item : idx_item) :
  0 <= n -> valid_item n item ->
  exists st sp stp,
    convert_axis n item = Ok (Slice (Some st) (Some sp) (if item is IInt _ then None else Some stp)) /\
    slice_indices (Slice (Some st) (Some sp) (if item is IInt _ then None else Some stp)) n =
      Ok (st, sp, stp) /\
    0 < stp /\
    forall i, range_mem st sp stp i = item_mem n item i.
Proof.
  intros Hn. destruct item as [k|s|]; simpl; [| |contradiction].
  - intros Hk. exists k, (k + 1), 1.
    destruct (Z.leb_spec n k); [lia|]. split; [reflexivity|]. split.
    + unfold slice_indices. simpl.
      destruct (Z.ltb_spec n 0); [lia|].
      destruct (Z.ltb_spec k 0); [lia|].
      destruct (Z.ltb_spec (k + 1) 0); [lia|].
      rewrite !Z.min_l by lia. reflexivity.
    + split; [lia|]. intros i. unfold range_mem. simpl.
      destruct (Z.ltb_spec k 0); [lia|].
      rewrite Z.mod_1_r. simpl. rewrite andb_true_r.
      apply eq_true_iff_eq.
      rewrite !andb_true_iff, !Z.leb_le, !Z.ltb_lt, Z.eqb_eq. lia.
  - intros [Hp [i0 Hi0]].
    destruct (slice_indices_pos s n Hp Hn) as (st & sp & Hs & Hst & Hsp).
    unfold pos_step in Hp.
    exists st, sp, (step_of s). rewrite Hs. cbn [mbind result_bind].
    apply slice_mem_range in Hi0. destruct Hi0 as (st' & sp' & stp' & Hs' & Hm).
    rewrite Hs in Hs'. injection Hs' as <- <- <-.
    apply range_mem_pos in Hm; [|exact Hp].
    destruct (Z.eqb_spec (step_of s) 0); [lia|].
    destruct (Z.ltb_spec (step_of s) 0); [lia|].
    destruct (Z.eqb_spec st sp); [lia|].
    split; [reflexivity|]. split; [apply slice_indices_normal; lia|].
    split; [exact Hp|]. intros i. unfold slice_mem. rewrite Hs. reflexivity.
Qed.

(** A well-formed index converts to one positive-step slice per axis that
    selects the same coordinates. *)
Lemma convert_axes_valid (shape : list Z) (items : list idx_item) :
  Forall (fun n => 0 <= n) shape ->
  valid_items shape items ->
  exists idx axes,
    convert_axes shape
      (items ++ repeat (ISlice slice_all) (length shape - length items)) = Ok idx /\
    length idx = length shape /\
    Forall pos_step idx /\
    mapM (fun '(s, n) => slice_indices s n) (zip idx shape) = Ok axes /\
    forall c, in_axes axes c = items_mem shape items c.
Proof.
  intros Hs. revert items.
  induction Hs as [|n shape Hn Hs IH]; intros items Hv.
  - destruct items; [|contradiction]. exists [], []. simpl.
    repeat split; try constructor.
  - assert (Hstep : forall item items',
               valid_item n item -> valid_items shape items' ->
               exists idx axes,
                 convert_axes (n :: shape)
                   (item :: items' ++
                    repeat (ISlice slice_all) (length shape - length items')) =
                   Ok idx /\
                 length idx = length (n :: shape) /\
                 Forall pos_step idx /\
                 mapM (fun '(s, n) => slice_indices s n) (zip idx (n :: shape)) =
                   Ok axes /\
                 forall c, in_axes axes c =
                           match c with
                           | [] => false
                           | i :: c' => item_mem n item i && items_mem shape items' c'
                           end).
    { intros item items' Hi Hv'.
      destruct (convert_axis_valid n item Hn Hi) as (st & sp & stp & Hc & Hsi & Hp & Hm).
      destruct (IH items' Hv') as (idx & axes & Hc' & Hl & Hps & Hax & Hin).
      eexists (_ :: idx), ((st, sp, stp) :: axes).
      cbn [convert_axes]. rewrite Hc, Hc'. cbn [mbind result_bind].
      split; [reflexivity|]. split; [simpl; congruence|]. split.
      - constructor; [|exact Hps]. unfold pos_step.
        rewrite <- (slice_indices_step _ _ _ _ _ Hsi). exact Hp.
      - split.
        + cbn [zip zip_with mapM]. rewrite Hsi. cbn [mbind result_bind].
          fold (zip idx shape). rewrite Hax. reflexivity.
        + intros [|i c']; [reflexivity|]. simpl. rewrite Hm, Hin. reflexivity. }
    destruct items as [|item items'].
    + simpl in Hv. apply Forall_cons in Hv. destruct Hv as [Hn0 Hv].
      destruct (Hstep (ISlice slice_all) [] ) as (idx & axes & H1 & H2 & H3 & H4 & H5).
      { simpl. split; [reflexivity|]. exists 0.
        unfold slice_mem, slice_indices, range_mem; simpl.
        destruct (Z.ltb_spec n 0); [lia|]. simpl.
        destruct (Z.ltb_spec 0 n); [reflexivity|lia]. }
      { simpl. exact Hv. }
      exists idx, axes. simpl in H1. rewrite Nat.sub_0_r in H1.
      repeat split; try assumption.
      intros c. rewrite H5. destruct c as [|i c']; [reflexivity|].
      simpl. f_equal. unfold slice_mem, slice_indices, range_mem; simpl.
      destruct (Z.ltb_spec n 0); [lia|]. simpl.
      rewrite Z.sub_0_r, Z.mod_1_r. simpl. rewrite andb_true_r. reflexivity.
    + destruct Hv as [Hi Hv'].
      destruct (Hstep item items' Hi Hv') as (idx & axes & H1 & H2 & H3 & H4 & H5).
      exists idx, axes. repeat split; assumption.
Qed.

Lemma valid_items_length (shape : list Z) (items : list idx_item) :
  valid_items shape items -> (length items <= length shape)%nat.
Proof.
  revert shape. induction items as [|item items IH]; intros shape; simpl.
  - lia.
  - destruct shape as [|n shape]; [contradiction|]. intros [_ H].
    apply IH in H. simpl. lia.
Qed.

Lemma _convert_chunk_idx_to_slices_valid (shape : list Z) (idx : chunk_idx) :
  Forall (fun n => 0 <= n) shape ->
  valid_chunk_idx shape idx ->
  exists idx',
    _convert_chunk_idx_to_slices shape idx = Ok idx' /\
    length idx' = length shape /\
    Forall pos_step idx' /\
    (exists axes, axes_of shape idx' = Ok axes) /\
    forall c, index_mem shape idx' c = region_mem shape idx c.
Proof.
  intros Hs Hv. unfold valid_chunk_idx in Hv.
  pose proof (valid_items_length _ _ Hv) as Hlen.
  destruct (convert_axes_valid shape (items_of idx) Hs Hv)
    as (idx' & axes & H1 & H2 & H3 & H4 & H5).
  exists idx'. unfold _convert_chunk_idx_to_slices. fold (items_of idx).
  destruct (Nat.ltb_spec (length shape) (length (items_of idx))); [lia|].
  split; [exact H1|]. split; [exact H2|]. split; [exact H3|].
  rewrite <- axes_of_full in H4 by exact H2.
  split; [exists axes; exact H4|].
  intros c. unfold index_mem, region_mem. rewrite H4. apply H5.
Qed.

(** ** Normalising an index map *)

Lemma sort_insert_perm {K A} (ltb : K -> K -> bool) (x : K * A) (l : list (K * A)) :
  Permutation (sort_insert ltb x l) (x :: l).
Proof.
  induction l as [|y l IH]; simpl; [reflexivity|].
  destruct (ltb y.1 x.1); [|reflexivity].
  rewrite IH. apply perm_swap.
Qed.

Lemma sort_by_key_perm {K A} (ltb : K -> K -> bool) (l : list (K * A)) :
  Permutation (sort_by_key ltb l) (map snd l).
Proof.
  unfold sort_by_key. induction l as [|x l IH]; simpl; [reflexivity|].
  rewrite sort_insert_perm. simpl. rewrite IH. reflexivity.
Qed.

Lemma mapM_Forall2 {A B} (f : A -> result B) (R : A -> B -> Prop) (l : list A) :
  Forall (fun x => exists y, f x = Ok y /\ R x y) l ->
  exists ys, mapM f l = Ok ys /\ Forall2 R l ys.
Proof.
  induction 1 as [|x l [y [Hy Hr]] Hl [ys [Hys HR]]].
  - exists []. split; [reflexivity|constructor].
  - exists (y :: ys). simpl. rewrite Hy, Hys. split; [reflexivity|].
    constructor; assumption.
Qed.

Lemma mapM_app {A B} (f : A -> result B) (l1 l2 : list A) (ys1 ys2 : list B) :
  mapM f l1 = Ok ys1 -> mapM f l2 = Ok ys2 ->
  mapM f (l1 ++ l2) = Ok (ys1 ++ ys2).
Proof.
  revert ys1. induction l1 as [|x l1 IH]; intros ys1; simpl.
  - intros [= <-] H. exact H.
  - destruct (f x) as [y|]; cbn [mbind result_bind]; [|discriminate].
    destruct (mapM f l1) as [ys|]; cbn [mbind result_bind]; [|discriminate].
    intros [= <-] H2. rewrite (IH ys eq_refl H2). reflexivity.
Qed.

Lemma dict_find_fresh {A} (d : dict A) (k : Z) :
  ~ In k (map fst d) -> dict_find d k = None.
Proof.
  induction d as [|[k' v] d IH]; simpl; [reflexivity|].
  intros H. destruct (Z.eqb_spec k' k); [tauto|]. apply IH. tauto.
Qed.

Lemma dict_set_fresh {A} (d : dict A) (k : Z) (v : A) :
  ~ In k (map fst d) -> dict_set d k v = d ++ [(k, v)].
Proof.
  induction d as [|[k' v'] d IH]; simpl; [reflexivity|].
  intros H. destruct (Z.eqb_spec k' k); [tauto|]. rewrite IH by tauto. reflexivity.
Qed.

(** A chunk index as the conversion leaves it. *)
Definition good_index (shape : list Z) (idx : index) : Prop :=
  length idx = length shape /\ Forall pos_step idx /\
  exists axes, axes_of shape idx = Ok axes.

(** The conversion of [idx] gives [idx'], which selects what [idx] does. *)
Definition converts (shape : list Z) (idx : chunk_idx) (idx' : index) : Prop :=
  good_index shape idx' /\
  forall c, index_mem shape idx' c = region_mem shape idx c.

Lemma sort_key_good (shape : list Z) (idx : index) :
  good_index shape idx -> exists k, sort_key shape idx = Ok k.
Proof.
  intros (Hl & _ & axes & Hax). rewrite axes_of_full in Hax by exact Hl.
  exists axes. exact Hax.
Qed.

Lemma normalize_index_map_spec (shape : list Z) (index_map : dict idxs_arg)
      (acc : dict (list index)) :
  Forall (fun n => 0 <= n) shape ->
  NoDup (map fst acc ++ map fst index_map) ->
  Forall (valid_chunk_idx shape) (all_indices index_map) ->
  exists nim converted,
    normalize_index_map shape index_map acc = Ok (acc ++ nim) /\
    map fst nim = map fst index_map /\
    Forall2 (converts shape) (all_indices index_map) converted /\
    Permutation (flat_map snd nim) converted.
Proof.
  intros Hs. revert acc.
  induction index_map as [|[dev idxs] index_map IH]; intros acc Hnd Hv.
  - exists [], []. simpl. rewrite app_nil_r.
    repeat split; constructor.
  - unfold all_indices in Hv. simpl in Hv. apply Forall_app in Hv.
    destruct Hv as [Hv1 Hv2]. fold (all_indices index_map) in Hv2.
    destruct (mapM_Forall2 (_convert_chunk_idx_to_slices shape) (converts shape)
                (idxs_list idxs)) as (conv & Hconv & Hrel).
    { eapply Forall_impl; [exact Hv1|]. intros idx Hi. simpl in Hi.
      destruct (_convert_chunk_idx_to_slices_valid shape idx Hs Hi)
        as (idx' & H1 & H2 & H3 & H4 & H5).
      exists idx'. split; [exact H1|]. split; [|exact H5].
      split; [exact H2|]. split; [exact H3|exact H4]. }
    assert (Hgood : Forall (good_index shape) conv).
    { clear -Hrel. induction Hrel as [|x y l ys [Hg _] _ IH']; constructor; assumption. }
    destruct (mapM_Forall2 (fun slices => k ← sort_key shape slices; Ok (k, slices))
                (fun slices ks => ks.2 = slices) conv) as (keyed & Hkeyed & Hk).
    { eapply Forall_impl; [exact Hgood|]. intros idx' Hg. simpl.
      destruct (sort_key_good shape idx' Hg) as [k Hk]. exists (k, idx').
      rewrite Hk. split; reflexivity. }
    assert (Hsnd : map snd keyed = conv).
    { clear -Hk. induction Hk as [|x y l ys Hxy _ IH']; simpl; congruence. }
    simpl in Hnd.
    assert (Hfresh : ~ In dev (map fst acc)).
    { apply NoDup_app in Hnd. destruct Hnd as (_ & Hd & _).
      intros Hin. apply (Hd dev); [apply list_elem_of_In; exact Hin|left]. }
    destruct (IH (acc ++ [(dev, sort_by_key key_ltb keyed)])) as (nim & converted & Hn1 & Hn2 & Hn3 & Hn4).
    { rewrite map_app. simpl. rewrite <- app_assoc. exact Hnd. }
    { exact Hv2. }
    exists ((dev, sort_by_key key_ltb keyed) :: nim), (conv ++ converted).
    split; [|split; [|split]].
    + cbn [normalize_index_map]. fold (idxs_list idxs).
      rewrite Hconv. cbn [mbind result_bind]. rewrite Hkeyed. cbn [mbind result_bind].
      rewrite dict_set_fresh by exact Hfresh. rewrite Hn1, <- app_assoc. reflexivity.
    + simpl. f_equal. exact Hn2.
    + unfold all_indices. simpl. apply Forall2_app; assumption.
    + simpl. apply Permutation_app; [|exact Hn4].
      rewrite sort_by_key_perm, Hsnd. reflexivity.
Qed.

(** ** Building the chunks *)

Lemma pairwise_app {A} (P : A -> A -> Prop) (l1 l2 : list A) :
  pairwise P (l1 ++ l2) <->
  pairwise P l1 /\ pairwise P l2 /\ Forall (fun x => Forall (P x) l2) l1.
Proof.
  induction l1 as [|x l1 IH]; simpl.
  - split; [intros H; repeat split; (assumption || constructor)|tauto].
  - rewrite IH, Forall_app, Forall_cons. tauto.
Qed.

Lemma pairwise_perm {A} (P : A -> A -> Prop) (l1 l2 : list A) :
  (forall x y, P x y -> P y x) ->
  Permutation l1 l2 -> pairwise P l1 -> pairwise P l2.
Proof.
  intros Hsym Hperm. induction Hperm as [|x l l' Hp IH|x y l|l l' l'' H1 IH1 H2 IH2];
    simpl.
  - tauto.
  - intros [H1 H2]. split; [rewrite <- Hp; exact H1|apply IH, H2].
  - intros [H1 [H2 H3]]. apply Forall_cons in H1. destruct H1 as [Hyx H1].
    repeat split; try assumption. constructor; [apply Hsym, Hyx|exact H2].
  - intros H. apply IH2, IH1, H.
Qed.

Lemma pairwise_Forall2 {A B} (P : A -> A -> Prop) (Q : B -> B -> Prop)
      (R : A -> B -> Prop) (l : list A) (l' : list B) :
  (forall x y x' y', R x x' -> R y y' -> P x y -> Q x' y') ->
  Forall2 R l l' -> pairwise P l -> pairwise Q l'.
Proof.
  intros HPQ HR. induction HR as [|x x' l l' Hx HR IH]; simpl; [tauto|].
  intros [H1 H2]. split; [|apply IH, H2].
  clear IH H2. induction HR as [|y y' l l' Hy HR IH]; [constructor|].
  apply Forall_cons in H1. destruct H1 as [Hxy H1].
  constructor; [eapply HPQ; eassumption|apply IH, H1].
Qed.

(** Two indices that select no common coordinate. *)
Definition index_disjoint (shape : list Z) (i1 i2 : index) : Prop :=
  forall c, ~ (index_mem shape i1 c = true /\ index_mem shape i2 c = true).

Section MakeChunks.

Context {V : Type} `{!Dtype V} `{!Runtime V}.

Variable arr : array.
Variable A : ndarray V.

(** Whether construction in the mode resets the regions it has copied. *)
Definition resets (mode : _Mode V) : bool :=
  match mode with
  | Some op => negb (idempotent op)
  | None => false
  end.

Definition covered (done : list index) (c : list Z) : Prop :=
  Exists (fun idx => index_mem (nd_shape A) idx c = true) done.

(** What the source array holds while the chunks are built: the elements of
    [A], except, in a mode that resets, over the regions already done. *)
Definition source_inv (mode : _Mode V) (σ : store V) (done : list index)
  : Prop :=
  exists P,
    load arr σ = (Ok P, σ) /\
    nd_shape P = nd_shape A /\
    forall c, resets mode = false \/ ~ covered done c ->
              nd_item P c = nd_item A c.


Lemma load_lt (r : array) (σ : store V) (x : ndarray V) :
  load r σ = (Ok x, σ) -> (arr_buf r < length σ)%nat.
Proof.
  unfold load. destruct (σ !! arr_buf r) eqn:E; [|discriminate].
  intros _. eapply lookup_lt_Some, E.
Qed.

Lemma load_agree (r : array) (σ σ' : store V) (x : ndarray V) :
  load r σ = (Ok x, σ) -> σ' !! arr_buf r = σ !! arr_buf r ->
  load r σ' = (Ok x, σ').
Proof.
  unfold load. intros H E. rewrite E.
  destruct (σ !! arr_buf r); [|discriminate].
  injection H as H. rewrite H. reflexivity.
Qed.

Lemma chunk_holds_agree (σ σ' : store V) (chunk : _Chunk) :
  σ' !! arr_buf (chunk_data chunk) = σ !! arr_buf (chunk_data chunk) ->
  chunk_holds σ A chunk -> chunk_holds σ' A chunk.
Proof.
  intros E (H1 & H2 & H3 & H4 & v & axes & Hb & Hrest).
  repeat split; try assumption. exists v, axes. split; [|exact Hrest].
  rewrite E. exact Hb.
Qed.

Lemma make_chunk_run (mode : _Mode V) (dev : Z) (idx : index)
      (done : list index) (σ : store V) :
  (resets mode = true -> arr_view arr = []) ->
  source_inv mode σ done ->
  good_index (nd_shape A) idx ->
  (resets mode = true -> Forall (fun i => index_disjoint (nd_shape A) i idx) done) ->
  exists σ',
    make_chunk arr mode dev idx σ =
      (Ok (Chunk (Array dev (length σ) []) idx []), σ') /\
    chunk_holds σ' A (Chunk (Array dev (length σ) []) idx []) /\
    source_inv mode σ' (done ++ [idx]) /\
    length σ' = S (length σ) /\
    forall b, (b < length σ)%nat -> b <> arr_buf arr -> σ' !! b = σ !! b.
Proof.
  intros arr_whole (P & Hload & HPs & HP) (Hl & Hp & axes & Hax) Hdis.
  pose proof (axes_of_pos _ _ _ Hp Hax) as Hpos.
  pose proof (load_lt _ _ _ Hload) as Hlt.
  assert (HaxP : axes_of (nd_shape P) idx = Ok axes) by (rewrite HPs; exact Hax).
  pose proof (getitem_ok P idx axes HaxP) as Hget.
  set (part := NDArray (view_shape axes) (fun c => nd_item P (to_base axes c))) in *.
  assert (Hsub : subscript arr idx σ =
                 (Ok (Array (arr_dev arr) (arr_buf arr) (arr_view arr ++ [idx])), σ)).
  { unfold subscript. rewrite (bind_run _ _ _ _ _ Hload).
    unfold lift. unfold mbind at 1, M_bind. rewrite Hget. reflexivity. }
  assert (Hloadpart : load (Array (arr_dev arr) (arr_buf arr) (arr_view arr ++ [idx])) σ =
                      (Ok part, σ)).
  { revert Hload. unfold load. cbn [arr_buf arr_view].
    destruct (σ !! arr_buf arr) as [base|]; [|discriminate].
    rewrite through_app. intros [= Hth]. rewrite Hth. cbn [mbind result_bind].
    simpl. rewrite Hget. reflexivity. }
  assert (Hcopy : copy_to dev (Array (arr_dev arr) (arr_buf arr) (arr_view arr ++ [idx])) σ =
                  (Ok (Array dev (length σ) []), σ ++ [part])).
  { unfold copy_to. rewrite (bind_run _ _ _ _ _ Hloadpart). reflexivity. }
  assert (Hpart : forall c, in_bounds (view_shape axes) c = true ->
                            nd_item part c = nd_item A (to_base axes c)).
  { intros c Hc. simpl. apply HP.
    destruct (resets mode) eqn:Hr; [right|left; reflexivity].
    intros Hcov. apply Exists_exists in Hcov. destruct Hcov as (i & Hi & Hm).
    specialize (Hdis eq_refl). rewrite Forall_forall in Hdis.
    apply (Hdis i Hi (to_base axes c)). split; [exact Hm|].
    unfold index_mem. rewrite Hax.
    apply in_axes_to_base; assumption. }
  unfold make_chunk.
  rewrite (bind_run _ _ _ _ _ Hsub), (bind_run _ _ _ _ _ Hcopy).
  assert (Hholds : forall σ' : store V,
             σ' !! length σ = Some part ->
             chunk_holds σ' A (Chunk (Array dev (length σ) []) idx [])).
  { intros σ' Hb. repeat split; try assumption; try reflexivity.
    exists part, axes. repeat split; assumption. }
  destruct (resets mode) eqn:Hr.
  - (* the region is reset in the source *)
    destruct mode as [op|]; [|discriminate]. simpl in Hr. rewrite Hr.
    specialize (arr_whole eq_refl).
    assert (Hbase : σ !! arr_buf arr = Some P).
    { revert Hload. unfold load. rewrite arr_whole.
      destruct (σ !! arr_buf arr); [|discriminate]. simpl. congruence. }
    pose proof (setitem_scalar_ok P idx (identity_of op) axes HaxP) as Hset.
    set (P' := NDArray (nd_shape P)
                 (fun c => if in_axes axes c then identity_of op else nd_item P c)) in *.
    assert (Hassign : assign arr idx (scalar (identity_of op)) (σ ++ [part]) =
                      (Ok tt, <[arr_buf arr := P']> (σ ++ [part]))).
    { unfold assign. rewrite lookup_app_l by lia. rewrite Hbase, arr_whole.
      cbn [update_through]. rewrite Hset. reflexivity. }
    rewrite (bind_run _ _ _ _ _ Hassign).
    exists (<[arr_buf arr := P']> (σ ++ [part])).
    split; [reflexivity|]. split; [|split; [|split]].
    + apply Hholds. rewrite list_lookup_insert_ne by lia.
      rewrite lookup_app_r by lia. rewrite Nat.sub_diag. reflexivity.
    + exists P'. split; [|split; [exact HPs|]].
      * apply (load_run _ _ P' P'); [|rewrite arr_whole; reflexivity].
        apply list_lookup_insert_eq. rewrite length_app. lia.
      * intros c [Hf|Hc]; [simpl in Hf; congruence|]. simpl.
        destruct (in_axes axes c) eqn:Hin.
        -- exfalso. apply Hc. apply Exists_app. right. constructor.
           unfold index_mem. rewrite Hax. exact Hin.
        -- apply HP. right. intros Hcov. apply Hc. apply Exists_app. left. exact Hcov.
    + rewrite length_insert, length_app. simpl. lia.
    + intros b Hb Hne. rewrite list_lookup_insert_ne by congruence.
      apply lookup_app_l. exact Hb.
  - (* the source is left as it is *)
    assert (Hnone : (match mode with
                     | Some op => if negb (idempotent op)
                                  then assign arr idx (scalar (identity_of op))
                                  else mret tt
                     | None => mret tt
                     end) (σ ++ [part]) = (Ok tt, σ ++ [part])).
    { destruct mode as [op|]; [|reflexivity]. simpl in Hr. rewrite Hr. reflexivity. }
    rewrite (bind_run _ _ _ _ _ Hnone).
    exists (σ ++ [part]).
    split; [reflexivity|]. split; [|split; [|split]].
    + apply Hholds. rewrite lookup_app_r by lia. rewrite Nat.sub_diag. reflexivity.
    + exists P. split; [|split; [exact HPs|]].
      * apply (load_agree _ σ); [exact Hload|]. apply lookup_app_l. exact Hlt.
      * intros c _. apply HP. left. reflexivity.
    + rewrite length_app. simpl. lia.
    + intros b Hb _. apply lookup_app_l. exact Hb.
Qed.

Lemma make_chunks_dev (mode : _Mode V) (dev : Z) (idxs done : list index)
      (σ : store V) :
  (resets mode = true -> arr_view arr = []) ->
  source_inv mode σ done ->
  Forall (good_index (nd_shape A)) idxs ->
  (resets mode = true ->
   pairwise (index_disjoint (nd_shape A)) (done ++ idxs)) ->
  exists chunks σ',
    forM (make_chunk arr mode dev) idxs σ = (Ok chunks, σ') /\
    map chunk_index chunks = idxs /\
    Forall (chunk_holds σ' A) chunks /\
    source_inv mode σ' (done ++ idxs) /\
    (length σ <= length σ')%nat /\
    (forall b, (b < length σ)%nat -> b <> arr_buf arr -> σ' !! b = σ !! b) /\
    Forall (fun chunk => (length σ <= arr_buf (chunk_data chunk))%nat) chunks.
Proof.
  intros Hwhole Hinv Hgood. revert done σ Hinv.
  induction Hgood as [|idx idxs Hg Hgood IH]; intros done σ Hinv Hdis.
  - exists [], σ. rewrite app_nil_r. simpl.
    repeat split; try constructor; auto.
  - destruct (make_chunk_run mode dev idx done σ Hwhole Hinv Hg)
      as (σ1 & Hrun1 & Hh1 & Hinv1 & Hlen1 & Hag1).
    { intros Hr. specialize (Hdis Hr). apply pairwise_app in Hdis.
      destruct Hdis as (_ & _ & Hd). eapply Forall_impl; [exact Hd|].
      intros i Hi. simpl in Hi. apply Forall_cons in Hi. tauto. }
    destruct (IH (done ++ [idx]) σ1 Hinv1) as
      (chunks & σ' & Hrun & Hidx & Hh & Hinv' & Hlen & Hag & Hbufs).
    { intros Hr. rewrite <- app_assoc. simpl. apply Hdis, Hr. }
    destruct Hinv as (P & Hload & _). pose proof (load_lt _ _ _ Hload) as Hlt.
    exists (Chunk (Array dev (length σ) []) idx [] :: chunks), σ'.
    split; [|split; [|split; [|split; [|split; [|split]]]]].
    + cbn [forM]. rewrite (bind_run _ _ _ _ _ Hrun1), (bind_run _ _ _ _ _ Hrun).
      reflexivity.
    + simpl. f_equal. exact Hidx.
    + constructor; [|exact Hh].
      apply (chunk_holds_agree σ1); [|exact Hh1].
      apply Hag; simpl; lia.
    + rewrite <- app_assoc in Hinv'. exact Hinv'.
    + lia.
    + intros b Hb Hne. rewrite Hag by (try lia; exact Hne). apply Hag1; assumption.
    + constructor; [simpl; lia|].
      eapply Forall_impl; [exact Hbufs|]. simpl. intros; lia.
Qed.

Lemma make_chunks_run (mode : _Mode V) (nim : dict (list index))
      (acc : dict (list _Chunk)) (done : list index) (σ : store V) :
  (resets mode = true -> arr_view arr = []) ->
  source_inv mode σ done ->
  Forall (good_index (nd_shape A)) (flat_map snd nim) ->
  NoDup (map fst acc ++ map fst nim) ->
  (resets mode = true ->
   pairwise (index_disjoint (nd_shape A)) (done ++ flat_map snd nim)) ->
  exists cm σ',
    foldM (fun chunks_map '(dev, idxs) =>
             chunks ← forM (make_chunk arr mode dev) idxs;
             mret (dict_set chunks_map dev chunks))
          acc nim σ = (Ok (acc ++ cm), σ') /\
    map fst cm = map fst nim /\
    map chunk_index (flatten cm) = flat_map snd nim /\
    Forall (chunk_holds σ' A) (flatten cm) /\
    (length σ <= length σ')%nat /\
    (forall b, (b < length σ)%nat -> b <> arr_buf arr -> σ' !! b = σ !! b) /\
    Forall (fun chunk => (length σ <= arr_buf (chunk_data chunk))%nat) (flatten cm).
Proof.
  intros Hwhole. revert acc done σ.
  induction nim as [|[dev idxs] nim IH]; intros acc done σ Hinv Hgood Hnd Hdis.
  - exists [], σ. simpl. rewrite app_nil_r.
    repeat split; try constructor; auto.
  - simpl in Hgood. apply Forall_app in Hgood. destruct Hgood as [Hg1 Hg2].
    destruct (make_chunks_dev mode dev idxs done σ Hwhole Hinv Hg1)
      as (chunks & σ1 & Hrun1 & Hidx1 & Hh1 & Hinv1 & Hlen1 & Hag1 & Hb1).
    { intros Hr. specialize (Hdis Hr). simpl in Hdis. rewrite app_assoc in Hdis.
      apply pairwise_app in Hdis. tauto. }
    simpl in Hnd.
    assert (Hfresh : ~ In dev (map fst acc)).
    { apply NoDup_app in Hnd. destruct Hnd as (_ & Hd & _).
      intros Hin. apply (Hd dev); [apply list_elem_of_In; exact Hin|left]. }
    destruct (IH (acc ++ [(dev, chunks)]) (done ++ idxs) σ1 Hinv1 Hg2)
      as (cm & σ' & Hrun & Hkeys & Hidx & Hh & Hlen & Hag & Hb).
    { rewrite map_app. simpl. rewrite <- app_assoc. exact Hnd. }
    { intros Hr. rewrite <- app_assoc. apply Hdis, Hr. }
    destruct Hinv as (P & Hload & _). pose proof (load_lt _ _ _ Hload) as Hlt.
    exists ((dev, chunks) :: cm), σ'.
    split; [|split; [|split; [|split; [|split; [|split]]]]].
    + cbn [foldM].
      assert (Hstep : (forM (make_chunk arr mode dev) idxs
                       ≫= λ chunks0, mret (dict_set acc dev chunks0)) σ =
                      (Ok (dict_set acc dev chunks), σ1))
        by (rewrite (bind_run _ _ _ _ _ Hrun1); reflexivity).
      rewrite (bind_run _ _ _ _ _ Hstep).
      rewrite dict_set_fresh by exact Hfresh.
      rewrite Hrun, <- app_assoc. reflexivity.
    + simpl. f_equal. exact Hkeys.
    + unfold flatten in *. simpl. rewrite map_app, Hidx1, Hidx. reflexivity.
    + unfold flatten in *. simpl. apply Forall_app. split; [|exact Hh].
      rewrite Forall_forall in Hh1, Hb1 |- *. intros chunk Hin.
      apply (chunk_holds_agree σ1); [|apply Hh1, Hin].
      destruct (Hh1 chunk Hin) as (_ & _ & _ & _ & v & axes & Hlook & _).
      pose proof (lookup_lt_Some _ _ _ Hlook).
      specialize (Hb1 chunk Hin). simpl in Hb1.
      apply Hag; lia.
    + lia.
    + intros b Hb' Hne. rewrite Hag by (try lia; exact Hne). apply Hag1; assumption.
    + unfold flatten in *. simpl. apply Forall_app. split.
      * exact Hb1.
      * eapply Forall_impl; [exact Hb|]. simpl. intros; lia.
Qed.

End MakeChunks.

(** ** distributed_array, then asnumpy *)

Section RoundTrip.

Context {V : Type} `{!Dtype V} `{!Runtime V}.

Lemma asnumpy_replica (d : _DistributedArray V) (A : ndarray V) (σ : store V) :
  _mode d = None ->
  da_shape d = nd_shape A ->
  nd_shape A <> [] ->
  Forall (chunk_holds σ A) (flatten (_chunks_map d)) ->
  exists R,
    asnumpy d σ = (Ok (Array (-1) (length σ) [], d), σ ++ [R]) /\
    nd_shape R = nd_shape A /\
    forall c,
      Exists (fun chunk => index_mem (nd_shape A) (chunk_index chunk) c = true)
             (flatten (_chunks_map d)) ->
      nd_item R c = nd_item A c.
Proof.
  intros Hmode Hshape Hnd Hall. destruct d as [shape cm mode comms].
  simpl in *. subst mode shape.
  unfold asnumpy. cbn [_mode _chunks_map da_shape _comms].
  assert (Hdrain : map_chunks (fun chunk => _apply_updates chunk None) cm σ =
                   (Ok cm, σ)).
  { apply map_chunks_same. eapply Forall_impl; [exact Hall|].
    intros chunk (_ & Hu & _). apply _apply_updates_none, Hu. }
  rewrite (bind_run _ _ _ _ _ Hdrain).
  set (np0 := NDArray (nd_shape A) (junk (length σ))).
  assert (Hnew : new_host_array None (nd_shape A) σ =
                 (Ok (Array (-1) (length σ) []), σ ++ [np0])).
  { unfold new_host_array, atleast_1d. simpl.
    destruct (nd_shape A); [contradiction|reflexivity]. }
  rewrite (bind_run _ _ _ _ _ Hnew).
  destruct (write_chunks_replica A (flatten cm) σ np0 Hall eq_refl)
    as (R & us & Hrun & HRs & HR1 & _).
  rewrite (bind_run _ _ _ _ _ Hrun).
  exists R. split; [reflexivity|]. split; [exact HRs|exact HR1].
Qed.

Lemma _DistributedArray_new_ok (shape : list Z) (cm : dict (list _Chunk))
      (mode : _Mode V) (comms : option (list Z)) :
  has_comms comms = true \/ nccl_available = true ->
  exists cs,
    _DistributedArray_new shape cm mode comms =
      Ok (DistributedArray shape cm mode cs) /\
    (cs <> [] \/ nccl_available = true).
Proof.
  intros H. unfold _DistributedArray_new.
  destruct comms as [[|c cs]|]; simpl in H.
  - destruct H as [H|H]; [discriminate|]. rewrite H.
    eexists. split; [reflexivity|]. right. reflexivity.
  - eexists. split; [reflexivity|]. left. discriminate.
  - destruct H as [H|H]; [discriminate|]. rewrite H.
    eexists. split; [reflexivity|]. right. reflexivity.
Qed.

Lemma Forall2_Exists_r {A B} (R : A -> B -> Prop) (P : A -> Prop) (Q : B -> Prop)
      (l : list A) (l' : list B) :
  (forall x y, R x y -> P x -> Q y) ->
  Forall2 R l l' -> Exists P l -> Exists Q l'.
Proof.
  intros HPQ HR. induction HR as [|x y l l' Hxy HR IH]; intros Hex.
  - inversion Hex.
  - apply Exists_cons in Hex. destruct Hex as [Hx|Hex].
    + left. eapply HPQ; eassumption.
    + right. apply IH, Hex.
Qed.

Lemma Forall2_Forall_right {A B} (R : A -> B -> Prop) (Q : B -> Prop)
      (l : list A) (l' : list B) :
  (forall x y, R x y -> Q y) -> Forall2 R l l' -> Forall Q l'.
Proof.
  intros HQ HR. induction HR; constructor; eauto.
Qed.

(** The first steps of [distributed_array], up to the chunks. *)
Lemma source_array_run (arr : array_like V) (A : ndarray V) (mode : string)
      (σ : store V) :
  array_like_value σ arr A ->
  exists r0 σ0,
    match arr with
    | OtherLike v => alloc (-1) v
    | NumpyArray a | CupyArray a =>
        if negb (String.eqb mode "replica") then copy_to (arr_dev a) a
        else mret a
    end σ = (Ok r0, σ0) /\
    load r0 σ0 = (Ok A, σ0) /\
    (String.eqb mode "replica" = false -> arr_view r0 = []).
Proof.
  intros Hval.
  assert (Hfresh : forall dev, load (Array dev (length σ) []) (σ ++ [A]) =
                               (Ok A, σ ++ [A])).
  { intros dev. apply (load_run _ _ A A); [|reflexivity]. simpl.
    rewrite lookup_app_r by lia. rewrite Nat.sub_diag. reflexivity. }
  assert (Hcopy : forall a, load a σ = (Ok A, σ) ->
                            copy_to (arr_dev a) a σ =
                            (Ok (Array (arr_dev a) (length σ) []), σ ++ [A])).
  { intros a Ha. unfold copy_to. rewrite (bind_run _ _ _ _ _ Ha). reflexivity. }
  destruct arr as [a|a|v]; simpl in Hval.
  - destruct (String.eqb mode "replica"); cbn [negb].
    + exists a, σ. repeat split; [exact Hval|discriminate].
    + eexists _, _. split; [apply Hcopy, Hval|]. split; [apply Hfresh|reflexivity].
  - destruct (String.eqb mode "replica"); cbn [negb].
    + exists a, σ. repeat split; [exact Hval|discriminate].
    + eexists _, _. split; [apply Hcopy, Hval|]. split; [apply Hfresh|reflexivity].
  - subst v. eexists _, _. split; [reflexivity|]. split; [apply Hfresh|reflexivity].
Qed.

Lemma lift_run {A} (r : result A) (a : A) (σ : store V) :
  r = Ok a -> lift r σ = (Ok a, σ).
Proof. intros ->. reflexivity. Qed.

Lemma index_disjoint_sym (shape : list Z) (i1 i2 : index) :
  index_disjoint shape i1 i2 -> index_disjoint shape i2 i1.
Proof. intros H c [H1 H2]. apply (H c). split; assumption. Qed.

Lemma converted_disjoint (shape : list Z) (index_map : dict idxs_arg)
      (converted : list index) :
  Forall2 (converts shape) (all_indices index_map) converted ->
  regions_disjoint shape index_map ->
  pairwise (index_disjoint shape) converted.
Proof.
  intros HR Hd. eapply pairwise_Forall2; [|exact HR|exact Hd].
  intros x y x' y' [_ Hx] [_ Hy] Hxy c. rewrite Hx, Hy. apply Hxy.
Qed.

(** [distributed_array] on a well-formed index map: the array that comes
    back has a chunk for each index of the map, converted, and each chunk
    holds the elements of [A] that its index selects.  In a mode that
    resets the source the regions must not overlap. *)
Lemma distributed_array_run (arr : array_like V) (A : ndarray V)
      (index_map : dict idxs_arg) (mode : string) (mode_obj : _Mode V)
      (comms : option (list Z)) (σ : store V) :
  str_find _MODES mode = Some mode_obj ->
  array_like_value σ arr A ->
  Forall (fun n => 0 <= n) (nd_shape A) ->
  NoDup (map fst index_map) ->
  Forall (valid_chunk_idx (nd_shape A)) (all_indices index_map) ->
  (resets mode_obj = true -> regions_disjoint (nd_shape A) index_map) ->
  has_comms comms = true \/ nccl_available = true ->
  exists cm cs σ1 converted,
    distributed_array arr index_map mode comms σ =
      (Ok (DistributedArray (nd_shape A) cm mode_obj cs), σ1) /\
    (cs <> [] \/ nccl_available = true) /\
    Forall (chunk_holds σ1 A) (flatten cm) /\
    Forall2 (converts (nd_shape A)) (all_indices index_map) converted /\
    Permutation (map chunk_index (flatten cm)) converted.
Proof.
  intros Hmode Hval Hshape Hnd Hvalid Hdis Hcomms.
  unfold distributed_array. rewrite Hmode.
  destruct (source_array_run arr A mode σ Hval) as (r0 & σ0 & Hsrc & Hload & Hwhole).
  rewrite (bind_run _ _ _ _ _ Hsrc), (bind_run _ _ _ _ _ Hload).
  destruct (normalize_index_map_spec (nd_shape A) index_map [] Hshape)
    as (nim & converted & Hnorm & Hkeys & Hconv & Hperm);
    [exact Hnd|exact Hvalid|].
  simpl in Hnorm.
  rewrite (bind_run _ _ _ _ _ (lift_run _ _ σ0 Hnorm)).
  assert (Hgood : Forall (good_index (nd_shape A)) (flat_map snd nim)).
  { rewrite Hperm. eapply Forall2_Forall_right; [|exact Hconv].
    intros x y [Hg _]. exact Hg. }
  destruct (make_chunks_run r0 A mode_obj nim [] [] σ0)
    as (cm & σ1 & Hrun & Hk & Hidx & Hh & _).
  - intros Hr. apply Hwhole. destruct mode_obj as [op|]; [|discriminate].
    eapply replica_is_the_only_name, Hmode.
  - exists A. split; [exact Hload|]. split; [reflexivity|]. intros; reflexivity.
  - exact Hgood.
  - simpl. rewrite Hkeys. exact Hnd.
  - intros Hr. simpl. eapply pairwise_perm; [apply index_disjoint_sym| |].
    + symmetry. exact Hperm.
    + eapply converted_disjoint; [exact Hconv|apply Hdis, Hr].
  - simpl in Hrun. unfold make_chunks. rewrite (bind_run _ _ _ _ _ Hrun).
    destruct (_DistributedArray_new_ok (nd_shape A) cm mode_obj comms Hcomms)
      as (cs & Hnew & Hcs).
    exists cm, cs, σ1, converted. unfold lift. rewrite Hnew.
    split; [reflexivity|]. split; [exact Hcs|]. split; [exact Hh|].
    split; [exact Hconv|]. rewrite Hidx. exact Hperm.
Qed.

Lemma covered_by_chunks (shape : list Z) (index_map : dict idxs_arg)
      (converted : list index) (chunks : list _Chunk) (c : list Z) :
  Forall2 (converts shape) (all_indices index_map) converted ->
  Permutation (map chunk_index chunks) converted ->
  Exists (fun idx => region_mem shape idx c = true) (all_indices index_map) ->
  Exists (fun chunk => index_mem shape (chunk_index chunk) c = true) chunks.
Proof.
  intros Hconv Hperm Hex.
  assert (H1 : Exists (fun idx' => index_mem shape idx' c = true) converted).
  { eapply Forall2_Exists_r; [|exact Hconv|exact Hex].
    intros x y [_ Hm] Hx. simpl. rewrite Hm. exact Hx. }
  rewrite <- Hperm in H1. apply Exists_exists in H1.
  destruct H1 as (idx' & Hin & Hm). apply list_elem_of_In, in_map_iff in Hin.
  destruct Hin as (chunk & <- & Hin). apply Exists_exists.
  exists chunk. split; [apply list_elem_of_In; exact Hin|exact Hm].
Qed.

(** C1, for arrays of at least one dimension. For a host array [A] with at
    least one dimension and a well-formed index map whose regions cover the
    shape of [A] without gaps, [distributed_array] in replica mode followed
    by [asnumpy] returns an array equal to [A]: the same shape and the same
    elements. *)
Theorem C1_replica_round_trip (arr : array_like V) (A : ndarray V)
        (index_map : dict idxs_arg) (comms : option (list Z)) (σ : store V) :
  array_like_value σ arr A ->
  nd_shape A <> [] ->
  Forall (fun n => 0 <= n) (nd_shape A) ->
  NoDup (map fst index_map) ->
  Forall (valid_chunk_idx (nd_shape A)) (all_indices index_map) ->
  covers (nd_shape A) index_map ->
  has_comms comms = true \/ nccl_available = true ->
  exists d d' np σ1 σ2 R,
    distributed_array arr index_map "replica" comms σ = (Ok d, σ1) /\
    asnumpy d σ1 = (Ok (np, d'), σ2) /\
    load np σ2 = (Ok R, σ2) /\
    nd_eq R A.
Proof.
  intros Hval Hdim Hshape Hnd Hvalid Hcov Hcomms.
  destruct (distributed_array_run arr A index_map "replica" None comms σ)
    as (cm & cs & σ1 & converted & Hrun & _ & Hh & Hconv & Hperm);
    try assumption; [reflexivity|discriminate|].
  destruct (asnumpy_replica (DistributedArray (nd_shape A) cm None cs) A σ1)
    as (R & Has & HRs & HR); try assumption; try reflexivity.
  eexists _, _, _, σ1, _, R. split; [exact Hrun|]. split; [exact Has|].
  split.
  - apply (load_run _ _ R R); [|reflexivity]. simpl.
    rewrite lookup_app_r by lia. rewrite Nat.sub_diag. reflexivity.
  - split; [exact HRs|]. intros c Hc. apply HR. simpl.
    eapply covered_by_chunks; [exact Hconv|exact Hperm|].
    apply Hcov. rewrite <- HRs. exact Hc.
Qed.

End RoundTrip.

(** ** The round trip on concrete arrays *)

Lemma slice2_mem (a b n i : Z) :
  0 <= a -> a <= b -> b <= n ->
  slice_mem (slice2 a b) n i = (a <=? i) && (i <? b).
Proof.
  intros Ha Hab Hbn. unfold slice_mem, slice_indices, slice2. simpl.
  destruct (Z.ltb_spec n 0); [lia|].
  destruct (Z.ltb_spec a 0); [lia|]. destruct (Z.ltb_spec b 0); [lia|].
  rewrite !Z.min_l by lia. unfold range_mem. simpl.
  rewrite Z.mod_1_r. simpl. apply andb_true_r.
Qed.

Lemma rows_index_map_valid :
  Forall (valid_chunk_idx [4; 4]) (all_indices rows_index_map).
Proof.
  repeat constructor; try reflexivity; try (exists 0; reflexivity);
    exists 2; reflexivity.
Qed.

Lemma rows_index_map_covers : covers [4; 4] rows_index_map.
Proof.
  intros c Hc. destruct c as [|i [|j [|k c]]]; try discriminate.
  - simpl in Hc. rewrite andb_false_r in Hc. discriminate.
  - simpl in Hc. rewrite !andb_true_iff, !Z.leb_le, !Z.ltb_lt in Hc.
    unfold all_indices, rows_index_map. simpl.
    destruct (Z.lt_ge_cases i 2).
    + left. unfold region_mem. simpl. rewrite !slice2_mem by lia.
      rewrite !andb_true_iff, !Z.leb_le, !Z.ltb_lt. lia.
    + right. left. unfold region_mem. simpl. rewrite !slice2_mem by lia.
      rewrite !andb_true_iff, !Z.leb_le, !Z.ltb_lt. lia.
  - simpl in Hc. rewrite !andb_false_r in Hc. discriminate.
Qed.

Lemma rows_index_map_disjoint : regions_disjoint [4; 4] rows_index_map.
Proof.
  unfold regions_disjoint, all_indices, rows_index_map. simpl.
  repeat split; try constructor; try constructor.
  intros c [H1 H2]. unfold region_mem in H1, H2.
  destruct c as [|i [|j [|k c]]]; simpl in H1, H2;
    rewrite ?andb_false_r in H1; try discriminate.
  rewrite !slice2_mem in H1, H2 by lia.
  rewrite !andb_true_iff, !Z.leb_le, !Z.ltb_lt in H1, H2. lia.
Qed.

Ltac distinct_keys :=
  simpl;
  repeat (apply NoDup_cons_2;
          [repeat (apply not_elem_of_cons; split; [lia|]); apply not_elem_of_nil|]);
  apply NoDup_nil_2.

Ltac nonneg_shape :=
  cbv [nd_shape array1 array2 len length Z.of_nat Pos.of_succ_nat Pos.succ];
  repeat (constructor; [lia|]); constructor.

Lemma C1_replica_round_trip_witness :
  array_like_value [] (OtherLike array_4x4) array_4x4 /\
  nd_shape array_4x4 <> [] /\
  covers (nd_shape array_4x4) rows_index_map /\
  exists d d' np σ1 σ2 R,
    distributed_array (OtherLike array_4x4) rows_index_map "replica" None [] =
      (Ok d, σ1) /\
    asnumpy d σ1 = (Ok (np, d'), σ2) /\
    load np σ2 = (Ok R, σ2) /\
    nd_eq R array_4x4.
Proof.
  split; [reflexivity|]. split; [discriminate|].
  split; [exact rows_index_map_covers|].
  apply (C1_replica_round_trip (OtherLike array_4x4) array_4x4 rows_index_map
           None []).
  - reflexivity.
  - discriminate.
  - unfold array_4x4. nonneg_shape.
  - distinct_keys.
  - exact rows_index_map_valid.
  - exact rows_index_map_covers.
  - right. reflexivity.
Defined.

(** C1 as stated fails for a 0-dimensional array: the index map [{0: ()}]
    covers the shape [()], the calls return, and [asnumpy] gives an array of
    shape [(1,)], [atleast_1d] of the result, not the array of shape [()]
    that went in. *)
Lemma C1_zero_dim_counterexample :
  array_like_value [] (OtherLike (scalar 7)) (scalar 7) /\
  Forall (valid_chunk_idx []) (all_indices [(0, IdxOne (ITuple []))]) /\
  covers [] [(0, IdxOne (ITuple []))] /\
  (exists R,
     (replica_round_trip (OtherLike (scalar 7)) [(0, IdxOne (ITuple []))] None
                         []).1 = Ok R /\
     nd_shape R = [1] /\ nd_to_list R = [7]) /\
  ~ exists d d' np σ1 σ2 R,
      distributed_array (OtherLike (scalar 7)) [(0, IdxOne (ITuple []))]
                        "replica" None [] = (Ok d, σ1) /\
      asnumpy d σ1 = (Ok (np, d'), σ2) /\
      load np σ2 = (Ok R, σ2) /\
      nd_eq R (scalar 7).
Proof.
  split; [reflexivity|]. split; [repeat constructor|]. split; [|split].
  - intros c Hc. destruct c; [|discriminate]. left. reflexivity.
  - eexists. split; [lazy; reflexivity|]. split; reflexivity.
  - intros (d & d' & np & σ1 & σ2 & R & H1 & H2 & H3 & [Hs _]).
    lazy in H1. injection H1 as <- <-.
    lazy in H2. injection H2 as <- <- <-.
    lazy in H3. injection H3 as <-.
    discriminate Hs.
Qed.

(** ** Regions that do not overlap *)

(** Where a normalised slice starts. *)
Definition region_start (r : slice) : Z :=
  match start r with Some s => s | None => 0 end.

Section NoOverlap.

Context {V : Type} `{!Dtype V} `{!Runtime V}.

(** The first coordinate of a region within an index is selected by the
    index. *)
Lemma region_start_selected (shape : list Z) (a_idx region : index)
      (axes : list (Z * Z * Z)) :
  Forall3 sub_axis shape a_idx region ->
  axes_of shape a_idx = Ok axes ->
  in_axes axes (map region_start region) = true.
Proof.
  intros Hsub. pose proof (Forall3_length_lm _ _ _ _ Hsub) as Hl.
  rewrite axes_of_full by lia. clear Hl. revert axes.
  induction Hsub as [|n a r shape a_idx region Hax Hsub IH]; intros axes.
  - simpl. intros [= <-]. reflexivity.
  - destruct Hax as (a_start & a_stop & a_step & c_start & c_stop & c_step &
                     Ha & -> & Hpa & Hpc & H0 & H1 & H2 & H3 & H4 & Hd1 & Hd2).
    cbn [zip zip_with mapM]. rewrite Ha. cbn [mbind result_bind].
    fold (zip a_idx shape).
    destruct (mapM _ (zip a_idx shape)) as [axes'|]; cbn [mbind result_bind];
      [|discriminate].
    intros [= <-]. cbn [map in_axes]. rewrite (IH axes' eq_refl), andb_true_r.
    unfold region_start. cbn [start].
    apply range_mem_pos; [exact Hpa|]. split; [lia|exact Hd1].
Qed.

Lemma disjoint_no_intersection (shape : list Z) (i1 i2 : index) :
  Forall (fun n => 0 <= n) shape ->
  good_index shape i1 -> good_index shape i2 ->
  index_disjoint shape i1 i2 ->
  _index_intersection i1 i2 shape = Ok None.
Proof.
  intros Hs (Hl1 & Hp1 & axes1 & Hax1) (Hl2 & Hp2 & axes2 & Hax2) Hdis.
  destruct (_index_intersection_total i1 i2 shape Hp1 Hp2 Hs Hl1 Hl2)
    as [[region|] Hinter]; [|exact Hinter].
  exfalso.
  destruct (_index_intersection_sub_axes _ _ _ _ Hp1 Hp2 Hs Hinter) as [S1 S2].
  apply (Hdis (map region_start region)). unfold index_mem.
  rewrite Hax1, Hax2. split.
  - apply (region_start_selected shape i1 region axes1 S1 Hax1).
  - apply (region_start_selected shape i2 region axes2 S2 Hax2).
Qed.

Lemma foldM_same {A S} (f : S -> A -> M V S) (s : S) (l : list A) (σ : store V) :
  Forall (fun x => f s x σ = (Ok s, σ)) l -> foldM f s l σ = (Ok s, σ).
Proof.
  induction 1 as [|x l Hx Hl IH]; [reflexivity|]. simpl.
  rewrite (bind_run _ _ _ _ _ Hx). exact IH.
Qed.

Lemma unflatten_flatten (cm : dict (list _Chunk)) (rest : list _Chunk) :
  unflatten cm (flatten cm ++ rest) = cm.
Proof.
  induction cm as [|[dev chunks] cm IH]; [reflexivity|].
  unfold flatten in *. simpl. rewrite <- app_assoc.
  rewrite take_app_length, drop_app_length, IH. reflexivity.
Qed.

Lemma list_get_run {A} (l : list A) (i : nat) (x : A) (σ : store V) :
  l !! i = Some x -> lift (list_get l i) σ = (Ok x, σ).
Proof. intros H. unfold lift, list_get. rewrite H. reflexivity. Qed.

(** One pass of [onto_each] in which nothing intersects. *)
Lemma onto_each_same (f : _Chunk -> _Chunk -> M V _Chunk) (src : _Chunk)
      (js : list nat) (l : list _Chunk) (σ : store V) :
  Forall (fun j => exists dst, l !! j = Some dst /\ f src dst σ = (Ok dst, σ)) js ->
  onto_each f src js l σ = (Ok l, σ).
Proof.
  intros H. unfold onto_each. apply foldM_same.
  eapply Forall_impl; [exact H|]. intros j (dst & Hj & Hf). simpl.
  rewrite (bind_run _ _ _ _ _ (list_get_run l j dst σ Hj)).
  rewrite (bind_run _ _ _ _ _ Hf).
  rewrite list_insert_id by exact Hj. reflexivity.
Qed.

Lemma _apply_and_update_chunks_none (self : _DistributedArray V)
      (op_mode : _OpMode V) (shape : list Z) (src dst : _Chunk) (σ : store V) :
  _index_intersection (chunk_index src) (chunk_index dst) shape = Ok None ->
  _apply_and_update_chunks self op_mode shape src dst σ = (Ok dst, σ).
Proof.
  intros H. unfold _apply_and_update_chunks.
  rewrite (bind_run _ _ _ _ _ (lift_run _ _ σ H)). reflexivity.
Qed.

Lemma _copy_on_intersection_none (self : _DistributedArray V)
      (shape : list Z) (src dst : _Chunk) (σ : store V) :
  chunk_updates src = [] ->
  _index_intersection (chunk_index src) (chunk_index dst) shape = Ok None ->
  _copy_on_intersection self shape src dst σ = (Ok dst, σ).
Proof.
  intros Hu H. unfold _copy_on_intersection. rewrite Hu. simpl.
  rewrite (bind_run _ _ _ _ _ (lift_run _ _ σ H)). reflexivity.
Qed.

(** [_all_reduce_intersections] over chunks without updates, no two of
    which intersect, changes nothing. *)
Lemma _all_reduce_intersections_noop (self : _DistributedArray V)
      (op_mode : _OpMode V) (shape : list Z) (cm : dict (list _Chunk))
      (σ : store V) :
  Forall (fun chunk => chunk_updates chunk = []) (flatten cm) ->
  (forall i j ci cj, i <> j ->
     flatten cm !! i = Some ci -> flatten cm !! j = Some cj ->
     _index_intersection (chunk_index ci) (chunk_index cj) shape = Ok None) ->
  _all_reduce_intersections self op_mode shape cm σ = (Ok cm, σ).
Proof.
  intros Hu Hnone. unfold _all_reduce_intersections.
  set (l := flatten cm) in *.
  assert (Hfwd : foldM
            (fun l0 i =>
               src_chunk ← lift (list_get l0 i);
               src_chunk0 ← _apply_updates src_chunk (Some op_mode);
               onto_each (_apply_and_update_chunks self op_mode shape) src_chunk0
                         (seq (S i) (length l - S i)) (<[i:=src_chunk0]> l0))
            l (seq 0 (length l)) σ = (Ok l, σ)).
  { apply foldM_same. apply Forall_forall. intros i Hi.
    apply list_elem_of_In, in_seq in Hi.
    destruct (lookup_lt_is_Some_2 l i ltac:(lia)) as [src Hsrc].
    rewrite (bind_run _ _ _ _ _ (list_get_run l i src σ Hsrc)).
    assert (Hsu : chunk_updates src = []).
    { rewrite Forall_forall in Hu. apply Hu.
      eapply list_elem_of_lookup_2, Hsrc. }
    rewrite (bind_run _ _ _ _ _ (_apply_updates_none src (Some op_mode) σ Hsu)).
    rewrite list_insert_id by exact Hsrc.
    apply onto_each_same. apply Forall_forall. intros j Hj.
    apply list_elem_of_In, in_seq in Hj.
    destruct (lookup_lt_is_Some_2 l j ltac:(lia)) as [dst Hdst].
    exists dst. split; [exact Hdst|].
    apply _apply_and_update_chunks_none.
    apply (Hnone i j); [lia|exact Hsrc|exact Hdst]. }
  rewrite (bind_run _ _ _ _ _ Hfwd).
  assert (Hbwd : foldM
            (fun l0 j =>
               src_chunk ← lift (list_get l0 j);
               src_chunk0 ← _apply_updates src_chunk _REPLICA_MODE;
               onto_each (_copy_on_intersection self shape) src_chunk0
                         (seq 0 j) (<[j:=src_chunk0]> l0))
            l (rev (seq 0 (length l))) σ = (Ok l, σ)).
  { apply foldM_same. apply Forall_forall. intros j Hj.
    apply list_elem_of_In, in_rev, in_seq in Hj.
    destruct (lookup_lt_is_Some_2 l j ltac:(lia)) as [src Hsrc].
    rewrite (bind_run _ _ _ _ _ (list_get_run l j src σ Hsrc)).
    assert (Hsu : chunk_updates src = []).
    { rewrite Forall_forall in Hu. apply Hu.
      eapply list_elem_of_lookup_2, Hsrc. }
    rewrite (bind_run _ _ _ _ _ (_apply_updates_none src _REPLICA_MODE σ Hsu)).
    rewrite list_insert_id by exact Hsrc.
    apply onto_each_same. apply Forall_forall. intros i Hi.
    apply list_elem_of_In, in_seq in Hi.
    destruct (lookup_lt_is_Some_2 l i ltac:(lia)) as [dst Hdst].
    exists dst. split; [exact Hdst|].
    apply _copy_on_intersection_none; [exact Hsu|].
    apply (Hnone j i); [lia|exact Hsrc|exact Hdst]. }
  rewrite (bind_run _ _ _ _ _ Hbwd).
  unfold l. rewrite <- (app_nil_r (flatten cm)), unflatten_flatten. reflexivity.
Qed.

End NoOverlap.

(** ** From an op mode to replica mode over a partition *)

Lemma pairwise_lookup {A} (P : A -> A -> Prop) (l : list A) (i j : nat) (x y : A) :
  (forall a b, P a b -> P b a) ->
  pairwise P l -> i <> j -> l !! i = Some x -> l !! j = Some y -> P x y.
Proof.
  intros Hsym. revert i j. induction l as [|z l IH]; intros i j Hp Hij Hi Hj.
  - discriminate.
  - destruct Hp as [Hz Hp]. rewrite Forall_forall in Hz.
    destruct i as [|i], j as [|j]; simpl in Hi, Hj.
    + congruence.
    + injection Hi as <-. apply Hz. eapply list_elem_of_lookup_2, Hj.
    + injection Hj as <-. apply Hsym, Hz. eapply list_elem_of_lookup_2, Hi.
    + apply (IH i j); auto.
Qed.

Section ToReplica.

Context {V : Type} `{!Dtype V} `{!Runtime V}.

Lemma _Chunk_copy_run (A : ndarray V) (chunk : _Chunk) (σ : store V) :
  chunk_holds σ A chunk ->
  exists v,
    _Chunk_copy chunk σ =
      (Ok (Chunk (Array (arr_dev (chunk_data chunk)) (length σ) [])
                 (chunk_index chunk) []), σ ++ [v]) /\
    chunk_holds (σ ++ [v]) A
      (Chunk (Array (arr_dev (chunk_data chunk)) (length σ) [])
             (chunk_index chunk) []).
Proof.
  intros (Hv & Hu & Hl & Hp & v & axes & Hb & Hax & Hs & Hitems).
  exists v. split.
  - unfold _Chunk_copy, _ManagedData_copy, copy_to. cbn [managed_data].
    assert (Hload : load (chunk_data chunk) σ = (Ok v, σ)).
    { apply (load_run _ _ v v Hb). rewrite Hv. reflexivity. }
    rewrite (bind_run _ _ _ _ _ (bind_run _ _ _ _ _ (bind_run _ _ _ _ _ Hload))).
    rewrite Hu. reflexivity.
  - repeat split; try assumption; try reflexivity.
    exists v, axes. repeat split; try assumption. simpl.
    rewrite lookup_app_r by lia. rewrite Nat.sub_diag. reflexivity.
Qed.

Lemma copy_chunks_list (A : ndarray V) (chunks : list _Chunk) (σ : store V) :
  Forall (chunk_holds σ A) chunks ->
  exists chunks' ext,
    forM _Chunk_copy chunks σ = (Ok chunks', σ ++ ext) /\
    map chunk_index chunks' = map chunk_index chunks /\
    Forall (chunk_holds (σ ++ ext) A) chunks'.
Proof.
  revert σ. induction chunks as [|chunk chunks IH]; intros σ Hall.
  - exists [], []. rewrite app_nil_r. repeat split; constructor.
  - apply Forall_cons in Hall. destruct Hall as [Hc Hall].
    destruct (_Chunk_copy_run A chunk σ Hc) as (v & Hrun1 & Hh1).
    destruct (IH (σ ++ [v])) as (chunks' & ext & Hrun & Hidx & Hh).
    { eapply Forall_impl; [exact Hall|]. intros c. apply chunk_holds_app. }
    eexists (_ :: chunks'), ([v] ++ ext). rewrite app_assoc.
    split; [|split].
    + cbn [forM]. rewrite (bind_run _ _ _ _ _ Hrun1), (bind_run _ _ _ _ _ Hrun).
      reflexivity.
    + simpl. f_equal. exact Hidx.
    + constructor; [|exact Hh]. apply chunk_holds_app. exact Hh1.
Qed.

Lemma _copy_chunks_map_run (A : ndarray V) (d : _DistributedArray V)
      (σ : store V) :
  Forall (chunk_holds σ A) (flatten (_chunks_map d)) ->
  exists cm' ext,
    _copy_chunks_map d σ = (Ok cm', σ ++ ext) /\
    map chunk_index (flatten cm') = map chunk_index (flatten (_chunks_map d)) /\
    Forall (chunk_holds (σ ++ ext) A) (flatten cm').
Proof.
  unfold _copy_chunks_map, map_chunks. generalize (_chunks_map d). clear d.
  intros cm. revert σ. induction cm as [|[dev chunks] cm IH]; intros σ Hall.
  - exists [], []. rewrite app_nil_r. repeat split; constructor.
  - unfold flatten in Hall. simpl in Hall. apply Forall_app in Hall.
    destruct Hall as [H1 H2].
    destruct (copy_chunks_list A chunks σ H1) as (chunks' & ext1 & Hrun1 & Hidx1 & Hh1).
    destruct (IH (σ ++ ext1)) as (cm' & ext2 & Hrun2 & Hidx2 & Hh2).
    { eapply Forall_impl; [exact H2|]. intros c. apply chunk_holds_app. }
    exists ((dev, chunks') :: cm'), (ext1 ++ ext2). rewrite app_assoc.
    split; [|split].
    + cbn [forM].
      assert (Hstep : (forM _Chunk_copy chunks ≫= λ chunks0, mret (dev, chunks0)) σ =
                      (Ok (dev, chunks'), σ ++ ext1))
        by (rewrite (bind_run _ _ _ _ _ Hrun1); reflexivity).
      rewrite (bind_run _ _ _ _ _ Hstep), (bind_run _ _ _ _ _ Hrun2). reflexivity.
    + unfold flatten in *. simpl. rewrite !map_app, Hidx1, Hidx2. reflexivity.
    + unfold flatten in *. simpl. apply Forall_app. split; [|exact Hh2].
      eapply Forall_impl; [exact Hh1|]. intros c. apply chunk_holds_app.
Qed.

Lemma chunk_holds_good (σ : store V) (A : ndarray V) (chunk : _Chunk) :
  chunk_holds σ A chunk -> good_index (nd_shape A) (chunk_index chunk).
Proof.
  intros (_ & _ & Hl & Hp & v & axes & _ & Hax & _).
  split; [exact Hl|]. split; [exact Hp|]. exists axes. exact Hax.
Qed.

(** [change_mode("replica")] on an op-mode array whose chunks hold [A] over
    regions that do not overlap: new chunks that hold [A] over the same
    regions. *)
Lemma change_mode_replica_run (A : ndarray V) (cm : dict (list _Chunk))
      (op : _OpMode V) (cs : list Z) (σ : store V) :
  Forall (fun n => 0 <= n) (nd_shape A) ->
  (cs <> [] \/ nccl_available = true) ->
  Forall (chunk_holds σ A) (flatten cm) ->
  pairwise (index_disjoint (nd_shape A)) (map chunk_index (flatten cm)) ->
  exists cm' cs' σ',
    change_mode (DistributedArray (nd_shape A) cm (Some op) cs) "replica" σ =
      (Ok (DistributedArray (nd_shape A) cm' None cs'), σ') /\
    map chunk_index (flatten cm') = map chunk_index (flatten cm) /\
    Forall (chunk_holds σ' A) (flatten cm').
Proof.
  intros Hshape Hcs Hall Hdis.
  set (d := DistributedArray (nd_shape A) cm (Some op) cs).
  destruct (_copy_chunks_map_run A d σ Hall) as (cm' & ext & Hcopy & Hidx & Hh).
  assert (Hred : _all_reduce_intersections d op (nd_shape A) cm' (σ ++ ext) =
                 (Ok cm', σ ++ ext)).
  { apply _all_reduce_intersections_noop.
    - eapply Forall_impl; [exact Hh|]. intros c (_ & Hu & _). exact Hu.
    - intros i j ci cj Hij Hi Hj.
      rewrite Forall_forall in Hh.
      apply disjoint_no_intersection; [exact Hshape| | |].
      + eapply chunk_holds_good, Hh, list_elem_of_lookup_2, Hi.
      + eapply chunk_holds_good, Hh, list_elem_of_lookup_2, Hj.
      + apply (pairwise_lookup (index_disjoint (nd_shape A))
                 (map chunk_index (flatten cm')) i j);
          [apply index_disjoint_sym|rewrite Hidx; exact Hdis|exact Hij| |];
          rewrite list_lookup_fmap; [rewrite Hi|rewrite Hj]; reflexivity. }
  assert (Hrep : _replica_mode_chunks_map d (σ) = (Ok cm', σ ++ ext)).
  { unfold _replica_mode_chunks_map. rewrite (bind_run _ _ _ _ _ Hcopy).
    exact Hred. }
  destruct (_DistributedArray_new_ok (nd_shape A) cm' None (Some cs)) as (cs' & Hnew & _).
  { destruct Hcs as [Hcs|Hcs]; [left|right; exact Hcs].
    destruct cs; [contradiction|reflexivity]. }
  exists cm', cs', (σ ++ ext). split; [|split; assumption].
  unfold change_mode.
  assert (Hfind : str_find (_MODES (V:=V)) "replica" = Some None) by reflexivity.
  rewrite Hfind. cbn [mode_is _mode d].
  rewrite (bind_run _ _ _ _ _ Hrep). unfold lift. cbn [da_shape _comms d].
  rewrite Hnew. reflexivity.
Qed.

End ToReplica.

Section SumToReplica.

Context {V : Type} `{!Dtype V} `{!Runtime V}.

(** C2, for arrays of at least one dimension. For a host array [A] with at
    least one dimension and a well-formed index map whose regions
    partition the shape of [A] (they cover it and do not overlap),
    [distributed_array] in sum mode, then [change_mode("replica")], then
    [asnumpy] returns an array equal to [A]. *)
Theorem C2_sum_partition_to_replica (arr : array_like V) (A : ndarray V)
        (index_map : dict idxs_arg) (comms : option (list Z)) (σ : store V) :
  array_like_value σ arr A ->
  nd_shape A <> [] ->
  Forall (fun n => 0 <= n) (nd_shape A) ->
  NoDup (map fst index_map) ->
  Forall (valid_chunk_idx (nd_shape A)) (all_indices index_map) ->
  covers (nd_shape A) index_map ->
  regions_disjoint (nd_shape A) index_map ->
  has_comms comms = true \/ nccl_available = true ->
  exists d d2 d3 np σ1 σ2 σ3 R,
    distributed_array arr index_map "sum" comms σ = (Ok d, σ1) /\
    change_mode d "replica" σ1 = (Ok d2, σ2) /\
    asnumpy d2 σ2 = (Ok (np, d3), σ3) /\
    load np σ3 = (Ok R, σ3) /\
    nd_eq R A.
Proof.
  intros Hval Hdim Hshape Hnd Hvalid Hcov Hdis Hcomms.
  destruct (distributed_array_run arr A index_map "sum"
              (Some (OpMode "add" add false zero)) comms σ)
    as (cm & cs & σ1 & converted & Hrun & Hcs & Hh & Hconv & Hperm);
    try assumption; [reflexivity|intros _; exact Hdis|].
  destruct (change_mode_replica_run A cm (OpMode "add" add false zero) cs σ1)
    as (cm' & cs' & σ2 & Hchange & Hidx & Hh'); try assumption.
  { eapply pairwise_perm; [apply index_disjoint_sym|symmetry; exact Hperm|].
    eapply converted_disjoint; eassumption. }
  destruct (asnumpy_replica (DistributedArray (nd_shape A) cm' None cs') A σ2)
    as (R & Has & HRs & HR); try assumption; try reflexivity.
  eexists _, _, _, _, σ1, σ2, _, R.
  split; [exact Hrun|]. split; [exact Hchange|]. split; [exact Has|]. split.
  - apply (load_run _ _ R R); [|reflexivity]. simpl.
    rewrite lookup_app_r by lia. rewrite Nat.sub_diag. reflexivity.
  - split; [exact HRs|]. intros c Hc. apply HR. simpl.
    eapply covered_by_chunks; [exact Hconv|rewrite Hidx; exact Hperm|].
    apply Hcov. rewrite <- HRs. exact Hc.
Qed.

End SumToReplica.

(** The example of shape [(4, 4)] split by rows over two devices. *)
Lemma C2_sum_partition_to_replica_witness :
  array_like_value [] (OtherLike array_4x4) array_4x4 /\
  covers (nd_shape array_4x4) rows_index_map /\
  regions_disjoint (nd_shape array_4x4) rows_index_map /\
  exists d d2 d3 np σ1 σ2 σ3 R,
    distributed_array (OtherLike array_4x4) rows_index_map "sum" None [] =
      (Ok d, σ1) /\
    change_mode d "replica" σ1 = (Ok d2, σ2) /\
    asnumpy d2 σ2 = (Ok (np, d3), σ3) /\
    load np σ3 = (Ok R, σ3) /\
    nd_eq R array_4x4.
Proof.
  split; [reflexivity|]. split; [exact rows_index_map_covers|].
  split; [exact rows_index_map_disjoint|].
  apply (C2_sum_partition_to_replica (OtherLike array_4x4) array_4x4
           rows_index_map None []).
  - reflexivity.
  - discriminate.
  - unfold array_4x4. nonneg_shape.
  - distinct_keys.
  - exact rows_index_map_valid.
  - exact rows_index_map_covers.
  - exact rows_index_map_disjoint.
  - right. reflexivity.
Defined.

(** C2 as stated fails for a 0-dimensional array in the same way as C1:
    the single chunk [()] partitions the shape [()], the calls return, and
    the result has shape [(1,)]. *)
Lemma C2_zero_dim_counterexample :
  array_like_value [] (OtherLike (scalar 7)) (scalar 7) /\
  covers [] [(0, IdxOne (ITuple []))] /\
  regions_disjoint [] [(0, IdxOne (ITuple []))] /\
  (exists R,
     (sum_to_replica_round_trip (OtherLike (scalar 7))
                                [(0, IdxOne (ITuple []))] None []).1 = Ok R /\
     nd_shape R = [1] /\ nd_to_list R = [7]) /\
  ~ exists d d2 d3 np σ1 σ2 σ3 R,
      distributed_array (OtherLike (scalar 7)) [(0, IdxOne (ITuple []))]
                        "sum" None [] = (Ok d, σ1) /\
      change_mode d "replica" σ1 = (Ok d2, σ2) /\
      asnumpy d2 σ2 = (Ok (np, d3), σ3) /\
      load np σ3 = (Ok R, σ3) /\
      nd_eq R (scalar 7).
Proof.
  split; [reflexivity|]. split; [|split; [|split]].
  - intros c Hc. destruct c; [|discriminate]. left. reflexivity.
  - repeat constructor.
  - eexists. split; [lazy; reflexivity|]. split; reflexivity.
  - intros (d & d2 & d3 & np & σ1 & σ2 & σ3 & R & H1 & H2 & H3 & H4 & [Hs _]).
    lazy in H1. injection H1 as <- <-.
    lazy in H2. injection H2 as <- <-.
    lazy in H3. injection H3 as <- <- <-.
    lazy in H4. injection H4 as <-.
    discriminate Hs.
Qed.

(** ** A kernel on two operands, lazily and eagerly *)

Section LazyKernel.

Context {V : Type} `{!Dtype V} `{!Runtime V}.

Lemma broadcast_shapes_rev_same (s : list Z) : broadcast_shapes_rev s s = Ok s.
Proof.
  induction s as [|n s IH]; [reflexivity|]. simpl. rewrite IH. simpl.
  rewrite Z.eqb_refl. reflexivity.
Qed.

Lemma broadcast_shapes_same (s : list Z) : broadcast_shapes s s = Ok s.
Proof.
  unfold broadcast_shapes. rewrite broadcast_shapes_rev_same. simpl.
  rewrite rev_involutive. reflexivity.
Qed.

Lemma broadcast_shapes_rev_nil_r (s : list Z) : broadcast_shapes_rev s [] = Ok s.
Proof. destruct s; reflexivity. Qed.

Lemma broadcast_shapes_nil_r (s : list Z) : broadcast_shapes s [] = Ok s.
Proof.
  unfold broadcast_shapes. change (rev []) with (@nil Z).
  rewrite broadcast_shapes_rev_nil_r. simpl. rewrite rev_involutive.
  reflexivity.
Qed.

(** The kernel on two arrays of one shape. *)
Lemma elementwise_pair (f : kernel_fn V) (a b : ndarray V) (s : list Z) :
  nd_shape a = s -> nd_shape b = s ->
  elementwise f [a; b] [] =
    Ok (NDArray s (fun c => f [nd_item a (bcast s c); nd_item b (bcast s c)] [])).
Proof.
  intros Ha Hb. unfold elementwise. simpl. rewrite Ha, Hb.
  rewrite broadcast_shapes_nil_r. simpl. rewrite broadcast_shapes_same.
  reflexivity.
Qed.

(** What a kernel makes of two arrays of one shape. *)
Definition kernel_value (f : kernel_fn V) (vx vy : ndarray V) : ndarray V :=
  NDArray (nd_shape vx) (fun c => f [nd_item vx c; nd_item vy c] []).

(** The chunk is well formed, with at most one update pending, and [v] is
    what its data holds once the update is applied in replica mode. *)
Definition holds (shape : list Z) (σ : store V) (chunk : _Chunk)
           (v : ndarray V) : Prop :=
  exists a axes,
    chunk_ok shape σ chunk a axes /\
    nd_shape v = view_shape axes /\
    match chunk_updates chunk with
    | [] => forall c, in_bounds (view_shape axes) c = true ->
                      nd_item v c = nd_item a c
    | [u] =>
        exists p uaxes,
          update_ok σ (view_shape axes) u p uaxes /\
          forall c, in_bounds (view_shape axes) c = true ->
                    nd_item v c = if in_axes uaxes c
                                  then nd_item p (to_local uaxes c)
                                  else nd_item a c
    | _ => False
    end.

Lemma load_app (r : array) (σ ext : store V) (x : ndarray V) :
  load r σ = (Ok x, σ) -> load r (σ ++ ext) = (Ok x, σ ++ ext).
Proof.
  intros H. apply (load_agree r σ); [exact H|].
  apply load_lt in H. apply lookup_app_l. exact H.
Qed.

Lemma holds_app (shape : list Z) (σ ext : store V) (chunk : _Chunk)
      (v : ndarray V) :
  holds shape σ chunk v -> holds shape (σ ++ ext) chunk v.
Proof.
  intros (a & axes & (Hv & Hb & Hl & Hp & Hax & Hs) & Hvs & Hu).
  exists a, axes. split.
  { unfold chunk_ok. repeat match goal with |- _ /\ _ => split end; try assumption.
    rewrite lookup_app_l; [exact Hb|]. eapply lookup_lt_Some, Hb. }
  split; [exact Hvs|].
  destruct (chunk_updates chunk) as [|u [|u' us]]; [exact Hu| |exact Hu].
  destruct Hu as (p & uaxes & (Hload & Hrest) & Hitems).
  exists p, uaxes. split; [|exact Hitems].
  split; [apply load_app; exact Hload|exact Hrest].
Qed.

(** A chunk with nothing pending depends on its own buffer only. *)
Lemma holds_frame (shape : list Z) (σ σ' : store V) (chunk : _Chunk)
      (v : ndarray V) :
  chunk_updates chunk = [] ->
  σ' !! arr_buf (chunk_data chunk) = σ !! arr_buf (chunk_data chunk) ->
  holds shape σ chunk v -> holds shape σ' chunk v.
Proof.
  intros Hnone Heq (a & axes & (Hv & Hb & Hl & Hp & Hax & Hs) & Hvs & Hu).
  exists a, axes. split.
  { unfold chunk_ok. repeat match goal with |- _ /\ _ => split end; try assumption.
    rewrite Heq. exact Hb. }
  split; [exact Hvs|]. rewrite Hnone in *. exact Hu.
Qed.

(** The chunk as [_apply_updates] returns it. *)
Definition drained (chunk : _Chunk) : _Chunk :=
  Chunk (chunk_data chunk) (chunk_index chunk) [].

(** [_apply_updates] in replica mode on a chunk that holds [v]: only the
    buffer of the chunk changes, and it holds [v] with nothing pending. *)
Lemma drain_chunk (shape : list Z) (σ : store V) (chunk : _Chunk)
      (v : ndarray V) :
  holds shape σ chunk v ->
  exists a',
    _apply_updates chunk _REPLICA_MODE σ =
      (Ok (drained chunk), <[arr_buf (chunk_data chunk) := a']> σ) /\
    holds shape (<[arr_buf (chunk_data chunk) := a']> σ) (drained chunk) v /\
    (chunk_updates chunk = [] ->
     <[arr_buf (chunk_data chunk) := a']> σ = σ).
Proof.
  intros (a & axes & (Hv & Hb & Hl & Hp & Hax & Hs) & Hvs & Hu).
  pose proof (lookup_lt_Some _ _ _ Hb) as Hlt.
  destruct (chunk_updates chunk) as [|[t uidx] [|u' us]] eqn:Hups;
    [| |contradiction].
  - exists a. rewrite list_insert_id by exact Hb.
    split; [|split; [|reflexivity]].
    + unfold _apply_updates. rewrite Hups. reflexivity.
    + exists a, axes. split; [|split; [exact Hvs|exact Hu]].
      unfold chunk_ok. repeat match goal with |- _ /\ _ => split end; assumption.
  - destruct Hu as (p & uaxes & (Hload & Hpu & Huax & Hps) & Hitems).
    simpl in Hload, Hpu, Huax.
    pose proof (axes_of_pos _ _ _ Hpu Huax) as Hpos.
    destruct (setitem_same_shape a uidx p uaxes) as (a' & Hset & Hs' & Hitem');
      try assumption.
    { rewrite Hs. exact Huax. }
    exists a'. split; [|split; [|discriminate]].
    + assert (Hassign : assign (chunk_data chunk) uidx p σ =
                        (Ok tt, <[arr_buf (chunk_data chunk) := a']> σ)).
      { unfold assign. rewrite Hb, Hv. cbn [update_through]. rewrite Hset.
        reflexivity. }
      assert (Hstep : apply_update chunk _REPLICA_MODE (t, uidx) σ =
                      (Ok tt, <[arr_buf (chunk_data chunk) := a']> σ)).
      { unfold apply_update, _REPLICA_MODE.
        rewrite (bind_run _ _ _ _ _ Hload). exact Hassign. }
      assert (Hall : forM (apply_update chunk _REPLICA_MODE) [(t, uidx)] σ =
                     (Ok [tt], <[arr_buf (chunk_data chunk) := a']> σ)).
      { cbn [forM]. rewrite (bind_run _ _ _ _ _ Hstep). reflexivity. }
      unfold _apply_updates. rewrite Hups.
      rewrite (bind_run _ _ _ _ _ Hall). reflexivity.
    + exists a', axes. split.
      { unfold chunk_ok. repeat match goal with |- _ /\ _ => split end; try assumption.
        - cbn [drained chunk_data]. apply list_lookup_insert_eq. exact Hlt.
        - congruence. }
      split; [exact Hvs|]. cbn [drained chunk_updates].
      intros c Hc. rewrite Hitems by exact Hc. rewrite Hitem'. reflexivity.
Qed.

(** A loop over two lists in a row that gives [g] of each element. *)
Lemma forM_app_inv {A B} (f : A -> M V B) (g : A -> B) (l1 l2 : list A)
      (σ σ' : store V) :
  forM f (l1 ++ l2) σ = (Ok (map g l1 ++ map g l2), σ') ->
  exists σ1, forM f l1 σ = (Ok (map g l1), σ1) /\
             forM f l2 σ1 = (Ok (map g l2), σ').
Proof.
  revert σ. induction l1 as [|x l1 IH]; intros σ Hrun.
  - exists σ. split; [reflexivity|exact Hrun].
  - cbn [app forM map] in Hrun |- *.
    unfold mbind at 1, M_bind in Hrun.
    destruct (f x σ) as [[y|e] σ0] eqn:Hx; [|discriminate].
    unfold mbind at 1, M_bind in Hrun.
    destruct (forM f (l1 ++ l2) σ0) as [[ys|e] σ2] eqn:Hrest; [|discriminate].
    unfold mret, M_ret in Hrun. injection Hrun as Hy Hys Hσ. subst σ2 y ys.
    destruct (IH σ0 Hrest) as (σ1 & H1 & H2).
    exists σ1. split; [|exact H2].
    unfold mbind at 1, M_bind. rewrite Hx.
    unfold mbind at 1, M_bind. rewrite H1. reflexivity.
Qed.

Lemma flat_map_nil {A B} (f : A -> list B) (l : list A) (x : A) :
  flat_map f l = [] -> In x l -> f x = [].
Proof.
  induction l as [|y l IH]; simpl; [contradiction|].
  intros H [->|Hin]; apply app_eq_nil in H; [tauto|apply IH; tauto].
Qed.

Lemma Forall2_impl_In {A B} (P Q : A -> B -> Prop) (l : list A) (k : list B) :
  Forall2 P l k -> (forall x y, In x l -> P x y -> Q x y) -> Forall2 Q l k.
Proof.
  induction 1 as [|x y l k Hxy Hlk IH]; intros Himp; constructor.
  - apply Himp; [left; reflexivity|exact Hxy].
  - apply IH. intros x' y' Hin. apply Himp. right. exact Hin.
Qed.

(** The updates of a list of chunks with different buffers and at most one
    update pending among them, applied in replica mode. *)
Lemma drain_list (shape : list Z) (chunks : list _Chunk)
      (vs : list (ndarray V)) (σ : store V) :
  Forall2 (holds shape σ) chunks vs ->
  NoDup (map buf_of chunks) ->
  (length (flat_map chunk_updates chunks) <= 1)%nat ->
  exists σ',
    forM (fun chunk => _apply_updates chunk _REPLICA_MODE) chunks σ =
      (Ok (map drained chunks), σ') /\
    Forall2 (holds shape σ') (map drained chunks) vs /\
    length σ' = length σ /\
    (forall i, ~ In i (map buf_of chunks) -> σ' !! i = σ !! i) /\
    (flat_map chunk_updates chunks = [] -> σ' = σ).
Proof.
  revert vs σ.
  induction chunks as [|chunk chunks IH]; intros vs σ Hall Hnd Hcount.
  - apply Forall2_nil_inv_l in Hall. subst vs. exists σ.
    repeat match goal with |- _ /\ _ => split end; try reflexivity.
    constructor.
  - apply Forall2_cons_inv_l in Hall.
    destruct Hall as (v & vs' & Hc & Hall & ->).
    simpl in Hnd. apply NoDup_cons in Hnd. destruct Hnd as [Hfresh Hnd].
    simpl in Hcount. rewrite length_app in Hcount.
    destruct (drain_chunk shape σ chunk v Hc) as (a' & Hrun1 & Hh1 & Hsame).
    set (σ1 := <[arr_buf (chunk_data chunk) := a']> σ) in *.
    assert (Htail : Forall2 (holds shape σ1) chunks vs').
    { destruct (chunk_updates chunk) as [|u us] eqn:Hups.
      - rewrite (Hsame eq_refl). exact Hall.
      - assert (Hnone : flat_map chunk_updates chunks = []).
        { simpl in Hcount. destruct (flat_map chunk_updates chunks);
            [reflexivity|simpl in Hcount; lia]. }
        eapply Forall2_impl_In; [exact Hall|].
        intros c w Hin Hcw. apply (holds_frame shape σ); [| |exact Hcw].
        + apply (flat_map_nil chunk_updates chunks); [exact Hnone|exact Hin].
        + unfold σ1. apply list_lookup_insert_ne. intros E. apply Hfresh.
          apply list_elem_of_In, in_map_iff. exists c. split;
            [symmetry; exact E|exact Hin]. }
    destruct (IH vs' σ1 Htail Hnd ltac:(lia)) as (σ' & Hrun & Hh & Hlen & Hframe & Hnone).
    exists σ'. split; [|split; [|split; [|split]]].
    + cbn [forM map]. rewrite (bind_run _ _ _ _ _ Hrun1), (bind_run _ _ _ _ _ Hrun).
      reflexivity.
    + cbn [map]. constructor; [|exact Hh].
      apply (holds_frame shape σ1); [reflexivity| |exact Hh1].
      apply Hframe. intros Hin. apply Hfresh. apply list_elem_of_In. exact Hin.
    + rewrite Hlen. unfold σ1. apply length_insert.
    + intros i Hi. simpl in Hi. rewrite Hframe by tauto.
      unfold σ1. apply list_lookup_insert_ne. unfold buf_of in Hi. tauto.
    + simpl. intros E. apply app_eq_nil in E. destruct E as [E1 E2].
      rewrite (Hnone E2). apply Hsame, E1.
Qed.

(** A chunks map with every chunk as [_apply_updates] returns it. *)
Definition drained_map (cm : dict (list _Chunk)) : dict (list _Chunk) :=
  map (fun '(dev, chunks) => (dev, map drained chunks)) cm.

Lemma flatten_drained_map (cm : dict (list _Chunk)) :
  flatten (drained_map cm) = map drained (flatten cm).
Proof.
  unfold flatten, drained_map. induction cm as [|[dev chunks] cm IH];
    [reflexivity|]. simpl. rewrite map_app, IH. reflexivity.
Qed.

Lemma drain_map (shape : list Z) (cm : dict (list _Chunk))
      (vs : list (ndarray V)) (σ : store V) :
  Forall2 (holds shape σ) (flatten cm) vs ->
  NoDup (map buf_of (flatten cm)) ->
  (length (flat_map chunk_updates (flatten cm)) <= 1)%nat ->
  exists σ',
    map_chunks (fun chunk => _apply_updates chunk _REPLICA_MODE) cm σ =
      (Ok (drained_map cm), σ') /\
    Forall2 (holds shape σ') (map drained (flatten cm)) vs /\
    length σ' = length σ /\
    (forall i, ~ In i (map buf_of (flatten cm)) -> σ' !! i = σ !! i) /\
    (flat_map chunk_updates (flatten cm) = [] -> σ' = σ).
Proof.
  intros Hall Hnd Hcount.
  destruct (drain_list shape (flatten cm) vs σ Hall Hnd Hcount)
    as (σ' & Hrun & Hrest).
  exists σ'. split; [|exact Hrest]. clear Hrest Hall Hnd Hcount.
  unfold map_chunks. revert σ Hrun.
  induction cm as [|[dev chunks] cm IH]; intros σ Hrun.
  - simpl in Hrun. injection Hrun as <-. reflexivity.
  - unfold flatten in Hrun. cbn [flat_map snd] in Hrun.
    fold (flatten cm) in Hrun. rewrite map_app in Hrun.
    destruct (forM_app_inv _ _ _ _ _ _ Hrun) as (σ1 & H1 & H2).
    cbn [forM drained_map map].
    assert (Hstep : (forM (fun chunk => _apply_updates chunk _REPLICA_MODE) chunks
                       ≫= λ chunks', mret (dev, chunks')) σ =
                    (Ok (dev, map drained chunks), σ1))
      by (rewrite (bind_run _ _ _ _ _ H1); reflexivity).
    rewrite (bind_run _ _ _ _ _ Hstep).
    rewrite (bind_run _ _ _ _ _ (IH σ1 H2)). reflexivity.
Qed.

(** The shape of the host array that [asnumpy] fills: [atleast_1d]. *)
Definition host_shape (shape : list Z) : list Z :=
  match shape with [] => [1] | _ => shape end.

(** The coordinate within a chunk of index [idx] that lands on coordinate
    [c] of the host array. *)
Definition host_coord (shape : list Z) (idx : index) (c : list Z) : list Z :=
  match shape with
  | [] => []
  | _ => match axes_of shape idx with
         | Ok axes => to_local axes c
         | Raise _ => []
         end
  end.

(** The host array after the chunks of the given indices and contents have
    been written over [cur], in order. *)
Fixpoint assemble (shape : list Z) (parts : list (index * ndarray V))
         (cur : list Z -> V) (c : list Z) : V :=
  match parts with
  | [] => cur c
  | (idx, v) :: rest =>
      assemble shape rest
               (fun c => if index_mem (host_shape shape) idx c
                         then nd_item v (host_coord shape idx c)
                         else cur c)
               c
  end.

Lemma assemble_ext (shape : list Z) (parts : list (index * ndarray V))
      (g g' : list Z -> V) :
  (forall c, g c = g' c) ->
  forall c, assemble shape parts g c = assemble shape parts g' c.
Proof.
  revert g g'. induction parts as [|[idx w] parts IH]; intros g g' Hg c.
  - apply Hg.
  - simpl. apply IH. intros c'. rewrite Hg. reflexivity.
Qed.

Lemma host_coord_in_bounds (shape : list Z) (σ : store V) (chunk : _Chunk)
      (v : ndarray V) (c : list Z) :
  holds shape σ chunk v ->
  index_mem (host_shape shape) (chunk_index chunk) c = true ->
  in_bounds (nd_shape v) (host_coord shape (chunk_index chunk) c) = true.
Proof.
  intros (a & axes & (Hv & Hb & Hl & Hp & Hax & Hs) & Hvs & _) Hm.
  destruct shape as [|n shape].
  - destruct (chunk_index chunk); [|discriminate].
    injection Hax as <-. rewrite Hvs. reflexivity.
  - unfold host_coord. cbn [host_shape] in Hm. unfold index_mem in Hm.
    rewrite Hax in *. rewrite Hvs. apply to_local_in_bounds; [|exact Hm].
    eapply axes_of_pos; eassumption.
Qed.

(** One turn of the loop of [asnumpy] in replica mode. *)
Lemma write_chunk_step (shape : list Z) (σ : store V) (chunk : _Chunk)
      (v cur : ndarray V) :
  holds shape σ chunk v ->
  chunk_updates chunk = [] ->
  nd_shape cur = host_shape shape ->
  exists cur',
    write_chunk None (Array (-1) (length σ) []) chunk (σ ++ [cur]) =
      (Ok tt, σ ++ [cur']) /\
    nd_shape cur' = host_shape shape /\
    forall c, nd_item cur' c =
              if index_mem (host_shape shape) (chunk_index chunk) c
              then nd_item v (host_coord shape (chunk_index chunk) c)
              else nd_item cur c.
Proof.
  intros Hh Hnone Hcur.
  pose proof (fun c => host_coord_in_bounds shape σ chunk v c Hh) as Hin.
  destruct Hh as (a & axes & (Hv & Hb & Hl & Hp & Hax & Hs) & Hvs & Hu).
  rewrite Hnone in Hu.
  pose proof (lookup_lt_Some _ _ _ Hb) as Hlt.
  assert (Hload : load (chunk_data chunk) (σ ++ [cur]) = (Ok a, σ ++ [cur])).
  { apply (load_run _ _ a a).
    - rewrite lookup_app_l by lia. exact Hb.
    - rewrite Hv. reflexivity. }
  assert (Hstep : forall cur',
             setitem cur (chunk_index chunk) a = Ok cur' ->
             write_chunk None (Array (-1) (length σ) []) chunk (σ ++ [cur]) =
               (Ok tt, σ ++ [cur'])).
  { intros cur' Hset. unfold write_chunk.
    rewrite (bind_run _ _ _ _ _ Hload).
    unfold assign. cbn [arr_buf arr_view update_through].
    rewrite lookup_app_r by lia. rewrite Nat.sub_diag. cbn [lookup list_lookup].
    rewrite Hset. rewrite insert_app_r_alt by lia. rewrite Nat.sub_diag.
    reflexivity. }
  destruct shape as [|n shape].
  - destruct (chunk_index chunk) as [|s idx] eqn:Hidx; [|discriminate].
    injection Hax as <-. cbn [host_shape host_coord] in *.
    assert (Hset : setitem cur [] a =
                   Ok (NDArray (nd_shape cur)
                         (fun c => if in_axes [(0, 1, 1)] c
                                   then nd_item a (bcast (nd_shape a)
                                                     (to_local [(0, 1, 1)] c))
                                   else nd_item cur c))).
    { apply setitem_ok; [rewrite Hcur; reflexivity|rewrite Hs; reflexivity]. }
    eexists. split; [apply Hstep; exact Hset|]. split; [exact Hcur|].
    intros c. cbn [nd_item]. unfold index_mem.
    change (axes_of [1] []) with (Ok [(0, 1, 1)] : result (list (Z * Z * Z))).
    cbv beta iota. destruct (in_axes [(0, 1, 1)] c); [|reflexivity].
    rewrite Hs. cbn [view_shape map]. rewrite bcast_scalar.
    symmetry. apply Hu. reflexivity.
  - cbn [host_shape] in *.
    pose proof (axes_of_pos _ _ _ Hp Hax) as Hpos.
    destruct (setitem_same_shape cur (chunk_index chunk) a axes)
      as (cur' & Hset & Hshape' & Hitem'); try assumption.
    { rewrite Hcur. exact Hax. }
    exists cur'. split; [apply Hstep; exact Hset|].
    split; [congruence|].
    intros c. rewrite Hitem'. specialize (Hin c).
    unfold index_mem, host_coord in *. rewrite Hax in *.
    destruct (in_axes axes c); [|reflexivity].
    symmetry. apply Hu. rewrite <- Hvs. apply Hin. reflexivity.
Qed.

(** The loop of [asnumpy] in replica mode over chunks with nothing
    pending. *)
Lemma write_chunks_run (shape : list Z) (chunks : list _Chunk)
      (vs : list (ndarray V)) (σ : store V) (cur : ndarray V) :
  Forall2 (holds shape σ) chunks vs ->
  Forall (fun chunk => chunk_updates chunk = []) chunks ->
  nd_shape cur = host_shape shape ->
  exists R us,
    forM (write_chunk None (Array (-1) (length σ) [])) chunks (σ ++ [cur]) =
      (Ok us, σ ++ [R]) /\
    nd_shape R = host_shape shape /\
    forall c, nd_item R c =
              assemble shape (zip (map chunk_index chunks) vs) (nd_item cur) c.
Proof.
  intros Hall. revert cur.
  induction Hall as [|chunk v chunks vs Hc Hall IH]; intros cur Hnone Hcur.
  - exists cur, []. split; [reflexivity|]. split; [exact Hcur|reflexivity].
  - apply Forall_cons in Hnone. destruct Hnone as [Hn Hnone].
    destruct (write_chunk_step shape σ chunk v cur Hc Hn Hcur)
      as (cur' & Hstep & Hcur' & Hitem).
    destruct (IH cur' Hnone Hcur') as (R & us & Hrun & HRs & HR).
    exists R, (tt :: us). split; [|split; [exact HRs|]].
    + cbn [forM]. rewrite (bind_run _ _ _ _ _ Hstep), (bind_run _ _ _ _ _ Hrun).
      reflexivity.
    + intros c. rewrite HR. cbn [map zip zip_with assemble].
      apply assemble_ext. exact Hitem.
Qed.

(** Host arrays assembled from equal contents agree wherever a chunk was
    written. *)
Lemma assemble_agree (shape : list Z) (idxs : list index)
      (vs1 vs2 : list (ndarray V)) (g1 g2 : list Z -> V) (c : list Z) :
  Forall2 nd_eq vs1 vs2 ->
  Forall2 (fun idx v =>
             forall c, index_mem (host_shape shape) idx c = true ->
                       in_bounds (nd_shape v) (host_coord shape idx c) = true)
          idxs vs1 ->
  g1 c = g2 c \/
  Exists (fun idx => index_mem (host_shape shape) idx c = true) idxs ->
  assemble shape (zip idxs vs1) g1 c = assemble shape (zip idxs vs2) g2 c.
Proof.
  intros Heq. revert idxs g1 g2.
  induction Heq as [|v1 v2 vs1 vs2 Hv Heq IH]; intros idxs g1 g2 Hin Hc.
  - apply Forall2_nil_inv_r in Hin. subst idxs. simpl.
    destruct Hc as [Hc|Hc]; [exact Hc|inversion Hc].
  - apply Forall2_cons_inv_r in Hin.
    destruct Hin as (idx & idxs' & Hi & Hin & ->).
    cbn [zip zip_with assemble]. apply IH; [exact Hin|].
    destruct (index_mem (host_shape shape) idx c) eqn:Hm.
    + left. apply Hv. apply Hi. exact Hm.
    + destruct Hc as [Hc|Hc]; [left; exact Hc|right].
      apply Exists_cons in Hc. destruct Hc as [Hc|Hc]; [congruence|exact Hc].
Qed.

(** [asnumpy] on a replica-mode array whose chunks have different buffers
    and at most one update pending among them. *)
Lemma asnumpy_run (d : _DistributedArray V) (vs : list (ndarray V))
      (σ : store V) :
  _mode d = None ->
  Forall2 (holds (da_shape d) σ) (flatten (_chunks_map d)) vs ->
  NoDup (map buf_of (flatten (_chunks_map d))) ->
  (length (flat_map chunk_updates (flatten (_chunks_map d))) <= 1)%nat ->
  exists R d' σ' g,
    asnumpy d σ = (Ok (Array (-1) (length σ) [], d'), σ' ++ [R]) /\
    length σ' = length σ /\
    nd_shape R = host_shape (da_shape d) /\
    forall c,
      nd_item R c =
      assemble (da_shape d)
               (zip (map chunk_index (flatten (_chunks_map d))) vs) g c.
Proof.
  intros Hmode Hall Hnd Hcount. destruct d as [shape cm mode comms].
  simpl in *. subst mode.
  destruct (drain_map shape cm vs σ Hall Hnd Hcount)
    as (σ' & Hdrain & Hh & Hlen & _ & _).
  unfold asnumpy. cbn [_mode _chunks_map da_shape _comms].
  rewrite (bind_run _ _ _ _ _ Hdrain).
  set (np0 := atleast_1d (NDArray shape (junk (length σ')))).
  assert (Hnew : new_host_array None shape σ' =
                 (Ok (Array (-1) (length σ') []), σ' ++ [np0])) by reflexivity.
  rewrite (bind_run _ _ _ _ _ Hnew).
  rewrite <- flatten_drained_map in Hh.
  destruct (write_chunks_run shape (flatten (drained_map cm)) vs σ' np0 Hh)
    as (R & us & Hrun & HRs & HR).
  { rewrite flatten_drained_map. apply Forall_forall. intros c Hc.
    apply list_elem_of_In, in_map_iff in Hc. destruct Hc as (c' & <- & _).
    reflexivity. }
  { unfold np0, atleast_1d. simpl. destruct shape; reflexivity. }
  rewrite (bind_run _ _ _ _ _ Hrun).
  exists R, (DistributedArray shape (drained_map cm) None comms), σ',
         (nd_item np0).
  split; [rewrite Hlen; reflexivity|]. split; [exact Hlen|].
  split; [exact HRs|]. intros c. rewrite HR.
  rewrite flatten_drained_map, map_map. reflexivity.
Qed.

Lemma forM_two {A B} (g : A -> M V B) (x y : A) (a b : B) (σ : store V) :
  g x σ = (Ok a, σ) -> g y σ = (Ok b, σ) -> forM g [x; y] σ = (Ok [a; b], σ).
Proof.
  intros Hx Hy. cbn [forM]. rewrite (bind_run _ _ _ _ _ Hx).
  assert (Hrest : forM g [y] σ = (Ok [b], σ)).
  { cbn [forM]. rewrite (bind_run _ _ _ _ _ Hy). reflexivity. }
  rewrite (bind_run _ _ _ _ _ Hrest). reflexivity.
Qed.

Lemma operand_subscript_run (d r : array) (idx : index) (σ : store V) :
  subscript d idx σ = (Ok r, σ) ->
  operand_subscript (OCupy d) idx σ = (Ok (OCupy r), σ).
Proof.
  intros H. cbn [operand_subscript]. rewrite (bind_run _ _ _ _ _ H).
  reflexivity.
Qed.

(** The kernel on the data of two chunks of one shape: a new buffer. *)
Lemma kernel_call_pair (f : kernel_fn V) (dev : Z) (ax ay : array)
      (a b : ndarray V) (s : list Z) (σ : store V) :
  load ax σ = (Ok a, σ) -> load ay σ = (Ok b, σ) ->
  nd_shape a = s -> nd_shape b = s ->
  kernel_call f dev [OCupy ax; OCupy ay] [] σ =
    (Ok (Array dev (length σ) []),
     σ ++ [NDArray s (fun c => f [nd_item a (bcast s c);
                                  nd_item b (bcast s c)] [])]).
Proof.
  intros Ha Hb Hsa Hsb. unfold kernel_call.
  assert (Hxs : forM operand_value [OCupy ax; OCupy ay] σ = (Ok [a; b], σ)).
  { apply forM_two; assumption. }
  rewrite (bind_run _ _ _ _ _ Hxs).
  cbn [forM]. rewrite (bind_run _ _ _ _ _ (ret_run _ σ)).
  rewrite (bind_run _ _ _ _ _ (lift_run _ _ σ (elementwise_pair f a b s Hsa Hsb))).
  reflexivity.
Qed.

Lemma dict_find_map {A B} (g : A -> B) (d : dict A) (k : Z) :
  dict_find (map (fun '(dev, x) => (dev, g x)) d) k = option_map g (dict_find d k).
Proof.
  induction d as [|[k' x] d IH]; simpl; [reflexivity|].
  destruct (k' =? k); [reflexivity|exact IH].
Qed.

(** [self.index_map[dev][chunk_i]] is the index of the chunk there. *)
Lemma index_at (x : _DistributedArray V) (dev : Z) (i : nat) (cx : _Chunk) :
  chunk_at x dev i = Ok cx ->
  exists idxs, dict_get (index_map x) dev = Ok idxs /\
               list_get idxs i = Ok (chunk_index cx).
Proof.
  unfold chunk_at, index_map, dict_get. rewrite dict_find_map.
  destruct (dict_find (_chunks_map x) dev) as [chunks|]; [|discriminate].
  cbn [mbind result_bind option_map]. intros Hi.
  exists (map chunk_index chunks). split; [reflexivity|].
  unfold list_get in *. rewrite list_lookup_fmap.
  destruct (chunks !! i); [|discriminate]. injection Hi as ->. reflexivity.
Qed.

(** The kernel on the one pending update of the first operand. *)
Lemma kernel_on_update_first (f : kernel_fn V) (dev : Z) (dx dy : array)
      (a b p : ndarray V) (t : _DataTransfer) (uidx : index)
      (uaxes : list (Z * Z * Z)) (σ : store V) :
  arr_view dx = [] -> arr_view dy = [] ->
  σ !! arr_buf dx = Some a -> σ !! arr_buf dy = Some b ->
  nd_shape b = nd_shape a ->
  update_ok σ (nd_shape a) (t, uidx) p uaxes ->
  kernel_on_update f dev [OCupy dx; OCupy dy] [] (Some (KInt 0)) (t, uidx) σ =
    (Ok (DataTransfer (Array dev (length σ) []) None, uidx),
     σ ++ [NDArray (view_shape uaxes)
             (fun c => f [nd_item p (bcast (view_shape uaxes) c);
                          nd_item b (to_base uaxes (bcast (view_shape uaxes) c))]
                         [])]).
Proof.
  intros Hvx Hvy Hba Hbb Hs (Hload & Hpu & Huax & Hps). simpl in Hload, Hpu, Huax.
  pose proof (getitem_ok a uidx uaxes Huax) as Hga.
  pose proof (getitem_ok b uidx uaxes ltac:(rewrite Hs; exact Huax)) as Hgb.
  assert (Hsx : subscript dx uidx σ =
                (Ok (Array (arr_dev dx) (arr_buf dx) [uidx]), σ)).
  { rewrite (subscript_run dx uidx σ a a _ Hba ltac:(rewrite Hvx; reflexivity) Hga).
    rewrite Hvx. reflexivity. }
  assert (Hsy : subscript dy uidx σ =
                (Ok (Array (arr_dev dy) (arr_buf dy) [uidx]), σ)).
  { rewrite (subscript_run dy uidx σ b b _ Hbb ltac:(rewrite Hvy; reflexivity) Hgb).
    rewrite Hvy. reflexivity. }
  assert (Hslices : forM (fun arg => operand_subscript arg uidx)
                         [OCupy dx; OCupy dy] σ =
                    (Ok [OCupy (Array (arr_dev dx) (arr_buf dx) [uidx]);
                         OCupy (Array (arr_dev dy) (arr_buf dy) [uidx])], σ)).
  { apply forM_two; apply operand_subscript_run; assumption. }
  unfold kernel_on_update.
  rewrite (bind_run _ _ _ _ _ Hslices).
  cbn [forM]. rewrite (bind_run _ _ _ _ _ (ret_run _ σ)).
  cbn [length Nat.ltb Nat.leb].
  rewrite (bind_run _ _ _ _ _ (ret_run _ σ)).
  cbn [insert list_insert].
  assert (Hly : load (Array (arr_dev dy) (arr_buf dy) [uidx]) σ =
                (Ok (NDArray (view_shape uaxes)
                       (fun c => nd_item b (to_base uaxes c))), σ)).
  { apply (load_run _ _ b); [exact Hbb|]. cbn [arr_view through].
    rewrite Hgb. reflexivity. }
  rewrite (bind_run _ _ _ _ _
             (kernel_call_pair f dev _ _ _ _ (view_shape uaxes) σ Hload Hly Hps eq_refl)).
  reflexivity.
Qed.

(** The kernel on the one pending update of the second operand. *)
Lemma kernel_on_update_second (f : kernel_fn V) (dev : Z) (dx dy : array)
      (a b p : ndarray V) (t : _DataTransfer) (uidx : index)
      (uaxes : list (Z * Z * Z)) (σ : store V) :
  arr_view dx = [] -> arr_view dy = [] ->
  σ !! arr_buf dx = Some a -> σ !! arr_buf dy = Some b ->
  nd_shape b = nd_shape a ->
  update_ok σ (nd_shape a) (t, uidx) p uaxes ->
  kernel_on_update f dev [OCupy dx; OCupy dy] [] (Some (KInt 1)) (t, uidx) σ =
    (Ok (DataTransfer (Array dev (length σ) []) None, uidx),
     σ ++ [NDArray (view_shape uaxes)
             (fun c => f [nd_item a (to_base uaxes (bcast (view_shape uaxes) c));
                          nd_item p (bcast (view_shape uaxes) c)]
                         [])]).
Proof.
  intros Hvx Hvy Hba Hbb Hs (Hload & Hpu & Huax & Hps). simpl in Hload, Hpu, Huax.
  pose proof (getitem_ok a uidx uaxes Huax) as Hga.
  pose proof (getitem_ok b uidx uaxes ltac:(rewrite Hs; exact Huax)) as Hgb.
  assert (Hsx : subscript dx uidx σ =
                (Ok (Array (arr_dev dx) (arr_buf dx) [uidx]), σ)).
  { rewrite (subscript_run dx uidx σ a a _ Hba ltac:(rewrite Hvx; reflexivity) Hga).
    rewrite Hvx. reflexivity. }
  assert (Hsy : subscript dy uidx σ =
                (Ok (Array (arr_dev dy) (arr_buf dy) [uidx]), σ)).
  { rewrite (subscript_run dy uidx σ b b _ Hbb ltac:(rewrite Hvy; reflexivity) Hgb).
    rewrite Hvy. reflexivity. }
  assert (Hslices : forM (fun arg => operand_subscript arg uidx)
                         [OCupy dx; OCupy dy] σ =
                    (Ok [OCupy (Array (arr_dev dx) (arr_buf dx) [uidx]);
                         OCupy (Array (arr_dev dy) (arr_buf dy) [uidx])], σ)).
  { apply forM_two; apply operand_subscript_run; assumption. }
  unfold kernel_on_update.
  rewrite (bind_run _ _ _ _ _ Hslices).
  cbn [forM]. rewrite (bind_run _ _ _ _ _ (ret_run _ σ)).
  cbn [length Nat.ltb Nat.leb].
  rewrite (bind_run _ _ _ _ _ (ret_run _ σ)).
  cbn [insert list_insert].
  assert (Hlx : load (Array (arr_dev dx) (arr_buf dx) [uidx]) σ =
                (Ok (NDArray (view_shape uaxes)
                       (fun c => nd_item a (to_base uaxes c))), σ)).
  { apply (load_run _ _ a); [exact Hba|]. cbn [arr_view through].
    rewrite Hga. reflexivity. }
  rewrite (bind_run _ _ _ _ _
             (kernel_call_pair f dev _ _ _ _ (view_shape uaxes) σ Hlx Hload eq_refl Hps)).
  reflexivity.
Qed.

Lemma _prepare_args_pair (x y : _DistributedArray V) (dev : Z) (i : nat)
      (cx cy : _Chunk) :
  chunk_at x dev i = Ok cx -> chunk_at y dev i = Ok cy ->
  _prepare_args [(KInt 0, x); (KInt 1, y)] [] dev i =
    Ok [(KInt 0, ManagedData (chunk_data cx));
        (KInt 1, ManagedData (chunk_data cy))].
Proof.
  intros Hx Hy. unfold _prepare_args. cbn [mapM]. rewrite Hx, Hy. reflexivity.
Qed.

(** What [_prepare_updates] defers for two chunks of which at most one has
    updates. *)
Definition deferred (cx cy : _Chunk) : option arg_key * list _PartialUpdate :=
  match chunk_updates cx, chunk_updates cy with
  | [], [] => (None, [])
  | _ :: _, _ => (Some (KInt 0), chunk_updates cx)
  | [], _ :: _ => (Some (KInt 1), chunk_updates cy)
  end.

Lemma _prepare_updates_pair (x y : _DistributedArray V) (dev : Z) (i : nat)
      (cx cy : _Chunk) (σ : store V) :
  chunk_at x dev i = Ok cx -> chunk_at y dev i = Ok cy ->
  chunk_updates cx = [] \/ chunk_updates cy = [] ->
  _prepare_updates [(KInt 0, x); (KInt 1, y)] dev i σ =
    (Ok (deferred cx cy, [(KInt 0, x); (KInt 1, y)]), σ).
Proof.
  intros Hx Hy Hone. unfold _prepare_updates.
  assert (Hscan : scan_updates [(KInt 0, x); (KInt 1, y)] dev i None [] =
                  Ok (deferred cx cy, true)).
  { cbn [scan_updates]. rewrite Hx. cbn [mbind result_bind]. unfold deferred.
    destruct (chunk_updates cx) as [|ux uxs].
    - rewrite Hy. cbn [mbind result_bind].
      destruct (chunk_updates cy); reflexivity.
    - destruct Hone as [Hone|Hone]; [discriminate|].
      rewrite Hy. cbn [mbind result_bind]. rewrite Hone. reflexivity. }
  rewrite (bind_run _ _ _ _ _ (lift_run _ _ σ Hscan)).
  destruct (deferred cx cy). reflexivity.
Qed.

(** The body of the loop of [_execute_kernel] for two chunks with one index,
    at most one update pending between them: a new chunk in new buffers
    that holds what the kernel makes of what the two chunks hold. *)
Lemma execute_on_chunk_run (f : kernel_fn V) (shape : list Z)
      (x y : _DistributedArray V) (dev : Z) (i : nat) (cx cy : _Chunk)
      (vx vy : ndarray V) (arg0 arg1 : operand V) (new_chunks : list _Chunk)
      (σ : store V) :
  chunk_at x dev i = Ok cx -> chunk_at y dev i = Ok cy ->
  holds shape σ cx vx -> holds shape σ cy vy ->
  chunk_index cy = chunk_index cx ->
  chunk_updates cx = [] \/ chunk_updates cy = [] ->
  exists c' ext arg0' arg1',
    execute_on_chunk x f [] dev
      ([(KInt 0, x); (KInt 1, y)], [arg0; arg1], [], new_chunks) i σ =
      (Ok ([(KInt 0, x); (KInt 1, y)], [arg0'; arg1'], [],
           new_chunks ++ [c']), σ ++ ext) /\
    chunk_index c' = chunk_index cx /\
    buf_of c' = length σ /\
    ext <> [] /\
    holds shape (σ ++ ext) c' (kernel_value f vx vy) /\
    length (chunk_updates c') =
      (length (chunk_updates cx) + length (chunk_updates cy))%nat.
Proof.
  intros Hx Hy Hhx Hhy Hidx Hone.
  destruct (index_at x dev i cx Hx) as (idxs & Hidxs & Hget).
  pose proof (_prepare_updates_pair x y dev i cx cy σ Hx Hy Hone) as Hups.
  destruct Hhx as (a & axes & (Hva & Hba & Hla & Hpa & Haxa & Hsa) & Hvxs & Hvx).
  destruct Hhy as (b & axes' & (Hvb & Hbb & Hlb & Hpb & Haxb & Hsb) & Hvys & Hvy).
  rewrite Hidx, Haxa in Haxb. injection Haxb as <-.
  set (s := view_shape axes) in *.
  set (r := NDArray s (fun c => f [nd_item a (bcast s c);
                                   nd_item b (bcast s c)] [])).
  assert (Hla' : load (chunk_data cx) σ = (Ok a, σ)).
  { apply (load_run _ _ a a Hba). rewrite Hva. reflexivity. }
  assert (Hlb' : load (chunk_data cy) σ = (Ok b, σ)).
  { apply (load_run _ _ b b Hbb). rewrite Hvb. reflexivity. }
  pose proof (kernel_call_pair f dev _ _ a b s σ Hla' Hlb' Hsa Hsb) as Hcall.
  fold r in Hcall.
  pose proof (lookup_lt_Some _ _ _ Hba) as Hlta.
  pose proof (lookup_lt_Some _ _ _ Hbb) as Hltb.
  assert (Hr : forall ext', (σ ++ r :: ext') !! length σ = Some r).
  { intros ext'. rewrite lookup_app_r by lia. rewrite Nat.sub_diag. reflexivity. }
  assert (Hplain : forall c, in_bounds s c = true ->
                             nd_item r c = f [nd_item a c; nd_item b c] []).
  { intros c Hc. unfold r. cbn [nd_item]. rewrite bcast_id by exact Hc.
    reflexivity. }
  assert (Hprefix :
            forall ups' ext',
              forM (kernel_on_update f dev [OCupy (chunk_data cx);
                                            OCupy (chunk_data cy)] []
                                     (deferred cx cy).1)
                   (deferred cx cy).2 (σ ++ [r]) =
                (Ok ups', σ ++ r :: ext') ->
              execute_on_chunk x f [] dev
                ([(KInt 0, x); (KInt 1, y)], [arg0; arg1], [], new_chunks) i σ =
              (Ok ([(KInt 0, x); (KInt 1, y)],
                   [OCupy (chunk_data cx); OCupy (chunk_data cy)], [],
                   new_chunks ++ [Chunk (Array dev (length σ) [])
                                        (chunk_index cx) ups']),
               σ ++ r :: ext')).
  { intros ups' ext' Hfor. unfold execute_on_chunk.
    rewrite (bind_run _ _ _ _ _
               (lift_run _ _ σ (_prepare_args_pair x y dev i cx cy Hx Hy))).
    rewrite (bind_run _ _ _ _ _ Hups).
    destruct (deferred cx cy) as [incoming ups]. cbn [fst snd] in Hfor.
    cbn [bind_args foldl managed_data insert list_insert].
    rewrite (bind_run _ _ _ _ _ Hcall).
    rewrite (bind_run _ _ _ _ _ (lift_run _ _ _ Hidxs)).
    rewrite (bind_run _ _ _ _ _ (lift_run _ _ _ Hget)).
    rewrite (bind_run _ _ _ _ _ Hfor). reflexivity. }
  assert (Hok : forall ext' ups,
             chunk_ok shape (σ ++ r :: ext')
                      (Chunk (Array dev (length σ) []) (chunk_index cx) ups)
                      r axes).
  { intros ext' ups. unfold chunk_ok. cbn [chunk_data chunk_index arr_view arr_buf].
    repeat match goal with |- _ /\ _ => split end; try assumption; try reflexivity.
    apply Hr. }
  destruct (chunk_updates cx) as [|[t uidx] [|? ?]] eqn:Hux; [| |contradiction].
  - destruct (chunk_updates cy) as [|[t uidx] [|? ?]] eqn:Huy; [| |contradiction].
    + (* nothing pending *)
      eexists _, [r], _, _. split.
      { apply Hprefix. unfold deferred. rewrite Hux, Huy. reflexivity. }
      split; [reflexivity|]. split; [reflexivity|]. split; [discriminate|].
      split; [|reflexivity].
      exists r, axes. split; [apply Hok|]. split; [exact Hvxs|].
      cbn [chunk_updates]. intros c Hc. cbn [kernel_value nd_item].
      rewrite Hplain, Hvx, Hvy by exact Hc. reflexivity.
    + (* one update for the second operand *)
      destruct Hvy as (p & uaxes & Hu & Hvy).
      pose proof Hu as (Hload & Hpu & Huax & Hps). simpl in Hload, Hpu, Huax.
      pose proof (axes_of_pos _ _ _ Hpu Huax) as Hpos.
      assert (Hu1 : update_ok (σ ++ [r]) (nd_shape a) (t, uidx) p uaxes).
      { split; [apply load_app; exact Hload|]. rewrite Hsa.
        repeat split; assumption. }
      pose proof (kernel_on_update_second f dev (chunk_data cx) (chunk_data cy)
                    a b p t uidx uaxes (σ ++ [r]) Hva Hvb
                    ltac:(rewrite lookup_app_l by lia; exact Hba)
                    ltac:(rewrite lookup_app_l by lia; exact Hbb)
                    ltac:(congruence) Hu1) as Hku.
      set (p' := NDArray (view_shape uaxes) _) in Hku.
      eexists _, [r; p'], _, _. split.
      { apply Hprefix. unfold deferred. rewrite Hux, Huy. cbn [fst snd forM].
        rewrite (bind_run _ _ _ _ _ Hku). rewrite <- app_assoc. reflexivity. }
      split; [reflexivity|]. split; [reflexivity|]. split; [discriminate|].
      split; [|reflexivity].
      exists r, axes. split; [apply Hok|]. split; [exact Hvxs|].
      cbn [chunk_updates]. exists p', uaxes. split.
      { split; [|repeat split; assumption]. cbn [fst transfer_data].
        apply (load_run _ _ p' p'); [|reflexivity]. cbn [arr_buf].
        rewrite length_app. cbn [length].
        change (σ ++ [r; p']) with (σ ++ [r] ++ [p']). rewrite app_assoc.
        rewrite lookup_app_r by (rewrite length_app; simpl; lia).
        rewrite length_app. cbn [length].
        replace (length σ + 1 - (length σ + 1))%nat with 0%nat by lia.
        reflexivity. }
      intros c Hc. cbn [kernel_value nd_item].
      rewrite Hvx, Hvy by exact Hc.
      destruct (in_axes uaxes c) eqn:Hin.
      * unfold p'. cbn [nd_item].
        rewrite bcast_id by (apply to_local_in_bounds; assumption).
        rewrite to_base_to_local by assumption. reflexivity.
      * rewrite Hplain by exact Hc. reflexivity.
  - destruct Hone as [Hone|Huy]; [discriminate|]. rewrite Huy in Hvy.
    (* one update for the first operand *)
    destruct Hvx as (p & uaxes & Hu & Hvx).
    pose proof Hu as (Hload & Hpu & Huax & Hps). simpl in Hload, Hpu, Huax.
    pose proof (axes_of_pos _ _ _ Hpu Huax) as Hpos.
    assert (Hu1 : update_ok (σ ++ [r]) (nd_shape a) (t, uidx) p uaxes).
    { split; [apply load_app; exact Hload|]. rewrite Hsa.
      repeat split; assumption. }
    pose proof (kernel_on_update_first f dev (chunk_data cx) (chunk_data cy)
                  a b p t uidx uaxes (σ ++ [r]) Hva Hvb
                  ltac:(rewrite lookup_app_l by lia; exact Hba)
                  ltac:(rewrite lookup_app_l by lia; exact Hbb)
                  ltac:(congruence) Hu1) as Hku.
    set (p' := NDArray (view_shape uaxes) _) in Hku.
    eexists _, [r; p'], _, _. split.
    { apply Hprefix. unfold deferred. rewrite Hux. cbn [fst snd forM].
      rewrite (bind_run _ _ _ _ _ Hku). rewrite <- app_assoc. reflexivity. }
    split; [reflexivity|]. split; [reflexivity|]. split; [discriminate|].
    split; [|rewrite Huy; reflexivity].
    exists r, axes. split; [apply Hok|]. split; [exact Hvxs|].
    cbn [chunk_updates]. exists p', uaxes. split.
    { split; [|repeat split; assumption]. cbn [fst transfer_data].
      apply (load_run _ _ p' p'); [|reflexivity]. cbn [arr_buf].
      rewrite length_app. cbn [length].
      change (σ ++ [r; p']) with (σ ++ [r] ++ [p']). rewrite app_assoc.
      rewrite lookup_app_r by (rewrite length_app; simpl; lia).
      rewrite length_app. cbn [length].
      replace (length σ + 1 - (length σ + 1))%nat with 0%nat by lia.
      reflexivity. }
    intros c Hc. cbn [kernel_value nd_item].
    rewrite Hvx, Hvy by exact Hc.
    destruct (in_axes uaxes c) eqn:Hin.
    * unfold p'. cbn [nd_item].
      rewrite bcast_id by (apply to_local_in_bounds; assumption).
      rewrite to_base_to_local by assumption. reflexivity.
    * rewrite Hplain by exact Hc. reflexivity.
Qed.

(** Two chunks at one place of two operands: one index, and at most one of
    them with updates pending. *)
Definition paired (cx cy : _Chunk) : Prop :=
  chunk_index cy = chunk_index cx /\
  (chunk_updates cx = [] \/ chunk_updates cy = []).

(** The loop of [_execute_kernel] over the chunks of one device. *)
Lemma execute_on_chunks (f : kernel_fn V) (shape : list Z)
      (x y : _DistributedArray V) (dev : Z) (cxs cys : list _Chunk) :
  Forall2 paired cxs cys ->
  forall (vxs vys : list (ndarray V)) (k : nat) (new_chunks : list _Chunk)
         (arg0 arg1 : operand V) (σ : store V),
    (forall j cx, cxs !! j = Some cx -> chunk_at x dev (k + j) = Ok cx) ->
    (forall j cy, cys !! j = Some cy -> chunk_at y dev (k + j) = Ok cy) ->
    Forall2 (holds shape σ) cxs vxs ->
    Forall2 (holds shape σ) cys vys ->
    exists out ext arg0' arg1',
      foldM (execute_on_chunk x f [] dev)
            ([(KInt 0, x); (KInt 1, y)], [arg0; arg1], [], new_chunks)
            (seq k (length cxs)) σ =
        (Ok ([(KInt 0, x); (KInt 1, y)], [arg0'; arg1'], [],
             new_chunks ++ out), σ ++ ext) /\
      map chunk_index out = map chunk_index cxs /\
      Forall2 (holds shape (σ ++ ext)) out (zip_with (kernel_value f) vxs vys) /\
      Forall (fun c => (length σ <= buf_of c < length σ + length ext)%nat) out /\
      NoDup (map buf_of out) /\
      length (flat_map chunk_updates out) =
        (length (flat_map chunk_updates cxs) +
         length (flat_map chunk_updates cys))%nat.
Proof.
  induction 1 as [|cx cy cxs cys [Hidx Hone] Hrest IH];
    intros vxs vys k new_chunks arg0 arg1 σ Hatx Haty Hhx Hhy.
  - apply Forall2_nil_inv_l in Hhx. apply Forall2_nil_inv_l in Hhy. subst.
    exists [], [], arg0, arg1. rewrite !app_nil_r.
    repeat match goal with |- _ /\ _ => split end;
      try reflexivity; constructor.
  - apply Forall2_cons_inv_l in Hhx. destruct Hhx as (vx & vxs' & Hvx & Hhx & ->).
    apply Forall2_cons_inv_l in Hhy. destruct Hhy as (vy & vys' & Hvy & Hhy & ->).
    destruct (execute_on_chunk_run f shape x y dev k cx cy vx vy arg0 arg1
                new_chunks σ)
      as (c' & ext1 & a0 & a1 & Hstep & Hci & Hbuf & Hne & Hh & Hlen);
      try assumption.
    { rewrite <- (Nat.add_0_r k). apply Hatx. reflexivity. }
    { rewrite <- (Nat.add_0_r k). apply Haty. reflexivity. }
    destruct (IH vxs' vys' (S k) (new_chunks ++ [c']) a0 a1 (σ ++ ext1))
      as (out & ext2 & a0' & a1' & Hrun & Hidxs & Hhs & Hrange & Hnd & Hcount).
    { intros j c Hj. rewrite Nat.add_succ_comm. apply Hatx. exact Hj. }
    { intros j c Hj. rewrite Nat.add_succ_comm. apply Haty. exact Hj. }
    { eapply Forall2_impl; [exact Hhx|]. intros c v. apply holds_app. }
    { eapply Forall2_impl; [exact Hhy|]. intros c v. apply holds_app. }
    assert (Hext1 : (1 <= length ext1)%nat)
      by (destruct ext1; [contradiction|simpl; lia]).
    exists (c' :: out), (ext1 ++ ext2), a0', a1'.
    split; [|split; [|split; [|split; [|split]]]].
    + cbn [length seq foldM]. rewrite (bind_run _ _ _ _ _ Hstep).
      rewrite Hrun. rewrite <- !app_assoc. reflexivity.
    + cbn [map]. rewrite Hci, Hidxs. reflexivity.
    + cbn [zip_with]. rewrite app_assoc. constructor; [|exact Hhs].
      apply holds_app. exact Hh.
    + rewrite length_app. constructor; [lia|].
      eapply Forall_impl; [exact Hrange|]. intros c. cbv beta.
      rewrite length_app. lia.
    + cbn [map]. apply NoDup_cons_2; [|exact Hnd].
      intros Hin. apply list_elem_of_In, in_map_iff in Hin.
      destruct Hin as (c & Hc & Hin). rewrite Forall_forall in Hrange.
      apply list_elem_of_In, Hrange in Hin. rewrite length_app in Hin. lia.
    + cbn [flat_map]. rewrite !length_app, Hcount, Hlen. lia.
Qed.

(** Two chunks maps with the same devices in the same order, and as many
    chunks on each, related by [P] place by place. *)
Definition aligned (P : _Chunk -> _Chunk -> Prop)
           (cmx cmy : dict (list _Chunk)) : Prop :=
  Forall2 (fun rx ry => rx.1 = ry.1 /\ Forall2 P rx.2 ry.2) cmx cmy.

(** The number of chunks on each device. *)
Definition counts_of (cm : dict (list _Chunk)) : dict nat :=
  map (fun '(dev, chunks) => (dev, length chunks)) cm.

(** The body of the loop of [_execute_kernel] over the devices, without
    regular arrays. *)
Definition on_device (self : _DistributedArray V) (kernel : kernel_fn V)
  : list (arg_key * _DistributedArray V) * list (operand V) *
    list (string * operand V) * dict (list _Chunk) ->
    Z * nat ->
    M V (list (arg_key * _DistributedArray V) * list (operand V) *
         list (string * operand V) * dict (list _Chunk)) :=
  fun '(distributed_arrays, args, kwargs, new_chunks_map)
      '(dev, chunk_count) =>
    '(distributed_arrays, args, kwargs, new_chunks) ←
      foldM (execute_on_chunk self kernel [] dev)
            (distributed_arrays, args, kwargs, [])
            (seq 0 chunk_count);
    mret (distributed_arrays, args, kwargs,
          dict_set new_chunks_map dev new_chunks).

Lemma chunk_at_lookup (x : _DistributedArray V) (dev : Z)
      (cxs : list _Chunk) (j : nat) (cx : _Chunk) :
  dict_find (_chunks_map x) dev = Some cxs -> cxs !! j = Some cx ->
  chunk_at x dev j = Ok cx.
Proof.
  intros Hd Hj. unfold chunk_at, dict_get. rewrite Hd.
  cbn [mbind result_bind]. unfold list_get. rewrite Hj. reflexivity.
Qed.

(** The loop of [_execute_kernel] over the devices. *)
Lemma execute_on_devices (f : kernel_fn V) (shape : list Z)
      (x y : _DistributedArray V) (rest_x rest_y : dict (list _Chunk)) :
  aligned paired rest_x rest_y ->
  forall (vxs vys : list (ndarray V)) (acc : dict (list _Chunk))
         (arg0 arg1 : operand V) (σ : store V),
    (forall dev cxs, In (dev, cxs) rest_x ->
                     dict_find (_chunks_map x) dev = Some cxs) ->
    (forall dev cys, In (dev, cys) rest_y ->
                     dict_find (_chunks_map y) dev = Some cys) ->
    NoDup (map fst acc ++ map fst rest_x) ->
    Forall2 (holds shape σ) (flatten rest_x) vxs ->
    Forall2 (holds shape σ) (flatten rest_y) vys ->
    exists outs ext arg0' arg1',
      foldM (on_device x f)
            ([(KInt 0, x); (KInt 1, y)], [arg0; arg1], [], acc)
            (counts_of rest_x) σ =
        (Ok ([(KInt 0, x); (KInt 1, y)], [arg0'; arg1'], [], acc ++ outs),
         σ ++ ext) /\
      map chunk_index (flatten outs) = map chunk_index (flatten rest_x) /\
      Forall2 (holds shape (σ ++ ext)) (flatten outs)
              (zip_with (kernel_value f) vxs vys) /\
      Forall (fun c => (length σ <= buf_of c < length σ + length ext)%nat)
             (flatten outs) /\
      NoDup (map buf_of (flatten outs)) /\
      length (flat_map chunk_updates (flatten outs)) =
        (length (flat_map chunk_updates (flatten rest_x)) +
         length (flat_map chunk_updates (flatten rest_y)))%nat.
Proof.
  induction 1 as [|[dev cxs] [dev' cys] rx ry [Hdev Hpair] Hrest IH];
    intros vxs vys acc arg0 arg1 σ Hfx Hfy Hnd Hhx Hhy.
  - apply Forall2_nil_inv_l in Hhx. apply Forall2_nil_inv_l in Hhy. subst.
    exists [], [], arg0, arg1. rewrite !app_nil_r.
    repeat match goal with |- _ /\ _ => split end;
      try reflexivity; constructor.
  - cbn [fst snd] in Hdev, Hpair. subst dev'.
    unfold flatten in Hhx, Hhy. cbn [flat_map snd] in Hhx, Hhy.
    fold (flatten rx) in Hhx. fold (flatten ry) in Hhy.
    apply Forall2_app_inv_l in Hhx.
    destruct Hhx as (vxs1 & vxs2 & Hhx1 & Hhx2 & ->).
    apply Forall2_app_inv_l in Hhy.
    destruct Hhy as (vys1 & vys2 & Hhy1 & Hhy2 & ->).
    pose proof (Hfx dev cxs ltac:(left; reflexivity)) as Hdx.
    pose proof (Hfy dev cys ltac:(left; reflexivity)) as Hdy.
    destruct (execute_on_chunks f shape x y dev cxs cys Hpair vxs1 vys1 0 []
                arg0 arg1 σ)
      as (out1 & ext1 & a0 & a1 & Hrun1 & Hidx1 & Hh1 & Hrange1 & Hnd1 & Hcount1);
      try assumption.
    { intros j c Hj. apply (chunk_at_lookup x dev cxs); assumption. }
    { intros j c Hj. apply (chunk_at_lookup y dev cys); assumption. }
    cbn [map fst] in Hnd.
    assert (Hfresh : ~ In dev (map fst acc)).
    { apply NoDup_app in Hnd. destruct Hnd as (_ & Hnd & _).
      intros Hin. apply (Hnd dev); [apply list_elem_of_In; exact Hin|].
      left. }
    destruct (IH vxs2 vys2 (acc ++ [(dev, out1)]) a0 a1 (σ ++ ext1))
      as (outs & ext2 & a0' & a1' & Hrun & Hidxs & Hhs & Hrange & Hnds & Hcount).
    { intros d c Hin. apply Hfx. right. exact Hin. }
    { intros d c Hin. apply Hfy. right. exact Hin. }
    { rewrite map_app. cbn [map fst]. rewrite <- app_assoc. exact Hnd. }
    { eapply Forall2_impl; [exact Hhx2|]. intros c v. apply holds_app. }
    { eapply Forall2_impl; [exact Hhy2|]. intros c v. apply holds_app. }
    exists ((dev, out1) :: outs), (ext1 ++ ext2), a0', a1'.
    assert (Hstep : on_device x f
                      ([(KInt 0, x); (KInt 1, y)], [arg0; arg1], [], acc)
                      (dev, length cxs) σ =
                    (Ok ([(KInt 0, x); (KInt 1, y)], [a0; a1], [],
                         acc ++ [(dev, out1)]), σ ++ ext1)).
    { unfold on_device. rewrite (bind_run _ _ _ _ _ Hrun1).
      rewrite dict_set_fresh by exact Hfresh. reflexivity. }
    split; [|split; [|split; [|split; [|split]]]].
    + change (counts_of ((dev, cxs) :: rx))
        with ((dev, length cxs) :: counts_of rx).
      cbn [foldM]. rewrite (bind_run _ _ _ _ _ Hstep).
      refine (eq_trans Hrun _). rewrite <- !app_assoc. reflexivity.
    + unfold flatten in *. cbn [flat_map snd]. rewrite !map_app, Hidx1, Hidxs.
      reflexivity.
    + unfold flatten in *. cbn [flat_map snd].
      rewrite zip_with_app
        by (rewrite <- (Forall2_length _ _ _ Hhx1), <- (Forall2_length _ _ _ Hhy1);
            eapply Forall2_length; exact Hpair).
      rewrite app_assoc. apply Forall2_app; [|exact Hhs].
      eapply Forall2_impl; [exact Hh1|]. intros c v. apply holds_app.
    + unfold flatten in *. cbn [flat_map snd]. rewrite length_app.
      apply Forall_app. split.
      * eapply Forall_impl; [exact Hrange1|]. intros c. cbv beta. lia.
      * eapply Forall_impl; [exact Hrange|]. intros c. cbv beta.
        rewrite length_app. lia.
    + unfold flatten in *. cbn [flat_map snd]. rewrite map_app.
      apply NoDup_app. split; [exact Hnd1|]. split; [|exact Hnds].
      intros b Hb1 Hb2.
      apply list_elem_of_In, in_map_iff in Hb1. destruct Hb1 as (c1 & <- & Hc1).
      apply list_elem_of_In, in_map_iff in Hb2. destruct Hb2 as (c2 & E & Hc2).
      rewrite Forall_forall in Hrange1, Hrange.
      apply list_elem_of_In, Hrange1 in Hc1.
      apply list_elem_of_In, Hrange in Hc2.
      rewrite length_app in Hc2. lia.
    + unfold flatten in *. cbn [flat_map snd].
      rewrite !flat_map_app, !length_app, Hcount, Hcount1. lia.
Qed.

Lemma list_eqb_refl {A} (eqb : A -> A -> bool) (l : list A) :
  (forall x, eqb x x = true) -> list_eqb eqb l l = true.
Proof.
  intros H. induction l as [|x l IH]; [reflexivity|]. simpl.
  rewrite H, IH. reflexivity.
Qed.

Lemma slice_eqb_refl (s : slice) : slice_eqb s s = true.
Proof.
  unfold slice_eqb, opt_Z_eqb.
  destruct (start s), (stop s), (step s); rewrite ?Z.eqb_refl; reflexivity.
Qed.

Lemma dict_find_In {A} (d : dict A) (k : Z) (v : A) :
  NoDup (map fst d) -> In (k, v) d -> dict_find d k = Some v.
Proof.
  induction d as [|[k' v'] d IH]; simpl; [contradiction|].
  intros Hnd Hin. apply NoDup_cons in Hnd. destruct Hnd as [Hfresh Hnd].
  destruct Hin as [[= -> ->]|Hin]; [rewrite Z.eqb_refl; reflexivity|].
  destruct (Z.eqb_spec k' k) as [->|Hne]; [|apply IH; assumption].
  exfalso. apply Hfresh. apply list_elem_of_In, in_map_iff.
  exists (k, v). split; [reflexivity|exact Hin].
Qed.

Lemma dict_eqb_refl {A} (eqb : A -> A -> bool) (d : dict A) :
  NoDup (map fst d) -> (forall v, eqb v v = true) -> dict_eqb eqb d d = true.
Proof.
  intros Hnd Hrefl. unfold dict_eqb. rewrite Nat.eqb_refl. simpl.
  apply forallb_forall. intros [k v] Hin.
  rewrite (dict_find_In d k v Hnd Hin). apply Hrefl.
Qed.

Lemma index_map_keys (x : _DistributedArray V) :
  map fst (index_map x) = map fst (_chunks_map x).
Proof.
  unfold index_map. rewrite map_map. apply map_ext. intros [dev chunks].
  reflexivity.
Qed.

Lemma index_map_eqb_refl (x : _DistributedArray V) :
  NoDup (map fst (_chunks_map x)) ->
  index_map_eqb (index_map x) (index_map x) = true.
Proof.
  intros Hnd. apply dict_eqb_refl.
  - rewrite index_map_keys. exact Hnd.
  - intros l. apply list_eqb_refl. intros idx. apply list_eqb_refl.
    apply slice_eqb_refl.
Qed.

(** The first loop of [_execute_kernel] on two replica-mode operands of
    one shape and one index map. *)
Lemma collect_args_pair (x y : _DistributedArray V) (σ : store V) :
  _mode x = _REPLICA_MODE -> _mode y = _REPLICA_MODE ->
  da_shape y = da_shape x ->
  index_map_eqb (index_map y) (index_map x) = true ->
  NoDup (map fst (_chunks_map x)) ->
  collect_args x [ODist x; ODist y] σ =
    (Ok ([(KInt 0, x); (KInt 1, y)], []), σ).
Proof.
  intros Hmx Hmy Hshape Hmap Hnd.
  assert (Hstep : forall (d : _DistributedArray V) acc i,
             _mode d = _REPLICA_MODE -> da_shape d = da_shape x ->
             index_map_eqb (index_map d) (index_map x) = true ->
             (shape ← operand_shape (ODist d);
              if negb (list_eqb Z.eqb shape (da_shape x))
              then raise RuntimeError else
              if negb (index_map_eqb (index_map d) (index_map x))
              then raise RuntimeError else
              d' ← to_replica_mode d;
              mret (acc ++ [(KInt i, d')], @nil (arg_key * array))) σ =
             (Ok (acc ++ [(KInt i, d)], []), σ)).
  { intros d acc i Hm Hs Hi. cbn [operand_shape].
    rewrite (bind_run _ _ _ _ _ (ret_run _ σ)).
    rewrite Hs, (list_eqb_refl Z.eqb) by apply Z.eqb_refl.
    rewrite Hi. cbn [negb].
    unfold to_replica_mode. rewrite Hm. cbn [mode_is _REPLICA_MODE].
    rewrite (bind_run _ _ _ _ _ (ret_run _ σ)). reflexivity. }
  unfold collect_args. cbn [imap foldM].
  rewrite (bind_run _ _ _ _ _
             (Hstep x [] 0%nat Hmx eq_refl (index_map_eqb_refl x Hnd))).
  cbn [app]. 
  rewrite (bind_run _ _ _ _ _ (Hstep y [(KInt 0, x)] 1%nat Hmy Hshape Hmap)).
  reflexivity.
Qed.

Lemma dict_find_snoc {A} (d : dict A) (k : Z) (v : A) :
  ~ In k (map fst d) -> dict_find (d ++ [(k, v)]) k = Some v.
Proof.
  induction d as [|[k' v'] d IH]; simpl.
  - intros _. rewrite Z.eqb_refl. reflexivity.
  - intros H. destruct (Z.eqb_spec k' k); [tauto|]. apply IH. tauto.
Qed.

Lemma counts_of_keys (cm : dict (list _Chunk)) :
  map fst (counts_of cm) = map fst cm.
Proof.
  unfold counts_of. rewrite map_map. apply map_ext. intros [dev chunks].
  reflexivity.
Qed.

(** One operand counted into [counts]. *)
Definition count_step (acc : result (dict nat)) (p : Z * list _Chunk)
  : result (dict nat) :=
  let '(dev, chunks) := p in
  counts ← acc;
  let counts :=
    if negb (dict_mem counts dev)
    then dict_set counts dev (length chunks) else counts in
  n ← dict_get counts dev;
  if negb (n =? length chunks)%nat then Raise RuntimeError
  else Ok counts.

Definition count_operand (counts : result (dict nat))
           (cm : dict (list _Chunk)) : result (dict nat) :=
  foldl count_step counts cm.

Lemma count_first (pre rest : dict (list _Chunk)) :
  NoDup (map fst (pre ++ rest)) ->
  count_operand (Ok (counts_of pre)) rest = Ok (counts_of (pre ++ rest)).
Proof.
  revert pre. induction rest as [|[dev chunks] rest IH]; intros pre Hnd.
  - rewrite app_nil_r. reflexivity.
  - assert (Hfresh : ~ In dev (map fst (counts_of pre))).
    { rewrite counts_of_keys. rewrite map_app in Hnd.
      apply NoDup_app in Hnd. destruct Hnd as (_ & Hnd & _).
      intros Hin. apply (Hnd dev); [apply list_elem_of_In; exact Hin|].
      left. }
    assert (Hstep : count_step (Ok (counts_of pre)) (dev, chunks) =
                    Ok (counts_of (pre ++ [(dev, chunks)]))).
    { unfold count_step. cbn [mbind result_bind].
      unfold dict_mem. rewrite (dict_find_fresh _ _ Hfresh). cbn [negb].
      rewrite (dict_set_fresh _ _ _ Hfresh).
      unfold dict_get. rewrite (dict_find_snoc _ _ _ Hfresh).
      cbn [mbind result_bind]. rewrite Nat.eqb_refl. cbn [negb].
      unfold counts_of. rewrite map_app. reflexivity. }
    unfold count_operand. cbn [foldl]. rewrite Hstep.
    specialize (IH (pre ++ [(dev, chunks)])).
    rewrite <- app_assoc in IH. cbn [app] in IH.
    apply IH. exact Hnd.
Qed.

Lemma count_second (counts : dict nat) (cm : dict (list _Chunk)) :
  (forall dev chunks, In (dev, chunks) cm ->
                      dict_find counts dev = Some (length chunks)) ->
  count_operand (Ok counts) cm = Ok counts.
Proof.
  induction cm as [|[dev chunks] cm IH]; intros H; [reflexivity|].
  assert (Hstep : count_step (Ok counts) (dev, chunks) = Ok counts).
  { unfold count_step. cbn [mbind result_bind].
    unfold dict_mem, dict_get. rewrite (H dev chunks ltac:(left; reflexivity)).
    cbn [negb]. rewrite (H dev chunks ltac:(left; reflexivity)).
    cbn [mbind result_bind]. rewrite Nat.eqb_refl. reflexivity. }
  unfold count_operand. cbn [foldl]. rewrite Hstep.
  apply IH. intros d c Hin. apply H. right. exact Hin.
Qed.

Lemma aligned_impl (P Q : _Chunk -> _Chunk -> Prop)
      (cmx cmy : dict (list _Chunk)) :
  aligned P cmx cmy ->
  (forall cx cy, In cx (flatten cmx) -> In cy (flatten cmy) ->
                 P cx cy -> Q cx cy) ->
  aligned Q cmx cmy.
Proof.
  induction 1 as [|[dx cxs] [dy cys] rx ry [Hd Hp] Hrest IH]; intros Himp;
    constructor.
  - split; [exact Hd|]. cbn [snd] in *.
    assert (Hsub : forall cx cy, In cx cxs -> In cy cys -> P cx cy -> Q cx cy).
    { intros cx cy Hx Hy. apply Himp; unfold flatten; cbn [flat_map snd];
        apply in_or_app; left; assumption. }
    clear -Hp Hsub. induction Hp as [|cx cy cxs cys Hxy Hp IHp]; constructor.
    + apply Hsub; [left; reflexivity|left; reflexivity|exact Hxy].
    + apply IHp. intros cx' cy' Hx Hy. apply Hsub; right; assumption.
  - apply IH. intros cx cy Hx Hy. apply Himp; unfold flatten; cbn [flat_map snd];
      apply in_or_app; right; assumption.
Qed.

Lemma aligned_flatten (P : _Chunk -> _Chunk -> Prop)
      (cmx cmy : dict (list _Chunk)) :
  aligned P cmx cmy -> Forall2 P (flatten cmx) (flatten cmy).
Proof.
  induction 1 as [|[dx cxs] [dy cys] rx ry [Hd Hp] Hrest IH]; [constructor|].
  unfold flatten. cbn [flat_map snd]. apply Forall2_app; assumption.
Qed.

Lemma aligned_In_r (P : _Chunk -> _Chunk -> Prop)
      (cmx cmy : dict (list _Chunk)) (dev : Z) (cys : list _Chunk) :
  aligned P cmx cmy -> In (dev, cys) cmy ->
  exists cxs, In (dev, cxs) cmx /\ Forall2 P cxs cys.
Proof.
  induction 1 as [|[dx cxs] [dy cys'] rx ry [Hd Hp] Hrest IH];
    [contradiction|].
  cbn [fst snd] in *. subst dy. intros [[= <- <-]|Hin].
  - exists cxs. split; [left; reflexivity|exact Hp].
  - destruct (IH Hin) as (cxs' & Hin' & Hp'). exists cxs'.
    split; [right; exact Hin'|exact Hp'].
Qed.

Lemma _count_chunks_pair (x y : _DistributedArray V) :
  NoDup (map fst (_chunks_map x)) ->
  (forall dev cys, In (dev, cys) (_chunks_map y) ->
                   exists cxs, In (dev, cxs) (_chunks_map x) /\
                               length cxs = length cys) ->
  _count_chunks_on_devices [(KInt 0, x); (KInt 1, y)] =
    Ok (counts_of (_chunks_map x)).
Proof.
  intros Hnd Hlen.
  change (_count_chunks_on_devices [(KInt 0, x); (KInt 1, y)])
    with (count_operand (count_operand (Ok (counts_of [])) (_chunks_map x))
                        (_chunks_map y)).
  rewrite (count_first [] (_chunks_map x) Hnd). cbn [app].
  apply count_second. intros dev cys Hin.
  destruct (Hlen dev cys Hin) as (cxs & Hinx & <-).
  apply dict_find_In; [rewrite counts_of_keys; exact Hnd|].
  unfold counts_of. apply in_map_iff. exists (dev, cxs).
  split; [reflexivity|exact Hinx].
Qed.

(** *** Equal index maps *)

Lemma opt_Z_eqb_eq (a b : option Z) : opt_Z_eqb a b = true -> a = b.
Proof.
  destruct a, b; simpl; try discriminate; [|reflexivity].
  intros H. apply Z.eqb_eq in H. congruence.
Qed.

Lemma slice_eqb_eq (a b : slice) : slice_eqb a b = true -> a = b.
Proof.
  unfold slice_eqb. rewrite !andb_true_iff. intros [[H1 H2] H3].
  apply opt_Z_eqb_eq in H1, H2, H3. destruct a, b. simpl in *. congruence.
Qed.

Lemma list_eqb_eq {A} (eqb : A -> A -> bool) (l1 l2 : list A) :
  (forall x y, eqb x y = true -> x = y) ->
  list_eqb eqb l1 l2 = true -> l1 = l2.
Proof.
  intros Heq. revert l2. induction l1 as [|x l1 IH]; intros [|y l2]; simpl;
    try discriminate; [reflexivity|].
  rewrite andb_true_iff. intros [H1 H2]. f_equal; [apply Heq|apply IH];
    assumption.
Qed.

Lemma dict_find_Some_In {A} (d : dict A) (k : Z) (v : A) :
  dict_find d k = Some v -> In (k, v) d.
Proof.
  induction d as [|[k' v'] d IH]; simpl; [discriminate|].
  destruct (Z.eqb_spec k' k) as [->|Hne].
  - intros [= ->]. left. reflexivity.
  - intros H. right. apply IH, H.
Qed.

Lemma dict_find_key {A} (d : dict A) (k : Z) :
  In k (map fst d) -> exists v, dict_find d k = Some v.
Proof.
  induction d as [|[k' v'] d IH]; simpl; [contradiction|].
  destruct (Z.eqb_spec k' k) as [->|Hne]; [eexists; reflexivity|].
  intros [H|H]; [contradiction|apply IH, H].
Qed.

Lemma dict_eqb_entry {A} (eqb : A -> A -> bool) (d1 d2 : dict A) (k : Z)
      (v : A) :
  dict_eqb eqb d1 d2 = true -> In (k, v) d1 ->
  exists v', dict_find d2 k = Some v' /\ eqb v v' = true.
Proof.
  unfold dict_eqb. rewrite andb_true_iff. intros [_ Hall] Hin.
  rewrite forallb_forall in Hall. specialize (Hall (k, v) Hin).
  cbv beta iota in Hall.
  destruct (dict_find d2 k) as [v'|]; [|discriminate Hall].
  exists v'. split; [reflexivity|exact Hall].
Qed.

(** What [index_map_eqb] says of an entry of its first argument. *)
Lemma index_map_eqb_entry (x y : _DistributedArray V) (dev : Z)
      (cys : list _Chunk) :
  index_map_eqb (index_map y) (index_map x) = true ->
  In (dev, cys) (_chunks_map y) ->
  dict_find (index_map x) dev = Some (map chunk_index cys).
Proof.
  intros Heq Hin.
  destruct (dict_eqb_entry _ _ _ dev (map chunk_index cys) Heq)
    as (v' & Hfind & Hv).
  { unfold index_map. apply in_map_iff. exists (dev, cys).
    split; [reflexivity|exact Hin]. }
  rewrite Hfind. f_equal. symmetry. revert Hv. apply list_eqb_eq.
  intros a b. apply list_eqb_eq, slice_eqb_eq.
Qed.

Lemma index_map_eqb_keys (x y : _DistributedArray V) :
  index_map_eqb (index_map y) (index_map x) = true ->
  NoDup (map fst (_chunks_map y)) ->
  Permutation (map fst (_chunks_map y)) (map fst (_chunks_map x)).
Proof.
  intros Heq Hnd. apply submseteq_length_Permutation.
  - apply NoDup_submseteq; [exact Hnd|]. intros dev Hdev.
    apply list_elem_of_In, in_map_iff in Hdev.
    destruct Hdev as ([dev' cys] & Hd & Hin). simpl in Hd. subst dev'.
    pose proof (index_map_eqb_entry x y dev cys Heq Hin) as Hfind.
    apply dict_find_Some_In in Hfind.
    apply list_elem_of_In. rewrite <- index_map_keys.
    apply in_map_iff. eexists. split; [|exact Hfind]. reflexivity.
  - unfold index_map_eqb, dict_eqb in Heq. apply andb_true_iff in Heq.
    destruct Heq as [Hlen _]. apply Nat.eqb_eq in Hlen.
    unfold index_map in Hlen. rewrite !length_map in *. lia.
Qed.

(** The chunks of [cmy] in the order of the devices of [cmx]. *)
Definition in_order_of (cmx cmy : dict (list _Chunk)) : dict (list _Chunk) :=
  map (fun '(dev, _) => (dev, default [] (dict_find cmy dev))) cmx.

Lemma in_order_of_perm (x y : _DistributedArray V) :
  index_map_eqb (index_map y) (index_map x) = true ->
  NoDup (map fst (_chunks_map y)) ->
  Permutation (in_order_of (_chunks_map x) (_chunks_map y)) (_chunks_map y).
Proof.
  intros Heq Hnd.
  set (g := fun dev : Z => (dev, default [] (dict_find (_chunks_map y) dev))).
  assert (Hx : in_order_of (_chunks_map x) (_chunks_map y) =
               map g (map fst (_chunks_map x))).
  { unfold in_order_of. rewrite map_map. apply map_ext. intros [dev cxs].
    reflexivity. }
  assert (Hy : _chunks_map y = map g (map fst (_chunks_map y))).
  { rewrite map_map. rewrite <- (map_id (_chunks_map y)) at 1.
    apply map_ext_in. intros [dev cys] Hin. unfold g. cbn [fst].
    rewrite (dict_find_In _ _ _ Hnd Hin). reflexivity. }
  rewrite Hx. rewrite Hy at 1. apply Permutation_map. symmetry.
  apply index_map_eqb_keys; assumption.
Qed.

Lemma in_order_of_lookup (x y : _DistributedArray V) (dev : Z)
      (cys : list _Chunk) :
  index_map_eqb (index_map y) (index_map x) = true ->
  NoDup (map fst (_chunks_map y)) ->
  In (dev, cys) (in_order_of (_chunks_map x) (_chunks_map y)) ->
  dict_find (_chunks_map y) dev = Some cys.
Proof.
  intros Heq Hnd Hin. apply dict_find_In; [exact Hnd|].
  eapply Permutation_in; [apply in_order_of_perm; eassumption|exact Hin].
Qed.

Lemma map_eq_Forall2 {A B} (g : A -> B) (l1 l2 : list A) :
  map g l2 = map g l1 -> Forall2 (fun a b => g b = g a) l1 l2.
Proof.
  revert l2. induction l1 as [|a l1 IH]; intros [|b l2] H; try discriminate;
    constructor.
  - cbn [map] in H. injection H as H _. exact H.
  - apply IH. cbn [map] in H. injection H as _ H. exact H.
Qed.

(** Under [index_map_eqb], the chunks of the second operand, taken in the
    order of the devices of the first, have the indices of its chunks. *)
Lemma index_map_eqb_aligned (x y : _DistributedArray V) :
  index_map_eqb (index_map y) (index_map x) = true ->
  NoDup (map fst (_chunks_map x)) ->
  NoDup (map fst (_chunks_map y)) ->
  aligned (fun cx cy => chunk_index cy = chunk_index cx)
          (_chunks_map x) (in_order_of (_chunks_map x) (_chunks_map y)).
Proof.
  intros Heq Hndx Hndy. unfold aligned, in_order_of.
  apply Forall2_fmap_r, Forall_Forall2_diag, Forall_forall.
  intros [dev cxs] Hin. apply list_elem_of_In in Hin. cbn [fst snd].
  split; [reflexivity|].
  assert (Hkey : In dev (map fst (_chunks_map y))).
  { eapply Permutation_in;
      [symmetry; apply index_map_eqb_keys; eassumption|].
    apply in_map_iff. exists (dev, cxs). split; [reflexivity|exact Hin]. }
  destruct (dict_find_key _ _ Hkey) as (cys & Hfind). rewrite Hfind.
  cbn [default]. apply map_eq_Forall2.
  pose proof (index_map_eqb_entry x y dev cys Heq (dict_find_Some_In _ _ _ Hfind))
    as Hentry.
  unfold index_map in Hentry. rewrite dict_find_map in Hentry.
  rewrite (dict_find_In _ _ _ Hndx Hin) in Hentry. cbn [option_map] in Hentry.
  injection Hentry as Hentry. symmetry. exact Hentry.
Qed.

Lemma flat_map_length_In {A B} (g : A -> list B) (l : list A) (x : A) :
  In x l -> (length (g x) <= length (flat_map g l))%nat.
Proof.
  induction l as [|y l IH]; simpl; [contradiction|].
  rewrite length_app. intros [->|Hin]; [lia|]. specialize (IH Hin). lia.
Qed.

Lemma in_order_of_updates (x y : _DistributedArray V) :
  index_map_eqb (index_map y) (index_map x) = true ->
  NoDup (map fst (_chunks_map y)) ->
  length (flat_map chunk_updates
            (flatten (in_order_of (_chunks_map x) (_chunks_map y)))) =
  length (flat_map chunk_updates (flatten (_chunks_map y))).
Proof.
  intros Heq Hnd. apply Permutation_length.
  apply Permutation_flat_map. unfold flatten. apply Permutation_flat_map.
  apply in_order_of_perm; assumption.
Qed.

(** [_execute_kernel] on two replica-mode operands of one shape and one
    index map, with at most one update pending between them: a
    replica-mode array in new buffers whose chunks hold what the kernel
    makes of what the chunks of the operands hold, those of the second
    operand taken in the order of the devices of the first. *)
Lemma _execute_kernel_run (f : kernel_fn V) (x y : _DistributedArray V)
      (vxs vys : list (ndarray V)) (σ : store V) :
  _mode x = _REPLICA_MODE -> _mode y = _REPLICA_MODE ->
  da_shape y = da_shape x ->
  index_map_eqb (index_map y) (index_map x) = true ->
  NoDup (map fst (_chunks_map x)) ->
  NoDup (map fst (_chunks_map y)) ->
  (_comms x <> [] \/ nccl_available = true) ->
  Forall2 (holds (da_shape x) σ) (flatten (_chunks_map x)) vxs ->
  Forall2 (holds (da_shape x) σ)
          (flatten (in_order_of (_chunks_map x) (_chunks_map y))) vys ->
  (length (flat_map chunk_updates (flatten (_chunks_map x))) +
   length (flat_map chunk_updates (flatten (_chunks_map y))) <= 1)%nat ->
  exists d' ext,
    _execute_kernel x f [ODist x; ODist y] [] σ = (Ok d', σ ++ ext) /\
    _mode d' = _REPLICA_MODE /\
    da_shape d' = da_shape x /\
    map chunk_index (flatten (_chunks_map d')) =
      map chunk_index (flatten (_chunks_map x)) /\
    Forall2 (holds (da_shape x) (σ ++ ext)) (flatten (_chunks_map d'))
            (zip_with (kernel_value f) vxs vys) /\
    NoDup (map buf_of (flatten (_chunks_map d'))) /\
    length (flat_map chunk_updates (flatten (_chunks_map d'))) =
      (length (flat_map chunk_updates (flatten (_chunks_map x))) +
       length (flat_map chunk_updates (flatten (_chunks_map y))))%nat.
Proof.
  intros Hmx Hmy Hshape Hmap Hnd Hndy Hcomms Hhx Hhy Hcount.
  pose proof (in_order_of_updates x y Hmap Hndy) as Hperm.
  assert (Hal : aligned paired (_chunks_map x)
                        (in_order_of (_chunks_map x) (_chunks_map y))).
  { eapply aligned_impl; [apply index_map_eqb_aligned; assumption|].
    intros cx cy Hx Hy Hidx. split; [exact Hidx|].
    pose proof (flat_map_length_In chunk_updates _ _ Hx).
    pose proof (flat_map_length_In chunk_updates _ _ Hy).
    destruct (chunk_updates cx); [left; reflexivity|right].
    destruct (chunk_updates cy); [reflexivity|]. simpl in *. lia. }
  destruct (execute_on_devices f (da_shape x) x y _ _ Hal vxs vys []
              (ODist x) (ODist y) σ)
    as (outs & ext & a0 & a1 & Hrun & Hidxs & Hhs & _ & Hnds & Hcnt);
    try assumption.
  { intros dev cxs Hin. apply dict_find_In; assumption. }
  { intros dev cys Hin. apply (in_order_of_lookup x y); assumption. }
  destruct (_DistributedArray_new_ok (da_shape x) outs _REPLICA_MODE
              (Some (_comms x))) as (cs & Hnew & _).
  { destruct Hcomms as [Hc|Hc]; [left|right; exact Hc].
    destruct (_comms x); [contradiction|reflexivity]. }
  exists (DistributedArray (da_shape x) outs _REPLICA_MODE cs), ext.
  split; [|repeat match goal with |- _ /\ _ => split end;
           try assumption; try reflexivity;
           cbn [_chunks_map]; rewrite Hcnt, Hperm; reflexivity].
  assert (Hlen : forall dev cys,
             In (dev, cys) (_chunks_map y) ->
             exists cxs, In (dev, cxs) (_chunks_map x) /\
                         length cxs = length cys).
  { intros dev cys Hin.
    destruct (aligned_In_r paired _ _ dev cys Hal) as (cxs & Hinx & Hp).
    - eapply Permutation_in; [symmetry; apply in_order_of_perm; eassumption|].
      exact Hin.
    - exists cxs. split; [exact Hinx|]. eapply Forall2_length, Hp. }
  unfold _execute_kernel.
  rewrite (bind_run _ _ _ _ _
             (collect_args_pair x y σ Hmx Hmy Hshape Hmap Hnd)).
  cbn [collect_kwargs foldM].
  rewrite (bind_run _ _ _ _ _ (ret_run _ σ)).
  rewrite (bind_run _ _ _ _ _
             (lift_run _ _ σ (_count_chunks_pair x y Hnd Hlen))).
  change (foldM _ ?s ?l) with (foldM (on_device x f) s l).
  rewrite (bind_run _ _ _ _ _ Hrun). cbn [app].
  apply lift_run. exact Hnew.
Qed.

Lemma well_formed_holds (shape : list Z) (σ : store V) (chunk : _Chunk) :
  well_formed_chunk shape σ chunk ->
  (length (chunk_updates chunk) <= 1)%nat ->
  exists v, holds shape σ chunk v.
Proof.
  intros (a & axes & Hok & Hups) Hlen.
  destruct (chunk_updates chunk) as [|u [|u' us]] eqn:E;
    [| |simpl in Hlen; lia].
  - exists a, a, axes. split; [exact Hok|]. split; [apply Hok|].
    rewrite E. reflexivity.
  - apply Forall_cons in Hups. destruct Hups as [(p & uaxes & Hu) _].
    exists (NDArray (view_shape axes)
              (fun c => if in_axes uaxes c then nd_item p (to_local uaxes c)
                        else nd_item a c)), a, axes.
    split; [exact Hok|]. split; [reflexivity|]. rewrite E.
    exists p, uaxes. split; [exact Hu|]. reflexivity.
Qed.

Lemma drained_indices (l : list _Chunk) :
  map chunk_index (map drained l) = map chunk_index l.
Proof. rewrite map_map. reflexivity. Qed.

Lemma drained_bufs (l : list _Chunk) :
  map buf_of (map drained l) = map buf_of l.
Proof. rewrite map_map. reflexivity. Qed.

Lemma drained_updates (l : list _Chunk) :
  flat_map chunk_updates (map drained l) = [].
Proof. induction l as [|c l IH]; [reflexivity|exact IH]. Qed.

Lemma drained_map_keys (cm : dict (list _Chunk)) :
  map fst (drained_map cm) = map fst cm.
Proof.
  unfold drained_map. rewrite map_map. apply map_ext. intros [dev chunks].
  reflexivity.
Qed.

Lemma drained_map_index_map (d : _DistributedArray V) :
  index_map (DistributedArray (da_shape d) (drained_map (_chunks_map d))
                              (_mode d) (_comms d)) = index_map d.
Proof.
  unfold index_map, drained_map. cbn [_chunks_map]. rewrite map_map.
  apply map_ext. intros [dev chunks]. rewrite drained_indices. reflexivity.
Qed.

(** What a chunk holds is determined, up to [nd_eq]. *)
Lemma holds_functional (shape : list Z) (σ : store V) (chunk : _Chunk)
      (v v' : ndarray V) :
  holds shape σ chunk v -> holds shape σ chunk v' -> nd_eq v v'.
Proof.
  intros (a & axes & (_ & Hb & _ & _ & Hax & _) & Hvs & Hu)
         (a' & axes' & (_ & Hb' & _ & _ & Hax' & _) & Hvs' & Hu').
  rewrite Hb in Hb'. injection Hb' as <-.
  rewrite Hax in Hax'. injection Hax' as <-.
  split; [congruence|]. intros c Hc. rewrite Hvs in Hc.
  destruct (chunk_updates chunk) as [|u [|? ?]]; [| |contradiction].
  - rewrite Hu, Hu' by exact Hc. reflexivity.
  - destruct Hu as (p & uaxes & (Hl & _ & Hua & _) & Hu).
    destruct Hu' as (p' & uaxes' & (Hl' & _ & Hua' & _) & Hu').
    rewrite Hl in Hl'. injection Hl' as <-.
    rewrite Hua in Hua'. injection Hua' as <-.
    rewrite Hu, Hu' by exact Hc. reflexivity.
Qed.

Lemma holds_nd_eq (shape : list Z) (σ : store V) (chunk : _Chunk)
      (v v' : ndarray V) :
  holds shape σ chunk v -> nd_eq v v' -> holds shape σ chunk v'.
Proof.
  intros (a & axes & Hok & Hvs & Hu) [Hs Hi].
  exists a, axes. split; [exact Hok|]. split; [congruence|].
  destruct (chunk_updates chunk) as [|u [|? ?]]; [| |contradiction].
  - intros c Hc. rewrite <- Hi by (rewrite Hvs; exact Hc). apply Hu, Hc.
  - destruct Hu as (p & uaxes & Hup & Hu). exists p, uaxes.
    split; [exact Hup|]. intros c Hc.
    rewrite <- Hi by (rewrite Hvs; exact Hc). apply Hu, Hc.
Qed.

(** What each chunk of a list holds before and after a change of the
    store and of the chunks, from what the list holds in order. *)
Lemma holds_pointwise (shape : list Z) (σ σ' : store V)
      (g : _Chunk -> _Chunk) (l : list _Chunk) (vl : list (ndarray V)) :
  Forall2 (holds shape σ) l vl ->
  Forall2 (holds shape σ') (map g l) vl ->
  forall c v, In c l -> holds shape σ c v -> holds shape σ' (g c) v.
Proof.
  induction 1 as [|c0 v0 l vl Hc0 Hall IH]; intros Hall' c v Hin Hc;
    [contradiction|].
  cbn [map] in Hall'. apply Forall2_cons_1 in Hall'.
  destruct Hall' as [Hc0' Hall']. destruct Hin as [->|Hin].
  - apply (holds_nd_eq shape σ' (g c) v0); [exact Hc0'|].
    apply (holds_functional shape σ c); assumption.
  - apply IH; assumption.
Qed.

Lemma in_order_of_drained (cmx cmy : dict (list _Chunk)) :
  in_order_of (drained_map cmx) (drained_map cmy) =
  drained_map (in_order_of cmx cmy).
Proof.
  induction cmx as [|[dev cxs] cmx IH]; [reflexivity|].
  change (in_order_of (drained_map ((dev, cxs) :: cmx)) (drained_map cmy))
    with ((dev, default [] (dict_find (drained_map cmy) dev)) ::
          in_order_of (drained_map cmx) (drained_map cmy)).
  change (drained_map (in_order_of ((dev, cxs) :: cmx) cmy))
    with ((dev, map drained (default [] (dict_find cmy dev))) ::
          drained_map (in_order_of cmx cmy)).
  rewrite IH. do 2 f_equal.
  unfold drained_map. rewrite dict_find_map.
  destruct (dict_find cmy dev); reflexivity.
Qed.

(** [asnumpy] of a kernel result, then a read of the host array. *)
Lemma materialise_run (d : _DistributedArray V) (vs : list (ndarray V))
      (σ : store V) :
  _mode d = _REPLICA_MODE ->
  Forall2 (holds (da_shape d) σ) (flatten (_chunks_map d)) vs ->
  NoDup (map buf_of (flatten (_chunks_map d))) ->
  (length (flat_map chunk_updates (flatten (_chunks_map d))) <= 1)%nat ->
  exists R σ' g,
    (r ← asnumpy d; load r.1) σ = (Ok R, σ') /\
    nd_shape R = host_shape (da_shape d) /\
    forall c,
      nd_item R c =
      assemble (da_shape d)
               (zip (map chunk_index (flatten (_chunks_map d))) vs) g c.
Proof.
  intros Hmode Hall Hnd Hcount.
  destruct (asnumpy_run d vs σ Hmode Hall Hnd Hcount)
    as (R & d' & σ' & g & Hrun & Hlen & HRs & HR).
  exists R, (σ' ++ [R]), g. split; [|split; assumption].
  rewrite (bind_run _ _ _ _ _ Hrun). cbn [fst].
  apply (load_run _ _ R R); [|reflexivity]. cbn [arr_buf].
  rewrite <- Hlen. rewrite lookup_app_r by lia. rewrite Nat.sub_diag.
  reflexivity.
Qed.

End LazyKernel.

(** * Further properties of the index algebra *)

(** X1. [_extgcd a b] returns the greatest common divisor of [a] and [b]
    and a coefficient [x] with [a * x = gcd(a, b)] modulo [b], for all
    nonnegative [a] and [b] (the docstring asks for positive ones; with
    [b = 0] the loop is not entered and the result is [(a, 1)]). *)
Theorem X1_extgcd_bezout (a b : Z) :
  0 <= a -> 0 <= b ->
  exists g x,
    _extgcd a b = (g, x) /\ g = Z.gcd a b /\ (b | a * x - g).
Proof.
  intros Ha Hb. unfold _extgcd.
  destruct (extgcd_loop_spec a b a b 1 0) as [Hg [y Hy]]; try lia.
  - exists 0. ring.
  - exists 1. ring.
  - destruct (extgcd_loop a b 1 0) as [g x]. cbn [fst snd] in Hg, Hy.
    exists g, x. split; [reflexivity|]. split; [exact Hg|].
    exists (- y). lia.
Qed.

Lemma X1_extgcd_bezout_witness :
  exists g x, _extgcd 12 18 = (g, x) /\ g = Z.gcd 12 18 /\ (18 | 12 * x - g).
Proof. apply (X1_extgcd_bezout 12 18); lia. Defined.

(** ** _index_intersection on whole index tuples *)

Lemma index_mem_cons (s : slice) (idx : index) (n : Z) (shape : list Z)
      (i : Z) (c : list Z) :
  index_mem (n :: shape) (s :: idx) (i :: c) =
  slice_mem s n i && index_mem shape idx c.
Proof.
  unfold index_mem, axes_of, slice_mem. cbn [length].
  change (S (length shape) <? S (length idx))%nat
    with (length shape <? length idx)%nat.
  destruct (length shape <? length idx)%nat.
  - destruct (slice_indices s n) as [[[st sp] stp]|]; [|reflexivity].
    rewrite andb_false_r. reflexivity.
  - change (S (length shape) - S (length idx))%nat
      with (length shape - length idx)%nat.
    cbn [app zip zip_with mapM].
    destruct (slice_indices s n) as [[[st sp] stp]|]; cbn [mbind result_bind];
      [|reflexivity].
    fold (zip (idx ++ repeat slice_all (length shape - length idx)) shape).
    destruct (mapM _ _) as [axes|]; cbn [mbind result_bind in_axes].
    + reflexivity.
    + rewrite andb_false_r. reflexivity.
Qed.

Lemma index_mem_cons_nil (s : slice) (idx : index) (n : Z) (shape : list Z) :
  index_mem (n :: shape) (s :: idx) [] = false.
Proof.
  unfold index_mem. destruct (axes_of (n :: shape) (s :: idx)) as [axes|] eqn:E;
    [|reflexivity].
  destruct axes as [|[[st sp] stp] axes]; [|reflexivity].
  exfalso. unfold axes_of in E. destruct (_ <? _)%nat; [discriminate|].
  cbn [app zip zip_with mapM] in E.
  destruct (slice_indices s n) as [[[st sp] stp]|]; cbn [mbind result_bind] in E;
    [|discriminate].
  destruct (mapM _ _); cbn [mbind result_bind] in E; discriminate.
Qed.

(** One turn of the loop of [_index_intersection]. *)
Lemma _index_intersection_cons (a b : slice) (a_idx b_idx : index) (n : Z)
      (shape : list Z) :
  length a_idx = length shape -> length b_idx = length shape ->
  _index_intersection (a :: a_idx) (b :: b_idx) (n :: shape) =
  (r ← _slice_intersection a b n;
   rest ← _index_intersection a_idx b_idx shape;
   Ok (match r, rest with
       | Some c, Some region => Some (c :: region)
       | _, _ => None
       end)).
Proof.
  intros Hla Hlb. unfold _index_intersection.
  assert (H1 : negb ((len (a :: a_idx) =? len (b :: b_idx)) &&
                     (len (b :: b_idx) =? len (n :: shape))) = false).
  { apply negb_false_iff, andb_true_iff. unfold len. cbn [length].
    split; apply Z.eqb_eq; lia. }
  assert (H2 : negb ((len a_idx =? len b_idx) && (len b_idx =? len shape)) = false).
  { apply negb_false_iff, andb_true_iff. unfold len.
    split; apply Z.eqb_eq; lia. }
  rewrite H1, H2. cbn [zip3 mapM].
  destruct (_slice_intersection a b n) as [r|]; cbn [mbind result_bind];
    [|reflexivity].
  destruct (mapM _ _) as [res|]; cbn [mbind result_bind has_no_none];
    [|reflexivity].
  destruct r as [c|]; [|reflexivity].
  destruct (has_no_none res); reflexivity.
Qed.

(** What [_slice_intersection] selects on one axis. *)
Lemma _slice_intersection_mem (a b : slice) (n : Z) :
  pos_step a -> pos_step b -> 0 <= n ->
  exists r,
    _slice_intersection a b n = Ok r /\
    forall i,
      match r with Some c => slice_mem c n i | None => false end =
      slice_mem a n i && slice_mem b n i.
Proof.
  intros Hpa Hpb Hn.
  destruct (slice_indices_pos a n Hpa Hn) as (a_start & a_stop & Ha & Ha1 & Ha2).
  destruct (slice_indices_pos b n Hpb Hn) as (b_start & b_stop & Hb & Hb1 & Hb2).
  destruct (_slice_intersection_spec a b n _ _ _ _ _ _ Ha Hb Hpa Hpb)
    as (r & Hr & Hspec & _).
  exists r. split; [exact Hr|]. intros i. unfold slice_mem at 2 3.
  rewrite Ha, Hb. apply intersection_spec_mem; (assumption || lia).
Qed.

(** What [_index_intersection] selects. *)
Lemma _index_intersection_mem (a_idx b_idx : index) (shape : list Z) :
  Forall pos_step a_idx -> Forall pos_step b_idx ->
  Forall (fun n => 0 <= n) shape ->
  length a_idx = length shape -> length b_idx = length shape ->
  exists r,
    _index_intersection a_idx b_idx shape = Ok r /\
    forall c,
      match r with
      | Some region => index_mem shape region c
      | None => false
      end = index_mem shape a_idx c && index_mem shape b_idx c.
Proof.
  intros Ha. revert b_idx shape.
  induction Ha as [|a a_idx Hpa Ha IH]; intros b_idx shape Hb Hs Hla Hlb.
  - destruct shape; [|discriminate]. destruct b_idx; [|discriminate].
    exists (Some []). split; [reflexivity|]. intros c.
    destruct (index_mem [] [] c); reflexivity.
  - destruct Hs as [|n shape Hn Hs]; [discriminate|].
    destruct Hb as [|b b_idx Hpb Hb]; [discriminate|].
    cbn [length] in Hla, Hlb.
    destruct (_slice_intersection_mem a b n Hpa Hpb Hn) as (r & Hr & Hmem).
    destruct (IH b_idx shape Hb Hs ltac:(lia) ltac:(lia)) as (rest & Hrest & Hin).
    rewrite _index_intersection_cons by lia.
    rewrite Hr, Hrest. cbn [mbind result_bind].
    eexists. split; [reflexivity|]. intros [|i c].
    + rewrite !index_mem_cons_nil. destruct r, rest; try reflexivity.
      apply index_mem_cons_nil.
    + rewrite !index_mem_cons. specialize (Hmem i). specialize (Hin c).
      destruct r as [s|], rest as [region|];
        rewrite ?index_mem_cons;
        destruct (slice_mem a n i), (slice_mem b n i),
                 (index_mem shape a_idx c), (index_mem shape b_idx c);
        cbn [andb] in *; rewrite ?Hmem, ?Hin; try reflexivity;
        try (rewrite andb_false_r; reflexivity).
Qed.

Lemma sub_axes_step (shape : list Z) (a_idx region : index) :
  Forall3 sub_axis shape a_idx region -> Forall pos_step region.
Proof.
  induction 1 as [|n a r shape a_idx region Hax Hsub IH]; constructor;
    [|exact IH].
  destruct Hax as (a_start & a_stop & a_step & c_start & c_stop & c_step &
                   _ & -> & _ & Hpc & _).
  exact Hpc.
Qed.

Lemma sub_axes_chunk (shape : list Z) (a_idx region : index) :
  Forall3 sub_axis shape a_idx region ->
  exists axes_a, axes_of shape a_idx = Ok axes_a.
Proof.
  intros Hsub.
  pose proof (Forall3_length_lm _ _ _ _ Hsub) as Hl.
  rewrite axes_of_full by lia. clear Hl.
  induction Hsub as [|n a r shape a_idx region Hax Hsub [axes_a IH]].
  - exists []. reflexivity.
  - destruct Hax as (a_start & a_stop & a_step & c_start & c_stop & c_step &
                     Ha & _).
    exists ((a_start, a_stop, a_step) :: axes_a).
    cbn [zip zip_with mapM]. rewrite Ha. cbn [mbind result_bind].
    fold (zip a_idx shape). rewrite IH. reflexivity.
Qed.

(** X2. For index tuples [a_idx] and [b_idx] of slices with positive steps,
    one slice for each axis of [shape], [_index_intersection] returns
    without raising, and the index it returns selects exactly the
    coordinates that both [a_idx] and [b_idx] select; it returns [None]
    exactly when no coordinate is selected by both, so an index it returns
    selects something.  The index it returns has again one slice with a
    positive step for each axis. *)
Theorem X2_index_intersection_exact (a_idx b_idx : index) (shape : list Z) :
  Forall pos_step a_idx -> Forall pos_step b_idx ->
  Forall (fun n => 0 <= n) shape ->
  length a_idx = length shape -> length b_idx = length shape ->
  exists r,
    _index_intersection a_idx b_idx shape = Ok r /\
    (forall c,
       match r with
       | Some region => index_mem shape region c
       | None => false
       end = index_mem shape a_idx c && index_mem shape b_idx c) /\
    (r = None <->
     forall c, index_mem shape a_idx c && index_mem shape b_idx c = false) /\
    (forall region, r = Some region ->
                    length region = length shape /\ Forall pos_step region /\
                    exists c, index_mem shape region c = true).
Proof.
  intros Ha Hb Hs Hla Hlb.
  destruct (_index_intersection_mem a_idx b_idx shape Ha Hb Hs Hla Hlb)
    as (r & Hr & Hmem).
  assert (Hsome : forall region, r = Some region ->
                                 exists c, index_mem shape region c = true).
  { intros region ->.
    destruct (_index_intersection_sub_axes _ _ _ _ Ha Hb Hs Hr) as [Sa Sb].
    destruct (sub_axes_chunk _ _ _ Sa) as (axes_a & Haxa).
    destruct (sub_axes_chunk _ _ _ Sb) as (axes_b & Haxb).
    exists (map region_start region). rewrite Hmem. unfold index_mem.
    rewrite Haxa, Haxb.
    rewrite (region_start_selected shape a_idx region axes_a Sa Haxa).
    rewrite (region_start_selected shape b_idx region axes_b Sb Haxb).
    reflexivity. }
  exists r. split; [exact Hr|]. split; [exact Hmem|]. split; [split|].
  - intros -> c. symmetry. apply Hmem.
  - intros Hnone. destruct r as [region|]; [|reflexivity].
    destruct (Hsome region eq_refl) as (c & Hc).
    rewrite Hmem, Hnone in Hc. discriminate Hc.
  - intros region Hreg. pose proof (Hsome region Hreg) as Hex. subst r.
    destruct (_index_intersection_sub_axes _ _ _ _ Ha Hb Hs Hr) as [Sa _].
    split; [|split; [|exact Hex]].
    + symmetry. apply (Forall3_length_lr _ _ _ _ Sa).
    + apply (sub_axes_step _ _ _ Sa).
Qed.

Lemma X2_index_intersection_exact_witness :
  exists r,
    _index_intersection [Slice (Some 0) (Some 6) (Some 2); slice_all]
                        [Slice (Some 2) None None; Slice (Some 1) (Some 3) None]
                        [6; 4] = Ok r /\
    (forall c,
       match r with
       | Some region => index_mem [6; 4] region c
       | None => false
       end = index_mem [6; 4] [Slice (Some 0) (Some 6) (Some 2); slice_all] c &&
             index_mem [6; 4]
                       [Slice (Some 2) None None; Slice (Some 1) (Some 3) None] c) /\
    (r = None <->
     forall c,
       index_mem [6; 4] [Slice (Some 0) (Some 6) (Some 2); slice_all] c &&
       index_mem [6; 4]
                 [Slice (Some 2) None None; Slice (Some 1) (Some 3) None] c =
       false) /\
    (forall region, r = Some region ->
                    length region = length [6; 4] /\ Forall pos_step region /\
                    exists c, index_mem [6; 4] region c = true).
Proof.
  apply (X2_index_intersection_exact
           [Slice (Some 0) (Some 6) (Some 2); slice_all]
           [Slice (Some 2) None None; Slice (Some 1) (Some 3) None] [6; 4]).
  - repeat constructor.
  - repeat constructor.
  - repeat constructor; lia.
  - reflexivity.
  - reflexivity.
Defined.

(** ** The index of a region within the chunks it comes from *)

(** [x[a_idx][new_idx]] is [x[region]] for the index that
    [_index_for_subindex] computes. *)
Lemma subindex_view {V} (x : ndarray V) (a_idx region : index) :
  Forall3 sub_axis (nd_shape x) a_idx region ->
  exists new_idx xa xr xn,
    _index_for_subindex a_idx region (nd_shape x) = Ok new_idx /\
    getitem x a_idx = Ok xa /\ getitem x region = Ok xr /\
    getitem xa new_idx = Ok xn /\ nd_eq xn xr.
Proof.
  intros Hsub.
  destruct (sub_axes_chunk _ _ _ Hsub) as (axes_a & Ha).
  destruct (sub_axes_region _ _ _ Hsub) as (axes_r & Hr & _).
  destruct (_index_for_subindex_spec _ _ _ _ _ Hsub Ha Hr)
    as (new_idx & axes_n & Hnew & Hn & _ & Hshape & Hbase).
  exists new_idx,
    (NDArray (view_shape axes_a) (fun c => nd_item x (to_base axes_a c))),
    (NDArray (view_shape axes_r) (fun c => nd_item x (to_base axes_r c))),
    (NDArray (view_shape axes_n)
             (fun c => nd_item x (to_base axes_a (to_base axes_n c)))).
  split; [exact Hnew|]. unfold getitem. rewrite Ha, Hr.
  cbn [mbind result_bind nd_shape nd_item]. rewrite Hn.
  cbn [mbind result_bind]. repeat split; try reflexivity.
  - exact Hshape.
  - intros c _. cbn [nd_item]. rewrite Hbase. reflexivity.
Qed.

(** X3. When two index tuples of slices with positive steps intersect,
    [_index_for_subindex] locates the intersection in either of them: for
    an array [x] and the region [r] that [_index_intersection a_idx b_idx]
    returns, it returns indices [a_new] and [b_new] with
    [x[a_idx][a_new] == x[r]] and [x[b_idx][b_new] == x[r]]. *)
Theorem X3_subindex_of_intersection {V} (x : ndarray V)
        (a_idx b_idx region : index) :
  Forall pos_step a_idx -> Forall pos_step b_idx ->
  Forall (fun n => 0 <= n) (nd_shape x) ->
  _index_intersection a_idx b_idx (nd_shape x) = Ok (Some region) ->
  exists a_new b_new xa xb xr xa' xb',
    _index_for_subindex a_idx region (nd_shape x) = Ok a_new /\
    _index_for_subindex b_idx region (nd_shape x) = Ok b_new /\
    getitem x a_idx = Ok xa /\ getitem x b_idx = Ok xb /\
    getitem x region = Ok xr /\
    getitem xa a_new = Ok xa' /\ getitem xb b_new = Ok xb' /\
    nd_eq xa' xr /\ nd_eq xb' xr.
Proof.
  intros Ha Hb Hs Hinter.
  destruct (_index_intersection_sub_axes _ _ _ _ Ha Hb Hs Hinter) as [Sa Sb].
  destruct (subindex_view x a_idx region Sa)
    as (a_new & xa & xr & xa' & H1 & H2 & H3 & H4 & H5).
  destruct (subindex_view x b_idx region Sb)
    as (b_new & xb & xr' & xb' & H6 & H7 & H8 & H9 & H10).
  rewrite H3 in H8. injection H8 as <-.
  exists a_new, b_new, xa, xb, xr, xa', xb'. tauto.
Qed.

Lemma X3_subindex_of_intersection_witness :
  let x := NDArray [6; 4] (fun c => c) in
  exists a_new b_new xa xb xr xa' xb',
    _index_for_subindex [Slice (Some 0) (Some 6) (Some 2); slice_all]
      [Slice (Some 2) (Some 6) (Some 2); Slice (Some 1) (Some 3) (Some 1)]
      (nd_shape x) = Ok a_new /\
    _index_for_subindex
      [Slice (Some 2) None None; Slice (Some 1) (Some 3) None]
      [Slice (Some 2) (Some 6) (Some 2); Slice (Some 1) (Some 3) (Some 1)]
      (nd_shape x) = Ok b_new /\
    getitem x [Slice (Some 0) (Some 6) (Some 2); slice_all] = Ok xa /\
    getitem x [Slice (Some 2) None None; Slice (Some 1) (Some 3) None] = Ok xb /\
    getitem x [Slice (Some 2) (Some 6) (Some 2); Slice (Some 1) (Some 3) (Some 1)]
      = Ok xr /\
    getitem xa a_new = Ok xa' /\ getitem xb b_new = Ok xb' /\
    nd_eq xa' xr /\ nd_eq xb' xr.
Proof.
  intros x.
  apply (X3_subindex_of_intersection x
           [Slice (Some 0) (Some 6) (Some 2); slice_all]
           [Slice (Some 2) None None; Slice (Some 1) (Some 3) None]).
  - repeat constructor.
  - repeat constructor.
  - repeat constructor; simpl; lia.
  - reflexivity.
Defined.

(** ** _shape_after_indexing *)

Lemma floordiv_range_len (st sp stp : Z) :
  0 < stp -> st <= sp ->
  floordiv (sp - st - 1) stp = Ok (range_len st sp stp - 1).
Proof.
  intros Hp Hle. rewrite floordiv_ok by lia. f_equal. unfold range_len.
  destruct (Z.ltb_spec 0 stp); [|lia].
  destruct (Z.ltb_spec st sp); [lia|].
  assert (sp - st - 1 = -1) as -> by lia.
  assert (H1 : -1 = (-1) * stp + (stp - 1)) by lia.
  rewrite H1 at 1. rewrite Z.div_add_l by lia.
  rewrite Z.div_small by lia. lia.
Qed.

Lemma view_shape_slice_all (shape : list Z) (axes : list (Z * Z * Z)) :
  mapM (fun '(s, n) => slice_indices s n)
       (zip (repeat slice_all (length shape)) shape) = Ok axes ->
  view_shape axes = shape.
Proof.
  revert axes. induction shape as [|n shape IH]; intros axes Hax.
  - injection Hax as <-. reflexivity.
  - cbn [length repeat zip zip_with mapM] in Hax.
    destruct (slice_indices slice_all n) as [[[st sp] stp]|] eqn:E;
      cbn [mbind result_bind] in Hax; [|discriminate].
    fold (zip (repeat slice_all (length shape)) shape) in Hax.
    destruct (mapM _ _) as [axes'|] eqn:E'; cbn [mbind result_bind] in Hax;
      [|discriminate].
    injection Hax as <-. cbn [view_shape map]. fold (view_shape axes').
    rewrite (IH axes' eq_refl). f_equal.
    unfold slice_indices in E. cbn in E.
    destruct (Z.ltb_spec n 0); [discriminate|]. injection E as <- <- <-.
    unfold range_len. cbn. destruct (Z.ltb_spec 0 n).
    + rewrite Z.div_1_r. lia.
    + lia.
Qed.

Lemma _shape_after_indexing_view (shape : list Z) (idx : index)
      (axes : list (Z * Z * Z)) :
  Forall pos_step idx ->
  axes_of shape idx = Ok axes ->
  Forall (fun t => t.1.1 <= t.1.2) axes ->
  _shape_after_indexing shape idx = Ok (view_shape axes).
Proof.
  intros Hp. unfold axes_of.
  destruct (Nat.ltb_spec (length shape) (length idx)) as [|Hlen]; [discriminate|].
  revert shape axes Hlen.
  induction Hp as [|s idx Hs Hp IH]; intros shape axes Hlen Hax Hle.
  - cbn [length app] in Hax. rewrite Nat.sub_0_r in Hax.
    cbn [_shape_after_indexing].
    rewrite (view_shape_slice_all shape axes Hax). reflexivity.
  - destruct shape as [|n shape]; [cbn [length] in Hlen; lia|].
    cbn [length] in Hlen, Hax.
    change (S (length shape) - S (length idx))%nat
      with (length shape - length idx)%nat in Hax.
    cbn [app zip zip_with mapM] in Hax.
    destruct (slice_indices s n) as [[[st sp] stp]|] eqn:E;
      cbn [mbind result_bind] in Hax; [|discriminate].
    fold (zip (idx ++ repeat slice_all (length shape - length idx)) shape) in Hax.
    destruct (mapM _ _) as [axes'|] eqn:E'; cbn [mbind result_bind] in Hax;
      [|discriminate].
    injection Hax as <-. apply Forall_cons in Hle. destruct Hle as [Hle1 Hle].
    cbn [fst snd] in Hle1.
    cbn [_shape_after_indexing]. rewrite E. cbn [mbind result_bind].
    pose proof (slice_indices_step _ _ _ _ _ E) as Hstp.
    rewrite floordiv_range_len by (unfold pos_step in Hs; lia).
    cbn [mbind result_bind].
    rewrite (IH shape axes' ltac:(lia) E' Hle). cbn [mbind result_bind].
    cbn [view_shape map]. f_equal. f_equal. lia.
Qed.

(** X4. For an index of slices with positive steps whose normalised starts
    do not exceed their stops, [_shape_after_indexing] returns the shape of
    [x[idx]] for an array [x] of the given shape: the number of positions
    each slice selects, and the whole axis where [idx] has no entry. *)
Theorem X4_shape_after_indexing {V} (x : ndarray V) (idx : index)
        (axes : list (Z * Z * Z)) :
  Forall pos_step idx ->
  axes_of (nd_shape x) idx = Ok axes ->
  Forall (fun t => t.1.1 <= t.1.2) axes ->
  exists y,
    getitem x idx = Ok y /\
    _shape_after_indexing (nd_shape x) idx = Ok (nd_shape y).
Proof.
  intros Hp Hax Hle. unfold getitem. rewrite Hax. cbn [mbind result_bind].
  eexists. split; [reflexivity|]. cbn [nd_shape].
  apply _shape_after_indexing_view; assumption.
Qed.

Lemma X4_shape_after_indexing_witness :
  let x := NDArray [6; 4; 3] (fun c => c) in
  exists y,
    getitem x [Slice (Some 1) None (Some 2); slice_all] = Ok y /\
    _shape_after_indexing (nd_shape x)
                          [Slice (Some 1) None (Some 2); slice_all] =
      Ok (nd_shape y).
Proof.
  intros x.
  apply (X4_shape_after_indexing x [Slice (Some 1) None (Some 2); slice_all]
           [(1, 6, 2); (0, 4, 1); (0, 3, 1)]).
  - repeat constructor.
  - reflexivity.
  - repeat constructor; simpl; lia.
Defined.

(** ** _convert_chunk_idx_to_slices *)

Lemma valid_items_nonempty (shape : list Z) (items : list idx_item) :
  valid_items shape items -> exists c, items_mem shape items c = true.
Proof.
  revert items. induction shape as [|n shape IH]; intros items Hv.
  - destruct items; [|contradiction]. exists []. reflexivity.
  - destruct items as [|item items].
    + cbn [valid_items] in Hv. apply Forall_cons in Hv. destruct Hv as [Hn Hv].
      destruct (IH [] Hv) as (c & Hc). exists (0 :: c). cbn [items_mem].
      rewrite Hc. destruct (Z.leb_spec 0 0); [|lia].
      destruct (Z.ltb_spec 0 n); [reflexivity|lia].
    + destruct Hv as [Hi Hv]. destruct (IH items Hv) as (c & Hc).
      assert (Hex : exists i, item_mem n item i = true).
      { destruct item as [k|s|]; simpl in Hi; [|tauto|contradiction].
        exists k. simpl. destruct (Z.ltb_spec k 0); [lia|].
        rewrite Z.eqb_refl.
        destruct (Z.leb_spec 0 k); [|lia].
        destruct (Z.ltb_spec k n); [reflexivity|lia]. }
      destruct Hex as (i & Hi'). exists (i :: c). cbn [items_mem].
      rewrite Hi', Hc. reflexivity.
Qed.

Lemma in_axes_nonempty (axes : list (Z * Z * Z)) (c : list Z) :
  Forall (fun t => 0 < t.2) axes -> in_axes axes c = true ->
  Forall (fun t => t.1.1 < t.1.2) axes.
Proof.
  intros Hp. revert c.
  induction Hp as [|[[st sp] stp] axes Hstp Hp IH]; intros c Hc;
    constructor.
  - destruct c as [|i c]; [discriminate|]. cbn [in_axes] in Hc.
    apply andb_true_iff in Hc. destruct Hc as [Hm _].
    apply range_mem_pos in Hm; [|exact Hstp]. cbn [fst snd]. lia.
  - destruct c as [|i c]; [discriminate|]. cbn [in_axes] in Hc.
    apply andb_true_iff in Hc. destruct Hc as [_ Hc]. apply (IH c Hc).
Qed.

Lemma view_shape_pos (axes : list (Z * Z * Z)) :
  Forall (fun t => 0 < t.2) axes -> Forall (fun t => t.1.1 < t.1.2) axes ->
  Forall (fun n => 0 < n) (view_shape axes).
Proof.
  induction 1 as [|[[st sp] stp] axes Hstp Hp IH]; intros Hlt;
    [constructor|].
  apply Forall_cons in Hlt. destruct Hlt as [Hlt1 Hlt]. cbn [fst snd] in *.
  cbn [view_shape map]. constructor; [|apply IH, Hlt].
  unfold range_len. destruct (Z.ltb_spec 0 stp); [|lia].
  destruct (Z.ltb_spec st sp); [|lia].
  pose proof (Z.div_pos (sp - st - 1) stp ltac:(lia) ltac:(lia)). lia.
Qed.

(** X5. A well-formed chunk index (at most one entry per axis, each an
    integer within the axis or a slice with a positive step that selects
    something, and no empty axis left without an entry) is converted
    without raising to one slice with a positive step per axis; the slices
    select exactly the coordinates the index selects; and
    [_shape_after_indexing] of the converted index is the shape of the
    chunk, the array indexed by the converted slices, with no zero or
    negative dimension.  (An axis that the index gives as an integer is an
    axis of length 1 of the chunk: the integer has become a slice.) *)
Theorem X5_convert_chunk_idx_well_formed {V : Type} (shape : list Z)
        (idx : chunk_idx) :
  Forall (fun n => 0 <= n) shape ->
  valid_chunk_idx shape idx ->
  exists idx' axes,
    _convert_chunk_idx_to_slices shape idx = Ok idx' /\
    length idx' = length shape /\
    Forall pos_step idx' /\
    (forall c, index_mem shape idx' c = region_mem shape idx c) /\
    axes_of shape idx' = Ok axes /\
    _shape_after_indexing shape idx' = Ok (view_shape axes) /\
    Forall (fun n => 0 < n) (view_shape axes) /\
    forall a : ndarray V,
      nd_shape a = shape ->
      exists chunk, getitem a idx' = Ok chunk /\
                    nd_shape chunk = view_shape axes /\
                    length (nd_shape chunk) = length shape.
Proof.
  intros Hs Hv.
  destruct (_convert_chunk_idx_to_slices_valid shape idx Hs Hv)
    as (idx' & Hconv & Hlen & Hpos & (axes & Hax) & Hmem).
  destruct (valid_items_nonempty _ _ Hv) as (c & Hc).
  fold (region_mem shape idx c) in Hc. rewrite <- Hmem in Hc.
  unfold index_mem in Hc. rewrite Hax in Hc.
  pose proof (axes_of_pos _ _ _ Hpos Hax) as Hstp.
  pose proof (in_axes_nonempty _ _ Hstp Hc) as Hlt.
  exists idx', axes. repeat split; try assumption.
  - apply _shape_after_indexing_view; try assumption.
    eapply Forall_impl; [exact Hlt|]. intros t Ht. cbv beta in Ht. lia.
  - apply view_shape_pos; assumption.
  - intros a Ha. eexists. split; [|split].
    + apply (getitem_ok a idx' axes). rewrite Ha. exact Hax.
    + reflexivity.
    + cbn [nd_shape]. unfold view_shape. rewrite length_map.
      rewrite axes_of_full in Hax by exact Hlen.
      apply mapM_length in Hax. rewrite Hax.
      rewrite length_zip_eq by exact Hlen. exact Hlen.
Qed.

(** Every second row from row 1 of an array of 6 rows and 4 columns, in
    column 3: the chunk has 3 rows and 1 column. *)
Lemma X5_convert_chunk_idx_well_formed_witness :
  exists idx' axes,
    _convert_chunk_idx_to_slices [6; 4]
      (ITuple [ISlice (Slice (Some 1) None (Some 2)); IInt 3]) = Ok idx' /\
    length idx' = length [6; 4] /\
    Forall pos_step idx' /\
    (forall c, index_mem [6; 4] idx' c =
               region_mem [6; 4]
                 (ITuple [ISlice (Slice (Some 1) None (Some 2)); IInt 3]) c) /\
    axes_of [6; 4] idx' = Ok axes /\
    _shape_after_indexing [6; 4] idx' = Ok (view_shape axes) /\
    Forall (fun n => 0 < n) (view_shape axes) /\
    forall a : ndarray Z,
      nd_shape a = [6; 4] ->
      exists chunk, getitem a idx' = Ok chunk /\
                    nd_shape chunk = view_shape axes /\
                    length (nd_shape chunk) = length [6; 4].
Proof.
  apply (X5_convert_chunk_idx_well_formed (V := Z) [6; 4]
           (ITuple [ISlice (Slice (Some 1) None (Some 2)); IInt 3])).
  - repeat constructor; lia.
  - split; [|split; [|constructor]].
    + split; [reflexivity|]. exists 1. reflexivity.
    + simpl. lia.
Defined.

Lemma convert_axis_refused (n : Z) (item : idx_item) :
  refused_item n item -> exists e, convert_axis n item = Raise e.
Proof.
  destruct item as [i|s|]; cbn [refused_item]; intros H.
  - exists IndexError. apply convert_axis_rejects_large_int, H.
  - apply convert_axis_rejects, H.
  - exists ValueError. reflexivity.
Qed.

Lemma slice_indices_exn (s : slice) (n : Z) (e : exn) :
  slice_indices s n = Raise e -> e = ValueError.
Proof.
  unfold slice_indices. destruct (n <? 0); [congruence|].
  destruct (_ =? 0); [congruence|discriminate].
Qed.

Lemma convert_axis_exn (n : Z) (item : idx_item) (e : exn) :
  convert_axis n item = Raise e -> e = IndexError \/ e = ValueError.
Proof.
  destruct item as [i|s|]; cbn [convert_axis].
  - destruct (n <=? i); [|discriminate]. intros [= <-]. left. reflexivity.
  - destruct (slice_indices s n) as [[[st sp] stp]|e'] eqn:E;
      cbn [mbind result_bind].
    + destruct (stp =? 0); [intros [= <-]; right; reflexivity|].
      destruct (stp <? 0); [intros [= <-]; right; reflexivity|].
      destruct (st =? sp); [intros [= <-]; right; reflexivity|discriminate].
    + intros [= <-]. right. apply (slice_indices_exn _ _ _ E).
  - intros [= <-]. right. reflexivity.
Qed.

Lemma convert_axes_exn (shape : list Z) (items : list idx_item) (e : exn) :
  convert_axes shape items = Raise e -> e = IndexError \/ e = ValueError.
Proof.
  revert items. induction shape as [|n shape IH]; intros [|item items];
    cbn [convert_axes]; try discriminate.
  destruct (convert_axis n item) as [s|e'] eqn:E; cbn [mbind result_bind].
  - destruct (convert_axes shape items) as [rest|e'] eqn:E';
      cbn [mbind result_bind]; [discriminate|].
    intros [= <-]. apply (IH items). exact E'.
  - intros [= <-]. apply (convert_axis_exn _ _ _ E).
Qed.

Lemma convert_axes_refused (shape : list Z) (items : list idx_item) (i : nat)
      (n : Z) (item : idx_item) :
  shape !! i = Some n -> items !! i = Some item -> refused_item n item ->
  exists e, convert_axes shape items = Raise e.
Proof.
  revert shape items. induction i as [|i IH]; intros [|m shape] [|it items];
    cbn [lookup list_lookup]; try discriminate.
  - intros [= ->] [= ->] Hr. destruct (convert_axis_refused n item Hr) as (e & He).
    exists e. cbn [convert_axes]. rewrite He. reflexivity.
  - intros Hs Hi Hr. cbn [convert_axes].
    destruct (convert_axis m it) as [s|e]; cbn [mbind result_bind];
      [|eexists; reflexivity].
    destruct (IH shape items Hs Hi Hr) as (e & He). rewrite He.
    exists e. reflexivity.
Qed.

(** X6. [_convert_chunk_idx_to_slices] raises [IndexError] or [ValueError]
    when the index has more entries than the array has axes, and when any
    of its entries is refused on its axis: an object that is neither an
    [int] nor a [slice], an [int] not below the length of the axis, a slice
    with a zero or negative step, or a slice whose normalised start and
    stop coincide. *)
Theorem X6_convert_chunk_idx_rejects (shape : list Z) (idx : chunk_idx) :
  ((length shape < length (items_of idx))%nat \/
   exists i n item,
     shape !! i = Some n /\ items_of idx !! i = Some item /\
     refused_item n item) ->
  _convert_chunk_idx_to_slices shape idx = Raise IndexError \/
  _convert_chunk_idx_to_slices shape idx = Raise ValueError.
Proof.
  intros H. unfold _convert_chunk_idx_to_slices. fold (items_of idx).
  destruct (Nat.ltb_spec (length shape) (length (items_of idx))) as [|Hlen];
    [left; reflexivity|].
  destruct H as [H|(i & n & item & Hs & Hi & Hr)]; [lia|].
  destruct (convert_axes_refused shape
              (items_of idx ++
               repeat (ISlice slice_all) (length shape - length (items_of idx)))
              i n item Hs) as (e & He).
  - apply lookup_app_l_Some. exact Hi.
  - exact Hr.
  - rewrite He. destruct (convert_axes_exn _ _ _ He) as [-> | ->]; tauto.
Qed.

Lemma X6_convert_chunk_idx_rejects_witness :
  _convert_chunk_idx_to_slices [4; 4]
    (ITuple [ISlice (Slice (Some 0) (Some 2) None);
             ISlice (Slice None None (Some (-1)))]) = Raise IndexError \/
  _convert_chunk_idx_to_slices [4; 4]
    (ITuple [ISlice (Slice (Some 0) (Some 2) None);
             ISlice (Slice None None (Some (-1)))]) = Raise ValueError.
Proof.
  apply (X6_convert_chunk_idx_rejects [4; 4]
           (ITuple [ISlice (Slice (Some 0) (Some 2) None);
                    ISlice (Slice None None (Some (-1)))])).
  right. exists 1%nat, 4, (ISlice (Slice None None (Some (-1)))).
  split; [reflexivity|]. split; [reflexivity|].
  right. left. exists (-1). split; [reflexivity|lia].
Defined.

(** * Further properties of chunks and transfers *)

Section Frames.

Context {V : Type} `{!Dtype V} `{!Runtime V}.

(** The computation allocates nothing and writes to buffer [b] at most. *)
Definition writes_only (b : nat) {A} (m : M V A) : Prop :=
  forall σ : store V,
    length (m σ).2 = length σ /\
    forall i, i <> b -> (m σ).2 !! i = σ !! i.

Lemma writes_only_ret b {A} (a : A) : writes_only b (mret a).
Proof. intros σ. split; reflexivity. Qed.

Lemma writes_only_lift b {A} (r : result A) : writes_only b (lift r).
Proof. intros σ. split; reflexivity. Qed.

Lemma writes_only_raise b {A} (e : exn) : writes_only b (raise (A := A) e).
Proof. intros σ. split; reflexivity. Qed.

Lemma writes_only_bind b {A B} (m : M V A) (k : A -> M V B) :
  writes_only b m -> (forall a, writes_only b (k a)) ->
  writes_only b (m ≫= k).
Proof.
  intros Hm Hk σ. destruct (Hm σ) as [Hlen Hsame].
  unfold mbind, M_bind. destruct (m σ) as [[a|e] σ1]; cbn [fst snd] in *.
  - destruct (Hk a σ1) as [Hlen' Hsame']. split; [congruence|].
    intros i Hi. rewrite Hsame', Hsame; auto.
  - split; assumption.
Qed.

Lemma writes_only_forM b {A B} (f : A -> M V B) (l : list A) :
  (forall x, writes_only b (f x)) -> writes_only b (forM f l).
Proof.
  intros Hf. induction l as [|x l IH]; cbn [forM].
  - apply writes_only_ret.
  - apply writes_only_bind; [apply Hf|]. intros y.
    apply writes_only_bind; [exact IH|]. intros ys. apply writes_only_ret.
Qed.

Lemma writes_only_load b (r : array) : writes_only b (load r).
Proof.
  intros σ. unfold load. destruct (σ !! arr_buf r); split; reflexivity.
Qed.

Lemma writes_only_subscript b (r : array) (idx : index) :
  writes_only b (subscript r idx).
Proof.
  unfold subscript. apply writes_only_bind; [apply writes_only_load|].
  intros a. apply writes_only_bind; [apply writes_only_lift|]. intros _.
  apply writes_only_ret.
Qed.

Lemma writes_only_assign (r : array) (idx : index) (v : ndarray V) :
  writes_only (arr_buf r) (assign r idx v).
Proof.
  intros σ. unfold assign.
  destruct (σ !! arr_buf r) as [a|]; cbn [fst snd]; [|split; reflexivity].
  destruct (update_through a (arr_view r) _) as [a'|e]; cbn [fst snd];
    [|split; reflexivity].
  split; [apply length_insert|]. intros i Hi.
  apply list_lookup_insert_ne. congruence.
Qed.

Lemma writes_only_apply_update (chunk : _Chunk) (mode : _Mode V)
      (u : _PartialUpdate) :
  writes_only (arr_buf (chunk_data chunk)) (apply_update chunk mode u).
Proof.
  destruct u as [new_data idx]. unfold apply_update.
  destruct mode as [op|].
  - apply writes_only_bind; [apply writes_only_subscript|]. intros target.
    apply writes_only_bind; [apply writes_only_load|]. intros x1.
    apply writes_only_bind; [apply writes_only_load|]. intros x2.
    apply writes_only_bind; [apply writes_only_lift|]. intros r.
    destruct (negb _); [apply writes_only_raise|apply writes_only_assign].
  - apply writes_only_bind; [apply writes_only_load|]. intros x.
    apply writes_only_assign.
Qed.

(** X7. In every mode and on every store, [_apply_updates] allocates
    nothing and writes to no buffer but the one of the chunk's own data,
    whether it returns or raises; when it returns, the chunk has its data
    and index as before and an empty queue of updates. *)
Theorem X7_apply_updates_frame (chunk : _Chunk) (mode : _Mode V)
        (σ : store V) :
  length (_apply_updates chunk mode σ).2 = length σ /\
  (forall i, i <> arr_buf (chunk_data chunk) ->
             (_apply_updates chunk mode σ).2 !! i = σ !! i) /\
  (forall chunk', (_apply_updates chunk mode σ).1 = Ok chunk' ->
                  chunk' = Chunk (chunk_data chunk) (chunk_index chunk) []).
Proof.
  pose proof (writes_only_forM (arr_buf (chunk_data chunk))
                (apply_update chunk mode) (chunk_updates chunk)
                (writes_only_apply_update chunk mode) σ) as [Hlen Hsame].
  unfold _apply_updates, mbind, M_bind.
  destruct (forM (apply_update chunk mode) (chunk_updates chunk) σ)
    as [[us|e] σ1]; cbn [fst snd] in *.
  - split; [exact Hlen|]. split; [exact Hsame|]. intros chunk' [= <-].
    reflexivity.
  - split; [exact Hlen|]. split; [exact Hsame|]. discriminate.
Qed.

(** X8. [_transfer_async] of data that is in the store, to its own device
    or between two devices that have communicators: it returns a transfer
    whose data is on the destination device and holds the elements of the
    source; every buffer that existed before is unchanged; and within one
    device the transfer is the source itself, with nothing allocated. *)
Theorem X8_transfer_async (self : _DistributedArray V) (d : array)
        (dst_dev : Z) (σ : store V) (x : ndarray V) :
  load d σ = (Ok x, σ) ->
  Forall (fun n => 0 <= n) (nd_shape x) ->
  (arr_dev d = dst_dev \/
   (nccl_dtype_known = true /\
    In (arr_dev d) (_comms self) /\ In dst_dev (_comms self))) ->
  exists t ext y,
    _transfer_async self (ManagedData d) dst_dev σ = (Ok t, σ ++ ext) /\
    arr_dev (transfer_data t) = dst_dev /\
    load (transfer_data t) (σ ++ ext) = (Ok y, σ ++ ext) /\
    nd_eq y x /\
    (arr_dev d = dst_dev -> t = DataTransfer d None /\ ext = []).
Proof.
  intros Hload Hshape Hcomm.
  destruct (Z.eq_dec (arr_dev d) dst_dev) as [Hd|Hd].
  - exists (DataTransfer d None), [], x. rewrite app_nil_r.
    split; [apply _transfer_async_same; exact Hd|].
    split; [exact Hd|]. split; [exact Hload|].
    split; [apply nd_eq_refl|]. intros _. split; reflexivity.
  - destruct Hcomm as [Hc|(Hc0 & Hc1 & Hc2)]; [contradiction|].
    destruct (_transfer_async_across self d dst_dev σ x Hd Hload Hshape
                Hc0 Hc1 Hc2) as (x' & Hrun & Heq).
    exists (DataTransfer (Array dst_dev (length σ) []) (Some d)), [x'], x'.
    split; [exact Hrun|]. split; [reflexivity|]. split.
    + apply (load_run _ _ x' x'); [|reflexivity]. cbn [transfer_data arr_buf].
      rewrite lookup_app_r by lia. rewrite Nat.sub_diag. reflexivity.
    + split; [exact Heq|]. intros Hd'. contradiction.
Qed.

End Frames.

Lemma X8_transfer_async_witness :
  exists t ext y,
    _transfer_async example_self (ManagedData (Array 0 0 [])) 1 example_store =
      (Ok t, example_store ++ ext) /\
    arr_dev (transfer_data t) = 1 /\
    load (transfer_data t) (example_store ++ ext) =
      (Ok y, example_store ++ ext) /\
    nd_eq y (array1 [1; 2; 3]) /\
    (arr_dev (Array 0 0 []) = 1 -> t = DataTransfer (Array 0 0 []) None /\ ext = []).
Proof.
  apply (X8_transfer_async example_self (Array 0 0 []) 1 example_store
           (array1 [1; 2; 3])).
  - reflexivity.
  - repeat constructor. unfold len. simpl. lia.
  - right. split; [reflexivity|]. simpl. split; [left|right; left]; reflexivity.
Defined.

(** ** Coordinates of a chunk and of a region within it *)

Lemma mapM_axes_length (l : index) (shape : list Z) (axes : list (Z * Z * Z)) :
  length l = length shape ->
  mapM (fun '(s, n) => slice_indices s n) (zip l shape) = Ok axes ->
  length axes = length shape.
Proof.
  intros Hl Hax. apply mapM_length in Hax. rewrite Hax.
  rewrite length_zip_eq by exact Hl. exact Hl.
Qed.

Lemma axes_of_length (shape : list Z) (idx : index) (axes : list (Z * Z * Z)) :
  axes_of shape idx = Ok axes -> length axes = length shape.
Proof.
  unfold axes_of.
  destruct (Nat.ltb_spec (length shape) (length idx)); [discriminate|].
  apply mapM_axes_length. rewrite length_app, repeat_length. lia.
Qed.

Lemma view_shape_length (axes : list (Z * Z * Z)) :
  length (view_shape axes) = length axes.
Proof. unfold view_shape. apply length_map. Qed.

Lemma slice_indices_bounds (s : slice) (n st sp stp : Z) :
  slice_indices s n = Ok (st, sp, stp) -> 0 < stp ->
  0 <= st /\ sp <= n.
Proof.
  intros Hs Hp. pose proof (slice_indices_step _ _ _ _ _ Hs) as Hstp.
  assert (Hn : 0 <= n).
  { unfold slice_indices in Hs. destruct (Z.ltb_spec n 0); [discriminate|lia]. }
  destruct (slice_indices_pos s n) as (st' & sp' & Hs' & H1 & H2);
    [unfold pos_step; lia|exact Hn|].
  rewrite Hs in Hs'. injection Hs' as -> -> _. lia.
Qed.

Lemma mapM_axes_in_bounds (l : index) (shape : list Z)
      (axes : list (Z * Z * Z)) (c : list Z) :
  length l = length shape ->
  mapM (fun '(s, n) => slice_indices s n) (zip l shape) = Ok axes ->
  Forall (fun t => 0 < t.2) axes ->
  in_axes axes c = true -> in_bounds shape c = true.
Proof.
  revert shape axes c. induction l as [|s l IH]; intros [|n shape] axes c Hl;
    try discriminate.
  - intros [= <-] _. destruct c; [reflexivity|discriminate].
  - cbn [zip zip_with mapM].
    destruct (slice_indices s n) as [[[st sp] stp]|] eqn:E;
      cbn [mbind result_bind]; [|discriminate].
    fold (zip l shape).
    destruct (mapM _ (zip l shape)) as [axes'|] eqn:E';
      cbn [mbind result_bind]; [|discriminate].
    intros [= <-] Hpos. apply Forall_cons in Hpos. destruct Hpos as [Hp Hpos].
    cbn [fst snd] in Hp. destruct c as [|i c]; [discriminate|].
    cbn [in_axes in_bounds]. rewrite andb_true_iff. intros [Hm Hc].
    apply range_mem_pos in Hm; [|exact Hp].
    destruct (slice_indices_bounds _ _ _ _ _ E Hp) as [H0 H1].
    rewrite (IH shape axes' c ltac:(simpl in Hl; lia) E' Hpos Hc).
    rewrite andb_true_r. apply andb_true_iff. split.
    + apply Z.leb_le. lia.
    + apply Z.ltb_lt. lia.
Qed.

(** The coordinates an index selects are coordinates of the array. *)
Lemma axes_in_bounds (shape : list Z) (idx : index) (axes : list (Z * Z * Z))
      (c : list Z) :
  axes_of shape idx = Ok axes ->
  Forall (fun t => 0 < t.2) axes ->
  in_axes axes c = true -> in_bounds shape c = true.
Proof.
  unfold axes_of.
  destruct (Nat.ltb_spec (length shape) (length idx)); [discriminate|].
  apply mapM_axes_in_bounds. rewrite length_app, repeat_length. lia.
Qed.

Lemma to_base_length (axes : list (Z * Z * Z)) (c : list Z) :
  length c = length axes -> length (to_base axes c) = length axes.
Proof.
  revert c. induction axes as [|[[st sp] stp] axes IH]; intros [|k c];
    cbn [to_base length]; try discriminate; [reflexivity|].
  intros [= Hl]. f_equal. apply IH, Hl.
Qed.

Lemma to_base_inj (axes : list (Z * Z * Z)) (c1 c2 : list Z) :
  Forall (fun t => 0 < t.2) axes ->
  length c1 = length axes -> length c2 = length axes ->
  to_base axes c1 = to_base axes c2 -> c1 = c2.
Proof.
  intros Hpos. revert c1 c2.
  induction Hpos as [|[[st sp] stp] axes Hp Hpos IH]; intros [|k1 c1] [|k2 c2];
    cbn [to_base length]; try discriminate; [reflexivity|].
  cbn [fst snd] in Hp. intros [= H1] [= H2] [= Hk Hc].
  f_equal; [nia|]. apply IH; assumption.
Qed.

Lemma axes_pos_step (l : index) (shape : list Z) (axes : list (Z * Z * Z)) :
  mapM (fun '(s, n) => slice_indices s n) (zip l shape) = Ok axes ->
  length l = length shape ->
  Forall (fun t => 0 < t.2) axes -> Forall pos_step l.
Proof.
  revert shape axes. induction l as [|s l IH]; intros [|n shape] axes;
    try discriminate; [constructor|].
  cbn [zip zip_with mapM].
  destruct (slice_indices s n) as [[[st sp] stp]|] eqn:E;
    cbn [mbind result_bind]; [|discriminate].
  fold (zip l shape).
  destruct (mapM _ (zip l shape)) as [axes'|] eqn:E';
    cbn [mbind result_bind]; [|discriminate].
  intros [= <-] [= Hl] Hpos. apply Forall_cons in Hpos.
  destruct Hpos as [Hp Hpos]. cbn [fst snd] in Hp. constructor.
  - unfold pos_step. rewrite <- (slice_indices_step _ _ _ _ _ E). exact Hp.
  - apply (IH shape axes' E' Hl Hpos).
Qed.

(** The region of an intersection within one of the two chunks: which
    local coordinates of the chunk it selects, and where they are in the
    region. *)
Lemma region_within (shape : list Z) (a_idx region : index)
      (axes_a axes_r axes_n : list (Z * Z * Z)) :
  axes_of shape a_idx = Ok axes_a ->
  Forall (fun t => 0 < t.2) axes_a ->
  axes_of shape region = Ok axes_r ->
  Forall (fun t => 0 < t.2) axes_r ->
  Forall (fun t => 0 < t.2) axes_n ->
  length axes_n = length axes_a ->
  view_shape axes_n = view_shape axes_r ->
  (forall k, to_base axes_a (to_base axes_n k) = to_base axes_r k) ->
  forall c,
    in_bounds (view_shape axes_a) c = true ->
    in_axes axes_n c = in_axes axes_r (to_base axes_a c) /\
    (in_axes axes_n c = true ->
     to_base axes_r (to_local axes_n c) = to_base axes_a c).
Proof.
  intros Ha Hpa Hr Hpr Hpn Hln Hshape Hbase c Hc.
  pose proof (axes_of_length _ _ _ Ha) as Hla.
  pose proof (axes_of_length _ _ _ Hr) as Hlr.
  pose proof (in_bounds_length _ _ Hc) as Hlc.
  rewrite view_shape_length in Hlc.
  assert (Hfwd : in_axes axes_n c = true ->
                 to_base axes_r (to_local axes_n c) = to_base axes_a c).
  { intros Hin. rewrite <- Hbase.
    rewrite (to_base_to_local axes_n c Hpn Hin). reflexivity. }
  split; [|exact Hfwd].
  apply eq_true_iff_eq. split.
  - intros Hin. rewrite <- (Hfwd Hin).
    apply in_axes_to_base; [exact Hpr|]. rewrite <- Hshape.
    apply to_local_in_bounds; assumption.
  - intros Hin.
    pose proof (to_local_in_bounds axes_r _ Hpr Hin) as Hk.
    pose proof (to_base_to_local axes_r _ Hpr Hin) as Hg.
    set (k := to_local axes_r (to_base axes_a c)) in *.
    rewrite <- Hbase in Hg.
    assert (Hlk : length k = length axes_n).
    { apply in_bounds_length in Hk. rewrite view_shape_length in Hk. lia. }
    apply to_base_inj in Hg; [| exact Hpa | | lia].
    + rewrite <- Hg. apply in_axes_to_base; [exact Hpn|].
      rewrite Hshape. exact Hk.
    + rewrite to_base_length by exact Hlk. lia.
Qed.

(** ** _copy_on_intersection *)

Section CopyOnIntersection.

Context {V : Type} `{!Dtype V} `{!Runtime V}.

(** [_copy_on_intersection] from a chunk with nothing pending onto another
    chunk of the array: nothing when the chunks do not intersect, else one
    more update at the end of the destination's queue, whose index selects
    the coordinates of the destination that the source has too, and whose
    payload holds the source's elements for them. *)
Lemma _copy_on_intersection_run (self : _DistributedArray V) (shape : list Z)
      (src dst : _Chunk) (σ : store V) (a_src a_dst : ndarray V)
      (axes_src axes_dst : list (Z * Z * Z)) :
  Forall (fun n => 0 <= n) shape ->
  chunk_ok shape σ src a_src axes_src ->
  chunk_ok shape σ dst a_dst axes_dst ->
  chunk_updates src = [] ->
  (arr_dev (chunk_data src) = arr_dev (chunk_data dst) \/
   (nccl_dtype_known = true /\
    In (arr_dev (chunk_data src)) (_comms self) /\
    In (arr_dev (chunk_data dst)) (_comms self))) ->
  (_copy_on_intersection self shape src dst σ = (Ok dst, σ) /\
   forall c, in_bounds (view_shape axes_dst) c = true ->
             in_axes axes_src (to_base axes_dst c) = false) \/
  exists update dst_new_idx p uaxes ext,
    _copy_on_intersection self shape src dst σ =
      (Ok (Chunk (chunk_data dst) (chunk_index dst)
                 (chunk_updates dst ++ [(update, dst_new_idx)])), σ ++ ext) /\
    update_ok (σ ++ ext) (view_shape axes_dst) (update, dst_new_idx) p uaxes /\
    (arr_buf (transfer_data update) = arr_buf (chunk_data src) \/
     (length σ <= arr_buf (transfer_data update))%nat) /\
    forall c, in_bounds (view_shape axes_dst) c = true ->
              in_axes uaxes c = in_axes axes_src (to_base axes_dst c) /\
              (in_axes uaxes c = true ->
               nd_item p (to_local uaxes c) =
               nd_item a_src (to_local axes_src (to_base axes_dst c))).
Proof.
  intros Hshape (Hv1 & Hb1 & Hl1 & Hp1 & Hax1 & Hs1)
         (Hv2 & Hb2 & Hl2 & Hp2 & Hax2 & Hs2) Hnone Hcomm.
  pose proof (axes_of_pos _ _ _ Hp1 Hax1) as Hpos1.
  pose proof (axes_of_pos _ _ _ Hp2 Hax2) as Hpos2.
  destruct (_index_intersection_mem _ _ shape Hp1 Hp2 Hshape Hl1 Hl2)
    as (inter & Hinter & Hmem).
  unfold index_mem in Hmem. rewrite Hax1, Hax2 in Hmem.
  assert (Hdst : forall c, in_bounds (view_shape axes_dst) c = true ->
                           in_axes axes_dst (to_base axes_dst c) = true).
  { intros c Hc. apply in_axes_to_base; assumption. }
  unfold _copy_on_intersection. rewrite Hnone. cbn [length Nat.eqb negb].
  rewrite (bind_run _ _ _ _ _ (lift_run _ _ σ Hinter)).
  destruct inter as [region|].
  2:{ left. split; [reflexivity|]. intros c Hc.
      specialize (Hmem (to_base axes_dst c)). rewrite (Hdst c Hc) in Hmem.
      rewrite andb_true_r in Hmem. symmetry. exact Hmem. }
  right.
  destruct (_index_intersection_sub_axes _ _ _ _ Hp1 Hp2 Hshape Hinter)
    as [Hsub1 Hsub2].
  destruct (sub_axes_region _ _ _ Hsub1) as (axes_r & Haxr & Hposr).
  rewrite Haxr in Hmem.
  destruct (_index_for_subindex_spec _ _ _ _ _ Hsub1 Hax1 Haxr)
    as (src_new_idx & axes_n1 & Hn1 & Hn1a & Hn1p & Hn1s & Hbase1).
  destruct (_index_for_subindex_spec _ _ _ _ _ Hsub2 Hax2 Haxr)
    as (dst_new_idx & axes_n2 & Hn2 & Hn2a & Hn2p & Hn2s & Hbase2).
  rewrite (bind_run _ _ _ _ _ (lift_run _ _ σ Hn1)).
  rewrite (bind_run _ _ _ _ _ (lift_run _ _ σ Hn2)).
  pose proof Hn1a as Hn1a'. rewrite <- Hs1 in Hn1a.
  pose proof (getitem_ok a_src src_new_idx axes_n1 Hn1a) as Hget.
  set (part := NDArray (view_shape axes_n1)
                       (fun c => nd_item a_src (to_base axes_n1 c))) in *.
  set (part_ref := Array (arr_dev (chunk_data src))
                         (arr_buf (chunk_data src)) [src_new_idx]).
  assert (Hsubs : subscript (chunk_data src) src_new_idx σ = (Ok part_ref, σ)).
  { assert (Hth : through a_src (arr_view (chunk_data src)) = Ok a_src)
      by (rewrite Hv1; reflexivity).
    rewrite (subscript_run _ _ _ a_src a_src part Hb1 Hth Hget).
    unfold part_ref. rewrite Hv1. reflexivity. }
  rewrite (bind_run _ _ _ _ _ Hsubs).
  assert (Hpart_shape : Forall (fun n => 0 <= n) (nd_shape part))
    by (apply view_shape_nonneg, Hn1p).
  assert (Hload_part : load part_ref σ = (Ok part, σ)).
  { apply (load_run part_ref σ a_src part Hb1). simpl. rewrite Hget.
    reflexivity. }
  pose proof (lookup_lt_Some _ _ _ Hb1) as Hlt1.
  pose proof (lookup_lt_Some _ _ _ Hb2) as Hlt2.
  assert (Hln1 : length axes_n1 = length axes_src).
  { rewrite (axes_of_length _ _ _ Hn1a'). apply view_shape_length. }
  assert (Hln2 : length axes_n2 = length axes_dst).
  { rewrite (axes_of_length _ _ _ Hn2a). apply view_shape_length. }
  assert (Hpu : Forall pos_step dst_new_idx).
  { assert (Hlen : length dst_new_idx = length (view_shape axes_dst)).
    { unfold _index_for_subindex in Hn2. destruct (negb _); [discriminate|].
      apply mapM_length in Hn2. rewrite Hn2.
      rewrite length_zip3;
        [rewrite view_shape_length, (axes_of_length _ _ _ Hax2); exact Hl2| |].
      - rewrite Hl2. apply (Forall3_length_lr _ _ _ _ Hsub2).
      - symmetry. apply (Forall3_length_lr _ _ _ _ Hsub2). }
    rewrite axes_of_full in Hn2a by exact Hlen.
    apply (axes_pos_step _ _ _ Hn2a Hlen Hn2p). }
  (* the coordinates of the update *)
  assert (Hcoord : forall (p : ndarray V),
             (forall k, in_bounds (view_shape axes_n1) k = true ->
                        nd_item p k = nd_item part k) ->
             forall c, in_bounds (view_shape axes_dst) c = true ->
               in_axes axes_n2 c = in_axes axes_src (to_base axes_dst c) /\
               (in_axes axes_n2 c = true ->
                nd_item p (to_local axes_n2 c) =
                nd_item a_src (to_local axes_src (to_base axes_dst c)))).
  { intros p Hp c Hc.
    destruct (region_within shape (chunk_index dst) region axes_dst axes_r
                axes_n2 Hax2 Hpos2 Haxr Hposr Hn2p Hln2 Hn2s Hbase2 c Hc)
      as [Hin Hloc].
    assert (Hsrc : in_axes axes_n2 c = in_axes axes_src (to_base axes_dst c)).
    { rewrite Hin, Hmem, (Hdst c Hc). apply andb_true_r. }
    split; [exact Hsrc|]. intros Hc2.
    pose proof (to_local_in_bounds axes_n2 c Hn2p Hc2) as Hk.
    rewrite Hn2s, <- Hn1s in Hk.
    rewrite (Hp _ Hk). unfold part. cbn [nd_item]. f_equal.
    rewrite <- (Hloc Hc2), <- Hbase1.
    symmetry. apply in_axes_to_base; [exact Hpos1|].
    apply (axes_in_bounds _ src_new_idx axes_n1); [exact Hn1a'|exact Hn1p|].
    apply in_axes_to_base; assumption. }
  destruct (Z.eq_dec (arr_dev (chunk_data src)) (arr_dev (chunk_data dst)))
    as [Hd|Hd].
  - exists (DataTransfer part_ref None), dst_new_idx, part, axes_n2, [].
    rewrite app_nil_r.
    rewrite (bind_run _ _ _ _ _ (_transfer_async_same self part_ref _ σ Hd)).
    split; [reflexivity|]. split; [|split].
    + unfold update_ok. cbn [fst snd transfer_data].
      split; [exact Hload_part|]. split; [exact Hpu|].
      split; [exact Hn2a|]. cbn [part nd_shape]. congruence.
    + left. reflexivity.
    + apply Hcoord. intros k _. reflexivity.
  - destruct Hcomm as [Hc|(Hc0 & Hc1 & Hc2)]; [contradiction|].
    destruct (_transfer_async_across self part_ref (arr_dev (chunk_data dst))
                σ part Hd Hload_part Hpart_shape Hc0 Hc1 Hc2)
      as (x' & Hrun & [Hxs Hxi]).
    exists (DataTransfer (Array (arr_dev (chunk_data dst)) (length σ) [])
                         (Some part_ref)), dst_new_idx, x', axes_n2, [x'].
    rewrite (bind_run _ _ _ _ _ Hrun).
    split; [reflexivity|]. split; [|split].
    + unfold update_ok. cbn [fst snd transfer_data]. split.
      * apply (load_run _ _ x' x'); [|reflexivity]. cbn [arr_buf].
        rewrite lookup_app_r by lia. rewrite Nat.sub_diag. reflexivity.
      * split; [exact Hpu|]. split; [exact Hn2a|].
        rewrite Hxs. cbn [part nd_shape]. congruence.
    + right. cbn [transfer_data arr_buf]. lia.
    + apply Hcoord. intros k Hk. apply Hxi. rewrite Hxs. exact Hk.
Qed.

(** X9. [_copy_on_intersection] from one chunk of an array onto another,
    neither with updates pending, followed by [_apply_updates] on the
    destination: the destination's buffer takes the source's element at
    every coordinate of the array that both chunks hold and keeps its own
    elsewhere; no other existing buffer changes, the source's in
    particular. *)
Theorem X9_copy_on_intersection_then_apply
        (self : _DistributedArray V) (shape : list Z) (src dst : _Chunk)
        (σ : store V) (a_src a_dst : ndarray V)
        (axes_src axes_dst : list (Z * Z * Z)) :
  Forall (fun n => 0 <= n) shape ->
  chunk_ok shape σ src a_src axes_src ->
  chunk_ok shape σ dst a_dst axes_dst ->
  chunk_updates src = [] -> chunk_updates dst = [] ->
  arr_buf (chunk_data src) <> arr_buf (chunk_data dst) ->
  (arr_dev (chunk_data src) = arr_dev (chunk_data dst) \/
   (nccl_dtype_known = true /\
    In (arr_dev (chunk_data src)) (_comms self) /\
    In (arr_dev (chunk_data dst)) (_comms self))) ->
  exists a_dst' σ',
    (dst' ← _copy_on_intersection self shape src dst;
     _apply_updates dst' _REPLICA_MODE) σ = (Ok dst, σ') /\
    σ' !! arr_buf (chunk_data dst) = Some a_dst' /\
    nd_shape a_dst' = nd_shape a_dst /\
    (forall c, in_bounds (nd_shape a_dst) c = true ->
               nd_item a_dst' c =
               if in_axes axes_src (to_base axes_dst c)
               then nd_item a_src (to_local axes_src (to_base axes_dst c))
               else nd_item a_dst c) /\
    (forall i, (i < length σ)%nat -> i <> arr_buf (chunk_data dst) ->
               σ' !! i = σ !! i).
Proof.
  intros Hshape Hsrc Hdst Hus Hud Hne Hcomm.
  pose proof Hdst as (Hv2 & Hb2 & Hl2 & Hp2 & Hax2 & Hs2).
  assert (Hdst_eq : dst = Chunk (chunk_data dst) (chunk_index dst) []).
  { destruct dst as [d i u]. cbn in Hud |- *. rewrite Hud. reflexivity. }
  destruct (_copy_on_intersection_run self shape src dst σ a_src a_dst
              axes_src axes_dst Hshape Hsrc Hdst Hus Hcomm)
    as [[Hrun Hout]|(update & dst_new_idx & p & uaxes & ext & Hrun & Hu &
                     Hbuf & Hcoord)].
  - exists a_dst, σ. rewrite (bind_run _ _ _ _ _ Hrun).
    rewrite (_apply_updates_none dst _ σ Hud).
    split; [reflexivity|]. split; [exact Hb2|]. split; [reflexivity|].
    split; [|reflexivity]. intros c Hc. rewrite Hs2 in Hc.
    rewrite (Hout c Hc). reflexivity.
  - rewrite Hud in Hrun. cbn [app] in Hrun.
    set (dst1 := Chunk (chunk_data dst) (chunk_index dst)
                       [(update, dst_new_idx)]) in *.
    set (v := NDArray (view_shape axes_dst)
                (fun c => if in_axes uaxes c
                          then nd_item p (to_local uaxes c)
                          else nd_item a_dst c)).
    assert (Hholds : holds shape (σ ++ ext) dst1 v).
    { exists a_dst, axes_dst. split.
      - unfold chunk_ok. cbn [dst1 chunk_data chunk_index].
        repeat match goal with |- _ /\ _ => split end; try assumption.
        rewrite lookup_app_l; [exact Hb2|]. eapply lookup_lt_Some, Hb2.
      - split; [reflexivity|]. cbn [dst1 chunk_updates].
        exists p, uaxes. split; [exact Hu|]. intros c _. reflexivity. }
    destruct (drain_chunk shape (σ ++ ext) dst1 v Hholds)
      as (a' & Hdrain & (a2 & axes2 & Hok2 & _ & Hv2') & _).
    destruct Hok2 as (_ & Hb2' & _ & _ & Hax2' & Hs2').
    subst dst1. cbn [drained chunk_data chunk_index chunk_updates] in *.
    rewrite Hax2 in Hax2'. injection Hax2' as <-.
    pose proof (lookup_lt_Some _ _ _ Hb2) as Hlt2.
    rewrite list_lookup_insert_eq in Hb2' by (rewrite length_app; lia).
    injection Hb2' as ->.
    exists a2, (<[arr_buf (chunk_data dst) := a2]> (σ ++ ext)).
    rewrite (bind_run _ _ _ _ _ Hrun). split.
    { rewrite Hdrain. unfold drained. cbn [chunk_data chunk_index].
      rewrite <- Hdst_eq. reflexivity. }
    split; [apply list_lookup_insert_eq; rewrite length_app; lia|].
    split; [congruence|]. split.
    + intros c Hc. rewrite Hs2 in Hc. rewrite <- (Hv2' c Hc).
      cbn [v nd_item]. destruct (Hcoord c Hc) as [Hin Hval].
      rewrite <- Hin. destruct (in_axes uaxes c); [apply Hval|]; reflexivity.
    + intros i Hi Hne'. rewrite list_lookup_insert_ne by congruence.
      apply lookup_app_l. exact Hi.
Qed.

End CopyOnIntersection.

Lemma X9_copy_on_intersection_then_apply_witness :
  exists a_dst' σ',
    (dst' ← _copy_on_intersection example_self [4] example_src_chunk
                                  example_dst_chunk;
     _apply_updates dst' _REPLICA_MODE) example_store =
      (Ok example_dst_chunk, σ') /\
    σ' !! arr_buf (chunk_data example_dst_chunk) = Some a_dst' /\
    nd_shape a_dst' = nd_shape (array1 [20; 30; 40]) /\
    (forall c, in_bounds (nd_shape (array1 [20; 30; 40])) c = true ->
               nd_item a_dst' c =
               if in_axes [(0, 3, 1)] (to_base [(1, 4, 1)] c)
               then nd_item (array1 [1; 2; 3])
                            (to_local [(0, 3, 1)] (to_base [(1, 4, 1)] c))
               else nd_item (array1 [20; 30; 40]) c) /\
    (forall i, (i < length example_store)%nat ->
               i <> arr_buf (chunk_data example_dst_chunk) ->
               σ' !! i = example_store !! i).
Proof.
  apply (X9_copy_on_intersection_then_apply example_self [4]
           example_src_chunk example_dst_chunk example_store
           (array1 [1; 2; 3]) (array1 [20; 30; 40]) [(0, 3, 1)] [(1, 4, 1)]).
  - repeat constructor; lia.
  - repeat split. repeat constructor.
  - repeat split. repeat constructor.
  - reflexivity.
  - reflexivity.
  - simpl. lia.
  - right. split; [reflexivity|]. simpl. split; [left|right; left]; reflexivity.
Defined.

(** ** _apply_and_update_chunks, coordinate by coordinate *)

Section ApplyAndUpdateCoordinates.

Context {V : Type} `{!Dtype V} `{!Runtime V}.

(** [_apply_and_update_chunks] on two chunks of an array in different
    buffers.  Either no coordinate of the array is in both chunks, and
    nothing happens; or some coordinate is, and one update is queued on
    the destination, on the destination's device, whose index selects the
    coordinates of the destination that the source has too and whose
    payload holds the source's elements for them, while the source keeps
    its elements, or, in a non-idempotent mode, has the identity at the
    coordinates that the destination has too. *)
Lemma _apply_and_update_chunks_run
      (self : _DistributedArray V) (op_mode : _OpMode V) (shape : list Z)
      (src dst : _Chunk) (σ : store V) (a_src a_dst : ndarray V)
      (axes_src axes_dst : list (Z * Z * Z)) :
  Forall (fun n => 0 <= n) shape ->
  chunk_ok shape σ src a_src axes_src ->
  chunk_ok shape σ dst a_dst axes_dst ->
  arr_buf (chunk_data src) <> arr_buf (chunk_data dst) ->
  (arr_dev (chunk_data src) = arr_dev (chunk_data dst) \/
   (nccl_dtype_known = true /\
    In (arr_dev (chunk_data src)) (_comms self) /\
    In (arr_dev (chunk_data dst)) (_comms self))) ->
  (_apply_and_update_chunks self op_mode shape src dst σ = (Ok dst, σ) /\
   forall g, in_axes axes_src g && in_axes axes_dst g = false) \/
  (exists g, in_axes axes_src g = true /\ in_axes axes_dst g = true) /\
  exists update dst_new_idx p uaxes a_src' σ',
    _apply_and_update_chunks self op_mode shape src dst σ =
      (Ok (Chunk (chunk_data dst) (chunk_index dst)
                 (chunk_updates dst ++ [(update, dst_new_idx)])), σ') /\
    arr_dev (transfer_data update) = arr_dev (chunk_data dst) /\
    update_ok σ' (view_shape axes_dst) (update, dst_new_idx) p uaxes /\
    (forall c, in_bounds (view_shape axes_dst) c = true ->
               in_axes uaxes c = in_axes axes_src (to_base axes_dst c) /\
               (in_axes uaxes c = true ->
                nd_item p (to_local uaxes c) =
                nd_item a_src (to_local axes_src (to_base axes_dst c)))) /\
    σ' !! arr_buf (chunk_data dst) = Some a_dst /\
    σ' !! arr_buf (chunk_data src) = Some a_src' /\
    nd_shape a_src' = nd_shape a_src /\
    (forall c, in_bounds (view_shape axes_src) c = true ->
               nd_item a_src' c =
               if negb (idempotent op_mode) &&
                  in_axes axes_dst (to_base axes_src c)
               then identity_of op_mode
               else nd_item a_src c) /\
    (length σ <= length σ')%nat /\
    (forall i, (i < length σ)%nat -> i <> arr_buf (chunk_data src) ->
               σ' !! i = σ !! i).
Proof.
  intros Hshape Hsrc Hdst Hne Hcomm.
  pose proof Hsrc as (Hv1 & Hb1 & Hl1 & Hp1 & Hax1 & Hs1).
  pose proof Hdst as (Hv2 & Hb2 & Hl2 & Hp2 & Hax2 & Hs2).
  pose proof (axes_of_pos _ _ _ Hp1 Hax1) as Hpos1.
  pose proof (axes_of_pos _ _ _ Hp2 Hax2) as Hpos2.
  destruct (_index_intersection_mem _ _ shape Hp1 Hp2 Hshape Hl1 Hl2)
    as (inter' & Hinter' & Hmem).
  unfold index_mem in Hmem. rewrite Hax1, Hax2 in Hmem.
  destruct (_apply_and_update_chunks_steps self op_mode shape src dst σ
              a_src a_dst axes_src axes_dst Hshape Hsrc Hdst Hne Hcomm)
    as (inter & Hinter & Hsteps).
  rewrite Hinter in Hinter'. injection Hinter' as <-.
  destruct inter as [region|].
  2:{ left. split; [exact Hsteps|]. intros g. symmetry. apply Hmem. }
  right.
  destruct Hsteps as (src_new_idx & dst_new_idx & part & update & payload & σ'
                      & Hn1 & Hn2 & Hget & Hrun & Hd' & Hload & Heq & Hdev
                      & Hlen & Hframe & Hafter).
  destruct (_index_intersection_sub_axes _ _ _ _ Hp1 Hp2 Hshape Hinter)
    as [Hsub1 Hsub2].
  destruct (sub_axes_region _ _ _ Hsub1) as (axes_r & Haxr & Hposr).
  rewrite Haxr in Hmem.
  destruct (_index_for_subindex_spec _ _ _ _ _ Hsub1 Hax1 Haxr)
    as (src_new_idx' & axes_n1 & Hn1' & Hn1a & Hn1p & Hn1s & Hbase1).
  destruct (_index_for_subindex_spec _ _ _ _ _ Hsub2 Hax2 Haxr)
    as (dst_new_idx' & axes_n2 & Hn2' & Hn2a & Hn2p & Hn2s & Hbase2).
  rewrite Hn1 in Hn1'. injection Hn1' as <-.
  rewrite Hn2 in Hn2'. injection Hn2' as <-.
  pose proof Hn1a as Hn1a'. rewrite <- Hs1 in Hn1a.
  rewrite (getitem_ok a_src src_new_idx axes_n1 Hn1a) in Hget.
  injection Hget as <-.
  set (part := NDArray (view_shape axes_n1)
                       (fun c => nd_item a_src (to_base axes_n1 c))) in *.
  destruct Heq as [Hps Hpi]. cbn [part nd_shape] in Hps.
  assert (Hln1 : length axes_n1 = length axes_src).
  { rewrite (axes_of_length _ _ _ Hn1a'). apply view_shape_length. }
  assert (Hln2 : length axes_n2 = length axes_dst).
  { rewrite (axes_of_length _ _ _ Hn2a). apply view_shape_length. }
  assert (Hpu : Forall pos_step dst_new_idx).
  { assert (Hlen2 : length dst_new_idx = length (view_shape axes_dst)).
    { unfold _index_for_subindex in Hn2. destruct (negb _); [discriminate|].
      apply mapM_length in Hn2. rewrite Hn2.
      rewrite length_zip3;
        [rewrite view_shape_length, (axes_of_length _ _ _ Hax2); exact Hl2| |].
      - rewrite Hl2. apply (Forall3_length_lr _ _ _ _ Hsub2).
      - symmetry. apply (Forall3_length_lr _ _ _ _ Hsub2). }
    rewrite axes_of_full in Hn2a by exact Hlen2.
    apply (axes_pos_step _ _ _ Hn2a Hlen2 Hn2p). }
  assert (Hin_dst : forall c, in_bounds (view_shape axes_dst) c = true ->
                              in_axes axes_dst (to_base axes_dst c) = true).
  { intros c Hc. apply in_axes_to_base; assumption. }
  assert (Hin_src : forall c, in_bounds (view_shape axes_src) c = true ->
                              in_axes axes_src (to_base axes_src c) = true).
  { intros c Hc. apply in_axes_to_base; assumption. }
  split.
  { exists (map region_start region). split.
    - apply (region_start_selected shape (chunk_index src) region axes_src
               Hsub1 Hax1).
    - apply (region_start_selected shape (chunk_index dst) region axes_dst
               Hsub2 Hax2). }
  assert (Hsrc' : exists a_src',
             σ' !! arr_buf (chunk_data src) = Some a_src' /\
             nd_shape a_src' = nd_shape a_src /\
             forall c, in_bounds (view_shape axes_src) c = true ->
                       nd_item a_src' c =
                       if negb (idempotent op_mode) &&
                          in_axes axes_dst (to_base axes_src c)
                       then identity_of op_mode
                       else nd_item a_src c).
  { destruct (idempotent op_mode).
    - exists a_src. split; [exact Hafter|]. split; reflexivity.
    - destruct Hafter as (a_src' & Hset & Hafter).
      rewrite (setitem_scalar_ok a_src src_new_idx _ axes_n1 Hn1a) in Hset.
      injection Hset as <-.
      eexists. split; [exact Hafter|]. split; [reflexivity|].
      intros c Hc. cbn [nd_item negb andb].
      destruct (region_within shape (chunk_index src) region axes_src axes_r
                  axes_n1 Hax1 Hpos1 Haxr Hposr Hn1p Hln1 Hn1s Hbase1 c Hc)
        as [Hin _].
      rewrite Hin, Hmem, (Hin_src c Hc). reflexivity. }
  destruct Hsrc' as (a_src' & Ha' & Hsh' & Hval').
  exists update, dst_new_idx, payload, axes_n2, a_src', σ'.
  split; [exact Hrun|]. split; [exact Hdev|]. split.
  { unfold update_ok. cbn [fst snd]. split; [exact Hload|].
    split; [exact Hpu|]. split; [exact Hn2a|]. congruence. }
  split.
  { intros c Hc.
    destruct (region_within shape (chunk_index dst) region axes_dst axes_r
                axes_n2 Hax2 Hpos2 Haxr Hposr Hn2p Hln2 Hn2s Hbase2 c Hc)
      as [Hin Hloc].
    assert (Hsame : in_axes axes_n2 c = in_axes axes_src (to_base axes_dst c)).
    { rewrite Hin, Hmem, (Hin_dst c Hc). apply andb_true_r. }
    split; [exact Hsame|]. intros Hc2.
    pose proof (to_local_in_bounds axes_n2 c Hn2p Hc2) as Hk.
    rewrite Hn2s, <- Hn1s in Hk.
    rewrite Hpi by (rewrite Hps; exact Hk).
    unfold part. cbn [nd_item]. f_equal.
    rewrite <- (Hloc Hc2), <- Hbase1.
    symmetry. apply in_axes_to_base; [exact Hpos1|].
    apply (axes_in_bounds _ src_new_idx axes_n1); [exact Hn1a'|exact Hn1p|].
    apply in_axes_to_base; assumption. }
  repeat match goal with |- _ /\ _ => split end; assumption.
Qed.


End ApplyAndUpdateCoordinates.


(** ** _all_reduce_intersections on chunks that keep apart *)

(** X10. On chunks with nothing pending whose indices, one slice with a
    positive step per axis, select regions no two of which overlap,
    [_all_reduce_intersections] makes no transfer: it returns the chunks
    map it was given and leaves the store as it is, in every op mode. *)
Theorem X10_all_reduce_intersections_disjoint {V} `{!Dtype V} `{!Runtime V}
        (self : _DistributedArray V) (op_mode : _OpMode V) (shape : list Z)
        (cm : dict (list _Chunk)) (σ : store V) :
  Forall (fun n => 0 <= n) shape ->
  Forall (fun chunk => chunk_updates chunk = [] /\
                       good_index shape (chunk_index chunk)) (flatten cm) ->
  pairwise (index_disjoint shape) (map chunk_index (flatten cm)) ->
  _all_reduce_intersections self op_mode shape cm σ = (Ok cm, σ).
Proof.
  intros Hshape Hall Hdis. apply _all_reduce_intersections_noop.
  - eapply Forall_impl; [exact Hall|]. intros c [Hu _]. exact Hu.
  - intros i j ci cj Hij Hi Hj. rewrite Forall_forall in Hall.
    apply disjoint_no_intersection; [exact Hshape| | |].
    + eapply Hall, list_elem_of_lookup_2, Hi.
    + eapply Hall, list_elem_of_lookup_2, Hj.
    + apply (pairwise_lookup (index_disjoint shape)
               (map chunk_index (flatten cm)) i j);
        [apply index_disjoint_sym|exact Hdis|exact Hij| |];
        rewrite list_lookup_fmap; [rewrite Hi|rewrite Hj]; reflexivity.
Qed.

Lemma X10_all_reduce_intersections_disjoint_witness :
  _all_reduce_intersections operand_y sum_mode [4] (_chunks_map operand_y)
                            operands_store =
  (Ok (_chunks_map operand_y), operands_store).
Proof.
  apply (X10_all_reduce_intersections_disjoint operand_y sum_mode [4]
           (_chunks_map operand_y) operands_store).
  - repeat constructor; lia.
  - repeat constructor; eexists; reflexivity.
  - split; [|split; [constructor|exact I]].
    constructor; [|constructor]. intros c [H1 H2].
    unfold index_mem in H1, H2.
    destruct c as [|i [|j c]]; cbn in H1, H2; try discriminate.
    + rewrite !andb_true_iff, ?Z.leb_le, ?Z.ltb_lt in H1, H2. lia.
    + rewrite andb_false_r in H1. discriminate.
Defined.

(** * What a change of mode leaves alone *)

Section Fresh.

Context {V : Type} `{!Dtype V} `{!Runtime V}.

(** The computation keeps every buffer below [n], and what it returns
    satisfies [P]. *)
Definition fresh (n : nat) {A} (P : A -> Prop) (m : M V A) : Prop :=
  forall σ : store V,
    (n <= length σ)%nat ->
    (n <= length (m σ).2)%nat /\
    (forall i, (i < n)%nat -> (m σ).2 !! i = σ !! i) /\
    forall a, (m σ).1 = Ok a -> P a.

Lemma fresh_keeps n {A} (m : M V A) : keeps n m -> fresh n (fun _ => True) m.
Proof.
  intros Hm σ Hn. destruct (Hm σ Hn) as [Hlen Hsame].
  split; [exact Hlen|]. split; [exact Hsame|]. intros; exact I.
Qed.

Lemma fresh_is_keeps n {A} (P : A -> Prop) (m : M V A) :
  fresh n P m -> keeps n m.
Proof.
  intros Hm σ Hn. destruct (Hm σ Hn) as (Hlen & Hsame & _).
  split; assumption.
Qed.

Lemma fresh_weaken n {A} (P Q : A -> Prop) (m : M V A) :
  fresh n P m -> (forall a, P a -> Q a) -> fresh n Q m.
Proof.
  intros Hm HPQ σ Hn. destruct (Hm σ Hn) as (Hlen & Hsame & Hpost).
  split; [exact Hlen|]. split; [exact Hsame|]. intros a Ha.
  apply HPQ, Hpost, Ha.
Qed.

Lemma fresh_ret n {A} (P : A -> Prop) (a : A) : P a -> fresh n P (mret a).
Proof.
  intros Ha σ Hn. split; [exact Hn|]. split; [reflexivity|].
  intros a' [= <-]. exact Ha.
Qed.

Lemma fresh_raise n {A} (P : A -> Prop) (e : exn) :
  fresh n P (raise (A := A) e).
Proof.
  intros σ Hn. split; [exact Hn|]. split; [reflexivity|]. discriminate.
Qed.

Lemma fresh_bind n {A B} (P : A -> Prop) (Q : B -> Prop) (m : M V A)
      (k : A -> M V B) :
  fresh n P m -> (forall a, P a -> fresh n Q (k a)) -> fresh n Q (m ≫= k).
Proof.
  intros Hm Hk σ Hn. destruct (Hm σ Hn) as (Hlen & Hsame & Hpost).
  unfold mbind, M_bind. destruct (m σ) as [[a|e] σ1]; cbn [fst snd] in *.
  - destruct (Hk a (Hpost a eq_refl) σ1 Hlen) as (Hlen' & Hsame' & Hpost').
    split; [exact Hlen'|]. split; [|exact Hpost'].
    intros i Hi. rewrite Hsame', Hsame; auto.
  - split; [exact Hlen|]. split; [exact Hsame|]. discriminate.
Qed.

(** A step that keeps the buffers, whatever it returns. *)
Lemma fresh_seq n {A B} (Q : B -> Prop) (m : M V A) (k : A -> M V B) :
  keeps n m -> (forall a, fresh n Q (k a)) -> fresh n Q (m ≫= k).
Proof.
  intros Hm Hk. apply (fresh_bind n (fun _ => True)); [apply fresh_keeps, Hm|].
  intros a _. apply Hk.
Qed.

Lemma fresh_forM n {A B} (P : B -> Prop) (f : A -> M V B) (l : list A) :
  (forall x, In x l -> fresh n P (f x)) -> fresh n (Forall P) (forM f l).
Proof.
  induction l as [|x l IH]; intros Hf; cbn [forM].
  - apply fresh_ret. constructor.
  - apply (fresh_bind n P); [apply Hf; left; reflexivity|]. intros y Hy.
    apply (fresh_bind n (Forall P)).
    + apply IH. intros x' Hx'. apply Hf. right. exact Hx'.
    + intros ys Hys. apply fresh_ret. constructor; assumption.
Qed.

Lemma fresh_foldM n {A S} (I : S -> Prop) (f : S -> A -> M V S) (l : list A)
      (s : S) :
  I s -> (forall s x, I s -> fresh n I (f s x)) -> fresh n I (foldM f s l).
Proof.
  intros Hs Hf. revert s Hs. induction l as [|x l IH]; intros s Hs;
    cbn [foldM].
  - apply fresh_ret, Hs.
  - apply (fresh_bind n I); [apply Hf, Hs|]. intros s' Hs'. apply IH, Hs'.
Qed.

(** The data of the chunk is in a buffer that is not below [n]. *)
Definition above (n : nat) (chunk : _Chunk) : Prop :=
  (n <= arr_buf (chunk_data chunk))%nat.

Lemma fresh_alloc n dev (a : ndarray V) :
  fresh n (fun r => (n <= arr_buf r)%nat) (alloc dev a).
Proof.
  intros σ Hn. destruct (keeps_alloc n dev a σ Hn) as [Hlen Hsame].
  split; [exact Hlen|]. split; [exact Hsame|].
  intros r [= <-]. exact Hn.
Qed.

Lemma fresh_alloc_empty n dev (shape : list Z) :
  fresh n (fun r => (n <= arr_buf r)%nat) (alloc_empty dev shape).
Proof.
  intros σ Hn. unfold alloc_empty. cbn [fst snd]. split.
  - rewrite length_app. lia.
  - split; [intros i Hi; apply lookup_app_l; lia|].
    intros r [= <-]. exact Hn.
Qed.

Lemma fresh_copy_to n dev (r : array) :
  fresh n (fun r' => (n <= arr_buf r')%nat) (copy_to dev r).
Proof.
  unfold copy_to. apply fresh_seq; [apply keeps_load|]. intros a.
  apply fresh_alloc.
Qed.

Lemma fresh_Chunk_copy n (chunk : _Chunk) :
  fresh n (above n) (_Chunk_copy chunk).
Proof.
  unfold _Chunk_copy, _ManagedData_copy. cbn [managed_data].
  eapply fresh_bind.
  - eapply fresh_bind; [apply fresh_copy_to|]. intros r Hr.
    apply (fresh_ret n (fun m => (n <= arr_buf (managed_data m))%nat)).
    exact Hr.
  - intros m Hm. apply fresh_ret. exact Hm.
Qed.

Lemma fresh_map_chunks n (P : _Chunk -> Prop) (f : _Chunk -> M V _Chunk)
      (m : dict (list _Chunk)) :
  (forall chunk, In chunk (flatten m) -> fresh n P (f chunk)) ->
  fresh n (fun m' => Forall P (flatten m')) (map_chunks f m).
Proof.
  intros Hf. unfold map_chunks.
  eapply fresh_weaken.
  - apply (fresh_forM n (fun kv : Z * list _Chunk => Forall P kv.2)).
    intros [dev chunks] Hin.
    apply (fresh_bind n (Forall P)).
    + apply fresh_forM. intros chunk Hc. apply Hf. unfold flatten.
      apply in_flat_map. exists (dev, chunks). split; [exact Hin|exact Hc].
    + intros chunks' Hc. apply fresh_ret. exact Hc.
  - intros m' Hm'. unfold flatten. induction Hm' as [|kv m' Hkv Hm' IH];
      [constructor|]. cbn [flat_map]. apply Forall_app. split; assumption.
Qed.

Lemma keeps_apply_update n (chunk : _Chunk) (mode : _Mode V)
      (u : _PartialUpdate) :
  above n chunk -> keeps n (apply_update chunk mode u).
Proof.
  intros Ha. destruct u as [new_data idx]. unfold apply_update.
  destruct mode as [op|].
  - apply keeps_bind; [apply keeps_subscript|]. intros target.
    apply keeps_bind; [apply keeps_load|]. intros x1.
    apply keeps_bind; [apply keeps_load|]. intros x2.
    apply keeps_bind; [apply keeps_lift|]. intros r.
    destruct (negb _); [apply keeps_raise|apply keeps_assign; exact Ha].
  - apply keeps_bind; [apply keeps_load|]. intros x.
    apply keeps_assign. exact Ha.
Qed.

Lemma fresh_apply_updates n (chunk : _Chunk) (mode : _Mode V) :
  above n chunk -> fresh n (above n) (_apply_updates chunk mode).
Proof.
  intros Ha. unfold _apply_updates. apply fresh_seq.
  - apply keeps_forM. intros u. apply keeps_apply_update. exact Ha.
  - intros _. apply fresh_ret. exact Ha.
Qed.

Lemma keeps_transfer_async n (self : _DistributedArray V)
      (src_chunk : _ManagedData) (dst_dev : Z) :
  keeps n (_transfer_async self src_chunk dst_dev).
Proof.
  unfold _transfer_async. destruct (_ =? _); [apply keeps_ret|].
  apply keeps_bind; [apply keeps_load|]. intros src_array.
  apply (fresh_is_keeps n (fun _ => True)).
  eapply fresh_bind; [apply fresh_alloc_empty|]. intros dst_buf Hb.
  apply fresh_keeps.
  destruct (negb nccl_dtype_known); [apply keeps_raise|].
  destruct (negb (existsb _ _)); [apply keeps_raise|].
  destruct (negb (existsb _ _)); [apply keeps_raise|].
  apply keeps_bind; [apply keeps_assign; exact Hb|]. intros _.
  apply keeps_ret.
Qed.

Lemma keeps_ManagedData_copy n (m : _ManagedData) :
  keeps (V := V) n (_ManagedData_copy m).
Proof.
  unfold _ManagedData_copy. apply keeps_bind; [apply keeps_copy_to|].
  intros r. apply keeps_ret.
Qed.

Lemma fresh_apply_and_update_chunks n (self : _DistributedArray V)
      (op_mode : _OpMode V) (shape : list Z) (src dst : _Chunk) :
  above n src -> above n dst ->
  fresh n (above n) (_apply_and_update_chunks self op_mode shape src dst).
Proof.
  intros Hs Hd. unfold _apply_and_update_chunks.
  apply fresh_seq; [apply keeps_lift|]. intros [region|];
    [|apply fresh_ret; exact Hd].
  apply fresh_seq; [apply keeps_lift|]. intros src_new_idx.
  apply fresh_seq; [apply keeps_lift|]. intros dst_new_idx.
  apply fresh_seq; [apply keeps_subscript|]. intros part.
  apply fresh_seq.
  { destruct (negb _); [apply keeps_ManagedData_copy|apply keeps_ret]. }
  intros data_to_transfer.
  apply fresh_seq; [apply keeps_transfer_async|]. intros update.
  destruct (negb _).
  - apply fresh_seq; [apply keeps_assign; exact Hs|]. intros _.
    apply fresh_ret. exact Hd.
  - apply fresh_ret. exact Hd.
Qed.

Lemma fresh_copy_on_intersection n (self : _DistributedArray V)
      (shape : list Z) (src dst : _Chunk) :
  above n dst ->
  fresh n (above n) (_copy_on_intersection self shape src dst).
Proof.
  intros Hd. unfold _copy_on_intersection.
  destruct (negb _); [apply fresh_raise|].
  apply fresh_seq; [apply keeps_lift|]. intros [region|];
    [|apply fresh_ret; exact Hd].
  apply fresh_seq; [apply keeps_lift|]. intros src_new_idx.
  apply fresh_seq; [apply keeps_lift|]. intros dst_new_idx.
  apply fresh_seq; [apply keeps_subscript|]. intros part.
  apply fresh_seq; [apply keeps_transfer_async|]. intros update.
  apply fresh_ret. exact Hd.
Qed.

Lemma list_get_Forall {A} (P : A -> Prop) (l : list A) (i : nat) (x : A) :
  Forall P l -> list_get l i = Ok x -> P x.
Proof.
  intros Hl. unfold list_get. destruct (l !! i) as [y|] eqn:E; [|discriminate].
  intros [= <-]. rewrite Forall_forall in Hl. apply Hl.
  eapply list_elem_of_lookup_2, E.
Qed.

Lemma fresh_list_get n {A} (P : A -> Prop) (l : list A) (i : nat) :
  Forall P l -> fresh n P (lift (list_get l i)).
Proof.
  intros Hl σ Hn. split; [exact Hn|]. split; [reflexivity|].
  intros x Hx. cbn [lift fst] in Hx. apply (list_get_Forall P l i x Hl Hx).
Qed.

Lemma Forall_insert_2 {A} (P : A -> Prop) (l : list A) (i : nat) (x : A) :
  Forall P l -> P x -> Forall P (<[i := x]> l).
Proof.
  intros Hl Hx. revert i. induction Hl as [|y l Hy Hl IH]; intros [|i];
    cbn; constructor; auto.
Qed.

Lemma fresh_onto_each n (f : _Chunk -> _Chunk -> M V _Chunk) (src : _Chunk)
      (js : list nat) (l : list _Chunk) :
  (forall dst, above n dst -> fresh n (above n) (f src dst)) ->
  Forall (above n) l ->
  fresh n (Forall (above n)) (onto_each f src js l).
Proof.
  intros Hf Hl. unfold onto_each. apply fresh_foldM; [exact Hl|].
  intros l' j Hl'.
  eapply fresh_bind; [apply fresh_list_get; exact Hl'|]. intros dst Hd.
  eapply fresh_bind; [apply Hf; exact Hd|]. intros dst' Hd'.
  apply fresh_ret. apply Forall_insert_2; assumption.
Qed.

Lemma Forall_unflatten (P : _Chunk -> Prop) (cm : dict (list _Chunk))
      (l : list _Chunk) :
  Forall P l -> Forall P (flatten (unflatten cm l)).
Proof.
  revert l. induction cm as [|[dev chunks] cm IH]; intros l Hl;
    [constructor|].
  cbn [unflatten]. unfold flatten. cbn [flat_map snd]. apply Forall_app. split.
  - apply Forall_take. exact Hl.
  - apply IH. apply Forall_drop. exact Hl.
Qed.

Lemma fresh_all_reduce_intersections n (self : _DistributedArray V)
      (op_mode : _OpMode V) (shape : list Z) (cm : dict (list _Chunk)) :
  Forall (above n) (flatten cm) ->
  fresh n (fun cm' => Forall (above n) (flatten cm'))
        (_all_reduce_intersections self op_mode shape cm).
Proof.
  intros Hcm. unfold _all_reduce_intersections.
  eapply fresh_bind.
  { apply (fresh_foldM n (Forall (above n))); [exact Hcm|].
    intros l i Hl.
    eapply fresh_bind; [apply fresh_list_get; exact Hl|]. intros src Hs.
    eapply fresh_bind; [apply fresh_apply_updates; exact Hs|]. intros src' Hs'.
    apply fresh_onto_each.
    - intros dst Hd. apply fresh_apply_and_update_chunks; assumption.
    - apply Forall_insert_2; assumption. }
  intros l1 Hl1. eapply fresh_bind.
  { apply (fresh_foldM n (Forall (above n))); [exact Hl1|].
    intros l j Hl.
    eapply fresh_bind; [apply fresh_list_get; exact Hl|]. intros src Hs.
    eapply fresh_bind; [apply fresh_apply_updates; exact Hs|]. intros src' Hs'.
    apply fresh_onto_each.
    - intros dst Hd. apply fresh_copy_on_intersection; assumption.
    - apply Forall_insert_2; assumption. }
  intros l2 Hl2. apply fresh_ret. apply Forall_unflatten. exact Hl2.
Qed.

Lemma fresh_copy_chunks_map n (self : _DistributedArray V) :
  fresh n (fun cm => Forall (above n) (flatten cm)) (_copy_chunks_map self).
Proof.
  unfold _copy_chunks_map. apply fresh_map_chunks.
  intros chunk _. apply fresh_Chunk_copy.
Qed.

Lemma fresh_replica_mode_chunks_map n (self : _DistributedArray V) :
  fresh n (fun cm => Forall (above n) (flatten cm))
        (_replica_mode_chunks_map self).
Proof.
  unfold _replica_mode_chunks_map.
  eapply fresh_bind; [apply fresh_copy_chunks_map|]. intros cm Hcm.
  destruct (_mode self) as [op|].
  - apply fresh_all_reduce_intersections. exact Hcm.
  - apply fresh_ret. exact Hcm.
Qed.

Lemma keeps_set_identity_on_intersection n (self : _DistributedArray V)
      (shape : list Z) (identity : V) (a_chunk : _Chunk) (b_idx : index) :
  above n a_chunk ->
  keeps n (_set_identity_on_intersection self shape identity a_chunk b_idx).
Proof.
  intros Ha. unfold _set_identity_on_intersection.
  apply keeps_bind; [apply keeps_lift|]. intros [region|]; [|apply keeps_ret].
  apply keeps_bind; [apply keeps_lift|]. intros a_new_idx.
  apply keeps_assign. exact Ha.
Qed.

Lemma fresh_op_mode_chunks_map n (self : _DistributedArray V)
      (op_mode : _OpMode V) :
  fresh n (fun cm => Forall (above n) (flatten cm))
        (_op_mode_chunks_map self op_mode).
Proof.
  unfold _op_mode_chunks_map.
  destruct (mode_is _ _); [apply fresh_copy_chunks_map|].
  eapply fresh_bind; [apply fresh_replica_mode_chunks_map|]. intros cm Hcm.
  eapply fresh_bind.
  { apply (fresh_map_chunks n (above n)). intros chunk Hc.
    apply fresh_apply_updates. rewrite Forall_forall in Hcm.
    apply Hcm, list_elem_of_In, Hc. }
  intros cm' Hcm'. apply fresh_seq; [|intros _; apply fresh_ret; exact Hcm'].
  apply keeps_forM. intros i.
  apply (fresh_is_keeps n (fun _ => True)).
  eapply fresh_bind; [apply fresh_list_get; exact Hcm'|]. intros a_chunk Ha.
  apply fresh_keeps. apply keeps_forM. intros j.
  apply keeps_bind; [apply keeps_lift|]. intros b_chunk.
  apply keeps_set_identity_on_intersection. exact Ha.
Qed.

Lemma keeps_take {A} (m : M V A) (σ : store V) :
  keeps (length σ) m -> take (length σ) (m σ).2 = σ.
Proof.
  intros Hm. destruct (Hm σ (le_n _)) as [Hlen Hsame].
  apply list_eq. intros i. destruct (decide (i < length σ)%nat) as [Hi|Hi].
  - rewrite lookup_take_lt by exact Hi. apply Hsame. exact Hi.
  - rewrite lookup_take_ge by lia. symmetry. apply lookup_ge_None. lia.
Qed.

(** X11. [change_mode] and [to_replica_mode] leave every buffer that
    exists when they are called as it is, whatever the array, its mode and
    its pending updates, and whether they return or raise: the chunks are
    copied first, and updates are applied, data exchanged and identities
    written on the copies only. *)
Theorem X11_change_mode_keeps_buffers (self : _DistributedArray V)
        (mode : string) (σ : store V) :
  take (length σ) (change_mode self mode σ).2 = σ /\
  take (length σ) (to_replica_mode self σ).2 = σ.
Proof.
  split; apply keeps_take.
  - unfold change_mode.
    destruct (str_find _MODES mode) as [mode_obj|]; [|apply keeps_raise].
    destruct (mode_is _ _); [apply keeps_ret|].
    apply keeps_bind; [|intros; apply keeps_lift].
    destruct mode_obj as [op|].
    + eapply fresh_is_keeps, fresh_op_mode_chunks_map.
    + eapply fresh_is_keeps, fresh_replica_mode_chunks_map.
  - unfold to_replica_mode. destruct (mode_is _ _); [apply keeps_ret|].
    apply keeps_bind; [|intros; apply keeps_lift].
    eapply fresh_is_keeps, fresh_replica_mode_chunks_map.
Qed.

Lemma keeps_reduction_call_chunk n (kernel : reduction_kernel) (axis dev : Z)
      (chunk : _Chunk) :
  keeps n (reduce_chunk kernel axis dev chunk).
Proof.
  unfold reduce_chunk.
  apply keeps_bind; [apply keeps_load|]. intros x.
  apply keeps_bind; [apply keeps_lift|]. intros r.
  apply keeps_bind; [apply keeps_alloc|]. intros new_data.
  apply keeps_bind; [apply keeps_lift|]. intros new_index.
  apply keeps_bind; [|intros; apply keeps_ret].
  apply keeps_forM. intros [update update_index].
  apply keeps_bind; [apply keeps_load|]. intros u.
  apply keeps_bind; [apply keeps_lift|]. intros r'.
  apply keeps_bind; [apply keeps_alloc|]. intros new_update_data.
  apply keeps_bind; [apply keeps_lift|]. intros new_index'.
  apply keeps_ret.
Qed.

(** X12. The reduction override leaves every buffer that exists when it
    is called as it is, whether it returns or raises: it reduces copies of
    the chunks into new buffers, and the identities it writes over pending
    regions go to the copies. *)
Theorem X12_reduction_keeps_buffers (self : _DistributedArray V)
        (kernel : reduction_kernel) (axis : Z) (out : option array)
        (keepdims : bool) (σ : store V) :
  take (length σ)
       (__cupy_override_reduction_kernel__ self kernel axis out keepdims σ).2
  = σ.
Proof.
  apply keeps_take. unfold __cupy_override_reduction_kernel__.
  destruct out; [apply keeps_raise|].
  destruct keepdims; [apply keeps_raise|].
  set (n := length σ).
  set (P := fun t : _Mode V * dict (list _Chunk) * bool =>
              Forall (above n) (flatten t.1.2)).
  assert (Hidem : forall name,
             fresh n P
               (mode ← lift (match str_find _MODES name with
                             | Some m => Ok m | None => Raise KeyError end);
                if mode_is (_mode self) mode then
                  chunks_map ← _copy_chunks_map self;
                  mret (mode, chunks_map, false)
                else
                  chunks_map ← _replica_mode_chunks_map self;
                  mret (mode, chunks_map, true))).
  { intros name. apply fresh_seq; [apply keeps_lift|]. intros mode.
    destruct (mode_is _ _).
    - eapply fresh_bind; [apply fresh_copy_chunks_map|]. intros cm Hcm.
      apply fresh_ret. exact Hcm.
    - eapply fresh_bind; [apply fresh_replica_mode_chunks_map|]. intros cm Hcm.
      apply fresh_ret. exact Hcm. }
  assert (Hop : forall name,
             fresh n P
               (mode ← lift (match str_find _MODES name with
                             | Some (Some m) => Ok m | _ => Raise KeyError end);
                chunks_map ← _op_mode_chunks_map self mode;
                mret (Some mode, chunks_map, false))).
  { intros name. apply fresh_seq; [apply keeps_lift|]. intros mode.
    eapply fresh_bind; [apply fresh_op_mode_chunks_map|]. intros cm Hcm.
    apply fresh_ret. exact Hcm. }
  apply (fresh_is_keeps n (fun _ => True)).
  apply (fresh_bind n P).
  { repeat (destruct (String.eqb _ _); [first [apply Hidem|apply Hop]|]).
    apply fresh_raise. }
  intros [[mode chunks_map] overwrites] Hcm. unfold P in Hcm.
  cbn [fst snd] in Hcm. apply fresh_keeps.
  apply keeps_bind.
  { destruct overwrites; [|apply keeps_ret].
    destruct mode as [op|]; [|apply keeps_raise].
    apply keeps_bind; [|intros; apply keeps_ret].
    apply (fresh_is_keeps n (Forall (fun _ => True))).
    apply fresh_forM. intros chunk Hc. apply fresh_keeps.
    unfold _set_identity_on_ignored_entries.
    apply keeps_bind; [|intros; apply keeps_ret].
    apply keeps_forM. intros [u idx]. apply keeps_assign.
    rewrite Forall_forall in Hcm. apply Hcm, list_elem_of_In, Hc. }
  intros _. apply keeps_bind; [apply keeps_lift|]. intros shape.
  apply keeps_bind; [|intros; apply keeps_lift].
  apply keeps_foldM. intros new_chunks_map [dev chunks].
  apply keeps_bind; [|intros; apply keeps_ret].
  apply keeps_forM. intros chunk. apply keeps_reduction_call_chunk.
Qed.

End Fresh.

(** * Modes *)

Section ModeProperty.

Context {V : Type} `{!Dtype V} `{!Runtime V}.

Lemma bind_Ok_inv {A B} (m : M V A) (k : A -> M V B) (σ σ' : store V) (b : B) :
  (m ≫= k) σ = (Ok b, σ') ->
  exists a σ1, m σ = (Ok a, σ1) /\ k a σ1 = (Ok b, σ').
Proof.
  unfold mbind, M_bind. destruct (m σ) as [[a|e] σ1]; [|discriminate].
  intros H. exists a, σ1. split; [reflexivity|exact H].
Qed.

Lemma _DistributedArray_new_mode (shape : list Z) (cm : dict (list _Chunk))
      (mode_obj : _Mode V) (comms : option (list Z)) (d : _DistributedArray V) :
  _DistributedArray_new shape cm mode_obj comms = Ok d ->
  _mode d = mode_obj /\ da_shape d = shape /\ _chunks_map d = cm.
Proof.
  unfold _DistributedArray_new. destruct comms as [[|c cs]|];
    try (destruct nccl_available; [|discriminate]);
    intros [= <-]; repeat split.
Qed.

(** The names of [_MODES] and their objects. *)
Lemma str_find_MODES (name : string) (mode_obj : _Mode V) :
  str_find _MODES name = Some mode_obj ->
  (name = "replica"%string /\ mode_obj = _REPLICA_MODE) \/
  (name = "min"%string /\
   mode_obj = Some (OpMode "minimum" minimum true max_value)) \/
  (name = "max"%string /\
   mode_obj = Some (OpMode "maximum" maximum true min_value)) \/
  (name = "sum"%string /\ mode_obj = Some (OpMode "add" add false zero)) \/
  (name = "prod"%string /\
   mode_obj = Some (OpMode "multiply" multiply false one)).
Proof.
  unfold _MODES. cbn [str_find].
  repeat match goal with
         | |- context [String.eqb ?a name] =>
             destruct (String.eqb_spec a name) as [<-|?]
         end; try discriminate; intros [= <-]; tauto.
Qed.

(** X13. The [mode] property names the mode an array was given: the array
    that [change_mode(mode)] returns, and the array that
    [distributed_array(..., mode, ...)] returns, have [mode] as their
    [mode] property. *)
Theorem X13_mode_after_change_mode (self : _DistributedArray V)
        (arr : array_like V) (index_map : dict idxs_arg)
        (comms : option (list Z)) (name : string) (σ σ' : store V)
        (d : _DistributedArray V) :
  change_mode self name σ = (Ok d, σ') \/
  distributed_array arr index_map name comms σ = (Ok d, σ') ->
  mode d = Ok name.
Proof.
  assert (Hnew : forall mode_obj,
             str_find _MODES name = Some mode_obj ->
             _mode d = mode_obj -> mode d = Ok name).
  { intros mode_obj Hfind Hmode. unfold mode. rewrite Hmode.
    destruct (str_find_MODES name mode_obj Hfind)
      as [[-> ->]|[[-> ->]|[[-> ->]|[[-> ->]|[-> ->]]]]]; reflexivity. }
  intros [Hrun|Hrun].
  - unfold change_mode in Hrun.
    destruct (str_find _MODES name) as [mode_obj|] eqn:Hfind;
      [|discriminate].
    destruct (mode_is mode_obj (_mode self)) eqn:His.
    + injection Hrun as <- _. unfold mode.
      destruct (str_find_MODES name mode_obj Hfind)
        as [[-> ->]|[[-> ->]|[[-> ->]|[[-> ->]|[-> ->]]]]];
        destruct (_mode self) as [op|]; cbn [mode_is] in His;
        try discriminate; try reflexivity;
        apply String.eqb_eq in His; cbn [func_name] in His;
        unfold _MODES; cbn [find snd mode_is func_name]; rewrite <- His;
        reflexivity.
    + apply bind_Ok_inv in Hrun. destruct Hrun as (cm & σ1 & _ & Hrun).
      unfold lift in Hrun. apply (f_equal fst) in Hrun. cbn [fst] in Hrun.
      apply _DistributedArray_new_mode in Hrun. apply (Hnew mode_obj eq_refl).
      tauto.
  - unfold distributed_array in Hrun.
    destruct (str_find _MODES name) as [mode_obj|] eqn:Hfind;
      [|discriminate].
    apply bind_Ok_inv in Hrun. destruct Hrun as (a & σ1 & _ & Hrun).
    apply bind_Ok_inv in Hrun. destruct Hrun as (x & σ2 & _ & Hrun).
    apply bind_Ok_inv in Hrun. destruct Hrun as (nim & σ3 & _ & Hrun).
    apply bind_Ok_inv in Hrun. destruct Hrun as (cm & σ4 & _ & Hrun).
    unfold lift in Hrun. apply (f_equal fst) in Hrun. cbn [fst] in Hrun.
    apply _DistributedArray_new_mode in Hrun. apply (Hnew mode_obj eq_refl).
    tauto.
Qed.

(** X14. [change_mode] to the mode an array is in returns the array
    itself: nothing is copied and the store is as before. *)
Theorem X14_change_mode_to_own_mode (self : _DistributedArray V)
        (name : string) (σ : store V) :
  mode self = Ok name -> change_mode self name σ = (Ok self, σ).
Proof.
  unfold mode, change_mode, _MODES. cbn [find snd str_find].
  destruct (_mode self) as [[fn f idem idn]|]; cbn [mode_is func_name].
  - repeat match goal with
           | |- context [String.eqb fn ?a] =>
               destruct (String.eqb_spec fn a) as [->|?]
           end; try discriminate; intros [= <-]; reflexivity.
  - intros [= <-]. reflexivity.
Qed.

End ModeProperty.

Lemma X13_mode_after_change_mode_witness :
  exists d σ',
    change_mode example_self "sum" example_store = (Ok d, σ') /\
    mode d = Ok "sum"%string.
Proof.
  destruct (change_mode example_self "sum" example_store) as [[d|e] σ']
    eqn:Hrun.
  - exists d, σ'. split; [reflexivity|].
    apply (X13_mode_after_change_mode
             example_self (OtherLike (array1 [1; 2; 3; 4])) [] None
             "sum" example_store σ' d (or_introl Hrun)).
  - exfalso. vm_compute in Hrun. discriminate Hrun.
Defined.

Lemma X14_change_mode_to_own_mode_witness :
  change_mode example_self "replica" example_store =
  (Ok example_self, example_store).
Proof.
  apply (X14_change_mode_to_own_mode example_self "replica" example_store).
  reflexivity.
Defined.

(** * _count_chunks_on_devices *)

Lemma dict_find_dict_set {A} (d : dict A) (k k' : Z) (v : A) :
  dict_find (dict_set d k v) k' =
  if k =? k' then Some v else dict_find d k'.
Proof.
  induction d as [|[k0 v0] d IH]; cbn [dict_set dict_find].
  - reflexivity.
  - destruct (Z.eqb_spec k0 k) as [->|Hne]; cbn [dict_find].
    + destruct (Z.eqb_spec k k'); reflexivity.
    + rewrite IH. destruct (Z.eqb_spec k0 k') as [->|?]; [|reflexivity].
      destruct (Z.eqb_spec k k'); [congruence|reflexivity].
Qed.

Lemma count_step_raise (e : exn) (l : list (Z * list _Chunk)) :
  foldl count_step (Raise e) l = Raise e.
Proof. induction l as [|[dev chunks] l IH]; [reflexivity|exact IH]. Qed.

(** One entry counted: the count of its device is the number of its
    chunks, the other counts are as before; an entry that disagrees with
    the count of its device raises. *)
Lemma count_step_run (counts : dict nat) (dev : Z) (chunks : list _Chunk) :
  match dict_find counts dev with
  | Some n =>
      if (n =? length chunks)%nat
      then count_step (Ok counts) (dev, chunks) = Ok counts
      else count_step (Ok counts) (dev, chunks) = Raise RuntimeError
  | None =>
      count_step (Ok counts) (dev, chunks) =
      Ok (dict_set counts dev (length chunks))
  end.
Proof.
  unfold count_step, dict_mem, dict_get. cbn [mbind result_bind].
  destruct (dict_find counts dev) as [n|] eqn:E; cbn [negb].
  - rewrite E. cbn [mbind result_bind].
    destruct (n =? length chunks)%nat; reflexivity.
  - rewrite dict_find_dict_set, Z.eqb_refl. cbn [mbind result_bind].
    rewrite Nat.eqb_refl. reflexivity.
Qed.

Lemma count_fold_ok (counts : dict nat) (l : list (Z * list _Chunk)) :
  (forall d c n, In (d, c) l -> dict_find counts d = Some n -> n = length c) ->
  (forall d c1 c2, In (d, c1) l -> In (d, c2) l -> length c1 = length c2) ->
  exists counts',
    foldl count_step (Ok counts) l = Ok counts' /\
    (forall d n, dict_find counts d = Some n -> dict_find counts' d = Some n) /\
    (forall d c, In (d, c) l -> dict_find counts' d = Some (length c)) /\
    (forall d, dict_mem counts' d = true ->
               dict_mem counts d = true \/ In d (map fst l)).
Proof.
  revert counts. induction l as [|[dev chunks] l IH]; intros counts H1 H2.
  - exists counts. split; [reflexivity|]. split; [auto|].
    split; [contradiction|]. intros d Hd. left. exact Hd.
  - pose proof (count_step_run counts dev chunks) as Hstep.
    destruct (dict_find counts dev) as [n|] eqn:E.
    + rewrite (H1 dev chunks n ltac:(left; reflexivity) E), Nat.eqb_refl in Hstep.
      destruct (IH counts) as (counts' & Hrun & Hk & Hall & Hkeys).
      { intros d c m Hin. apply H1. right. exact Hin. }
      { intros d c1 c2 Hi1 Hi2. apply (H2 d); right; assumption. }
      exists counts'. cbn [foldl]. rewrite Hstep.
      split; [exact Hrun|]. split; [exact Hk|]. split.
      * intros d c [[= <- <-]|Hin]; [|apply Hall, Hin].
        apply Hk. rewrite E. f_equal.
        apply (H1 dev chunks n); [left; reflexivity|exact E].
      * intros d Hd. destruct (Hkeys d Hd) as [H|H]; [left; exact H|].
        right. right. exact H.
    + destruct (IH (dict_set counts dev (length chunks)))
        as (counts' & Hrun & Hk & Hall & Hkeys).
      { intros d c m Hin. rewrite dict_find_dict_set.
        destruct (Z.eqb_spec dev d) as [<-|Hne].
        - intros [= <-]. apply (H2 dev); [left; reflexivity|right; exact Hin].
        - apply H1. right. exact Hin. }
      { intros d c1 c2 Hi1 Hi2. apply (H2 d); right; assumption. }
      exists counts'. cbn [foldl]. rewrite Hstep.
      split; [exact Hrun|]. split; [|split].
      * intros d m Hd. apply Hk. rewrite dict_find_dict_set.
        destruct (Z.eqb_spec dev d) as [<-|Hne]; [congruence|exact Hd].
      * intros d c [[= <- <-]|Hin]; [|apply Hall, Hin].
        apply Hk. rewrite dict_find_dict_set, Z.eqb_refl. reflexivity.
      * intros d Hd. destruct (Hkeys d Hd) as [H|H].
        -- unfold dict_mem in H. rewrite dict_find_dict_set in H.
           destruct (Z.eqb_spec dev d) as [<-|Hne];
             [right; left; reflexivity|left; exact H].
        -- right. right. exact H.
Qed.

Lemma count_fold_raise (counts : dict nat) (l : list (Z * list _Chunk)) :
  (exists d c, In (d, c) l /\
     ((exists n, dict_find counts d = Some n /\ n <> length c) \/
      exists c2, In (d, c2) l /\ length c2 <> length c)) ->
  foldl count_step (Ok counts) l = Raise RuntimeError.
Proof.
  revert counts. induction l as [|[dev chunks] l IH]; intros counts
    (d & c & Hin & Hbad); [contradiction|].
  pose proof (count_step_run counts dev chunks) as Hstep. cbn [foldl].
  destruct (dict_find counts dev) as [n|] eqn:E.
  - destruct (Nat.eqb_spec n (length chunks)) as [->|Hne].
    + rewrite Hstep. apply IH.
      destruct Hin as [[= <- <-]|Hin].
      * destruct Hbad as [(m & Hm & Hne)|(c2 & [[= <-]|Hin2] & Hne)];
          [congruence|congruence|].
        exists dev, c2. split; [exact Hin2|]. left.
        exists (length chunks). split; [exact E|congruence].
      * exists d, c. split; [exact Hin|].
        destruct Hbad as [Hbad|(c2 & [[= <- <-]|Hin2] & Hne)];
          [left; exact Hbad| |right; exists c2; tauto].
        left. exists (length chunks). split; [exact E|exact Hne].
    + rewrite Hstep. apply count_step_raise.
  - rewrite Hstep. apply IH.
    destruct Hin as [[= <- <-]|Hin].
    + destruct Hbad as [(m & Hm & Hne)|(c2 & [[= <-]|Hin2] & Hne)];
        [congruence|congruence|].
      exists dev, c2. split; [exact Hin2|]. left.
      exists (length chunks). rewrite dict_find_dict_set, Z.eqb_refl.
      split; [reflexivity|congruence].
    + exists d, c. split; [exact Hin|].
      destruct Hbad as [(m & Hm & Hne)|(c2 & [[= <- <-]|Hin2] & Hne)].
      * left. exists m. rewrite dict_find_dict_set.
        destruct (Z.eqb_spec dev d) as [<-|?]; [congruence|tauto].
      * left. exists (length chunks).
        rewrite dict_find_dict_set, Z.eqb_refl. tauto.
      * right. exists c2. tauto.
Qed.

Lemma _count_chunks_flat {V} (dist_args : list (arg_key * _DistributedArray V))
      (acc : result (dict nat)) :
  foldl (fun acc (kd : arg_key * _DistributedArray V) =>
           foldl count_step acc (_chunks_map kd.2)) acc dist_args =
  foldl count_step acc (operand_entries dist_args).
Proof.
  revert acc. induction dist_args as [|[k d] rest IH]; intros acc;
    [reflexivity|].
  unfold operand_entries. cbn [foldl flat_map snd]. rewrite foldl_app.
  apply IH.
Qed.

Lemma _count_chunks_on_devices_fold {V}
      (dist_args : list (arg_key * _DistributedArray V)) :
  _count_chunks_on_devices dist_args =
  foldl count_step (Ok []) (operand_entries dist_args).
Proof.
  rewrite <- _count_chunks_flat. unfold _count_chunks_on_devices.
  generalize (Ok [] : result (dict nat)).
  induction dist_args as [|[k d] rest IH]; intros acc; [reflexivity|].
  cbn [foldl snd]. rewrite <- IH. reflexivity.
Qed.

(** X15. [_count_chunks_on_devices] over the entries [(dev, chunks)] of
    the chunk maps of the operands: when every two entries for the same
    device have the same number of chunks, it returns the counts, which
    give for each entry's device the number of its chunks and have no other
    device; when two entries for one device differ in their number of
    chunks, it raises [RuntimeError]. *)
Theorem X15_count_chunks_on_devices {V}
        (dist_args : list (arg_key * _DistributedArray V)) :
  ((forall d c1 c2, In (d, c1) (operand_entries dist_args) ->
                    In (d, c2) (operand_entries dist_args) ->
                    length c1 = length c2) ->
   exists counts,
     _count_chunks_on_devices dist_args = Ok counts /\
     (forall d c, In (d, c) (operand_entries dist_args) ->
                  dict_find counts d = Some (length c)) /\
     (forall d, dict_mem counts d = true ->
                In d (map fst (operand_entries dist_args)))) /\
  ((exists d c1 c2, In (d, c1) (operand_entries dist_args) /\
                    In (d, c2) (operand_entries dist_args) /\
                    length c1 <> length c2) ->
   _count_chunks_on_devices dist_args = Raise RuntimeError).
Proof.
  rewrite _count_chunks_on_devices_fold. split.
  - intros Hsame.
    destruct (count_fold_ok [] (operand_entries dist_args))
      as (counts & Hrun & _ & Hall & Hkeys).
    + intros d c n _ Hn. discriminate Hn.
    + exact Hsame.
    + exists counts. split; [exact Hrun|]. split; [exact Hall|].
      intros d Hd. destruct (Hkeys d Hd) as [H|H]; [discriminate H|exact H].
  - intros (d & c1 & c2 & H1 & H2 & Hne). apply count_fold_raise.
    exists d, c2. split; [exact H2|]. right. exists c1. tauto.
Qed.

Lemma X15_count_chunks_on_devices_witness :
  (exists counts,
     _count_chunks_on_devices [(KInt 0, operand_x); (KInt 1, operand_y)] =
       Ok counts /\
     (forall d c,
        In (d, c) (operand_entries [(KInt 0, operand_x); (KInt 1, operand_y)]) ->
        dict_find counts d = Some (length c)) /\
     (forall d, dict_mem counts d = true ->
                In d (map fst (operand_entries
                                 [(KInt 0, operand_x); (KInt 1, operand_y)])))) /\
  _count_chunks_on_devices
    [(KInt 0, operand_x);
     (KInt 1, DistributedArray [4] [(0, [])] _REPLICA_MODE [0])] =
  Raise RuntimeError.
Proof.
  split.
  - apply (proj1 (X15_count_chunks_on_devices
                    [(KInt 0, operand_x); (KInt 1, operand_y)])).
    assert (Hone : Forall (fun e : Z * list _Chunk => length e.2 = 1%nat)
                          (operand_entries
                             [(KInt 0, operand_x); (KInt 1, operand_y)]))
      by (repeat constructor).
    rewrite Forall_forall in Hone. intros d c1 c2 H1 H2.
    apply list_elem_of_In, Hone in H1. apply list_elem_of_In, Hone in H2.
    cbn [snd] in H1, H2. congruence.
  - apply (proj2 (X15_count_chunks_on_devices
                    [(KInt 0, operand_x);
                     (KInt 1, DistributedArray [4] [(0, [])] _REPLICA_MODE [0])])).
    eexists 0, _, []. split; [left; reflexivity|].
    split; [right; right; left; reflexivity|]. discriminate.
Defined.

(** * The index map of the array that distributed_array builds *)

Lemma dict_set_keys {A} (d : dict A) (k : Z) (v : A) :
  map fst (dict_set d k v) =
  if dict_mem d k then map fst d else map fst d ++ [k].
Proof.
  unfold dict_mem. induction d as [|[k0 v0] d IH]; cbn [dict_set dict_find map fst app].
  - reflexivity.
  - destruct (Z.eqb_spec k0 k) as [->|Hne]; [reflexivity|].
    cbn [map fst]. rewrite IH. destruct (dict_find d k); reflexivity.
Qed.

Lemma dict_mem_In {A} (d : dict A) (k : Z) :
  dict_mem d k = true <-> In k (map fst d).
Proof.
  unfold dict_mem. induction d as [|[k0 v0] d IH]; cbn [dict_find map fst In].
  - split; [discriminate|contradiction].
  - destruct (Z.eqb_spec k0 k) as [->|Hne]; [tauto|].
    rewrite IH. split; [tauto|]. intros [H|H]; [contradiction|exact H].
Qed.

Lemma dict_set_NoDup {A} (d : dict A) (k : Z) (v : A) :
  NoDup (map fst d) -> NoDup (map fst (dict_set d k v)).
Proof.
  intros Hnd. rewrite dict_set_keys. destruct (dict_mem d k) eqn:E;
    [exact Hnd|].
  apply NoDup_app. split; [exact Hnd|]. split; [|apply NoDup_singleton].
  intros x Hx Hk. apply list_elem_of_In in Hx, Hk. destruct Hk as [<-|[]].
  apply dict_mem_In in Hx. congruence.
Qed.

Lemma normalize_index_map_NoDup (shape : list Z) (index_map : dict idxs_arg)
      (acc nim : dict (list index)) :
  NoDup (map fst acc) ->
  normalize_index_map shape index_map acc = Ok nim -> NoDup (map fst nim).
Proof.
  revert acc. induction index_map as [|[dev idxs] rest IH]; intros acc Hnd;
    cbn [normalize_index_map].
  - intros [= <-]. exact Hnd.
  - destruct (mapM _ _) as [converted|]; cbn [mbind result_bind];
      [|discriminate].
    destruct (mapM _ converted) as [keyed|]; cbn [mbind result_bind];
      [|discriminate].
    apply IH. apply dict_set_NoDup, Hnd.
Qed.

Lemma foldl_dict_set_fresh {A} (acc l : dict A) :
  NoDup (map fst (acc ++ l)) ->
  foldl (fun m (kv : Z * A) => dict_set m kv.1 kv.2) acc l = acc ++ l.
Proof.
  revert acc. induction l as [|[k v] l IH]; intros acc Hnd.
  - rewrite app_nil_r. reflexivity.
  - cbn [foldl fst snd]. rewrite dict_set_fresh.
    + rewrite IH; rewrite <- app_assoc; [reflexivity|exact Hnd].
    + rewrite map_app in Hnd. apply NoDup_app in Hnd.
      destruct Hnd as (_ & Hd & _). intros Hin.
      apply (Hd k); [apply list_elem_of_In; exact Hin|left].
Qed.

Section BuiltIndexMap.

Context {V : Type} `{!Dtype V} `{!Runtime V}.

(** The index map of a chunks map. *)
Definition indices_of (cm : dict (list _Chunk)) : dict (list index) :=
  map (fun '(dev, chunks) => (dev, map chunk_index chunks)) cm.

Lemma indices_of_dict_set (cm : dict (list _Chunk)) (dev : Z)
      (chunks : list _Chunk) :
  indices_of (dict_set cm dev chunks) =
  dict_set (indices_of cm) dev (map chunk_index chunks).
Proof.
  induction cm as [|[k v] cm IH]; cbn [dict_set indices_of map]; [reflexivity|].
  destruct (k =? dev); cbn [map]; [reflexivity|].
  fold (indices_of cm). fold (indices_of (dict_set cm dev chunks)).
  rewrite IH. reflexivity.
Qed.

Lemma make_chunk_index (arr : array) (mode_obj : _Mode V) (dev : Z)
      (idx : index) (σ σ' : store V) (chunk : _Chunk) :
  make_chunk arr mode_obj dev idx σ = (Ok chunk, σ') ->
  chunk_index chunk = idx.
Proof.
  unfold make_chunk. intros Hrun.
  apply bind_Ok_inv in Hrun. destruct Hrun as (part & σ1 & _ & Hrun).
  apply bind_Ok_inv in Hrun. destruct Hrun as (data & σ2 & _ & Hrun).
  apply bind_Ok_inv in Hrun. destruct Hrun as (u & σ3 & _ & Hrun).
  injection Hrun as <- _. reflexivity.
Qed.

Lemma forM_make_chunk_index (arr : array) (mode_obj : _Mode V) (dev : Z)
      (idxs : list index) (σ σ' : store V) (chunks : list _Chunk) :
  forM (make_chunk arr mode_obj dev) idxs σ = (Ok chunks, σ') ->
  map chunk_index chunks = idxs.
Proof.
  revert σ σ' chunks. induction idxs as [|idx idxs IH]; intros σ σ' chunks;
    cbn [forM].
  - intros [= <- _]. reflexivity.
  - intros Hrun.
    apply bind_Ok_inv in Hrun. destruct Hrun as (chunk & σ1 & Hc & Hrun).
    apply bind_Ok_inv in Hrun. destruct Hrun as (rest & σ2 & Hrest & Hrun).
    injection Hrun as <- _. cbn [map].
    rewrite (make_chunk_index _ _ _ _ _ _ _ Hc), (IH _ _ _ Hrest). reflexivity.
Qed.

Lemma make_chunks_indices (arr : array) (mode_obj : _Mode V)
      (nim : dict (list index)) (acc cm : dict (list _Chunk))
      (σ σ' : store V) :
  foldM (fun chunks_map '(dev, idxs) =>
           chunks ← forM (make_chunk arr mode_obj dev) idxs;
           mret (dict_set chunks_map dev chunks))
        acc nim σ = (Ok cm, σ') ->
  indices_of cm =
  foldl (fun m (kv : Z * list index) => dict_set m kv.1 kv.2)
        (indices_of acc) nim.
Proof.
  revert acc σ σ'. induction nim as [|[dev idxs] nim IH]; intros acc σ σ';
    cbn [foldM foldl].
  - intros [= <- _]. reflexivity.
  - intros Hrun.
    apply bind_Ok_inv in Hrun. destruct Hrun as (acc' & σ1 & Hstep & Hrun).
    apply bind_Ok_inv in Hstep. destruct Hstep as (chunks & σ2 & Hc & Hstep).
    injection Hstep as <- <-.
    rewrite (IH _ _ _ Hrun), indices_of_dict_set.
    rewrite (forM_make_chunk_index _ _ _ _ _ _ _ Hc). reflexivity.
Qed.

(** What [distributed_array] returns has the normalised index map as its
    [index_map]. *)
Lemma distributed_array_index_map (arr : array_like V)
      (index_map0 : dict idxs_arg) (name : string) (comms : option (list Z))
      (σ σ' : store V) (d : _DistributedArray V) :
  distributed_array arr index_map0 name comms σ = (Ok d, σ') ->
  normalize_index_map (da_shape d) index_map0 [] = Ok (index_map d) /\
  NoDup (map fst (index_map d)).
Proof.
  unfold distributed_array. intros Hrun.
  destruct (str_find _MODES name) as [mode_obj|]; [|discriminate].
  apply bind_Ok_inv in Hrun. destruct Hrun as (a & σ1 & _ & Hrun).
  apply bind_Ok_inv in Hrun. destruct Hrun as (x & σ2 & _ & Hrun).
  apply bind_Ok_inv in Hrun. destruct Hrun as (nim & σ3 & Hnim & Hrun).
  apply bind_Ok_inv in Hrun. destruct Hrun as (cm & σ4 & Hcm & Hrun).
  unfold lift in Hrun, Hnim.
  apply (f_equal fst) in Hrun, Hnim. cbn [fst] in Hrun, Hnim.
  apply _DistributedArray_new_mode in Hrun. destruct Hrun as (_ & Hs & Hc).
  pose proof (normalize_index_map_NoDup _ _ [] nim (NoDup_nil_2 (A:=Z)) Hnim) as Hnd.
  unfold make_chunks in Hcm. apply make_chunks_indices in Hcm.
  rewrite foldl_dict_set_fresh in Hcm by exact Hnd. cbn [indices_of map app] in Hcm.
  assert (Him : index_map d = nim).
  { unfold index_map. rewrite Hc. exact Hcm. }
  rewrite Hs, Him. split; [exact Hnim|exact Hnd].
Qed.

(** An entry of the index map of the array and the entry of the map given
    that it comes from: the same device, and the indices given, each
    converted to slices that select what it selects, in some order. *)
Definition entry_of (shape : list Z) (given : Z * idxs_arg)
           (got : Z * list index) : Prop :=
  got.1 = given.1 /\
  exists converted,
    Forall2 (converts shape) (idxs_list given.2) converted /\
    Permutation got.2 converted.

Lemma normalize_index_map_entries (shape : list Z)
      (index_map0 : dict idxs_arg) (acc : dict (list index)) :
  Forall (fun n => 0 <= n) shape ->
  NoDup (map fst acc ++ map fst index_map0) ->
  Forall (valid_chunk_idx shape) (all_indices index_map0) ->
  exists nim,
    normalize_index_map shape index_map0 acc = Ok (acc ++ nim) /\
    Forall2 (entry_of shape) index_map0 nim.
Proof.
  intros Hs. revert acc.
  induction index_map0 as [|[dev idxs] index_map0 IH]; intros acc Hnd Hv.
  - exists []. simpl. rewrite app_nil_r. split; [reflexivity|constructor].
  - unfold all_indices in Hv. simpl in Hv. apply Forall_app in Hv.
    destruct Hv as [Hv1 Hv2]. fold (all_indices index_map0) in Hv2.
    destruct (mapM_Forall2 (_convert_chunk_idx_to_slices shape) (converts shape)
                (idxs_list idxs)) as (conv & Hconv & Hrel).
    { eapply Forall_impl; [exact Hv1|]. intros idx Hi. simpl in Hi.
      destruct (_convert_chunk_idx_to_slices_valid shape idx Hs Hi)
        as (idx' & H1 & H2 & H3 & H4 & H5).
      exists idx'. split; [exact H1|]. split; [|exact H5].
      split; [exact H2|]. split; [exact H3|exact H4]. }
    assert (Hgood : Forall (good_index shape) conv).
    { clear -Hrel. induction Hrel as [|x y l ys [Hg _] _ IH'];
        constructor; assumption. }
    destruct (mapM_Forall2 (fun slices => k ← sort_key shape slices; Ok (k, slices))
                (fun slices ks => ks.2 = slices) conv) as (keyed & Hkeyed & Hk).
    { eapply Forall_impl; [exact Hgood|]. intros idx' Hg. simpl.
      destruct (sort_key_good shape idx' Hg) as [k Hk]. exists (k, idx').
      rewrite Hk. split; reflexivity. }
    assert (Hsnd : map snd keyed = conv).
    { clear -Hk. induction Hk as [|x y l ys Hxy _ IH']; simpl; congruence. }
    simpl in Hnd.
    assert (Hfresh : ~ In dev (map fst acc)).
    { apply NoDup_app in Hnd. destruct Hnd as (_ & Hd & _).
      intros Hin. apply (Hd dev); [apply list_elem_of_In; exact Hin|left]. }
    destruct (IH (acc ++ [(dev, sort_by_key key_ltb keyed)]))
      as (nim & Hn1 & Hn2).
    { rewrite map_app. simpl. rewrite <- app_assoc. exact Hnd. }
    { exact Hv2. }
    exists ((dev, sort_by_key key_ltb keyed) :: nim). split.
    + cbn [normalize_index_map]. fold (idxs_list idxs).
      rewrite Hconv. cbn [mbind result_bind]. rewrite Hkeyed.
      cbn [mbind result_bind].
      rewrite dict_set_fresh by exact Hfresh. rewrite Hn1, <- app_assoc.
      reflexivity.
    + constructor; [|exact Hn2]. split; [reflexivity|].
      exists conv. cbn [fst snd]. split; [exact Hrel|].
      rewrite sort_by_key_perm, Hsnd. reflexivity.
Qed.

(** X16. The [index_map] property of the array that [distributed_array]
    returns, for a well-formed index map (the map as it is when the call
    is made): it has the devices of the map given, in the order given, and
    for each device the indices given for it, in some order, each converted
    to one slice with a positive step per axis that selects exactly the
    coordinates the index given selects. *)
Theorem X16_index_map_of_distributed_array
        (arr : array_like V) (index_map0 : dict idxs_arg) (name : string)
        (comms : option (list Z)) (σ σ' : store V) (d : _DistributedArray V) :
  distributed_array arr index_map0 name comms σ = (Ok d, σ') ->
  Forall (fun n => 0 <= n) (da_shape d) ->
  NoDup (map fst index_map0) ->
  Forall (valid_chunk_idx (da_shape d)) (all_indices index_map0) ->
  map fst (index_map d) = map fst index_map0 /\
  Forall2 (entry_of (da_shape d)) index_map0 (index_map d).
Proof.
  intros Hrun Hs Hnd Hv.
  destruct (distributed_array_index_map _ _ _ _ _ _ _ Hrun) as [Hn _].
  destruct (normalize_index_map_entries (da_shape d) index_map0 [] Hs)
    as (nim & Hnim & Hent); [exact Hnd|exact Hv|].
  cbn [app] in Hnim. rewrite Hn in Hnim. injection Hnim as ->.
  split; [|exact Hent].
  clear -Hent. induction Hent as [|given got l l' [Hk _] _ IH];
    [reflexivity|]. cbn [map]. rewrite Hk, IH. reflexivity.
Qed.

End BuiltIndexMap.

(** An array of four integers, with [2:4] on device 0 and [1:2] and the
    integer 0 on device 1. *)
Lemma X16_index_map_of_distributed_array_witness :
  let im := [(0, IdxOne (ISingle (ISlice (slice2 2 4))));
             (1, IdxList [ISingle (ISlice (slice2 1 2));
                          ISingle (IInt 0)])] in
  exists d σ',
    distributed_array (OtherLike (array1 [1; 2; 3; 4])) im "sum" None [] =
      (Ok d, σ') /\
    map fst (index_map d) = map fst im /\
    Forall2 (entry_of (da_shape d)) im (index_map d).
Proof.
  intros im.
  destruct (distributed_array (OtherLike (array1 [1; 2; 3; 4])) im
                              "sum" None []) as [[d|e] σ'] eqn:Hrun;
    [|exfalso; vm_compute in Hrun; discriminate Hrun].
  exists d, σ'. split; [reflexivity|].
  assert (Hshape : da_shape d = [4]).
  { vm_compute in Hrun. injection Hrun as <- _. reflexivity. }
  apply (X16_index_map_of_distributed_array _ im "sum" None [] σ' d Hrun).
  - rewrite Hshape. repeat constructor; lia.
  - distinct_keys.
  - rewrite Hshape. repeat apply Forall_cons_2; [| | |apply Forall_nil_2].
    + split; [|constructor]. split; [reflexivity|]. exists 2. reflexivity.
    + split; [|constructor]. split; [reflexivity|]. exists 1. reflexivity.
    + split; [|constructor]. simpl. lia.
Defined.

(** * asnumpy of an op-mode array *)

Section OpModeHost.

Context {V : Type} `{!Dtype V} `{!Runtime V}.

Lemma list_eqb_Z_refl (l : list Z) : list_eqb Z.eqb l l = true.
Proof. apply list_eqb_refl. apply Z.eqb_refl. Qed.

(** [func(x1, x2)] for two arrays of one shape. *)
Lemma ufunc2_same_shape (f : V -> V -> V) (x1 x2 : ndarray V) :
  nd_shape x2 = nd_shape x1 ->
  exists r,
    ufunc2 f x1 x2 = Ok r /\ nd_shape r = nd_shape x1 /\
    forall c, in_bounds (nd_shape x1) c = true ->
              nd_item r c = f (nd_item x1 c) (nd_item x2 c).
Proof.
  intros Hs. unfold ufunc2. rewrite Hs, broadcast_shapes_same.
  cbn [mbind result_bind]. eexists. split; [reflexivity|].
  split; [reflexivity|]. intros c Hc. cbn [nd_item].
  rewrite (bcast_id _ _ Hc). reflexivity.
Qed.

(** The loop of [asnumpy] in an op mode over chunks that hold [A] on
    regions that do not overlap, where the host array still has the
    identity wherever a chunk is to be folded in: it ends up with [A] on
    the regions of the chunks, and is not changed elsewhere. *)
Lemma write_chunks_op (op : _OpMode V) (A : ndarray V) (chunks : list _Chunk)
      (σ : store V) (cur : ndarray V) :
  (forall c, in_bounds (nd_shape A) c = true ->
             func op (identity_of op) (nd_item A c) = nd_item A c) ->
  Forall (chunk_holds σ A) chunks ->
  pairwise (index_disjoint (nd_shape A)) (map chunk_index chunks) ->
  nd_shape cur = nd_shape A ->
  (forall c,
     Exists (fun chunk => index_mem (nd_shape A) (chunk_index chunk) c = true)
            chunks ->
     nd_item cur c = identity_of op) ->
  exists R us,
    forM (write_chunk (Some op) (Array (-1) (length σ) [])) chunks (σ ++ [cur]) =
      (Ok us, σ ++ [R]) /\
    nd_shape R = nd_shape A /\
    (forall c,
       Exists (fun chunk => index_mem (nd_shape A) (chunk_index chunk) c = true)
              chunks ->
       nd_item R c = nd_item A c) /\
    (forall c,
       ~ Exists (fun chunk => index_mem (nd_shape A) (chunk_index chunk) c = true)
                chunks ->
       nd_item R c = nd_item cur c).
Proof.
  intros Hid Hall. revert cur.
  induction Hall as [|chunk chunks Hc Hall IH]; intros cur Hdis Hshape Hcur.
  - exists cur, []. split; [reflexivity|]. split; [exact Hshape|]. split.
    + intros c Hex. inversion Hex.
    + reflexivity.
  - destruct Hc as (Hv & Hu & Hl & Hp & v & axes & Hb & Hax & Hvs & Hitems).
    cbn [map pairwise] in Hdis. destruct Hdis as [Hdis1 Hdis].
    pose proof (axes_of_pos _ _ _ Hp Hax) as Hpos.
    pose proof (lookup_lt_Some _ _ _ Hb) as Hlt.
    set (np := Array (-1) (length σ) []).
    assert (Haxc : axes_of (nd_shape cur) (chunk_index chunk) = Ok axes)
      by (rewrite Hshape; exact Hax).
    pose proof (getitem_ok cur _ axes Haxc) as Hget.
    set (x1 := NDArray (view_shape axes)
                       (fun c => nd_item cur (to_base axes c))) in *.
    destruct (ufunc2_same_shape (func op) x1 v Hvs) as (r & Hr & Hrs & Hri).
    cbn [x1 nd_shape nd_item] in Hrs, Hri.
    destruct (setitem_same_shape cur (chunk_index chunk) r axes Haxc Hpos Hrs)
      as (cur' & Hset & Hshape' & Hitem').
    assert (Hhost : forall x : ndarray V, (σ ++ [x]) !! length σ = Some x).
    { intros x. rewrite lookup_app_r by lia. rewrite Nat.sub_diag.
      reflexivity. }
    assert (Hstep : write_chunk (Some op) np chunk (σ ++ [cur]) =
                    (Ok tt, σ ++ [cur'])).
    { unfold write_chunk.
      assert (Hsub : subscript np (chunk_index chunk) (σ ++ [cur]) =
                     (Ok (Array (-1) (length σ) [chunk_index chunk]), σ ++ [cur])).
      { apply (subscript_run np _ _ cur cur x1);
          [apply Hhost|reflexivity|exact Hget]. }
      rewrite (bind_run _ _ _ _ _ Hsub).
      assert (Hl1 : load (Array (-1) (length σ) [chunk_index chunk])
                         (σ ++ [cur]) = (Ok x1, σ ++ [cur])).
      { apply (load_run _ _ cur x1); [apply Hhost|].
        cbn [arr_view through]. rewrite Hget. reflexivity. }
      rewrite (bind_run _ _ _ _ _ Hl1).
      assert (Hl2 : load (chunk_data chunk) (σ ++ [cur]) = (Ok v, σ ++ [cur])).
      { apply (load_run _ _ v v).
        - rewrite lookup_app_l by lia. exact Hb.
        - rewrite Hv. reflexivity. }
      rewrite (bind_run _ _ _ _ _ Hl2).
      rewrite (bind_run _ _ _ _ _ (lift_run _ _ _ Hr)).
      rewrite Hrs. cbn [x1 nd_shape]. rewrite list_eqb_Z_refl. cbn [negb].
      unfold assign. cbn [np arr_buf arr_view update_through].
      rewrite Hhost, Hset. rewrite insert_app_r_alt by lia.
      rewrite Nat.sub_diag. reflexivity. }
    assert (Hhead : forall c,
               index_mem (nd_shape A) (chunk_index chunk) c = true ->
               nd_item cur' c = nd_item A c).
    { intros c Hm. pose proof Hm as Hm'. unfold index_mem in Hm.
      rewrite Hax in Hm. rewrite Hitem', Hm.
      pose proof (to_local_in_bounds axes c Hpos Hm) as Hloc.
      rewrite (Hri _ Hloc), (Hitems _ Hloc).
      rewrite (to_base_to_local axes c Hpos Hm).
      rewrite (Hcur c) by (left; exact Hm').
      apply Hid. apply (axes_in_bounds _ _ _ _ Hax Hpos Hm). }
    assert (Hrest : forall c,
               index_mem (nd_shape A) (chunk_index chunk) c = false ->
               nd_item cur' c = nd_item cur c).
    { intros c Hm. unfold index_mem in Hm. rewrite Hax in Hm.
      rewrite Hitem', Hm. reflexivity. }
    assert (Hapart : forall c,
               Exists (fun chunk' =>
                         index_mem (nd_shape A) (chunk_index chunk') c = true)
                      chunks ->
               index_mem (nd_shape A) (chunk_index chunk) c = false).
    { intros c Hex. apply Exists_exists in Hex.
      destruct Hex as (chunk' & Hin & Hm').
      destruct (index_mem (nd_shape A) (chunk_index chunk) c) eqn:E;
        [|reflexivity].
      exfalso. rewrite Forall_forall in Hdis1.
      apply (Hdis1 (chunk_index chunk')
                   ltac:(apply list_elem_of_fmap_2; exact Hin) c).
      split; assumption. }
    destruct (IH cur' Hdis ltac:(congruence))
      as (R & us & Hrun & HRs & HR1 & HR2).
    { intros c Hex. rewrite (Hrest c (Hapart c Hex)). apply Hcur.
      right. exact Hex. }
    exists R, (tt :: us). split.
    { cbn [forM]. rewrite (bind_run _ _ _ _ _ Hstep), (bind_run _ _ _ _ _ Hrun).
      reflexivity. }
    split; [exact HRs|]. split.
    + intros c Hex.
      destruct (classic_exists_rest chunks c A) as [Hin|Hout].
      * apply HR1, Hin.
      * apply Exists_cons in Hex. destruct Hex as [Hm|Hex]; [|contradiction].
        rewrite (HR2 c Hout). apply Hhead, Hm.
    + intros c Hout. rewrite HR2.
      * apply Hrest.
        destruct (index_mem (nd_shape A) (chunk_index chunk) c) eqn:E;
          [|reflexivity].
        exfalso. apply Hout. left. exact E.
      * intros Hex. apply Hout. right. exact Hex.
Qed.

(** [asnumpy] of an op-mode array whose chunks hold [A] on regions that do
    not overlap. *)
Lemma asnumpy_op (d : _DistributedArray V) (op : _OpMode V) (A : ndarray V)
      (σ : store V) :
  _mode d = Some op ->
  da_shape d = nd_shape A ->
  nd_shape A <> [] ->
  (forall c, in_bounds (nd_shape A) c = true ->
             func op (identity_of op) (nd_item A c) = nd_item A c) ->
  Forall (chunk_holds σ A) (flatten (_chunks_map d)) ->
  pairwise (index_disjoint (nd_shape A))
           (map chunk_index (flatten (_chunks_map d))) ->
  exists R,
    asnumpy d σ = (Ok (Array (-1) (length σ) [], d), σ ++ [R]) /\
    nd_shape R = nd_shape A /\
    (forall c,
       Exists (fun chunk => index_mem (nd_shape A) (chunk_index chunk) c = true)
              (flatten (_chunks_map d)) ->
       nd_item R c = nd_item A c) /\
    (forall c,
       ~ Exists (fun chunk => index_mem (nd_shape A) (chunk_index chunk) c = true)
                (flatten (_chunks_map d)) ->
       nd_item R c = identity_of op).
Proof.
  intros Hmode Hshape Hnd Hid Hall Hdis. destruct d as [shape cm mode comms].
  cbn [_mode da_shape _chunks_map] in *. subst mode shape.
  unfold asnumpy. cbn [_mode _chunks_map da_shape _comms].
  assert (Hdrain : map_chunks (fun chunk => _apply_updates chunk (Some op)) cm σ =
                   (Ok cm, σ)).
  { apply map_chunks_same. eapply Forall_impl; [exact Hall|].
    intros chunk (_ & Hu & _). apply _apply_updates_none, Hu. }
  rewrite (bind_run _ _ _ _ _ Hdrain).
  assert (Hnew : new_host_array (Some op) (nd_shape A) σ =
                 (Ok (Array (-1) (length σ) []),
                  σ ++ [full (nd_shape A) (identity_of op)])).
  { unfold new_host_array, atleast_1d, alloc. cbn [full nd_shape].
    destruct (nd_shape A) eqn:E; [contradiction|reflexivity]. }
  rewrite (bind_run _ _ _ _ _ Hnew).
  set (np0 := full (nd_shape A) (identity_of op)).
  destruct (write_chunks_op op A (flatten cm) σ np0 Hid Hall Hdis eq_refl)
    as (R & us & Hrun & HRs & HR1 & HR2).
  { intros c _. reflexivity. }
  rewrite (bind_run _ _ _ _ _ Hrun).
  exists R. split; [reflexivity|]. split; [exact HRs|].
  split; [exact HR1|]. intros c Hout. rewrite (HR2 c Hout). reflexivity.
Qed.

(** X17. For a host array [A] of at least one dimension, an op mode whose
    identity is neutral on the elements of [A], and a well-formed index map
    whose regions partition the shape of [A], [distributed_array] in that
    mode followed by [asnumpy] returns an array equal to [A]. *)
Theorem X17_op_mode_round_trip (arr : array_like V) (A : ndarray V)
        (index_map0 : dict idxs_arg) (name : string) (op : _OpMode V)
        (comms : option (list Z)) (σ : store V) :
  str_find _MODES name = Some (Some op) ->
  (forall c, in_bounds (nd_shape A) c = true ->
             func op (identity_of op) (nd_item A c) = nd_item A c) ->
  array_like_value σ arr A ->
  nd_shape A <> [] ->
  Forall (fun n => 0 <= n) (nd_shape A) ->
  NoDup (map fst index_map0) ->
  Forall (valid_chunk_idx (nd_shape A)) (all_indices index_map0) ->
  covers (nd_shape A) index_map0 ->
  regions_disjoint (nd_shape A) index_map0 ->
  has_comms comms = true \/ nccl_available = true ->
  exists d d' np σ1 σ2 R,
    distributed_array arr index_map0 name comms σ = (Ok d, σ1) /\
    asnumpy d σ1 = (Ok (np, d'), σ2) /\
    load np σ2 = (Ok R, σ2) /\
    nd_eq R A.
Proof.
  intros Hname Hid Hval Hdim Hshape Hnd Hvalid Hcov Hdis Hcomms.
  destruct (distributed_array_run arr A index_map0 name (Some op) comms σ)
    as (cm & cs & σ1 & converted & Hrun & Hcs & Hh & Hconv & Hperm);
    try assumption; [intros _; exact Hdis|].
  assert (Hapart : pairwise (index_disjoint (nd_shape A))
                            (map chunk_index (flatten cm))).
  { eapply pairwise_perm; [apply index_disjoint_sym|symmetry; exact Hperm|].
    eapply converted_disjoint; eassumption. }
  destruct (asnumpy_op (DistributedArray (nd_shape A) cm (Some op) cs) op A σ1)
    as (R & Has & HRs & HR & _); try assumption; try reflexivity.
  eexists _, _, _, σ1, _, R.
  split; [exact Hrun|]. split; [exact Has|]. split.
  - apply (load_run _ _ R R); [|reflexivity]. cbn [arr_buf].
    rewrite lookup_app_r by lia. rewrite Nat.sub_diag. reflexivity.
  - split; [exact HRs|]. intros c Hc. apply HR. cbn [_chunks_map].
    eapply covered_by_chunks; [exact Hconv|exact Hperm|].
    apply Hcov. rewrite <- HRs. exact Hc.
Qed.

End OpModeHost.

Lemma X17_op_mode_round_trip_witness :
  exists d d' np σ1 σ2 R,
    distributed_array (OtherLike array_4x4) rows_index_map "prod" None [] =
      (Ok d, σ1) /\
    asnumpy d σ1 = (Ok (np, d'), σ2) /\
    load np σ2 = (Ok R, σ2) /\
    nd_eq R array_4x4.
Proof.
  apply (X17_op_mode_round_trip (OtherLike array_4x4) array_4x4
           rows_index_map "prod" (OpMode "multiply" multiply false one)
           None []).
  - reflexivity.
  - intros c _. cbn [func identity_of multiply one int_dtype].
    destruct (nd_item array_4x4 c); reflexivity.
  - reflexivity.
  - discriminate.
  - unfold array_4x4. nonneg_shape.
  - distinct_keys.
  - exact rows_index_map_valid.
  - exact rows_index_map_covers.
  - exact rows_index_map_disjoint.
  - right. reflexivity.
Defined.

(** * A change of mode over a partition *)

Section ChangeModePartition.

Context {V : Type} `{!Dtype V} `{!Runtime V}.

Lemma forM_noop {A B} (f : A -> M V B) (l : list A) (σ : store V) :
  (forall x, In x l -> exists y, f x σ = (Ok y, σ)) ->
  exists ys, forM f l σ = (Ok ys, σ).
Proof.
  induction l as [|x l IH]; intros Hf.
  - exists []. reflexivity.
  - destruct (Hf x ltac:(left; reflexivity)) as (y & Hy).
    destruct IH as (ys & Hys); [intros x' Hx'; apply Hf; right; exact Hx'|].
    exists (y :: ys). cbn [forM].
    rewrite (bind_run _ _ _ _ _ Hy), (bind_run _ _ _ _ _ Hys). reflexivity.
Qed.

(** Chunks that hold [A] on regions that do not overlap have no
    intersections. *)
Lemma no_intersections (A : ndarray V) (chunks : list _Chunk) (σ : store V)
      (i j : nat) (ci cj : _Chunk) :
  Forall (fun n => 0 <= n) (nd_shape A) ->
  Forall (chunk_holds σ A) chunks ->
  pairwise (index_disjoint (nd_shape A)) (map chunk_index chunks) ->
  i <> j -> chunks !! i = Some ci -> chunks !! j = Some cj ->
  _index_intersection (chunk_index ci) (chunk_index cj) (nd_shape A) = Ok None.
Proof.
  intros Hshape Hh Hdis Hij Hi Hj. rewrite Forall_forall in Hh.
  apply disjoint_no_intersection; [exact Hshape| | |].
  - eapply chunk_holds_good, Hh, list_elem_of_lookup_2, Hi.
  - eapply chunk_holds_good, Hh, list_elem_of_lookup_2, Hj.
  - apply (pairwise_lookup (index_disjoint (nd_shape A))
             (map chunk_index chunks) i j);
      [apply index_disjoint_sym|exact Hdis|exact Hij| |];
      rewrite list_lookup_fmap; [rewrite Hi|rewrite Hj]; reflexivity.
Qed.

Lemma _replica_mode_chunks_map_run (A : ndarray V) (cm : dict (list _Chunk))
      (m0 : _Mode V) (cs : list Z) (σ : store V) :
  Forall (fun n => 0 <= n) (nd_shape A) ->
  Forall (chunk_holds σ A) (flatten cm) ->
  pairwise (index_disjoint (nd_shape A)) (map chunk_index (flatten cm)) ->
  exists cm' ext,
    _replica_mode_chunks_map (DistributedArray (nd_shape A) cm m0 cs) σ =
      (Ok cm', σ ++ ext) /\
    map chunk_index (flatten cm') = map chunk_index (flatten cm) /\
    Forall (chunk_holds (σ ++ ext) A) (flatten cm').
Proof.
  intros Hshape Hall Hdis.
  set (d := DistributedArray (nd_shape A) cm m0 cs).
  destruct (_copy_chunks_map_run A d σ Hall) as (cm' & ext & Hcopy & Hidx & Hh).
  exists cm', ext. split; [|split; assumption].
  unfold _replica_mode_chunks_map. rewrite (bind_run _ _ _ _ _ Hcopy).
  cbn [d _mode da_shape]. destruct m0 as [op0|]; [|reflexivity].
  apply _all_reduce_intersections_noop.
  - eapply Forall_impl; [exact Hh|]. intros c (_ & Hu & _). exact Hu.
  - intros i j ci cj Hij Hi Hj.
    apply (no_intersections A (flatten cm') (σ ++ ext) i j); try assumption.
    rewrite Hidx. exact Hdis.
Qed.

Lemma _op_mode_chunks_map_run (A : ndarray V) (cm : dict (list _Chunk))
      (m0 : _Mode V) (cs : list Z) (op : _OpMode V) (σ : store V) :
  Forall (fun n => 0 <= n) (nd_shape A) ->
  Forall (chunk_holds σ A) (flatten cm) ->
  pairwise (index_disjoint (nd_shape A)) (map chunk_index (flatten cm)) ->
  exists cm' ext,
    _op_mode_chunks_map (DistributedArray (nd_shape A) cm m0 cs) op σ =
      (Ok cm', σ ++ ext) /\
    map chunk_index (flatten cm') = map chunk_index (flatten cm) /\
    Forall (chunk_holds (σ ++ ext) A) (flatten cm').
Proof.
  intros Hshape Hall Hdis.
  set (d := DistributedArray (nd_shape A) cm m0 cs).
  unfold _op_mode_chunks_map. destruct (mode_is _ _).
  { apply (_copy_chunks_map_run A d σ Hall). }
  destruct (_replica_mode_chunks_map_run A cm m0 cs σ Hshape Hall Hdis)
    as (cm' & ext & Hrep & Hidx & Hh).
  exists cm', ext. split; [|split; assumption].
  fold d in Hrep. rewrite (bind_run _ _ _ _ _ Hrep).
  assert (Hdrain : map_chunks (fun chunk => _apply_updates chunk _REPLICA_MODE)
                              cm' (σ ++ ext) = (Ok cm', σ ++ ext)).
  { apply map_chunks_same. eapply Forall_impl; [exact Hh|].
    intros chunk (_ & Hu & _). apply _apply_updates_none, Hu. }
  rewrite (bind_run _ _ _ _ _ Hdrain).
  set (l := flatten cm').
  destruct (forM_noop
              (fun i =>
                 a_chunk ← lift (list_get l i);
                 forM (fun j =>
                         b_chunk ← lift (list_get l j);
                         _set_identity_on_intersection d (da_shape d)
                           (identity_of op) a_chunk (chunk_index b_chunk))
                      (seq (S i) (length l - S i)))
              (seq 0 (length l)) (σ ++ ext)) as (us & Hus).
  { intros i Hi. apply in_seq in Hi.
    destruct (lookup_lt_is_Some_2 l i ltac:(lia)) as [a_chunk Ha].
    rewrite (bind_run _ _ _ _ _ (list_get_run l i a_chunk _ Ha)).
    apply forM_noop. intros j Hj. apply in_seq in Hj.
    destruct (lookup_lt_is_Some_2 l j ltac:(lia)) as [b_chunk Hb].
    rewrite (bind_run _ _ _ _ _ (list_get_run l j b_chunk _ Hb)).
    exists tt. unfold _set_identity_on_intersection.
    assert (Hnone : _index_intersection (chunk_index a_chunk)
                      (chunk_index b_chunk) (da_shape d) = Ok None).
    { apply (no_intersections A l (σ ++ ext) i j); try assumption; try lia.
      unfold l. rewrite Hidx. exact Hdis. }
    rewrite (bind_run _ _ _ _ _ (lift_run _ _ _ Hnone)). reflexivity. }
  rewrite (bind_run _ _ _ _ _ Hus). reflexivity.
Qed.

(** Two modes of [_MODES] that are the same object are equal. *)
Lemma mode_is_MODES (name1 name2 : string) (m1 m2 : _Mode V) :
  str_find _MODES name1 = Some m1 -> str_find _MODES name2 = Some m2 ->
  mode_is m1 m2 = true -> m1 = m2.
Proof.
  intros H1 H2.
  destruct (str_find_MODES name1 m1 H1)
    as [[_ ->]|[[_ ->]|[[_ ->]|[[_ ->]|[_ ->]]]]];
    destruct (str_find_MODES name2 m2 H2)
      as [[_ ->]|[[_ ->]|[[_ ->]|[[_ ->]|[_ ->]]]]];
    cbn; intros E; (reflexivity || discriminate E).
Qed.

(** [change_mode] on an array in a mode of [_MODES] whose chunks hold [A]
    on regions that do not overlap: the array it returns is in the mode
    asked for and its chunks hold [A] on the same regions. *)
Lemma change_mode_partition_run (A : ndarray V) (cm : dict (list _Chunk))
      (name0 name : string) (m0 mode_obj : _Mode V) (cs : list Z)
      (σ : store V) :
  str_find _MODES name0 = Some m0 ->
  str_find _MODES name = Some mode_obj ->
  Forall (fun n => 0 <= n) (nd_shape A) ->
  (cs <> [] \/ nccl_available = true) ->
  Forall (chunk_holds σ A) (flatten cm) ->
  pairwise (index_disjoint (nd_shape A)) (map chunk_index (flatten cm)) ->
  exists cm' cs' ext,
    change_mode (DistributedArray (nd_shape A) cm m0 cs) name σ =
      (Ok (DistributedArray (nd_shape A) cm' mode_obj cs'), σ ++ ext) /\
    map chunk_index (flatten cm') = map chunk_index (flatten cm) /\
    Forall (chunk_holds (σ ++ ext) A) (flatten cm').
Proof.
  intros Hm0 Hname Hshape Hcs Hall Hdis.
  set (d := DistributedArray (nd_shape A) cm m0 cs).
  unfold change_mode. rewrite Hname. cbn [_mode d].
  destruct (mode_is mode_obj m0) eqn:His.
  - rewrite (mode_is_MODES name name0 mode_obj m0 Hname Hm0 His).
    exists cm, cs, []. rewrite app_nil_r. split; [reflexivity|].
    split; [reflexivity|exact Hall].
  - assert (Hmap : exists cm' ext,
               match mode_obj with
               | Some op_mode => _op_mode_chunks_map d op_mode
               | None => _replica_mode_chunks_map d
               end σ = (Ok cm', σ ++ ext) /\
               map chunk_index (flatten cm') = map chunk_index (flatten cm) /\
               Forall (chunk_holds (σ ++ ext) A) (flatten cm')).
    { destruct mode_obj as [op|].
      - apply _op_mode_chunks_map_run; assumption.
      - apply _replica_mode_chunks_map_run; assumption. }
    destruct Hmap as (cm' & ext & Hmap & Hidx & Hh).
    destruct (_DistributedArray_new_ok (nd_shape A) cm' mode_obj (Some cs))
      as (cs' & Hnew & _).
    { destruct Hcs as [Hcs|Hcs]; [left|right; exact Hcs].
      destruct cs; [contradiction|reflexivity]. }
    exists cm', cs', ext. split; [|split; assumption].
    rewrite (bind_run _ _ _ _ _ Hmap). unfold lift. cbn [da_shape _comms d].
    rewrite Hnew. reflexivity.
Qed.

(** X18. For a host array [A] of at least one dimension and a well-formed
    index map whose regions partition the shape of [A]:
    [distributed_array] in any mode, then [change_mode] to any mode, then
    [asnumpy] returns an array equal to [A], provided that the identity of
    the mode changed to, when it is an op mode, is neutral on the elements
    of [A]. *)
Theorem X18_change_mode_round_trip (arr : array_like V) (A : ndarray V)
        (index_map0 : dict idxs_arg) (name1 name2 : string)
        (m1 m2 : _Mode V) (comms : option (list Z)) (σ : store V) :
  str_find _MODES name1 = Some m1 ->
  str_find _MODES name2 = Some m2 ->
  (forall op, m2 = Some op ->
     forall c, in_bounds (nd_shape A) c = true ->
               func op (identity_of op) (nd_item A c) = nd_item A c) ->
  array_like_value σ arr A ->
  nd_shape A <> [] ->
  Forall (fun n => 0 <= n) (nd_shape A) ->
  NoDup (map fst index_map0) ->
  Forall (valid_chunk_idx (nd_shape A)) (all_indices index_map0) ->
  covers (nd_shape A) index_map0 ->
  regions_disjoint (nd_shape A) index_map0 ->
  has_comms comms = true \/ nccl_available = true ->
  exists d d2 d3 np σ1 σ2 σ3 R,
    distributed_array arr index_map0 name1 comms σ = (Ok d, σ1) /\
    change_mode d name2 σ1 = (Ok d2, σ2) /\
    asnumpy d2 σ2 = (Ok (np, d3), σ3) /\
    load np σ3 = (Ok R, σ3) /\
    nd_eq R A.
Proof.
  intros Hn1 Hn2 Hid Hval Hdim Hshape Hnd Hvalid Hcov Hdis Hcomms.
  destruct (distributed_array_run arr A index_map0 name1 m1 comms σ)
    as (cm & cs & σ1 & converted & Hrun & Hcs & Hh & Hconv & Hperm);
    try assumption; [intros _; exact Hdis|].
  assert (Hapart : pairwise (index_disjoint (nd_shape A))
                            (map chunk_index (flatten cm))).
  { eapply pairwise_perm; [apply index_disjoint_sym|symmetry; exact Hperm|].
    eapply converted_disjoint; eassumption. }
  destruct (change_mode_partition_run A cm name1 name2 m1 m2 cs σ1)
    as (cm' & cs' & ext & Hchange & Hidx & Hh'); try assumption.
  set (d2 := DistributedArray (nd_shape A) cm' m2 cs') in *.
  assert (Has : exists R,
             asnumpy d2 (σ1 ++ ext) =
               (Ok (Array (-1) (length (σ1 ++ ext)) [], d2), (σ1 ++ ext) ++ [R]) /\
             nd_shape R = nd_shape A /\
             forall c,
               Exists (fun chunk =>
                         index_mem (nd_shape A) (chunk_index chunk) c = true)
                      (flatten cm') ->
               nd_item R c = nd_item A c).
  { destruct m2 as [op|].
    - destruct (asnumpy_op d2 op A (σ1 ++ ext))
        as (R & Has & HRs & HR & _); try assumption; try reflexivity.
      + apply Hid. reflexivity.
      + cbn [d2 _chunks_map]. rewrite Hidx. exact Hapart.
      + exists R. split; [exact Has|]. split; [exact HRs|exact HR].
    - apply (asnumpy_replica d2 A (σ1 ++ ext)); try assumption; reflexivity. }
  destruct Has as (R & Has & HRs & HR).
  eexists _, d2, _, _, σ1, _, _, R.
  split; [exact Hrun|]. split; [exact Hchange|]. split; [exact Has|]. split.
  - apply (load_run _ _ R R); [|reflexivity]. cbn [arr_buf].
    rewrite lookup_app_r by lia. rewrite Nat.sub_diag. reflexivity.
  - split; [exact HRs|]. intros c Hc. apply HR.
    eapply covered_by_chunks; [exact Hconv|rewrite Hidx; exact Hperm|].
    apply Hcov. rewrite <- HRs. exact Hc.
Qed.

End ChangeModePartition.

Lemma X18_change_mode_round_trip_witness :
  exists d d2 d3 np σ1 σ2 σ3 R,
    distributed_array (OtherLike array_4x4) rows_index_map "replica" None [] =
      (Ok d, σ1) /\
    change_mode d "sum" σ1 = (Ok d2, σ2) /\
    asnumpy d2 σ2 = (Ok (np, d3), σ3) /\
    load np σ3 = (Ok R, σ3) /\
    nd_eq R array_4x4.
Proof.
  apply (X18_change_mode_round_trip (OtherLike array_4x4) array_4x4
           rows_index_map "replica" "sum" _REPLICA_MODE
           (Some (OpMode "add" add false zero)) None []).
  - reflexivity.
  - reflexivity.
  - intros op [= <-] c _. reflexivity.
  - reflexivity.
  - discriminate.
  - unfold array_4x4. nonneg_shape.
  - distinct_keys.
  - exact rows_index_map_valid.
  - exact rows_index_map_covers.
  - exact rows_index_map_disjoint.
  - right. reflexivity.
Defined.

(** * Operands that a kernel call refuses *)

Section KernelOperands.

Context {V : Type} `{!Dtype V} `{!Runtime V}.

Lemma list_eqb_Z_eq (l1 l2 : list Z) : list_eqb Z.eqb l1 l2 = true -> l1 = l2.
Proof. apply list_eqb_eq. intros x y. apply Z.eqb_eq. Qed.

(** The first loop of [_execute_kernel] over operands of which one has
    another shape or another index map than [self], the ones before it
    being replica-mode arrays that agree with [self]. *)
Lemma collect_args_mismatch (self : _DistributedArray V) (g : nat -> nat)
      (pre : list (operand V)) (d : _DistributedArray V)
      (rest : list (operand V))
      (acc : list (arg_key * _DistributedArray V) * list (arg_key * array))
      (σ : store V) :
  Forall (fun arg => exists x,
            arg = ODist x /\ da_shape x = da_shape self /\
            index_map_eqb (index_map x) (index_map self) = true /\
            _mode x = _REPLICA_MODE) pre ->
  (da_shape d <> da_shape self \/
   index_map_eqb (index_map d) (index_map self) = false) ->
  foldM (fun '(distributed_arrays, regular_arrays) '(i, arg) =>
           shape ← operand_shape arg;
           if negb (list_eqb Z.eqb shape (da_shape self))
           then raise RuntimeError else
           match arg with
           | ODist d =>
               if negb (index_map_eqb (index_map d) (index_map self))
               then raise RuntimeError else
               d' ← to_replica_mode d;
               mret (distributed_arrays ++ [(KInt i, d')], regular_arrays)
           | OCupy a =>
               mret (distributed_arrays, regular_arrays ++ [(KInt i, a)])
           | OOther _ => mret (distributed_arrays, regular_arrays)
           end)
        acc (imap (fun i arg => (g i, arg)) (pre ++ ODist d :: rest)) σ =
  (Raise RuntimeError, σ).
Proof.
  intros Hpre Hbad. revert g acc.
  induction Hpre as [|arg pre (x & -> & Hs & Hi & Hm) Hpre IH];
    intros g [dist reg]; cbn [app imap foldM].
  - apply bind_raise. cbn [operand_shape].
    rewrite (bind_run _ _ _ _ _ (ret_run _ σ)).
    destruct (list_eqb Z.eqb (da_shape d) (da_shape self)) eqn:E;
      cbn [negb]; [|reflexivity].
    destruct Hbad as [Hbad|Hbad]; [apply list_eqb_Z_eq in E; contradiction|].
    rewrite Hbad. reflexivity.
  - match goal with
    | |- (?step ≫= _) σ = _ =>
        assert (Hstep : step σ = (Ok (dist ++ [(KInt (g 0%nat), x)], reg), σ))
    end.
    { cbn [operand_shape]. rewrite (bind_run _ _ _ _ _ (ret_run _ σ)).
      rewrite Hs, list_eqb_Z_refl, Hi. cbn [negb].
      unfold to_replica_mode. rewrite Hm. cbn [mode_is _REPLICA_MODE].
      rewrite (bind_run _ _ _ _ _ (ret_run _ σ)). reflexivity. }
    rewrite (bind_run _ _ _ _ _ Hstep).
    apply (IH (fun i => g (S i))).
Qed.

(** X19. [_execute_kernel] raises [RuntimeError], and leaves the store as
    it is, when a positional operand is a distributed array whose shape or
    whose index map differs from those of [self], the operands before it
    being replica-mode arrays with the shape and the index map of
    [self]. *)
Theorem X19_execute_kernel_mismatch (self : _DistributedArray V)
        (kernel : kernel_fn V) (pre : list (operand V))
        (d : _DistributedArray V) (rest : list (operand V))
        (kwargs : list (string * operand V)) (σ : store V) :
  Forall (fun arg => exists x,
            arg = ODist x /\ da_shape x = da_shape self /\
            index_map_eqb (index_map x) (index_map self) = true /\
            _mode x = _REPLICA_MODE) pre ->
  (da_shape d <> da_shape self \/
   index_map_eqb (index_map d) (index_map self) = false) ->
  _execute_kernel self kernel (pre ++ ODist d :: rest) kwargs σ =
  (Raise RuntimeError, σ).
Proof.
  intros Hpre Hbad. unfold _execute_kernel. apply bind_raise.
  unfold collect_args.
  apply (collect_args_mismatch self (fun i => i) pre d rest ([], []) σ Hpre Hbad).
Qed.

End KernelOperands.

Lemma X19_execute_kernel_mismatch_witness :
  _execute_kernel operand_x sum_of_operands
    ([ODist operand_x] ++
     ODist (DistributedArray [4] (_chunks_map example_self) _REPLICA_MODE [0; 1])
     :: []) [] operands_store =
  (Raise RuntimeError, operands_store).
Proof.
  apply (X19_execute_kernel_mismatch operand_x sum_of_operands
           [ODist operand_x]
           (DistributedArray [4] (_chunks_map example_self) _REPLICA_MODE [0; 1])
           [] [] operands_store).
  - constructor; [|constructor]. exists operand_x.
    repeat split; reflexivity.
  - right. reflexivity.
Defined.

Section KernelWithDeviceArray.

Context {V : Type} `{!Dtype V} `{!Runtime V}.

(** The loop of [_execute_kernel] over the devices, when a [cupy.ndarray]
    is among the operands: the first chunk there is raises. *)
Lemma execute_with_device_array (self x : _DistributedArray V)
      (kernel : kernel_fn V) (regular : list (arg_key * array))
      (cm : dict (list _Chunk)) (args : list (operand V))
      (kwargs : list (string * operand V)) (new_map : dict (list _Chunk))
      (σ : store V) :
  regular <> [] ->
  (forall dev chunks, In (dev, chunks) cm ->
                      dict_find (_chunks_map x) dev = Some chunks) ->
  flatten cm <> [] ->
  foldM (fun '(distributed_arrays, args, kwargs, new_chunks_map)
             '(dev, chunk_count) =>
           '(distributed_arrays, args, kwargs, new_chunks) ←
             foldM (execute_on_chunk self kernel regular dev)
                   (distributed_arrays, args, kwargs, [])
                   (seq 0 chunk_count);
           mret (distributed_arrays, args, kwargs,
                 dict_set new_chunks_map dev new_chunks))
        ([(KInt 0, x)], args, kwargs, new_map) (counts_of cm) σ =
  (Raise RuntimeError, σ).
Proof.
  intros Hreg Hfind. revert new_map.
  induction cm as [|[dev chunks] cm IH]; intros new_map Hne;
    [contradiction|].
  cbn [counts_of map foldM]. fold (counts_of cm).
  destruct chunks as [|chunk chunks].
  - match goal with
    | |- (?step ≫= _) σ = _ =>
        assert (Hstep : step σ =
                        (Ok ([(KInt 0, x)], args, kwargs,
                             dict_set new_map dev []), σ)) by reflexivity
    end.
    rewrite (bind_run _ _ _ _ _ Hstep). apply IH.
    + intros d c Hin. apply Hfind. right. exact Hin.
    + exact Hne.
  - apply bind_raise. cbn [length seq foldM]. apply bind_raise, bind_raise.
    unfold execute_on_chunk. apply bind_raise.
    unfold lift, _prepare_args. cbn [mapM]. unfold chunk_at, dict_get.
    rewrite (Hfind dev (chunk :: chunks) ltac:(left; reflexivity)).
    cbn [mbind result_bind list_get lookup list_lookup].
    destruct regular; [contradiction|reflexivity].
Qed.

(** X20. A kernel call on a replica-mode distributed array and a
    [cupy.ndarray] of its shape computes nothing: when the array has a
    chunk, [_execute_kernel] raises [RuntimeError] at the first one, and
    the store is as before. *)
Theorem X20_execute_kernel_with_device_array (x : _DistributedArray V)
        (kernel : kernel_fn V) (a : array) (v : ndarray V) (σ : store V) :
  _mode x = _REPLICA_MODE ->
  NoDup (map fst (_chunks_map x)) ->
  flatten (_chunks_map x) <> [] ->
  load a σ = (Ok v, σ) -> nd_shape v = da_shape x ->
  _execute_kernel x kernel [ODist x; OCupy a] [] σ = (Raise RuntimeError, σ).
Proof.
  intros Hmode Hnd Hne Hload Hshape. unfold _execute_kernel.
  assert (Hcollect : collect_args x [ODist x; OCupy a] σ =
                     (Ok ([(KInt 0, x)], [(KInt 1, a)]), σ)).
  { unfold collect_args. cbn [imap foldM].
    assert (H0 : (shape ← operand_shape (ODist x);
                  if negb (list_eqb Z.eqb shape (da_shape x))
                  then raise RuntimeError else
                  if negb (index_map_eqb (index_map x) (index_map x))
                  then raise RuntimeError else
                  d' ← to_replica_mode x;
                  mret ([] ++ [(KInt 0, d')], @nil (arg_key * array))) σ =
                 (Ok ([(KInt 0, x)], []), σ)).
    { cbn [operand_shape]. rewrite (bind_run _ _ _ _ _ (ret_run _ σ)).
      rewrite list_eqb_Z_refl, (index_map_eqb_refl x Hnd). cbn [negb].
      unfold to_replica_mode. rewrite Hmode. cbn [mode_is _REPLICA_MODE].
      rewrite (bind_run _ _ _ _ _ (ret_run _ σ)). reflexivity. }
    rewrite (bind_run _ _ _ _ _ H0).
    assert (H1 : (shape ← operand_shape (OCupy a);
                  if negb (list_eqb Z.eqb shape (da_shape x))
                  then raise RuntimeError else
                  mret ([(KInt 0, x)], [] ++ [(KInt 1%nat, a)])) σ =
                 (Ok ([(KInt 0, x)], [(KInt 1, a)]), σ)).
    { assert (Hos : operand_shape (OCupy a) σ = (Ok (nd_shape v), σ)).
      { cbn [operand_shape]. rewrite (bind_run _ _ _ _ _ Hload).
        reflexivity. }
      rewrite (bind_run _ _ _ _ _ Hos).
      rewrite Hshape, list_eqb_Z_refl. reflexivity. }
    rewrite (bind_run _ _ _ _ _ H1). reflexivity. }
  rewrite (bind_run _ _ _ _ _ Hcollect).
  unfold collect_kwargs. cbn [foldM].
  rewrite (bind_run _ _ _ _ _ (ret_run _ σ)).
  assert (Hcount : _count_chunks_on_devices [(KInt 0, x)] =
                   Ok (counts_of (_chunks_map x))).
  { change (_count_chunks_on_devices [(KInt 0, x)])
      with (count_operand (Ok (counts_of [])) (_chunks_map x)).
    apply (count_first [] (_chunks_map x) Hnd). }
  rewrite (bind_run _ _ _ _ _ (lift_run _ _ σ Hcount)).
  apply bind_raise. apply execute_with_device_array.
  - discriminate.
  - intros dev chunks Hin. apply dict_find_In; assumption.
  - exact Hne.
Qed.

End KernelWithDeviceArray.

Lemma X20_execute_kernel_with_device_array_witness :
  _execute_kernel operand_y sum_of_operands
                  [ODist operand_y; OCupy (Array 0 0 [])] []
                  [array1 [1; 2; 3; 4]; array1 [3; 4]; array1 [10; 20];
                   array1 [30; 40]] =
  (Raise RuntimeError,
   [array1 [1; 2; 3; 4]; array1 [3; 4]; array1 [10; 20]; array1 [30; 40]]).
Proof.
  apply (X20_execute_kernel_with_device_array operand_y sum_of_operands
           (Array 0 0 []) (array1 [1; 2; 3; 4])).
  - reflexivity.
  - distinct_keys.
  - discriminate.
  - reflexivity.
  - reflexivity.
Defined.

(** * reshard of a replica-mode array *)

Section Reshard.

Context {V : Type} `{!Dtype V} `{!Runtime V}.

Variable self : _DistributedArray V.
Variable A : ndarray V.

(** The buffers that exist when [reshard] is called are below [N0]; the
    buffers of the new chunks are from [N0] to below [N1]. *)
Variables N0 N1 : nat.

Hypothesis Hshape : Forall (fun n => 0 <= n) (nd_shape A).
Hypothesis Hknown : nccl_dtype_known = true.

(** The update selects the local coordinate [c] of a chunk. *)
Definition upd_mem (axes : list (Z * Z * Z)) (u : _PartialUpdate)
           (c : list Z) : bool :=
  index_mem (view_shape axes) u.2 c.

(** A pending update of a new chunk: its payload is outside the buffers of
    the new chunks and has the elements of [A] for what it selects. *)
Definition upd_ok (σ : store V) (axes : list (Z * Z * Z)) (u : _PartialUpdate)
  : Prop :=
  exists p uaxes,
    update_ok σ (view_shape axes) u p uaxes /\
    ((arr_buf (transfer_data u.1) < N0)%nat \/
     (N1 <= arr_buf (transfer_data u.1))%nat) /\
    forall c, in_bounds (view_shape axes) c = true ->
              in_axes uaxes c = true ->
              nd_item p (to_local uaxes c) = nd_item A (to_base axes c).

(** A new chunk after the source chunks [done] have been sent to it. *)
Definition pend (done : list _Chunk) (σ : store V) (chunk : _Chunk) : Prop :=
  exists a axes,
    chunk_ok (nd_shape A) σ chunk a axes /\
    (N0 <= arr_buf (chunk_data chunk) < N1)%nat /\
    In (arr_dev (chunk_data chunk)) (_comms self) /\
    Forall (upd_ok σ axes) (chunk_updates chunk) /\
    forall c,
      in_bounds (view_shape axes) c = true ->
      Exists (fun src =>
                index_mem (nd_shape A) (chunk_index src) (to_base axes c) = true)
             done ->
      Exists (fun u => upd_mem axes u c = true) (chunk_updates chunk).

Lemma chunk_ok_app (σ ext : store V) (chunk : _Chunk) (a : ndarray V)
      (axes : list (Z * Z * Z)) :
  chunk_ok (nd_shape A) σ chunk a axes ->
  chunk_ok (nd_shape A) (σ ++ ext) chunk a axes.
Proof.
  intros (Hv & Hb & Hrest). split; [exact Hv|]. split; [|exact Hrest].
  rewrite lookup_app_l; [exact Hb|]. eapply lookup_lt_Some, Hb.
Qed.

Lemma upd_ok_app (σ ext : store V) (axes : list (Z * Z * Z))
      (u : _PartialUpdate) :
  upd_ok σ axes u -> upd_ok (σ ++ ext) axes u.
Proof.
  intros (p & uaxes & (Hload & Hrest) & Hbuf & Hval).
  exists p, uaxes. split; [|split; assumption].
  split; [apply load_app; exact Hload|exact Hrest].
Qed.

Lemma pend_app (done : list _Chunk) (σ ext : store V) (chunk : _Chunk) :
  pend done σ chunk -> pend done (σ ++ ext) chunk.
Proof.
  intros (a & axes & Hok & Hbuf & Hdev & Hups & Hcov).
  exists a, axes. split; [apply chunk_ok_app; exact Hok|].
  split; [exact Hbuf|]. split; [exact Hdev|]. split; [|exact Hcov].
  eapply Forall_impl; [exact Hups|]. intros u. apply upd_ok_app.
Qed.

(** A store that differs at buffers of other new chunks only. *)
Lemma pend_agree (done : list _Chunk) (σ σ' : store V) (chunk : _Chunk) :
  (forall i, (i < N0 \/ N1 <= i)%nat \/ i = arr_buf (chunk_data chunk) ->
             σ' !! i = σ !! i) ->
  pend done σ chunk -> pend done σ' chunk.
Proof.
  intros Hsame (a & axes & (Hv & Hb & Hrest) & Hbuf & Hdev & Hups & Hcov).
  exists a, axes. split.
  { split; [exact Hv|]. split; [|exact Hrest].
    rewrite Hsame by (right; reflexivity). exact Hb. }
  split; [exact Hbuf|]. split; [exact Hdev|]. split; [|exact Hcov].
  eapply Forall_impl; [exact Hups|].
  intros u (p & uaxes & (Hload & Hrest') & Hb' & Hval).
  exists p, uaxes. split; [|split; assumption].
  split; [|exact Hrest']. apply (load_agree _ σ); [exact Hload|].
  apply Hsame. left. exact Hb'.
Qed.

(** A source chunk of the array. *)
Definition source (σ : store V) (src : _Chunk) : Prop :=
  chunk_holds σ A src /\
  (arr_buf (chunk_data src) < N0)%nat /\
  In (arr_dev (chunk_data src)) (_comms self).

Lemma source_app (σ ext : store V) (src : _Chunk) :
  source σ src -> source (σ ++ ext) src.
Proof.
  intros (Hh & Hrest). split; [apply chunk_holds_app; exact Hh|exact Hrest].
Qed.

(** One source chunk sent to one new chunk. *)
Lemma pend_copy (done : list _Chunk) (σ : store V) (src dst : _Chunk) :
  (N1 <= length σ)%nat ->
  source σ src -> pend done σ dst ->
  exists dst' ext,
    _copy_on_intersection self (nd_shape A) src dst σ = (Ok dst', σ ++ ext) /\
    chunk_data dst' = chunk_data dst /\
    chunk_index dst' = chunk_index dst /\
    pend (done ++ [src]) (σ ++ ext) dst'.
Proof.
  intros Hlen ((Hv1 & Hu1 & Hl1 & Hp1 & v & axes_src & Hb1 & Hax1 & Hs1 & Hitems)
               & Hlt1 & Hdev1)
         (a & axes & Hok & Hbuf & Hdev & Hups & Hcov).
  assert (Hok1 : chunk_ok (nd_shape A) σ src v axes_src).
  { unfold chunk_ok. repeat match goal with |- _ /\ _ => split end;
      assumption. }
  pose proof (axes_of_pos _ _ _ Hp1 Hax1) as Hpos1.
  pose proof Hok as (Hv2 & Hb2 & Hl2 & Hp2 & Hax2 & Hs2).
  pose proof (axes_of_pos _ _ _ Hp2 Hax2) as Hpos2.
  assert (Hsrc_mem : forall g, index_mem (nd_shape A) (chunk_index src) g =
                               in_axes axes_src g).
  { intros g. unfold index_mem. rewrite Hax1. reflexivity. }
  destruct (_copy_on_intersection_run self (nd_shape A) src dst σ v a
              axes_src axes Hshape Hok1 Hok Hu1)
    as [[Hrun Hout]|(update & dst_new_idx & p & uaxes & ext & Hrun & Hu &
                     Hpbuf & Hcoord)].
  { right. split; [exact Hknown|]. split; assumption. }
  - exists dst, []. rewrite app_nil_r. split; [exact Hrun|].
    split; [reflexivity|]. split; [reflexivity|].
    exists a, axes. split; [exact Hok|]. split; [exact Hbuf|].
    split; [exact Hdev|]. split; [exact Hups|].
    intros c Hc Hex. apply Exists_app in Hex. destruct Hex as [Hex|Hex].
    + apply Hcov; assumption.
    + apply Exists_cons in Hex. destruct Hex as [Hex|Hex]; [|inversion Hex].
      rewrite Hsrc_mem, (Hout c Hc) in Hex. discriminate.
  - exists (Chunk (chunk_data dst) (chunk_index dst)
                  (chunk_updates dst ++ [(update, dst_new_idx)])), ext.
    split; [exact Hrun|]. split; [reflexivity|]. split; [reflexivity|].
    exists a, axes. split.
    { apply chunk_ok_app. exact Hok. }
    split; [exact Hbuf|]. split; [exact Hdev|].
    cbn [chunk_data chunk_index chunk_updates].
    assert (Hmem : forall c, upd_mem axes (update, dst_new_idx) c =
                             in_axes uaxes c).
    { intros c. unfold upd_mem, index_mem. cbn [snd].
      destruct Hu as (_ & _ & Hax & _). cbn [snd] in Hax. rewrite Hax.
      reflexivity. }
    split.
    + apply Forall_app. split.
      * eapply Forall_impl; [exact Hups|]. intros u. apply upd_ok_app.
      * constructor; [|constructor]. exists p, uaxes.
        split; [exact Hu|]. split.
        -- cbn [fst]. destruct Hpbuf as [->|Hge]; [left; exact Hlt1|].
           right. lia.
        -- intros c Hc Hin. destruct (Hcoord c Hc) as [Hin' Hval].
           rewrite (Hval Hin). rewrite Hin in Hin'. symmetry in Hin'.
           rewrite Hitems by (apply to_local_in_bounds; assumption).
           rewrite (to_base_to_local axes_src _ Hpos1 Hin'). reflexivity.
    + intros c Hc Hex. apply Exists_app.
      apply Exists_app in Hex. destruct Hex as [Hex|Hex].
      * left. apply Hcov; assumption.
      * right. apply Exists_cons in Hex.
        destruct Hex as [Hex|Hex]; [|inversion Hex].
        left. rewrite Hmem. destruct (Hcoord c Hc) as [-> _].
        rewrite <- Hsrc_mem. exact Hex.
Qed.


(** Two chunks with the same data and index. *)
Definition same_chunk (c c' : _Chunk) : Prop :=
  chunk_data c' = chunk_data c /\ chunk_index c' = chunk_index c.

(** Two chunks maps with the same devices and, for each, chunks with the
    same data and indices. *)
Definition same_layout (m m' : dict (list _Chunk)) : Prop :=
  Forall2 (fun kv kv' : Z * list _Chunk =>
             kv'.1 = kv.1 /\ Forall2 same_chunk kv.2 kv'.2) m m'.

Lemma same_chunks_refl (l : list _Chunk) : Forall2 same_chunk l l.
Proof. induction l; constructor; [split; reflexivity|assumption]. Qed.

Lemma same_layout_refl (m : dict (list _Chunk)) : same_layout m m.
Proof.
  induction m as [|kv m IH]; constructor; [|exact IH].
  split; [reflexivity|apply same_chunks_refl].
Qed.

Lemma same_chunks_trans (l1 l2 l3 : list _Chunk) :
  Forall2 same_chunk l1 l2 -> Forall2 same_chunk l2 l3 ->
  Forall2 same_chunk l1 l3.
Proof.
  intros H12. revert l3. induction H12 as [|c1 c2 l1 l2 [Hd He] H12 IH];
    intros l3 H23.
  - apply Forall2_nil_inv_l in H23. subst. constructor.
  - apply Forall2_cons_inv_l in H23.
    destruct H23 as (c3 & l3' & [Hd' He'] & H23 & ->).
    constructor; [split; congruence|apply IH, H23].
Qed.

Lemma same_layout_trans (m1 m2 m3 : dict (list _Chunk)) :
  same_layout m1 m2 -> same_layout m2 m3 -> same_layout m1 m3.
Proof.
  intros H12. revert m3. induction H12 as [|kv1 kv2 m1 m2 [Hk Hc] H12 IH];
    intros m3 H23.
  - apply Forall2_nil_inv_l in H23. subst. constructor.
  - apply Forall2_cons_inv_l in H23.
    destruct H23 as (kv3 & m3' & [Hk' Hc'] & H23 & ->).
    constructor; [|apply IH, H23].
    split; [congruence|eapply same_chunks_trans; eassumption].
Qed.

Lemma same_chunks_indices (l l' : list _Chunk) :
  Forall2 same_chunk l l' ->
  map chunk_index l' = map chunk_index l /\ map buf_of l' = map buf_of l.
Proof.
  induction 1 as [|c c' l l' [Hd He] Hl [IH1 IH2]]; [split; reflexivity|].
  cbn [map]. unfold buf_of in *. rewrite Hd, He, IH1, IH2. split; reflexivity.
Qed.

Lemma same_layout_indices (m m' : dict (list _Chunk)) :
  same_layout m m' ->
  indices_of m' = indices_of m /\
  map buf_of (flatten m') = map buf_of (flatten m) /\
  map chunk_index (flatten m') = map chunk_index (flatten m).
Proof.
  induction 1 as [|[k l] [k' l'] m m' [Hk Hc] Hm (IH1 & IH2 & IH3)];
    [repeat split; reflexivity|].
  cbn [fst snd] in Hk, Hc. subst k'.
  destruct (same_chunks_indices _ _ Hc) as [Hi Hb].
  unfold flatten in *. cbn [indices_of map flat_map snd].
  fold (indices_of m). fold (indices_of m').
  rewrite !map_app, Hi, Hb, IH1, IH2, IH3. repeat split; reflexivity.
Qed.

(** One source chunk sent to a list of new chunks. *)
Lemma pend_copy_list (done : list _Chunk) (src : _Chunk)
      (chunks : list _Chunk) (σ : store V) :
  (N1 <= length σ)%nat ->
  source σ src -> Forall (pend done σ) chunks ->
  exists chunks' ext,
    forM (fun dst => _copy_on_intersection self (nd_shape A) src dst) chunks σ =
      (Ok chunks', σ ++ ext) /\
    Forall2 same_chunk chunks chunks' /\
    Forall (pend (done ++ [src]) (σ ++ ext)) chunks'.
Proof.
  revert σ. induction chunks as [|dst chunks IH]; intros σ Hlen Hsrc Hall.
  - exists [], []. rewrite app_nil_r. split; [reflexivity|].
    split; constructor.
  - apply Forall_cons in Hall. destruct Hall as [Hd Hall].
    destruct (pend_copy done σ src dst Hlen Hsrc Hd)
      as (dst' & ext1 & Hrun1 & Hdata & Hidx & Hp1).
    destruct (IH (σ ++ ext1)) as (chunks' & ext2 & Hrun2 & Hsame & Hp2).
    { rewrite length_app. lia. }
    { apply source_app. exact Hsrc. }
    { eapply Forall_impl; [exact Hall|]. intros c. apply pend_app. }
    exists (dst' :: chunks'), (ext1 ++ ext2). rewrite app_assoc.
    split; [|split].
    + cbn [forM]. rewrite (bind_run _ _ _ _ _ Hrun1).
      rewrite (bind_run _ _ _ _ _ Hrun2). reflexivity.
    + constructor; [split; assumption|exact Hsame].
    + constructor; [apply pend_app; exact Hp1|exact Hp2].
Qed.

(** One source chunk sent to every new chunk. *)
Lemma pend_copy_map (done : list _Chunk) (src : _Chunk)
      (m : dict (list _Chunk)) (σ : store V) :
  (N1 <= length σ)%nat ->
  source σ src -> Forall (pend done σ) (flatten m) ->
  exists m' ext,
    map_chunks (fun dst => _copy_on_intersection self (nd_shape A) src dst) m σ =
      (Ok m', σ ++ ext) /\
    same_layout m m' /\
    Forall (pend (done ++ [src]) (σ ++ ext)) (flatten m').
Proof.
  revert σ. induction m as [|[dev chunks] m IH]; intros σ Hlen Hsrc Hall.
  - exists [], []. rewrite app_nil_r. split; [reflexivity|].
    split; constructor.
  - unfold flatten in Hall. cbn [flat_map snd] in Hall.
    apply Forall_app in Hall. destruct Hall as [H1 H2].
    destruct (pend_copy_list done src chunks σ Hlen Hsrc H1)
      as (chunks' & ext1 & Hrun1 & Hsame1 & Hp1).
    destruct (IH (σ ++ ext1)) as (m' & ext2 & Hrun2 & Hsame2 & Hp2).
    { rewrite length_app. lia. }
    { apply source_app. exact Hsrc. }
    { eapply Forall_impl; [exact H2|]. intros c. apply pend_app. }
    exists ((dev, chunks') :: m'), (ext1 ++ ext2). rewrite app_assoc.
    split; [|split].
    + unfold map_chunks in *. cbn [forM].
      assert (Hstep : (forM (fun dst =>
                               _copy_on_intersection self (nd_shape A) src dst)
                            chunks ≫= λ chunks0, mret (dev, chunks0)) σ =
                      (Ok (dev, chunks'), σ ++ ext1))
        by (rewrite (bind_run _ _ _ _ _ Hrun1); reflexivity).
      rewrite (bind_run _ _ _ _ _ Hstep), (bind_run _ _ _ _ _ Hrun2).
      reflexivity.
    + constructor; [split; [reflexivity|exact Hsame1]|exact Hsame2].
    + unfold flatten. cbn [flat_map snd]. apply Forall_app. split; [|exact Hp2].
      eapply Forall_impl; [exact Hp1|]. intros c. apply pend_app.
Qed.

Hypothesis Hmode : _mode self = _REPLICA_MODE.
Hypothesis Hself : da_shape self = nd_shape A.

(** The loop of [reshard] over the chunks of the array. *)
Lemma reshard_copy_phase (srcs old done : list _Chunk)
      (m : dict (list _Chunk)) (σ : store V) :
  (N1 <= length σ)%nat ->
  Forall (source σ) srcs -> Forall (pend done σ) (flatten m) ->
  exists m' ext,
    foldM (reshard_step self) (old, m) srcs σ =
      (Ok (old ++ srcs, m'), σ ++ ext) /\
    same_layout m m' /\
    Forall (pend (done ++ srcs) (σ ++ ext)) (flatten m').
Proof.
  revert old done m σ.
  induction srcs as [|src srcs IH]; intros old done m σ Hlen Hsrcs Hall.
  - exists m, []. rewrite !app_nil_r. split; [reflexivity|].
    split; [apply same_layout_refl|exact Hall].
  - apply Forall_cons in Hsrcs. destruct Hsrcs as [Hsrc Hsrcs].
    destruct (pend_copy_map done src m σ Hlen Hsrc Hall)
      as (m1 & ext1 & Hrun1 & Hsame1 & Hp1).
    assert (Hstep : reshard_step self (old, m) src σ =
                    (Ok (old ++ [src], m1), σ ++ ext1)).
    { unfold reshard_step. rewrite Hmode, Hself.
      destruct Hsrc as ((_ & Hu & _) & _).
      rewrite (bind_run _ _ _ _ _ (_apply_updates_none src _ σ Hu)).
      rewrite (bind_run _ _ _ _ _ (ret_run src σ)).
      rewrite (bind_run _ _ _ _ _ Hrun1). reflexivity. }
    destruct (IH (old ++ [src]) (done ++ [src]) m1 (σ ++ ext1))
      as (m' & ext2 & Hrun2 & Hsame2 & Hp2).
    { rewrite length_app. lia. }
    { eapply Forall_impl; [exact Hsrcs|]. intros c. apply source_app. }
    { exact Hp1. }
    exists m', (ext1 ++ ext2). rewrite app_assoc.
    split; [|split].
    + cbn [foldM]. rewrite (bind_run _ _ _ _ _ Hstep).
      rewrite Hrun2. rewrite <- !app_assoc. reflexivity.
    + eapply same_layout_trans; eassumption.
    + rewrite <- app_assoc in Hp2. exact Hp2.
Qed.


(** The pending updates of a new chunk applied in turn: the buffer of the
    chunk has the elements of [A] where an update selects, and what it had
    elsewhere. *)
Lemma drain_pending_updates (chunk : _Chunk) (axes : list (Z * Z * Z))
      (us : list _PartialUpdate) (a : ndarray V) (σ : store V) :
  arr_view (chunk_data chunk) = [] ->
  σ !! arr_buf (chunk_data chunk) = Some a ->
  nd_shape a = view_shape axes ->
  (N0 <= arr_buf (chunk_data chunk) < N1)%nat ->
  Forall (upd_ok σ axes) us ->
  exists r a',
    forM (apply_update chunk _REPLICA_MODE) us σ =
      (Ok r, <[arr_buf (chunk_data chunk) := a']> σ) /\
    nd_shape a' = view_shape axes /\
    forall c,
      in_bounds (view_shape axes) c = true ->
      (Exists (fun u => upd_mem axes u c = true) us ->
       nd_item a' c = nd_item A (to_base axes c)) /\
      (~ Exists (fun u => upd_mem axes u c = true) us ->
       nd_item a' c = nd_item a c).
Proof.
  intros Hview. revert a σ.
  induction us as [|[t uidx] us IH]; intros a σ Hb Hsh Hbuf Hups.
  - exists [], a. rewrite list_insert_id by exact Hb.
    split; [reflexivity|]. split; [exact Hsh|]. intros c Hc.
    split; [intros H; inversion H|reflexivity].
  - apply Forall_cons in Hups. destruct Hups as [Hu Hups].
    destruct Hu as (p & uaxes & (Hload & Hpos & Hax & Hpsh) & Hpb & Hval).
    cbn [fst snd] in *.
    pose proof (axes_of_pos _ _ _ Hpos Hax) as Hupos.
    destruct (setitem_same_shape a uidx p uaxes) as (a1 & Hset & Hsh1 & Hit1);
      [rewrite Hsh; exact Hax|exact Hupos|exact Hpsh|].
    set (b := arr_buf (chunk_data chunk)) in *.
    assert (Hlt : (b < length σ)%nat) by (eapply lookup_lt_Some, Hb).
    assert (Hstep : apply_update chunk _REPLICA_MODE (t, uidx) σ =
                    (Ok tt, <[b := a1]> σ)).
    { unfold apply_update, _REPLICA_MODE.
      rewrite (bind_run _ _ _ _ _ Hload).
      apply (assign_run _ _ _ _ a a1); [exact Hb|].
      rewrite Hview. exact Hset. }
    destruct (IH a1 (<[b := a1]> σ)) as (r & a' & Hrun & Hsh' & Hit').
    { apply list_lookup_insert_eq. exact Hlt. }
    { rewrite Hsh1. exact Hsh. }
    { exact Hbuf. }
    { eapply Forall_impl; [exact Hups|].
      intros u (p' & uaxes' & (Hload' & Hrest') & Hpb' & Hval').
      exists p', uaxes'. split; [|split; assumption].
      split; [|exact Hrest'].
      apply (load_agree _ σ); [exact Hload'|].
      apply list_lookup_insert_ne. lia. }
    rewrite list_insert_insert_eq in Hrun.
    exists (tt :: r), a'. split; [|split; [exact Hsh'|]].
    + cbn [forM]. rewrite (bind_run _ _ _ _ _ Hstep).
      rewrite (bind_run _ _ _ _ _ Hrun). reflexivity.
    + intros c Hc. destruct (Hit' c Hc) as [Hin Hout].
      assert (Hmem : upd_mem axes (t, uidx) c = in_axes uaxes c).
      { unfold upd_mem, index_mem. cbn [snd]. rewrite Hax. reflexivity. }
      assert (Hdec : Exists (fun u => upd_mem axes u c = true) us \/
                     ~ Exists (fun u => upd_mem axes u c = true) us).
      { clear. induction us as [|u us [IHus|IHus]].
        - right. intros H. inversion H.
        - left. right. exact IHus.
        - destruct (upd_mem axes u c) eqn:E.
          + left. left. exact E.
          + right. intros H. apply Exists_cons in H.
            destruct H as [H|H]; [congruence|tauto]. }
      split.
      * intros Hex. destruct Hdec as [Hrest|Hrest]; [apply Hin, Hrest|].
        apply Exists_cons in Hex. destruct Hex as [Hex|Hex]; [|tauto].
        rewrite (Hout Hrest), Hit1. rewrite Hmem in Hex. rewrite Hex.
        apply Hval; assumption.
      * intros Hno. rewrite Hout.
        -- rewrite Hit1. destruct (in_axes uaxes c) eqn:E; [|reflexivity].
           exfalso. apply Hno. left. exact Hmem.
        -- intros H. apply Hno. right. exact H.
Qed.

(** Every coordinate of the array is in a chunk of [done]. *)
Definition all_sent (done : list _Chunk) : Prop :=
  forall g, in_bounds (nd_shape A) g = true ->
            Exists (fun src =>
                      index_mem (nd_shape A) (chunk_index src) g = true) done.

(** [_apply_updates] on a new chunk, once every source chunk has been sent
    to it: the chunk holds its part of [A]. *)
Lemma drain_pending (done : list _Chunk) (chunk : _Chunk) (σ : store V) :
  all_sent done -> pend done σ chunk ->
  exists a',
    _apply_updates chunk _REPLICA_MODE σ =
      (Ok (drained chunk), <[arr_buf (chunk_data chunk) := a']> σ) /\
    chunk_holds (<[arr_buf (chunk_data chunk) := a']> σ) A (drained chunk).
Proof.
  intros Hcov (a & axes & Hok & Hbuf & Hdev & Hups & Hsel).
  destruct Hok as (Hview & Hb & Hlen & Hpos & Hax & Hsh).
  destruct (drain_pending_updates chunk axes (chunk_updates chunk) a σ
              Hview Hb Hsh Hbuf Hups) as (r & a' & Hrun & Hsh' & Hit).
  exists a'. split.
  - unfold _apply_updates. rewrite (bind_run _ _ _ _ _ Hrun). reflexivity.
  - unfold chunk_holds, drained. cbn [chunk_data chunk_index chunk_updates].
    split; [exact Hview|]. split; [reflexivity|]. split; [exact Hlen|].
    split; [exact Hpos|]. exists a', axes.
    split; [apply list_lookup_insert_eq; eapply lookup_lt_Some, Hb|].
    split; [exact Hax|]. split; [exact Hsh'|].
    intros c Hc. apply (Hit c Hc), Hsel; [exact Hc|].
    apply Hcov. pose proof (axes_of_pos _ _ _ Hpos Hax) as Hapos.
    apply (axes_in_bounds _ _ _ _ Hax Hapos).
    apply in_axes_to_base; assumption.
Qed.

Lemma drain_pending_list (done : list _Chunk) (chunks : list _Chunk)
      (σ : store V) :
  all_sent done ->
  Forall (pend done σ) chunks ->
  NoDup (map buf_of chunks) ->
  exists σ',
    forM (fun chunk => _apply_updates chunk _REPLICA_MODE) chunks σ =
      (Ok (map drained chunks), σ') /\
    Forall (chunk_holds σ' A) (map drained chunks) /\
    length σ' = length σ /\
    forall i, ~ In i (map buf_of chunks) -> σ' !! i = σ !! i.
Proof.
  intros Hcov. revert σ.
  induction chunks as [|chunk chunks IH]; intros σ Hall Hnd.
  - exists σ. split; [reflexivity|]. split; [constructor|].
    split; reflexivity.
  - apply Forall_cons in Hall. destruct Hall as [Hp Hall].
    cbn [map] in Hnd. apply NoDup_cons in Hnd. destruct Hnd as [Hnotin Hnd].
    destruct (drain_pending done chunk σ Hcov Hp) as (a' & Hrun1 & Hh1).
    set (b := arr_buf (chunk_data chunk)) in *.
    assert (Hbuf : (N0 <= b < N1)%nat)
      by (destruct Hp as (? & ? & _ & Hbuf & _); exact Hbuf).
    destruct (IH (<[b := a']> σ)) as (σ' & Hrun2 & Hh2 & Hlen & Hframe).
    { apply Forall_forall. intros c Hc. apply list_elem_of_In in Hc.
      apply (pend_agree done σ).
      - intros i [Hi| ->].
        + apply list_lookup_insert_ne. lia.
        + apply list_lookup_insert_ne. intros E. apply Hnotin.
          apply list_elem_of_In, in_map_iff. exists c.
          split; [unfold buf_of; symmetry; exact E|exact Hc].
      - rewrite Forall_forall in Hall. apply Hall, list_elem_of_In, Hc. }
    { exact Hnd. }
    exists σ'. split; [|split; [|split]].
    + cbn [forM map]. rewrite (bind_run _ _ _ _ _ Hrun1).
      rewrite (bind_run _ _ _ _ _ Hrun2). reflexivity.
    + cbn [map]. constructor; [|exact Hh2].
      apply (chunk_holds_agree A (<[b := a']> σ)); [|exact Hh1].
      apply Hframe. cbn [drained chunk_data]. fold b.
      intros H. apply Hnotin, list_elem_of_In. exact H.
    + rewrite Hlen. apply length_insert.
    + intros i Hi. rewrite Hframe.
      * apply list_lookup_insert_ne. intros E. apply Hi. left.
        unfold buf_of. fold b. congruence.
      * intros H. apply Hi. right. exact H.
Qed.

Lemma map_chunks_of_flat (f : _Chunk -> M V _Chunk) (g : _Chunk -> _Chunk)
      (cm : dict (list _Chunk)) (σ σ' : store V) :
  forM f (flatten cm) σ = (Ok (map g (flatten cm)), σ') ->
  map_chunks f cm σ =
    (Ok (map (fun '(dev, chunks) => (dev, map g chunks)) cm), σ').
Proof.
  unfold map_chunks. revert σ.
  induction cm as [|[dev chunks] cm IH]; intros σ Hrun.
  - simpl in Hrun. injection Hrun as <-. reflexivity.
  - unfold flatten in Hrun. cbn [flat_map snd] in Hrun.
    fold (flatten cm) in Hrun. rewrite map_app in Hrun.
    destruct (forM_app_inv _ _ _ _ _ _ Hrun) as (σ1 & H1 & H2).
    cbn [forM map].
    assert (Hstep : (forM f chunks ≫= λ chunks', mret (dev, chunks')) σ =
                    (Ok (dev, map g chunks), σ1))
      by (rewrite (bind_run _ _ _ _ _ H1); reflexivity).
    rewrite (bind_run _ _ _ _ _ Hstep).
    rewrite (bind_run _ _ _ _ _ (IH σ1 H2)). reflexivity.
Qed.

(** [_apply_updates] on every new chunk, once every source chunk has been
    sent to each. *)
Lemma drain_pending_map (done : list _Chunk) (cm : dict (list _Chunk))
      (σ : store V) :
  all_sent done ->
  Forall (pend done σ) (flatten cm) ->
  NoDup (map buf_of (flatten cm)) ->
  exists σ',
    map_chunks (fun chunk => _apply_updates chunk _REPLICA_MODE) cm σ =
      (Ok (drained_map cm), σ') /\
    Forall (chunk_holds σ' A) (flatten (drained_map cm)) /\
    length σ' = length σ.
Proof.
  intros Hcov Hall Hnd.
  destruct (drain_pending_list done (flatten cm) σ Hcov Hall Hnd)
    as (σ' & Hrun & Hh & Hlen & _).
  exists σ'. split; [|split; [|exact Hlen]].
  - apply (map_chunks_of_flat _ drained). exact Hrun.
  - rewrite flatten_drained_map. exact Hh.
Qed.


(** An index that [reshard] makes a chunk for: one slice with a positive
    step per axis, selecting something. *)
Definition usable (idx : index) : Prop :=
  good_index (nd_shape A) idx /\ exists c, index_mem (nd_shape A) idx c = true.

(** A new chunk before anything is sent to it. *)
Definition blank (σ : store V) (chunk : _Chunk) : Prop :=
  (exists a axes, chunk_ok (nd_shape A) σ chunk a axes) /\
  chunk_updates chunk = [] /\
  In (arr_dev (chunk_data chunk)) (_comms self).

Lemma blank_app (σ ext : store V) (chunk : _Chunk) :
  blank σ chunk -> blank (σ ++ ext) chunk.
Proof.
  intros ((a & axes & Hok) & Hrest). split; [|exact Hrest].
  exists a, axes. apply chunk_ok_app, Hok.
Qed.

Lemma blank_pend (σ : store V) (chunk : _Chunk) :
  (N0 <= arr_buf (chunk_data chunk) < N1)%nat ->
  blank σ chunk -> pend [] σ chunk.
Proof.
  intros Hbuf ((a & axes & Hok) & Hu & Hdev). exists a, axes.
  split; [exact Hok|]. split; [exact Hbuf|]. split; [exact Hdev|].
  rewrite Hu. split; [constructor|]. intros c _ H. inversion H.
Qed.

Hypothesis Hdim : nd_shape A <> [].

Lemma new_chunk_run (dev : Z) (idx : index) (σ : store V) :
  usable idx ->
  exists a axes,
    new_chunk _REPLICA_MODE (nd_shape A) dev idx σ =
      (Ok (Chunk (Array dev (length σ) []) idx []), σ ++ [a]) /\
    chunk_ok (nd_shape A) (σ ++ [a]) (Chunk (Array dev (length σ) []) idx [])
             a axes.
Proof.
  intros ((Hl & Hp & axes & Hax) & c & Hc).
  unfold index_mem in Hc. rewrite Hax in Hc.
  pose proof (axes_of_pos _ _ _ Hp Hax) as Hstp.
  pose proof (in_axes_nonempty _ _ Hstp Hc) as Hlt.
  assert (Hsh : _shape_after_indexing (nd_shape A) idx = Ok (view_shape axes)).
  { apply _shape_after_indexing_view; try assumption.
    eapply Forall_impl; [exact Hlt|]. intros t Ht. cbv beta in Ht. lia. }
  pose proof (view_shape_pos _ Hstp Hlt) as Hvpos.
  assert (Hneg : existsb (fun n => n <? 0) (view_shape axes) = false).
  { clear -Hvpos. induction Hvpos as [|n l Hn Hl IH]; [reflexivity|].
    cbn [existsb]. rewrite IH. destruct (Z.ltb_spec n 0); [lia|reflexivity]. }
  assert (Hat : atleast_1d (NDArray (view_shape axes) (junk (length σ))) =
                NDArray (view_shape axes) (junk (length σ))).
  { unfold atleast_1d. cbn [nd_shape].
    destruct (view_shape axes) eqn:E; [|reflexivity].
    apply (f_equal length) in E.
    rewrite view_shape_length, (axes_of_length _ _ _ Hax) in E.
    destruct (nd_shape A); [congruence|discriminate]. }
  exists (NDArray (view_shape axes) (junk (length σ))), axes. split.
  - unfold new_chunk, _REPLICA_MODE.
    rewrite (bind_run _ _ _ _ _ (lift_run _ _ σ Hsh)). rewrite Hneg.
    unfold mbind, M_bind. rewrite Hat. reflexivity.
  - unfold chunk_ok. cbn [chunk_data chunk_index arr_view arr_buf nd_shape].
    split; [reflexivity|]. split.
    { rewrite lookup_app_r by lia. rewrite Nat.sub_diag. reflexivity. }
    repeat split; assumption.
Qed.

Lemma new_chunks_list (dev : Z) (idxs : list index) (σ : store V) :
  In dev (_comms self) ->
  Forall usable idxs ->
  exists chunks ext,
    forM (new_chunk _REPLICA_MODE (nd_shape A) dev) idxs σ =
      (Ok chunks, σ ++ ext) /\
    map chunk_index chunks = idxs /\
    map buf_of chunks = seq (length σ) (length ext) /\
    Forall (blank (σ ++ ext)) chunks.
Proof.
  intros Hdev. revert σ. induction idxs as [|idx idxs IH]; intros σ Hall.
  - exists [], []. rewrite app_nil_r. split; [reflexivity|].
    split; [reflexivity|]. split; [reflexivity|constructor].
  - apply Forall_cons in Hall. destruct Hall as [Hu Hall].
    destruct (new_chunk_run dev idx σ Hu) as (a & axes & Hrun1 & Hok).
    destruct (IH (σ ++ [a]) Hall) as (chunks & ext & Hrun2 & Hi & Hb & Hbl).
    exists (Chunk (Array dev (length σ) []) idx [] :: chunks), ([a] ++ ext).
    rewrite app_assoc. split; [|split; [|split]].
    + cbn [forM]. rewrite (bind_run _ _ _ _ _ Hrun1).
      rewrite (bind_run _ _ _ _ _ Hrun2). reflexivity.
    + cbn [map chunk_index]. rewrite Hi. reflexivity.
    + cbn [map]. rewrite Hb, !length_app. cbn [length Nat.add seq].
      rewrite Nat.add_1_r. reflexivity.
    + constructor; [|exact Hbl]. apply blank_app.
      split; [exists a, axes; exact Hok|]. split; [reflexivity|exact Hdev].
Qed.

Lemma new_chunks_map_run (nim : dict (list index))
      (acc : dict (list _Chunk)) (σ : store V) :
  NoDup (map fst acc ++ map fst nim) ->
  Forall (fun dev => In dev (_comms self)) (map fst nim) ->
  Forall usable (flat_map snd nim) ->
  exists cm ext,
    foldM (fun chunks_map '(dev, idxs) =>
             chunks ← forM (new_chunk _REPLICA_MODE (nd_shape A) dev) idxs;
             mret (dict_set chunks_map dev chunks))
          acc nim σ = (Ok (acc ++ cm), σ ++ ext) /\
    indices_of cm = nim /\
    map buf_of (flatten cm) = seq (length σ) (length ext) /\
    Forall (blank (σ ++ ext)) (flatten cm).
Proof.
  revert acc σ. induction nim as [|[dev idxs] nim IH]; intros acc σ Hnd Hdevs Hall.
  - exists [], []. rewrite !app_nil_r. split; [reflexivity|].
    split; [reflexivity|]. split; [reflexivity|constructor].
  - cbn [map fst] in Hdevs. apply Forall_cons in Hdevs.
    destruct Hdevs as [Hdev Hdevs].
    cbn [flat_map snd] in Hall. apply Forall_app in Hall.
    destruct Hall as [Hall1 Hall2].
    destruct (new_chunks_list dev idxs σ Hdev Hall1)
      as (chunks & ext1 & Hrun1 & Hi1 & Hb1 & Hbl1).
    assert (Hfresh : ~ In dev (map fst acc)).
    { cbn [map fst] in Hnd. apply NoDup_app in Hnd.
      destruct Hnd as (_ & Hd & _). intros Hin.
      apply (Hd dev); [apply list_elem_of_In; exact Hin|left]. }
    destruct (IH (acc ++ [(dev, chunks)]) (σ ++ ext1))
      as (cm & ext2 & Hrun2 & Hi2 & Hb2 & Hbl2).
    { rewrite map_app. cbn [map fst]. rewrite <- app_assoc. exact Hnd. }
    { exact Hdevs. }
    { exact Hall2. }
    exists ((dev, chunks) :: cm), (ext1 ++ ext2). rewrite app_assoc.
    split; [|split; [|split]].
    + cbn [foldM].
      match goal with
      | |- (?step ≫= _) σ = _ =>
          assert (Hstep : step σ = (Ok (acc ++ [(dev, chunks)]), σ ++ ext1))
      end.
      { rewrite (bind_run _ _ _ _ _ Hrun1).
        rewrite dict_set_fresh by exact Hfresh. reflexivity. }
      rewrite (bind_run _ _ _ _ _ Hstep). rewrite Hrun2.
      rewrite <- app_assoc. reflexivity.
    + cbn [indices_of map]. fold (indices_of cm). rewrite Hi1, Hi2.
      reflexivity.
    + unfold flatten. cbn [flat_map snd]. fold (flatten cm).
      rewrite map_app, Hb1, Hb2, !length_app. symmetry. apply seq_app.
    + unfold flatten. cbn [flat_map snd]. fold (flatten cm).
      apply Forall_app. split; [|exact Hbl2].
      eapply Forall_impl; [exact Hbl1|]. intros c. apply blank_app.
Qed.

End Reshard.

Section ReshardRun.

Context {V : Type} `{!Dtype V} `{!Runtime V}.

Lemma indices_of_flat (cm : dict (list _Chunk)) :
  map chunk_index (flatten cm) = flat_map snd (indices_of cm).
Proof.
  unfold flatten. induction cm as [|[dev chunks] cm IH]; [reflexivity|].
  cbn [flat_map snd indices_of map]. fold (indices_of cm).
  rewrite map_app, IH. reflexivity.
Qed.

(** The converted indices of well-formed regions select something. *)
Lemma converted_usable (A : ndarray V) (idxs : list chunk_idx)
      (converted : list index) :
  Forall (valid_chunk_idx (nd_shape A)) idxs ->
  Forall2 (converts (nd_shape A)) idxs converted ->
  Forall (usable A) converted.
Proof.
  intros Hv Hc. induction Hc as [|idx idx' idxs converted [Hg Hm] Hc IH];
    [constructor|].
  apply Forall_cons in Hv. destruct Hv as [Hv1 Hv]. constructor; [|apply IH, Hv].
  split; [exact Hg|]. destruct (valid_items_nonempty _ _ Hv1) as (c & Hc1).
  exists c. rewrite Hm. exact Hc1.
Qed.

(** [asnumpy] after its first step, the pending updates applied. *)
Lemma asnumpy_after_updates (d : _DistributedArray V)
      (cm : dict (list _Chunk)) (σ σ' : store V) :
  map_chunks (fun chunk => _apply_updates chunk (_mode d)) (_chunks_map d) σ =
    (Ok cm, σ') ->
  map_chunks (fun chunk => _apply_updates chunk (_mode d)) cm σ' =
    (Ok cm, σ') ->
  asnumpy d σ =
  asnumpy (DistributedArray (da_shape d) cm (_mode d) (_comms d)) σ'.
Proof.
  intros H1 H2. unfold asnumpy. rewrite (bind_run _ _ _ _ _ H1).
  cbn [_mode _chunks_map da_shape _comms].
  rewrite (bind_run _ _ _ _ _ H2). reflexivity.
Qed.

(** [reshard] of a replica-mode array whose chunks hold the elements of
    [A] and cover it, then [asnumpy] of the new array. *)
Lemma reshard_run (self : _DistributedArray V) (A : ndarray V)
      (index_map0 : dict idxs_arg) (σ : store V) :
  _mode self = _REPLICA_MODE ->
  da_shape self = nd_shape A ->
  nd_shape A <> [] ->
  Forall (fun n => 0 <= n) (nd_shape A) ->
  Forall (chunk_holds σ A) (flatten (_chunks_map self)) ->
  (forall c, in_bounds (nd_shape A) c = true ->
             Exists (fun chunk =>
                       index_mem (nd_shape A) (chunk_index chunk) c = true)
                    (flatten (_chunks_map self))) ->
  Forall (fun chunk => In (arr_dev (chunk_data chunk)) (_comms self))
         (flatten (_chunks_map self)) ->
  _comms self <> [] ->
  nccl_dtype_known = true ->
  NoDup (map fst index_map0) ->
  Forall (fun dev => In dev (_comms self)) (map fst index_map0) ->
  Forall (valid_chunk_idx (nd_shape A)) (all_indices index_map0) ->
  exists d σ1 R,
    reshard self index_map0 σ = (Ok (d, self), σ1) /\
    _mode d = _REPLICA_MODE /\
    da_shape d = nd_shape A /\
    normalize_index_map (nd_shape A) index_map0 [] = Ok (index_map d) /\
    Forall (fun chunk => (length σ <= buf_of chunk)%nat)
           (flatten (_chunks_map d)) /\
    (forall i, (i < length σ)%nat -> σ1 !! i = σ !! i) /\
    (exists d' σ2,
       asnumpy d σ1 = (Ok (Array (-1) (length σ2) [], d'), σ2 ++ [R])) /\
    nd_shape R = nd_shape A /\
    forall c,
      Exists (fun idx => region_mem (nd_shape A) idx c = true)
             (all_indices index_map0) ->
      nd_item R c = nd_item A c.
Proof.
  intros Hmode Hself Hdim Hshape Hholds Hcover Hdevs Hcomms Hknown Hnd Hkeys
         Hvalid.
  destruct (normalize_index_map_spec (nd_shape A) index_map0 [] Hshape)
    as (nim & converted & Hnorm & Hnk & Hconv & Hperm);
    [exact Hnd|exact Hvalid|].
  cbn [app] in Hnorm.
  pose proof (converted_usable A _ _ Hvalid Hconv) as Huse.
  rewrite <- Hperm in Huse.
  destruct (new_chunks_map_run self A Hshape Hself Hdim nim [] σ)
    as (cm0 & ext0 & Hrun0 & Hi0 & Hb0 & Hbl0).
  { cbn [map app]. rewrite Hnk. exact Hnd. }
  { rewrite Hnk. exact Hkeys. }
  { exact Huse. }
  cbn [app] in Hrun0.
  set (N0 := length σ). set (N1 := (length σ + length ext0)%nat).
  assert (Hin0 : forall chunk, In chunk (flatten cm0) ->
                               (N0 <= buf_of chunk < N1)%nat).
  { intros chunk Hin. apply (in_map buf_of) in Hin. rewrite Hb0 in Hin.
    apply in_seq in Hin. unfold N0, N1. lia. }
  assert (Hp0 : Forall (pend self A N0 N1 [] (σ ++ ext0)) (flatten cm0)).
  { apply Forall_forall. intros chunk Hin. apply list_elem_of_In in Hin.
    apply blank_pend; [apply (Hin0 chunk Hin)|].
    rewrite Forall_forall in Hbl0. apply Hbl0, list_elem_of_In, Hin. }
  destruct (reshard_copy_phase self A N0 N1 Hshape Hknown Hmode Hself
              (flatten (_chunks_map self)) [] [] cm0 (σ ++ ext0))
    as (m' & ext1 & Hrun1 & Hsame & Hp1).
  { rewrite length_app. unfold N1. lia. }
  { apply Forall_forall. intros src Hin.
    rewrite Forall_forall in Hholds, Hdevs. apply source_app.
    split; [apply Hholds, Hin|]. split; [|apply Hdevs, Hin].
    destruct (Hholds src Hin) as (_ & _ & _ & _ & v & axes & Hb & _).
    unfold N0. eapply lookup_lt_Some, Hb. }
  { exact Hp0. }
  cbn [app] in Hrun1, Hp1.
  destruct (same_layout_indices _ _ Hsame) as (Hi1 & Hb1 & Hci1).
  set (d := DistributedArray (V:=V) (nd_shape A) m' _REPLICA_MODE
                             (_comms self)).
  assert (Hres : reshard self index_map0 σ =
                 (Ok (d, self), (σ ++ ext0) ++ ext1)).
  { unfold reshard.
    assert (Hcheck : forallb (fun kv : Z * idxs_arg =>
                                existsb (Z.eqb kv.1) (_comms self))
                             index_map0 = true).
    { apply forallb_forall. intros [dev idxs] Hin. cbn [fst].
      apply existsb_exists. exists dev. split; [|apply Z.eqb_refl].
      rewrite Forall_forall in Hkeys. apply Hkeys, list_elem_of_In, in_map_iff.
      exists (dev, idxs). split; [reflexivity|exact Hin]. }
    rewrite Hcheck. cbn [negb]. rewrite Hself, Hmode.
    rewrite (bind_run _ _ _ _ _ (lift_run _ _ σ Hnorm)).
    rewrite (bind_run _ _ _ _ _ Hrun0).
    rewrite (bind_run _ _ _ _ _ Hrun1). cbv beta iota.
    assert (Hnew : _DistributedArray_new (nd_shape A) m' _REPLICA_MODE
                                         (Some (_comms self)) = Ok d).
    { unfold _DistributedArray_new, d.
      destruct (_comms self); [contradiction|reflexivity]. }
    rewrite (bind_run _ _ _ _ _ (lift_run _ _ _ Hnew)).
    rewrite <- (app_nil_r (flatten (_chunks_map self))), unflatten_flatten.
    destruct self as [shape cm mode comms]. cbn in Hself, Hmode |- *.
    subst shape mode. reflexivity. }
  destruct (drain_pending_map self A N0 N1 (flatten (_chunks_map self)) m'
              ((σ ++ ext0) ++ ext1))
    as (σ' & Hdrain & Hh' & Hlen').
  { exact Hcover. }
  { exact Hp1. }
  { rewrite Hb1, Hb0. apply NoDup_seq. }
  destruct (asnumpy_replica
              (DistributedArray (V:=V) (nd_shape A) (drained_map m')
                                _REPLICA_MODE (_comms self)) A σ')
    as (R & Has & HRs & HR); try reflexivity; [exact Hdim|exact Hh'|].
  exists d, ((σ ++ ext0) ++ ext1), R.
  split; [exact Hres|]. split; [reflexivity|]. split; [reflexivity|].
  split.
  { unfold d, index_map. cbn [_chunks_map]. fold (indices_of m').
    rewrite Hi1, Hi0. exact Hnorm. }
  split.
  { unfold d. cbn [_chunks_map]. apply Forall_forall. intros chunk Hin.
    apply list_elem_of_In, (in_map buf_of) in Hin. rewrite Hb1 in Hin.
    apply in_map_iff in Hin. destruct Hin as (chunk0 & <- & Hin).
    apply (Hin0 chunk0 Hin). }
  split.
  { intros i Hi. rewrite <- app_assoc. apply lookup_app_l. exact Hi. }
  split.
  { eexists _, σ'. rewrite <- Has.
    apply (asnumpy_after_updates d (drained_map m')); [exact Hdrain|].
    apply map_chunks_same. rewrite flatten_drained_map.
    apply Forall_forall. intros chunk Hin.
    apply list_elem_of_In, in_map_iff in Hin. destruct Hin as (c0 & <- & _).
    apply _apply_updates_none. reflexivity. }
  split; [exact HRs|].
  intros c Hc. apply HR. cbn [_chunks_map].
  apply (covered_by_chunks _ index_map0 converted); [exact Hconv| |exact Hc].
  rewrite flatten_drained_map, drained_indices, Hci1, indices_of_flat, Hi0.
  exact Hperm.
Qed.


(** X21. [reshard] of a replica-mode array of at least one dimension whose
    chunks hold the elements of [A] with no update pending and cover it,
    onto a well-formed index map on devices that have a communicator (the
    dtype being one NCCL knows): the call returns a replica-mode array whose
    index map is the normalised new one and whose chunks are in new buffers,
    and leaves the array itself as it was, its chunks still holding [A];
    [asnumpy] of the new array then returns a host array of the shape of
    [A] with the element of [A] at every coordinate in a region of the new
    map, so an array equal to [A] when the regions cover the shape. *)
Theorem X21_reshard_then_asnumpy (self : _DistributedArray V) (A : ndarray V)
        (index_map0 : dict idxs_arg) (σ : store V) :
  _mode self = _REPLICA_MODE ->
  da_shape self = nd_shape A ->
  nd_shape A <> [] ->
  Forall (fun n => 0 <= n) (nd_shape A) ->
  Forall (chunk_holds σ A) (flatten (_chunks_map self)) ->
  (forall c, in_bounds (nd_shape A) c = true ->
             Exists (fun chunk =>
                       index_mem (nd_shape A) (chunk_index chunk) c = true)
                    (flatten (_chunks_map self))) ->
  Forall (fun chunk => In (arr_dev (chunk_data chunk)) (_comms self))
         (flatten (_chunks_map self)) ->
  _comms self <> [] ->
  nccl_dtype_known = true ->
  NoDup (map fst index_map0) ->
  Forall (fun dev => In dev (_comms self)) (map fst index_map0) ->
  Forall (valid_chunk_idx (nd_shape A)) (all_indices index_map0) ->
  exists d d' np σ1 σ2 R,
    reshard self index_map0 σ = (Ok (d, self), σ1) /\
    _mode d = _REPLICA_MODE /\
    normalize_index_map (nd_shape A) index_map0 [] = Ok (index_map d) /\
    Forall (fun chunk => (length σ <= buf_of chunk)%nat)
           (flatten (_chunks_map d)) /\
    Forall (chunk_holds σ1 A) (flatten (_chunks_map self)) /\
    asnumpy d σ1 = (Ok (np, d'), σ2) /\
    load np σ2 = (Ok R, σ2) /\
    nd_shape R = nd_shape A /\
    (forall c,
       Exists (fun idx => region_mem (nd_shape A) idx c = true)
              (all_indices index_map0) ->
       nd_item R c = nd_item A c) /\
    (covers (nd_shape A) index_map0 -> nd_eq R A).
Proof.
  intros Hmode Hself Hdim Hshape Hholds Hcover Hdevs Hcomms Hknown Hnd Hkeys
         Hvalid.
  destruct (reshard_run self A index_map0 σ)
    as (d & σ1 & R & Hrun & Hm & _ & Hnorm & Hnew & Hframe
        & (d' & σ2 & Has) & HRs & HR); try assumption.
  exists d, d', (Array (-1) (length σ2) []), σ1, (σ2 ++ [R]), R.
  split; [exact Hrun|]. split; [exact Hm|]. split; [exact Hnorm|].
  split; [exact Hnew|]. split.
  { eapply Forall_impl; [exact Hholds|]. intros chunk Hh.
    apply (chunk_holds_agree A σ); [|exact Hh]. apply Hframe.
    destruct Hh as (_ & _ & _ & _ & v & axes & Hb & _).
    eapply lookup_lt_Some, Hb. }
  split; [exact Has|]. split.
  { apply (load_run _ _ R R); [|reflexivity]. cbn [arr_buf].
    rewrite lookup_app_r by lia. rewrite Nat.sub_diag. reflexivity. }
  split; [exact HRs|]. split; [exact HR|].
  intros Hcov. split; [exact HRs|]. intros c Hc. apply HR, Hcov.
  rewrite <- HRs. exact Hc.
Qed.

End ReshardRun.

Lemma in_bounds_1d (n : Z) (c : list Z) :
  in_bounds [n] c = true -> exists i, c = [i] /\ 0 <= i < n.
Proof.
  destruct c as [|i [|j c]]; cbn [in_bounds]; try discriminate.
  - rewrite andb_true_r, andb_true_iff, Z.leb_le, Z.ltb_lt.
    intros H. exists i. split; [reflexivity|exact H].
  - rewrite andb_false_r. discriminate.
Qed.

(** The array of four integers held in halves on two devices, given the
    overlapping regions [0:3] and [1:4]. *)
Lemma X21_reshard_then_asnumpy_witness :
  exists d d' np σ1 σ2 R,
    reshard operand_y
            [(0, IdxList [ITuple [ISlice (slice2 0 3)]]);
             (1, IdxList [ITuple [ISlice (slice2 1 4)]])]
            operands_store = (Ok (d, operand_y), σ1) /\
    _mode d = _REPLICA_MODE /\
    normalize_index_map (nd_shape (array1 [10; 20; 30; 40]))
      [(0, IdxList [ITuple [ISlice (slice2 0 3)]]);
       (1, IdxList [ITuple [ISlice (slice2 1 4)]])] [] = Ok (index_map d) /\
    Forall (fun chunk => (length operands_store <= buf_of chunk)%nat)
           (flatten (_chunks_map d)) /\
    Forall (chunk_holds σ1 (array1 [10; 20; 30; 40]))
           (flatten (_chunks_map operand_y)) /\
    asnumpy d σ1 = (Ok (np, d'), σ2) /\
    load np σ2 = (Ok R, σ2) /\
    nd_shape R = nd_shape (array1 [10; 20; 30; 40]) /\
    (forall c,
       Exists (fun idx =>
                 region_mem (nd_shape (array1 [10; 20; 30; 40])) idx c = true)
              (all_indices [(0, IdxList [ITuple [ISlice (slice2 0 3)]]);
                            (1, IdxList [ITuple [ISlice (slice2 1 4)]])]) ->
       nd_item R c = nd_item (array1 [10; 20; 30; 40]) c) /\
    (covers (nd_shape (array1 [10; 20; 30; 40]))
            [(0, IdxList [ITuple [ISlice (slice2 0 3)]]);
             (1, IdxList [ITuple [ISlice (slice2 1 4)]])] ->
     nd_eq R (array1 [10; 20; 30; 40])).
Proof.
  apply (X21_reshard_then_asnumpy operand_y (array1 [10; 20; 30; 40])
           [(0, IdxList [ITuple [ISlice (slice2 0 3)]]);
            (1, IdxList [ITuple [ISlice (slice2 1 4)]])]
           operands_store).
  - reflexivity.
  - reflexivity.
  - discriminate.
  - nonneg_shape.
  - repeat apply Forall_cons_2; [| |apply Forall_nil_2].
    + repeat split; [repeat constructor; reflexivity|].
      exists (array1 [10; 20]), [(0, 2, 1)]. repeat split.
      intros c Hc. apply (in_bounds_1d 2) in Hc. destruct Hc as (i & -> & Hi).
      assert (Hi' : i = 0 \/ i = 1) by lia.
      destruct Hi' as [-> | ->]; reflexivity.
    + repeat split; [repeat constructor; reflexivity|].
      exists (array1 [30; 40]), [(2, 4, 1)]. repeat split.
      intros c Hc. apply (in_bounds_1d 2) in Hc. destruct Hc as (i & -> & Hi).
      assert (Hi' : i = 0 \/ i = 1) by lia.
      destruct Hi' as [-> | ->]; reflexivity.
  - intros c Hc. apply (in_bounds_1d 4) in Hc. destruct Hc as (i & -> & Hi).
    assert (Hi' : i = 0 \/ i = 1 \/ i = 2 \/ i = 3) by lia.
    destruct Hi' as [-> | [-> | [-> | ->]]];
      first [left; reflexivity | right; left; reflexivity].
  - repeat constructor; simpl; tauto.
  - discriminate.
  - reflexivity.
  - distinct_keys.
  - repeat constructor; simpl; tauto.
  - repeat apply Forall_cons_2; [| |apply Forall_nil_2].
    + split; [|constructor]. split; [reflexivity|]. exists 0. reflexivity.
    + split; [|constructor]. split; [reflexivity|]. exists 1. reflexivity.
Defined.

(** ** reshard leaves the array as it is *)

Section ReshardFrame.

Context {V : Type} `{!Dtype V} `{!Runtime V}.

Lemma Forall_flatten_dict_set (P : _Chunk -> Prop) (cm : dict (list _Chunk))
      (dev : Z) (chunks : list _Chunk) :
  Forall P (flatten cm) -> Forall P chunks ->
  Forall P (flatten (dict_set cm dev chunks)).
Proof.
  intros Hcm Hc. unfold flatten in *.
  induction cm as [|[k v] cm IH]; cbn [dict_set flat_map snd].
  - rewrite app_nil_r. exact Hc.
  - cbn [flat_map snd] in Hcm. apply Forall_app in Hcm.
    destruct Hcm as [Hv Hcm]. destruct (k =? dev); cbn [flat_map snd];
      apply Forall_app; split; try assumption. apply IH, Hcm.
Qed.

Lemma fresh_new_chunk n (mode : _Mode V) (shape : list Z) (dev : Z)
      (idx : index) :
  fresh n (above n) (new_chunk mode shape dev idx).
Proof.
  unfold new_chunk. apply fresh_seq; [apply keeps_lift|]. intros dst_shape.
  destruct (existsb _ dst_shape); [apply fresh_raise|].
  apply (fresh_bind n (fun r => (n <= arr_buf r)%nat)).
  - destruct mode as [op|]; [apply fresh_alloc|].
    intros σ Hn. cbn [fst snd]. split; [rewrite length_app; lia|].
    split; [intros i Hi; apply lookup_app_l; lia|].
    intros r [= <-]. exact Hn.
  - intros data Hd. apply fresh_ret. exact Hd.
Qed.

Lemma fresh_new_chunks_map n (mode : _Mode V) (shape : list Z)
      (nim : dict (list index)) :
  fresh n (fun cm => Forall (above n) (flatten cm))
        (foldM (fun chunks_map '(dev, idxs) =>
                  chunks ← forM (new_chunk mode shape dev) idxs;
                  mret (dict_set chunks_map dev chunks))
               [] nim).
Proof.
  apply fresh_foldM; [constructor|]. intros cm [dev idxs] Hcm.
  apply (fresh_bind n (Forall (above n))).
  - apply fresh_forM. intros idx _. apply fresh_new_chunk.
  - intros chunks Hc. apply fresh_ret.
    apply Forall_flatten_dict_set; assumption.
Qed.

Lemma fresh_foldM_in n {A S} (I : S -> Prop) (f : S -> A -> M V S)
      (l : list A) (s : S) :
  I s -> (forall s x, In x l -> I s -> fresh n I (f s x)) ->
  fresh n I (foldM f s l).
Proof.
  revert s. induction l as [|x l IH]; intros s Hs Hf; cbn [foldM].
  - apply fresh_ret, Hs.
  - apply (fresh_bind n I); [apply Hf; [left; reflexivity|exact Hs]|].
    intros s' Hs'. apply IH; [exact Hs'|].
    intros s0 x0 Hx0. apply Hf. right. exact Hx0.
Qed.

(** One turn of the loop over the chunks of the array, for a chunk with no
    update pending: it is read, or copied and the copy written. *)
Lemma fresh_reshard_step n (self : _DistributedArray V)
      (state : list _Chunk * dict (list _Chunk)) (src : _Chunk) :
  chunk_updates src = [] ->
  Forall (above n) (flatten state.2) ->
  fresh n (fun st : list _Chunk * dict (list _Chunk) =>
             Forall (above n) (flatten st.2))
        (reshard_step self state src).
Proof.
  intros Hu Hm. destruct state as [old m]. cbn [snd] in Hm.
  unfold reshard_step.
  apply (fresh_bind n (fun c => c = src)).
  { intros σ Hn. rewrite (_apply_updates_none src _ σ Hu). cbn [fst snd].
    split; [exact Hn|]. split; [reflexivity|]. intros a [= <-]. reflexivity. }
  intros src' ->. rewrite Forall_forall in Hm.
  destruct (_mode self) as [op|].
  - apply (fresh_bind n (above n)); [apply fresh_Chunk_copy|].
    intros src_copy Hsc.
    apply (fresh_bind n (fun m' => Forall (above n) (flatten m'))).
    + apply fresh_map_chunks. intros dst Hin.
      apply fresh_apply_and_update_chunks; [exact Hsc|].
      apply Hm, list_elem_of_In, Hin.
    + intros m' Hm'. apply fresh_ret. exact Hm'.
  - apply (fresh_bind n (fun c => c = src)); [apply fresh_ret; reflexivity|].
    intros src_copy ->.
    apply (fresh_bind n (fun m' => Forall (above n) (flatten m'))).
    + apply fresh_map_chunks. intros dst Hin.
      apply fresh_copy_on_intersection. apply Hm, list_elem_of_In, Hin.
    + intros m' Hm'. apply fresh_ret. exact Hm'.
Qed.

Lemma keeps_reshard n (self : _DistributedArray V)
      (index_map0 : dict idxs_arg) :
  Forall (fun chunk => chunk_updates chunk = []) (flatten (_chunks_map self)) ->
  keeps n (reshard self index_map0).
Proof.
  intros Hu. unfold reshard.
  destruct (negb _); [apply keeps_raise|].
  apply keeps_bind; [apply keeps_lift|]. intros nim.
  apply (fresh_is_keeps n (fun _ => True)).
  apply (fresh_bind n (fun cm => Forall (above n) (flatten cm)));
    [apply fresh_new_chunks_map|]. intros cm Hcm.
  apply (fresh_bind n (fun st : list _Chunk * dict (list _Chunk) =>
                         Forall (above n) (flatten st.2))).
  - apply fresh_foldM_in; [exact Hcm|]. intros st src Hin Hst.
    apply fresh_reshard_step; [|exact Hst].
    rewrite Forall_forall in Hu. apply Hu, list_elem_of_In, Hin.
  - intros [old m] _. apply fresh_seq; [apply keeps_lift|]. intros d.
    apply fresh_ret. exact I.
Qed.

(** X22. [reshard] of an array with no update pending, in any mode and
    onto any index map, leaves every buffer that exists when it is called
    as it is, whether it returns or raises: the new chunks are new buffers,
    the chunks of the array are only read in replica mode, and in an
    operator mode each is copied first and the identity is written on the
    copy. *)
Theorem X22_reshard_keeps_buffers (self : _DistributedArray V)
        (index_map0 : dict idxs_arg) (σ : store V) :
  Forall (fun chunk => chunk_updates chunk = []) (flatten (_chunks_map self)) ->
  take (length σ) (reshard self index_map0 σ).2 = σ.
Proof. intros Hu. apply keeps_take, keeps_reshard, Hu. Qed.

End ReshardFrame.

(** The array of four integers in halves, in sum mode, given the
    overlapping regions [0:3] and [1:4]. *)
Lemma X22_reshard_keeps_buffers_witness :
  take (length operands_store)
       (reshard (DistributedArray [4] (_chunks_map operand_y) (Some sum_mode)
                                  [0; 1])
                [(0, IdxList [ITuple [ISlice (slice2 0 3)]]);
                 (1, IdxList [ITuple [ISlice (slice2 1 4)]])]
                operands_store).2 = operands_store.
Proof.
  apply (X22_reshard_keeps_buffers
           (DistributedArray [4] (_chunks_map operand_y) (Some sum_mode) [0; 1])
           [(0, IdxList [ITuple [ISlice (slice2 0 3)]]);
            (1, IdxList [ITuple [ISlice (slice2 1 4)]])]
           operands_store).
  repeat constructor.
Defined.

(** * A kernel call and its pending update *)

(** ** Two runs on stores that differ in buffers that are never used

    [sim B R m1 m2]: on two stores of one length that hold the same
    arrays outside the buffers of [B], the computations [m1] and [m2]
    return results related by [R], or raise the same exception; they leave
    stores that again agree outside [B], and neither has changed a buffer
    of [B]. *)

Section Sim.

Context {V : Type} `{!Dtype V} `{!Runtime V}.

Variable B : nat -> Prop.

Definition agree (σ1 σ2 : store V) : Prop :=
  length σ1 = length σ2 /\
  (forall i, B i -> (i < length σ1)%nat) /\
  forall i, ~ B i -> σ1 !! i = σ2 !! i.

Definition res_rel {A1 A2} (R : A1 -> A2 -> Prop) (r1 : result A1)
           (r2 : result A2) : Prop :=
  match r1, r2 with
  | Ok a, Ok b => R a b
  | Raise e1, Raise e2 => e1 = e2
  | _, _ => False
  end.

Definition sim {A1 A2} (R : A1 -> A2 -> Prop) (m1 : M V A1) (m2 : M V A2)
  : Prop :=
  forall σ1 σ2 : store V,
    agree σ1 σ2 ->
    res_rel R (m1 σ1).1 (m2 σ2).1 /\
    agree (m1 σ1).2 (m2 σ2).2 /\
    forall i, B i -> (m1 σ1).2 !! i = σ1 !! i /\ (m2 σ2).2 !! i = σ2 !! i.

Lemma sim_ret {A1 A2} (R : A1 -> A2 -> Prop) (a : A1) (b : A2) :
  R a b -> sim R (mret a) (mret b).
Proof.
  intros H σ1 σ2 Hag. split; [exact H|]. split; [exact Hag|].
  intros i _. split; reflexivity.
Qed.

Lemma sim_raise {A1 A2} (R : A1 -> A2 -> Prop) (e : exn) :
  sim R (raise e) (raise e).
Proof.
  intros σ1 σ2 Hag. split; [reflexivity|]. split; [exact Hag|].
  intros i _. split; reflexivity.
Qed.

Lemma sim_lift {A1 A2} (R : A1 -> A2 -> Prop) (r1 : result A1)
      (r2 : result A2) :
  res_rel R r1 r2 -> sim R (lift r1) (lift r2).
Proof.
  intros H σ1 σ2 Hag. split; [exact H|]. split; [exact Hag|].
  intros i _. split; reflexivity.
Qed.

Lemma sim_lift_eq {A} (r : result A) : sim eq (lift r) (lift r).
Proof. apply sim_lift. destruct r; reflexivity. Qed.

Lemma sim_bind {A1 A2 B1 B2} (R : A1 -> A2 -> Prop) (Q : B1 -> B2 -> Prop)
      (m1 : M V A1) (m2 : M V A2) (k1 : A1 -> M V B1) (k2 : A2 -> M V B2) :
  sim R m1 m2 -> (forall a b, R a b -> sim Q (k1 a) (k2 b)) ->
  sim Q (m1 ≫= k1) (m2 ≫= k2).
Proof.
  intros Hm Hk σ1 σ2 Hag. destruct (Hm σ1 σ2 Hag) as (Hr & Hag1 & Hfr).
  unfold mbind, M_bind.
  destruct (m1 σ1) as [[a|e1] σ1'], (m2 σ2) as [[b|e2] σ2'];
    cbn [fst snd res_rel] in *; try contradiction.
  - destruct (Hk a b Hr σ1' σ2' Hag1) as (Hr' & Hag' & Hfr').
    split; [exact Hr'|]. split; [exact Hag'|]. intros i Hi.
    destruct (Hfr i Hi) as [E1 E2]. destruct (Hfr' i Hi) as [E1' E2'].
    split; congruence.
  - split; [exact Hr|]. split; [exact Hag1|exact Hfr].
Qed.

Lemma sim_weaken {A1 A2} (R Q : A1 -> A2 -> Prop) (m1 : M V A1) (m2 : M V A2) :
  sim R m1 m2 -> (forall a b, R a b -> Q a b) -> sim Q m1 m2.
Proof.
  intros Hm HRQ σ1 σ2 Hag. destruct (Hm σ1 σ2 Hag) as (Hr & Hrest).
  split; [|exact Hrest].
  destruct (m1 σ1).1, (m2 σ2).1; cbn [res_rel] in *; auto.
Qed.

Lemma sim_forM {A1 A2 B1 B2} (P : A1 -> A2 -> Prop) (R : B1 -> B2 -> Prop)
      (f1 : A1 -> M V B1) (f2 : A2 -> M V B2) (l1 : list A1) (l2 : list A2) :
  Forall2 P l1 l2 ->
  (forall x y, P x y -> sim R (f1 x) (f2 y)) ->
  sim (Forall2 R) (forM f1 l1) (forM f2 l2).
Proof.
  intros Hl Hf. induction Hl as [|x y l1 l2 Hxy Hl IH]; cbn [forM].
  - apply sim_ret. constructor.
  - eapply sim_bind; [apply Hf, Hxy|]. intros b1 b2 Hb.
    eapply sim_bind; [exact IH|]. intros bs1 bs2 Hbs.
    apply sim_ret. constructor; assumption.
Qed.

Lemma sim_foldM {A S1 S2} (I : S1 -> S2 -> Prop)
      (f1 : S1 -> A -> M V S1) (f2 : S2 -> A -> M V S2) (l : list A)
      (s1 : S1) (s2 : S2) :
  I s1 s2 ->
  (forall s1 s2 x, In x l -> I s1 s2 -> sim I (f1 s1 x) (f2 s2 x)) ->
  sim I (foldM f1 s1 l) (foldM f2 s2 l).
Proof.
  revert s1 s2. induction l as [|x l IH]; intros s1 s2 Hs Hf; cbn [foldM].
  - apply sim_ret, Hs.
  - eapply sim_bind; [apply Hf; [left; reflexivity|exact Hs]|].
    intros t1 t2 Ht. apply IH; [exact Ht|].
    intros u1 u2 y Hy. apply Hf. right. exact Hy.
Qed.

(** *** The store operations *)

Lemma sim_load (r : array) : ~ B (arr_buf r) -> sim eq (load r) (load r).
Proof.
  intros Hr σ1 σ2 Hag. pose proof Hag as (Hlen & Hb & Hsame).
  unfold load. rewrite <- (Hsame _ Hr).
  destruct (σ1 !! arr_buf r) as [a|]; cbn [fst snd].
  - split; [|split; [exact Hag|auto]].
    destruct (through a (arr_view r)); reflexivity.
  - split; [reflexivity|]. split; [exact Hag|auto].
Qed.

Lemma sim_subscript (r : array) (idx : index) :
  ~ B (arr_buf r) ->
  sim (fun a b => a = b /\ arr_buf a = arr_buf r /\ arr_dev a = arr_dev r)
      (subscript r idx) (subscript r idx).
Proof.
  intros Hr. unfold subscript.
  eapply sim_bind; [apply sim_load, Hr|]. intros a ? <-.
  eapply sim_bind; [apply sim_lift_eq|]. intros x ? <-.
  apply sim_ret. repeat split.
Qed.

Lemma agree_insert (σ1 σ2 : store V) (b : nat) (a : ndarray V) :
  agree σ1 σ2 -> agree (<[b := a]> σ1) (<[b := a]> σ2).
Proof.
  intros (Hlen & Hb & Hsame). split; [|split].
  - rewrite !length_insert. exact Hlen.
  - intros i Hi. rewrite length_insert. apply Hb, Hi.
  - intros i Hi. destruct (Nat.eq_dec b i) as [->|Hne].
    + destruct (Nat.lt_ge_cases i (length σ1)) as [Hlt|Hge].
      * rewrite !list_lookup_insert_eq by lia. reflexivity.
      * rewrite !lookup_ge_None_2 by (rewrite length_insert; lia).
        reflexivity.
    + rewrite !list_lookup_insert_ne by exact Hne. apply Hsame, Hi.
Qed.

Lemma agree_app (σ1 σ2 ext : store V) :
  agree σ1 σ2 -> agree (σ1 ++ ext) (σ2 ++ ext).
Proof.
  intros (Hlen & Hb & Hsame). split; [|split].
  - rewrite !length_app. lia.
  - intros i Hi. rewrite length_app. specialize (Hb i Hi). lia.
  - intros i Hi. destruct (Nat.lt_ge_cases i (length σ1)) as [Hlt|Hge].
    + rewrite !lookup_app_l by lia. apply Hsame, Hi.
    + rewrite !lookup_app_r by lia. rewrite Hlen. reflexivity.
Qed.

Lemma sim_assign (r : array) (idx : index) (v : ndarray V) :
  ~ B (arr_buf r) -> sim eq (assign r idx v) (assign r idx v).
Proof.
  intros Hr σ1 σ2 Hag. pose proof Hag as (Hlen & Hb & Hsame).
  unfold assign. rewrite <- (Hsame _ Hr).
  destruct (σ1 !! arr_buf r) as [a|]; cbn [fst snd];
    [|split; [reflexivity|split; [exact Hag|auto]]].
  destruct (update_through a (arr_view r) _) as [a'|e]; cbn [fst snd];
    [|split; [reflexivity|split; [exact Hag|auto]]].
  split; [reflexivity|]. split; [apply agree_insert, Hag|].
  intros i Hi.
  assert (Hne : arr_buf r <> i) by (intros E; apply Hr; rewrite E; exact Hi).
  rewrite !list_lookup_insert_ne by exact Hne. split; reflexivity.
Qed.

Lemma sim_alloc dev (a : ndarray V) :
  sim (fun r1 r2 => r1 = r2 /\ ~ B (arr_buf r1) /\ arr_dev r1 = dev)
      (alloc dev a) (alloc dev a).
Proof.
  intros σ1 σ2 Hag. pose proof Hag as (Hlen & Hb & Hsame).
  unfold alloc. cbn [fst snd res_rel]. split; [|split].
  - rewrite Hlen. split; [reflexivity|]. split; [|reflexivity].
    cbn [arr_buf]. intros Hi. apply Hb in Hi. lia.
  - apply agree_app, Hag.
  - intros i Hi. pose proof (Hb i Hi).
    rewrite !lookup_app_l by lia. split; reflexivity.
Qed.

Lemma sim_alloc_empty dev (shape : list Z) :
  sim (fun r1 r2 => r1 = r2 /\ ~ B (arr_buf r1) /\ arr_dev r1 = dev)
      (alloc_empty dev shape) (alloc_empty dev shape).
Proof.
  intros σ1 σ2 Hag. pose proof Hag as (Hlen & Hb & Hsame).
  unfold alloc_empty. cbn [fst snd res_rel]. split; [|split].
  - rewrite Hlen. split; [reflexivity|]. split; [|reflexivity].
    cbn [arr_buf]. intros Hi. apply Hb in Hi. lia.
  - rewrite Hlen. apply agree_app, Hag.
  - intros i Hi. pose proof (Hb i Hi).
    rewrite !lookup_app_l by lia. split; reflexivity.
Qed.

Lemma sim_copy_to dev (r : array) :
  ~ B (arr_buf r) ->
  sim (fun r1 r2 => r1 = r2 /\ ~ B (arr_buf r1) /\ arr_dev r1 = dev)
      (copy_to dev r) (copy_to dev r).
Proof.
  intros Hr. unfold copy_to.
  eapply sim_bind; [apply sim_load, Hr|]. intros a ? <-. apply sim_alloc.
Qed.

(** *** Chunks *)

(** An array object that the two runs may read. *)
Definition readable (r : array) : Prop := ~ B (arr_buf r).

Lemma sim_ManagedData_copy (m : _ManagedData) :
  readable (managed_data m) ->
  sim (fun m1 m2 => m1 = m2 /\ readable (managed_data m1) /\
                    arr_dev (managed_data m1) = arr_dev (managed_data m))
      (_ManagedData_copy m) (_ManagedData_copy m).
Proof.
  intros Hr. unfold _ManagedData_copy.
  eapply sim_bind; [apply sim_copy_to, Hr|]. intros d ? (<- & Hd & Hdev).
  apply sim_ret. repeat split; assumption.
Qed.

Lemma sim_transfer_async (self : _DistributedArray V) (m : _ManagedData)
      (dst_dev : Z) :
  readable (managed_data m) ->
  sim (fun t1 t2 => t1 = t2 /\ readable (transfer_data t1))
      (_transfer_async self m dst_dev) (_transfer_async self m dst_dev).
Proof.
  intros Hr. unfold _transfer_async.
  destruct (arr_dev (managed_data m) =? dst_dev).
  { apply sim_ret. split; [reflexivity|exact Hr]. }
  eapply sim_bind; [apply sim_load, Hr|]. intros a ? <-.
  eapply sim_bind; [apply sim_alloc_empty|]. intros d ? (<- & Hd & _).
  destruct (negb nccl_dtype_known); [apply sim_raise|].
  destruct (negb (existsb _ _)); [apply sim_raise|].
  destruct (negb (existsb _ _)); [apply sim_raise|].
  eapply sim_bind; [apply sim_assign, Hd|]. intros _ _ _.
  apply sim_ret. split; [reflexivity|exact Hd].
Qed.

Lemma sim_apply_update (c1 c2 : _Chunk) (mode : _Mode V) (u : _PartialUpdate) :
  chunk_data c1 = chunk_data c2 ->
  readable (chunk_data c2) -> readable (transfer_data u.1) ->
  sim eq (apply_update c1 mode u) (apply_update c2 mode u).
Proof.
  intros Hd Hc Hu. unfold apply_update. rewrite Hd.
  destruct u as [new_data idx]. cbn [fst] in Hu. destruct mode as [op|].
  - eapply sim_bind; [apply sim_subscript, Hc|].
    intros target ? (<- & Hb & _).
    eapply sim_bind; [apply sim_load; unfold readable in Hc; rewrite Hb; exact Hc|].
    intros x1 ? <-.
    eapply sim_bind; [apply sim_load, Hu|]. intros x2 ? <-.
    eapply sim_bind; [apply sim_lift_eq|]. intros r ? <-.
    destruct (negb _); [apply sim_raise|]. apply sim_assign, Hc.
  - eapply sim_bind; [apply sim_load, Hu|]. intros x ? <-.
    apply sim_assign, Hc.
Qed.

(** The payloads of the pending updates may be read. *)
Definition readable_queue (updates : list _PartialUpdate) : Prop :=
  Forall (fun u => readable (transfer_data u.1)) updates.

Lemma sim_apply_updates_from (c1 c2 : _Chunk) (mode : _Mode V)
      (q : list _PartialUpdate) :
  chunk_data c1 = chunk_data c2 -> chunk_index c1 = chunk_index c2 ->
  readable (chunk_data c2) -> readable_queue q ->
  sim (fun a b => a = b /\ b = drained c2)
      (_ ← forM (apply_update c1 mode) q;
       mret (Chunk (chunk_data c1) (chunk_index c1) []))
      (_ ← forM (apply_update c2 mode) q;
       mret (Chunk (chunk_data c2) (chunk_index c2) [])).
Proof.
  intros Hd Hi Hc Hq.
  eapply sim_bind.
  - apply (sim_forM (fun u1 u2 => u1 = u2 /\ readable (transfer_data u1.1)) eq).
    + apply Forall_Forall2_diag. eapply Forall_impl; [exact Hq|].
      intros u Hu. split; [reflexivity|exact Hu].
    + intros u ? [<- Hu]. apply sim_apply_update; assumption.
  - intros _ _ _. apply sim_ret. rewrite Hd, Hi. split; reflexivity.
Qed.

Lemma sim_apply_updates (c : _Chunk) (mode : _Mode V) :
  readable (chunk_data c) -> readable_queue (chunk_updates c) ->
  sim (fun a b => a = b /\ b = drained c)
      (_apply_updates c mode) (_apply_updates c mode).
Proof.
  intros Hc Hq. unfold _apply_updates.
  apply sim_apply_updates_from; auto.
Qed.

(** Two chunks that differ at most in [u] at the front of the queue of
    the first; the chunk that has it is in a buffer of [B]. *)
Variable u0 : _PartialUpdate.

Definition chunk_sim (c1 c2 : _Chunk) : Prop :=
  chunk_data c1 = chunk_data c2 /\
  chunk_index c1 = chunk_index c2 /\
  readable_queue (chunk_updates c2) /\
  ((chunk_updates c1 = chunk_updates c2 /\ readable (chunk_data c2)) \/
   (chunk_updates c1 = u0 :: chunk_updates c2 /\ B (buf_of c2))).

Lemma chunk_sim_same (c1 c2 : _Chunk) :
  chunk_sim c1 c2 -> readable (chunk_data c2) -> c1 = c2.
Proof.
  intros (Hd & Hi & _ & [[Hu _]|[_ Hb]]) Hr; [|contradiction].
  destruct c1, c2; cbn in *. congruence.
Qed.

Lemma chunk_sim_push (c1 c2 : _Chunk) (u : _PartialUpdate) :
  chunk_sim c1 c2 -> readable (transfer_data u.1) ->
  chunk_sim (Chunk (chunk_data c1) (chunk_index c1) (chunk_updates c1 ++ [u]))
     (Chunk (chunk_data c2) (chunk_index c2) (chunk_updates c2 ++ [u])).
Proof.
  intros (Hd & Hi & Hq & Hu) Hr. unfold chunk_sim, buf_of. cbn.
  split; [exact Hd|]. split; [exact Hi|]. split.
  - apply Forall_app. split; [exact Hq|]. constructor; [exact Hr|constructor].
  - destruct Hu as [[Hu Hb]|[Hu Hb]]; [left|right]; rewrite Hu;
      split; try assumption; reflexivity.
Qed.

Lemma sim_apply_and_update_chunks (self : _DistributedArray V)
      (op_mode : _OpMode V) (shape : list Z) (src dst1 dst2 : _Chunk) :
  readable (chunk_data src) -> chunk_sim dst1 dst2 ->
  sim (fun r1 r2 => chunk_sim r1 r2 /\ chunk_data r2 = chunk_data dst2)
      (_apply_and_update_chunks self op_mode shape src dst1)
      (_apply_and_update_chunks self op_mode shape src dst2).
Proof.
  intros Hs Hrc. pose proof Hrc as (Hd & Hi & _).
  unfold _apply_and_update_chunks. rewrite Hd, Hi.
  eapply sim_bind; [apply sim_lift_eq|]. intros [region|] ? <-.
  2:{ apply sim_ret. split; [exact Hrc|reflexivity]. }
  eapply sim_bind; [apply sim_lift_eq|]. intros src_new_idx ? <-.
  eapply sim_bind; [apply sim_lift_eq|]. intros dst_new_idx ? <-.
  eapply sim_bind; [apply sim_subscript, Hs|]. intros part ? (<- & Hb & _).
  assert (Hpart : readable part) by (unfold readable; rewrite Hb; exact Hs).
  eapply (sim_bind (fun m1 m2 => m1 = m2 /\ readable (managed_data m1))).
  { destruct (negb (idempotent op_mode)).
    - eapply sim_weaken; [apply sim_ManagedData_copy; exact Hpart|].
      intros m1 m2 (-> & Hm & _). split; [reflexivity|exact Hm].
    - apply sim_ret. split; [reflexivity|exact Hpart]. }
  intros data ? (<- & Hdata).
  eapply sim_bind; [apply sim_transfer_async, Hdata|].
  intros update ? (<- & Hup).
  assert (Hnew : chunk_sim (Chunk (chunk_data dst2) (chunk_index dst2)
                           (chunk_updates dst1 ++ [(update, dst_new_idx)]))
                    (Chunk (chunk_data dst2) (chunk_index dst2)
                           (chunk_updates dst2 ++ [(update, dst_new_idx)]))).
  { rewrite <- Hd at 1. rewrite <- Hi at 1. apply chunk_sim_push; assumption. }
  destruct (negb (idempotent op_mode)).
  - eapply sim_bind; [apply sim_assign, Hs|]. intros _ _ _.
    apply sim_ret. split; [exact Hnew|reflexivity].
  - apply sim_ret. split; [exact Hnew|reflexivity].
Qed.

Lemma sim_copy_on_intersection (self : _DistributedArray V) (shape : list Z)
      (src dst1 dst2 : _Chunk) :
  readable (chunk_data src) -> chunk_sim dst1 dst2 ->
  sim (fun r1 r2 => chunk_sim r1 r2 /\ chunk_data r2 = chunk_data dst2)
      (_copy_on_intersection self shape src dst1)
      (_copy_on_intersection self shape src dst2).
Proof.
  intros Hs Hrc. pose proof Hrc as (Hd & Hi & _).
  unfold _copy_on_intersection. rewrite Hd, Hi.
  destruct (negb _); [apply sim_raise|].
  eapply sim_bind; [apply sim_lift_eq|]. intros [region|] ? <-.
  2:{ apply sim_ret. split; [exact Hrc|reflexivity]. }
  eapply sim_bind; [apply sim_lift_eq|]. intros src_new_idx ? <-.
  eapply sim_bind; [apply sim_lift_eq|]. intros dst_new_idx ? <-.
  eapply sim_bind; [apply sim_subscript, Hs|]. intros part ? (<- & Hb & _).
  assert (Hpart : readable part) by (unfold readable; rewrite Hb; exact Hs).
  eapply sim_bind; [apply sim_transfer_async; exact Hpart|].
  intros update ? (<- & Hup).
  apply sim_ret. split; [|reflexivity].
  rewrite <- Hd at 1. rewrite <- Hi at 1. apply chunk_sim_push; assumption.
Qed.

(** *** The loops of [_all_reduce_intersections] *)

(** Two lists of chunks, related chunk by chunk, on the data [datas]. *)
Definition chunks_sim (datas : list array) (l1 l2 : list _Chunk) : Prop :=
  Forall2 chunk_sim l1 l2 /\ map chunk_data l2 = datas.

Lemma chunks_sim_insert (datas : list array) (l1 l2 : list _Chunk) (j : nat)
      (c1 c2 d2 : _Chunk) :
  chunks_sim datas l1 l2 -> l2 !! j = Some d2 -> chunk_sim c1 c2 ->
  chunk_data c2 = chunk_data d2 ->
  chunks_sim datas (<[j := c1]> l1) (<[j := c2]> l2).
Proof.
  intros [Hl Hdat] Hj Hc Hd. split.
  - apply Forall2_insert; assumption.
  - rewrite list_fmap_insert. rewrite Hd.
    rewrite <- Hdat. apply list_insert_id.
    rewrite list_lookup_fmap, Hj. reflexivity.
Qed.

Lemma sim_list_get (datas : list array) (l1 l2 : list _Chunk) (j : nat) :
  chunks_sim datas l1 l2 ->
  sim (fun c1 c2 => chunk_sim c1 c2 /\ l2 !! j = Some c2)
      (lift (list_get l1 j)) (lift (list_get l2 j)).
Proof.
  intros [Hl _]. apply sim_lift. unfold list_get.
  destruct (l1 !! j) as [c1|] eqn:E1.
  - destruct (Forall2_lookup_l _ _ _ _ _ Hl E1) as (c2 & E2 & Hc).
    rewrite E2. cbn. split; [exact Hc|reflexivity].
  - apply lookup_ge_None_1 in E1. rewrite (Forall2_length _ _ _ Hl) in E1.
    rewrite (lookup_ge_None_2 l2 j) by exact E1. reflexivity.
Qed.

Lemma sim_onto_each (f : _Chunk -> _Chunk -> M V _Chunk) (src : _Chunk)
      (datas : list array) (js : list nat) (l1 l2 : list _Chunk) :
  (forall dst1 dst2,
     chunk_sim dst1 dst2 ->
     sim (fun r1 r2 => chunk_sim r1 r2 /\ chunk_data r2 = chunk_data dst2)
         (f src dst1) (f src dst2)) ->
  chunks_sim datas l1 l2 ->
  sim (chunks_sim datas) (onto_each f src js l1) (onto_each f src js l2).
Proof.
  intros Hf Hl. unfold onto_each.
  apply (sim_foldM (chunks_sim datas)); [exact Hl|].
  intros s1 s2 j _ Hs.
  eapply sim_bind; [apply (sim_list_get datas), Hs|].
  intros dst1 dst2 [Hrc Hj].
  eapply sim_bind; [apply Hf, Hrc|]. intros r1 r2 [Hr Hd].
  apply sim_ret. apply (chunks_sim_insert datas s1 s2 j r1 r2 dst2); assumption.
Qed.

(** One turn of a loop of [_all_reduce_intersections]: the chunk at [i]
    has its updates applied and is sent to the chunks at [js]. *)
Definition turn (f : _Chunk -> _Chunk -> M V _Chunk) (mode : _Mode V)
           (js : nat -> list nat) (l : list _Chunk) (i : nat)
  : M V (list _Chunk) :=
  src_chunk ← lift (list_get l i);
  src_chunk ← _apply_updates src_chunk mode;
  let l := <[i := src_chunk]> l in
  onto_each f src_chunk (js i) l.

Lemma sim_turn (f : _Chunk -> _Chunk -> M V _Chunk) (mode : _Mode V)
      (js : nat -> list nat) (datas : list array) (l1 l2 : list _Chunk)
      (i : nat) :
  (forall src dst1 dst2,
     readable (chunk_data src) -> chunk_sim dst1 dst2 ->
     sim (fun r1 r2 => chunk_sim r1 r2 /\ chunk_data r2 = chunk_data dst2)
         (f src dst1) (f src dst2)) ->
  (forall r, datas !! i = Some r -> readable r) ->
  chunks_sim datas l1 l2 ->
  sim (chunks_sim datas) (turn f mode js l1 i) (turn f mode js l2 i).
Proof.
  intros Hf Hi Hl. unfold turn.
  eapply sim_bind; [apply (sim_list_get datas), Hl|].
  intros c1 c2 [Hrc Hj].
  assert (Hr : readable (chunk_data c2)).
  { apply Hi. destruct Hl as [_ <-]. rewrite list_lookup_fmap, Hj.
    reflexivity. }
  rewrite (chunk_sim_same c1 c2 Hrc Hr).
  eapply sim_bind; [apply sim_apply_updates; [exact Hr|apply Hrc]|].
  intros s ? (<- & ->).
  apply sim_onto_each; [intros d1 d2; apply Hf; exact Hr|].
  apply (chunks_sim_insert datas l1 l2 i _ _ c2); try assumption; [|reflexivity].
  unfold chunk_sim, drained. cbn.
  split; [reflexivity|]. split; [reflexivity|]. split; [constructor|].
  left. split; [reflexivity|exact Hr].
Qed.

Lemma sim_turns (f : _Chunk -> _Chunk -> M V _Chunk) (mode : _Mode V)
      (js : nat -> list nat) (datas : list array) (ks : list nat)
      (l1 l2 : list _Chunk) :
  (forall src dst1 dst2,
     readable (chunk_data src) -> chunk_sim dst1 dst2 ->
     sim (fun r1 r2 => chunk_sim r1 r2 /\ chunk_data r2 = chunk_data dst2)
         (f src dst1) (f src dst2)) ->
  (forall i r, In i ks -> datas !! i = Some r -> readable r) ->
  chunks_sim datas l1 l2 ->
  sim (chunks_sim datas) (foldM (turn f mode js) l1 ks) (foldM (turn f mode js) l2 ks).
Proof.
  intros Hf Hi Hl. apply (sim_foldM (chunks_sim datas)); [exact Hl|].
  intros s1 s2 i Hin Hs. apply sim_turn; [exact Hf| |exact Hs].
  intros r. apply Hi, Hin.
Qed.

End Sim.


(** ** [to_replica_mode] returns

    An op-mode array with well-formed chunks in different buffers, on one
    device or on devices that have communicators: the conversion returns an
    array in replica mode with well-formed chunks and nothing pending. *)

Section Shapes.

Context {V : Type} `{!Dtype V} `{!Runtime V}.

(** Every buffer of the first store is in the second, with its shape. *)
Definition sub (σ σ' : store V) : Prop :=
  forall i a, σ !! i = Some a ->
              exists a', σ' !! i = Some a' /\ nd_shape a' = nd_shape a.

Lemma sub_refl (σ : store V) : sub σ σ.
Proof. intros i a H. exists a. split; [exact H|reflexivity]. Qed.

Lemma sub_trans (σ1 σ2 σ3 : store V) : sub σ1 σ2 -> sub σ2 σ3 -> sub σ1 σ3.
Proof.
  intros H12 H23 i a H. destruct (H12 i a H) as (a' & H' & Hs').
  destruct (H23 i a' H') as (a'' & H'' & Hs''). exists a''.
  split; [exact H''|congruence].
Qed.

Lemma sub_app (σ ext : store V) : sub σ (σ ++ ext).
Proof.
  intros i a H. exists a. split; [|reflexivity].
  rewrite lookup_app_l; [exact H|]. eapply lookup_lt_Some, H.
Qed.

Lemma sub_insert (σ : store V) (b : nat) (a a' : ndarray V) :
  σ !! b = Some a -> nd_shape a' = nd_shape a -> sub σ (<[b := a']> σ).
Proof.
  intros Hb Hs i x Hi. destruct (Nat.eq_dec b i) as [<-|Hne].
  - exists a'. split; [|congruence].
    apply list_lookup_insert_eq. eapply lookup_lt_Some, Hb.
  - exists x. split; [|reflexivity].
    rewrite list_lookup_insert_ne by exact Hne. exact Hi.
Qed.

(** Stores that keep the buffers below their length, buffer by buffer
    of one shape. *)
Lemma sub_frame (σ σ' : store V) (b : nat) (a a' : ndarray V) :
  σ !! b = Some a -> σ' !! b = Some a' -> nd_shape a' = nd_shape a ->
  (forall i, (i < length σ)%nat -> i <> b -> σ' !! i = σ !! i) ->
  sub σ σ'.
Proof.
  intros Hb Hb' Hs Hframe i x Hi. destruct (Nat.eq_dec i b) as [->|Hne].
  - exists a'. split; [exact Hb'|congruence].
  - exists x. split; [|reflexivity]. rewrite Hframe; [exact Hi| |exact Hne].
    eapply lookup_lt_Some, Hi.
Qed.

Lemma through_shape (chain : list index) (a a' p : ndarray V) :
  nd_shape a' = nd_shape a -> through a chain = Ok p ->
  exists p', through a' chain = Ok p' /\ nd_shape p' = nd_shape p.
Proof.
  revert a a'. induction chain as [|idx chain IH]; intros a a' Hs H.
  - injection H as <-. exists a'. split; [reflexivity|exact Hs].
  - cbn [through] in *. unfold getitem in *. rewrite Hs.
    destruct (axes_of (nd_shape a) idx) as [axes|e]; [|discriminate].
    cbn [mbind result_bind] in *.
    eapply IH; [|exact H]. reflexivity.
Qed.

Lemma load_sub (r : array) (σ σ' : store V) (p : ndarray V) :
  sub σ σ' -> load r σ = (Ok p, σ) ->
  exists p', load r σ' = (Ok p', σ') /\ nd_shape p' = nd_shape p.
Proof.
  intros Hsub. unfold load.
  destruct (σ !! arr_buf r) as [a|] eqn:E; [|discriminate].
  destruct (Hsub _ _ E) as (a' & E' & Hs). rewrite E'. intros H.
  injection H as H.
  destruct (through_shape _ a a' p Hs H) as (p' & Hp' & Hps).
  exists p'. rewrite Hp'. split; [reflexivity|exact Hps].
Qed.

Lemma well_formed_sub (shape : list Z) (σ σ' : store V) (chunk : _Chunk) :
  sub σ σ' -> well_formed_chunk shape σ chunk ->
  well_formed_chunk shape σ' chunk.
Proof.
  intros Hsub (a & axes & (Hv & Hb & Hl & Hp & Hax & Hs) & Hups).
  destruct (Hsub _ _ Hb) as (a' & Hb' & Hs').
  exists a', axes. split.
  - unfold chunk_ok. repeat match goal with |- _ /\ _ => split end;
      try assumption. congruence.
  - eapply Forall_impl; [exact Hups|]. cbv beta.
    intros u (p & uaxes & Hload & Hpos & Hua & Hps).
    destruct (load_sub _ σ σ' p Hsub Hload) as (p' & Hload' & Hps').
    exists p', uaxes. unfold update_ok.
    repeat match goal with |- _ /\ _ => split end; try assumption.
    congruence.
Qed.

Lemma well_formed_all_sub (shape : list Z) (σ σ' : store V)
      (l : list _Chunk) :
  sub σ σ' -> Forall (well_formed_chunk shape σ) l ->
  Forall (well_formed_chunk shape σ') l.
Proof.
  intros Hsub Hl. eapply Forall_impl; [exact Hl|].
  intros c. apply well_formed_sub, Hsub.
Qed.

(** *** One update, as a function of what the chunk and the payload hold *)

Definition applied (mode : _Mode V) (a : ndarray V) (idx : index)
           (p : ndarray V) : result (ndarray V) :=
  match mode with
  | Some op =>
      x1 ← getitem a idx;
      r ← ufunc2 (func op) x1 p;
      if negb (list_eqb Z.eqb (nd_shape r) (nd_shape x1)) then Raise ValueError
      else setitem a idx r
  | None => setitem a idx p
  end.

Lemma apply_update_applied (chunk : _Chunk) (mode : _Mode V)
      (u : _PartialUpdate) (σ : store V) (a p : ndarray V) :
  arr_view (chunk_data chunk) = [] ->
  σ !! buf_of chunk = Some a ->
  load (transfer_data u.1) σ = (Ok p, σ) ->
  apply_update chunk mode u σ =
    match applied mode a u.2 p with
    | Ok a' => (Ok tt, <[buf_of chunk := a']> σ)
    | Raise e => (Raise e, σ)
    end.
Proof.
  intros Hv Hb Hload. destruct u as [new_data idx]. cbn [fst snd] in *.
  unfold buf_of in *. unfold load in Hload.
  destruct (σ !! arr_buf (transfer_data new_data)) as [pa|] eqn:Ep;
    [|discriminate].
  injection Hload as Hload.
  unfold apply_update, applied, subscript, load, assign, lift, raise.
  unfold mbind, M_bind, mret, M_ret.
  destruct mode as [op|].
  - cbn [arr_buf arr_view]. rewrite Hv. cbn [app through].
    rewrite Hb. cbn [through].
    destruct (getitem a idx) as [x1|e] eqn:Hget; cbn [result_bind];
      [|reflexivity].
    cbn [arr_buf arr_view].
    rewrite Hb. cbn [through]. rewrite Hget. cbn [mbind result_bind].
    rewrite Ep, Hload.
    destruct (ufunc2 (func op) x1 p) as [r|e]; cbn [result_bind];
      [|reflexivity].
    destruct (negb _); [reflexivity|].
    rewrite Hb. cbn [update_through].
    destruct (setitem a idx r); reflexivity.
  - rewrite Ep, Hload, Hb, Hv. cbn [update_through].
    destruct (setitem a idx p); reflexivity.
Qed.

Lemma applied_total (mode : _Mode V) (a p : ndarray V) (idx : index)
      (uaxes : list (Z * Z * Z)) :
  Forall pos_step idx ->
  axes_of (nd_shape a) idx = Ok uaxes ->
  nd_shape p = view_shape uaxes ->
  exists a', applied mode a idx p = Ok a' /\ nd_shape a' = nd_shape a.
Proof.
  intros Hpos Hax Hp. pose proof (axes_of_pos _ _ _ Hpos Hax) as Hpos'.
  unfold applied. destruct mode as [op|].
  - rewrite (getitem_ok a idx uaxes Hax). cbn [mbind result_bind].
    set (x1 := NDArray (view_shape uaxes) _).
    destruct (ufunc2_same_shape (func op) x1 p) as (r & Hr & Hrs & _);
      [exact Hp|].
    rewrite Hr. cbn [mbind result_bind]. rewrite Hrs.
    rewrite (list_eqb_refl Z.eqb) by apply Z.eqb_refl. cbn [negb].
    destruct (setitem_same_shape a idx r uaxes Hax Hpos') as (a' & Ha & Hs & _);
      [rewrite Hrs; reflexivity|].
    exists a'. split; assumption.
  - destruct (setitem_same_shape a idx p uaxes Hax Hpos' Hp) as (a' & Ha & Hs & _).
    exists a'. split; assumption.
Qed.

End Shapes.

Section Total.

Context {V : Type} `{!Dtype V} `{!Runtime V}.

Variable self : _DistributedArray V.
Variable shape : list Z.
Hypothesis Hshape : Forall (fun n => 0 <= n) shape.

(** [_apply_updates] on a well-formed chunk. *)
Lemma apply_updates_queue (chunk : _Chunk) (mode : _Mode V)
      (axes : list (Z * Z * Z)) (q : list _PartialUpdate) :
  forall (σ : store V) (a : ndarray V),
    chunk_ok shape σ chunk a axes ->
    Forall (fun u => exists p uaxes, update_ok σ (view_shape axes) u p uaxes) q ->
    exists ys σ' a',
      forM (apply_update chunk mode) q σ = (Ok ys, σ') /\
      chunk_ok shape σ' chunk a' axes /\
      sub σ σ' /\ length σ' = length σ /\
      forall i, i <> buf_of chunk -> σ' !! i = σ !! i.
Proof.
  induction q as [|u q IH]; intros σ a Hok Hq.
  - exists [], σ, a. split; [reflexivity|]. split; [exact Hok|].
    split; [apply sub_refl|]. split; [reflexivity|]. intros; reflexivity.
  - apply Forall_cons in Hq. destruct Hq as [(p & uaxes & Hu) Hq].
    pose proof Hok as (Hv & Hb & Hl & Hp & Hax & Hs).
    destruct Hu as (Hload & Hupos & Hua & Hps).
    destruct (applied_total mode a p u.2 uaxes Hupos) as (a1 & Ha1 & Hs1);
      [rewrite Hs; exact Hua|exact Hps|].
    pose proof (apply_update_applied chunk mode u σ a p Hv Hb Hload) as Hrun.
    rewrite Ha1 in Hrun.
    assert (Hsub1 : sub σ (<[buf_of chunk := a1]> σ))
      by (eapply sub_insert; eassumption).
    destruct (IH (<[buf_of chunk := a1]> σ) a1) as (ys & σ' & a' & Hrun' & Hok' & Hsub' & Hlen' & Hframe').
    { unfold chunk_ok. repeat match goal with |- _ /\ _ => split end;
        try assumption; [|congruence].
      apply list_lookup_insert_eq. eapply lookup_lt_Some, Hb. }
    { eapply Forall_impl; [exact Hq|]. cbv beta.
      intros u' (p' & uaxes' & Hload' & Hpos' & Hua' & Hps').
      destruct (load_sub _ _ _ p' Hsub1 Hload') as (p'' & Hload'' & Hps'').
      exists p'', uaxes'. unfold update_ok.
      repeat match goal with |- _ /\ _ => split end; try assumption.
      congruence. }
    exists (tt :: ys), σ', a'.
    split; [|split; [exact Hok'|split; [|split]]].
    + cbn [forM]. rewrite (bind_run _ _ _ _ _ Hrun).
      rewrite (bind_run _ _ _ _ _ Hrun'). reflexivity.
    + eapply sub_trans; eassumption.
    + rewrite Hlen', length_insert. reflexivity.
    + intros i Hi. rewrite Hframe' by exact Hi.
      apply list_lookup_insert_ne. congruence.
Qed.

Lemma apply_updates_total (chunk : _Chunk) (mode : _Mode V) (σ : store V) :
  well_formed_chunk shape σ chunk ->
  exists σ',
    _apply_updates chunk mode σ = (Ok (drained chunk), σ') /\
    well_formed_chunk shape σ' (drained chunk) /\
    sub σ σ' /\ length σ' = length σ /\
    forall i, i <> buf_of chunk -> σ' !! i = σ !! i.
Proof.
  intros (a & axes & Hok & Hq).
  destruct (apply_updates_queue chunk mode axes (chunk_updates chunk) σ a Hok Hq)
    as (ys & σ' & a' & Hrun & Hok' & Hsub & Hlen & Hframe).
  exists σ'. split; [|split; [|split; [exact Hsub|split; assumption]]].
  - unfold _apply_updates. rewrite (bind_run _ _ _ _ _ Hrun). reflexivity.
  - exists a', axes. split; [exact Hok'|constructor].
Qed.

(** *** The steps that queue an update *)

(** [f src dst] returns [dst] with its data and index, well formed, and
    keeps the shapes of the buffers. *)
Definition pushes (f : _Chunk -> _Chunk -> M V _Chunk) : Prop :=
  forall (src dst : _Chunk) (σ : store V),
    well_formed_chunk shape σ src -> chunk_updates src = [] ->
    well_formed_chunk shape σ dst ->
    buf_of src <> buf_of dst ->
    can_transfer self (chunk_data src) (chunk_data dst) ->
    exists dst' σ',
      f src dst σ = (Ok dst', σ') /\
      chunk_data dst' = chunk_data dst /\
      chunk_index dst' = chunk_index dst /\
      well_formed_chunk shape σ' dst' /\
      sub σ σ'.

Lemma pushes_apply_and_update_chunks (op_mode : _OpMode V) :
  pushes (_apply_and_update_chunks self op_mode shape).
Proof.
  intros src dst σ (a1 & axes1 & Hok1 & _) _ (a2 & axes2 & Hok2 & Hq2) Hne Hr.
  destruct (_apply_and_update_chunks_run self op_mode shape src dst σ
              a1 a2 axes1 axes2 Hshape Hok1 Hok2 Hne Hr)
    as [[Hrun _]|(_ & update & dst_new_idx & p & uaxes & a1' & σ' & Hrun & _
                  & Hup & _ & Hd & Hs & Hs1 & _ & Hlen & Hframe)].
  - exists dst, σ. split; [exact Hrun|]. split; [reflexivity|].
    split; [reflexivity|]. split; [|apply sub_refl].
    exists a2, axes2. split; assumption.
  - assert (Hsub : sub σ σ').
    { apply (sub_frame σ σ' (arr_buf (chunk_data src)) a1 a1');
        try assumption. apply Hok1. }
    eexists _, σ'. split; [exact Hrun|]. cbn [chunk_data chunk_index].
    split; [reflexivity|]. split; [reflexivity|]. split; [|exact Hsub].
    pose proof Hok2 as (Hv & Hb & Hl & Hp & Hax & Hsh).
    exists a2, axes2. split.
    + unfold chunk_ok. cbn [chunk_data chunk_index].
      repeat match goal with |- _ /\ _ => split end; assumption.
    + cbn [chunk_updates]. apply Forall_app. split.
      * eapply Forall_impl; [exact Hq2|]. cbv beta.
        intros u (p' & uaxes' & Hload' & Hpos' & Hua' & Hps').
        destruct (load_sub _ _ _ p' Hsub Hload') as (p'' & Hload'' & Hps'').
        exists p'', uaxes'. unfold update_ok.
        repeat match goal with |- _ /\ _ => split end; try assumption.
        congruence.
      * constructor; [|constructor]. exists p, uaxes. exact Hup.
Qed.

Lemma pushes_copy_on_intersection :
  pushes (_copy_on_intersection self shape).
Proof.
  intros src dst σ (a1 & axes1 & Hok1 & _) Hnone (a2 & axes2 & Hok2 & Hq2) Hne Hr.
  destruct (_copy_on_intersection_run self shape src dst σ
              a1 a2 axes1 axes2 Hshape Hok1 Hok2 Hnone Hr)
    as [[Hrun _]|(update & dst_new_idx & p & uaxes & ext & Hrun & Hup & _)].
  - exists dst, σ. split; [exact Hrun|]. split; [reflexivity|].
    split; [reflexivity|]. split; [|apply sub_refl].
    exists a2, axes2. split; assumption.
  - pose proof (sub_app σ ext) as Hsub.
    eexists _, (σ ++ ext). split; [exact Hrun|]. cbn [chunk_data chunk_index].
    split; [reflexivity|]. split; [reflexivity|]. split; [|exact Hsub].
    pose proof Hok2 as (Hv & Hb & Hl & Hp & Hax & Hsh).
    exists a2, axes2. split.
    + unfold chunk_ok. cbn [chunk_data chunk_index].
      repeat match goal with |- _ /\ _ => split end; try assumption.
      rewrite lookup_app_l; [exact Hb|]. eapply lookup_lt_Some, Hb.
    + cbn [chunk_updates]. apply Forall_app. split.
      * eapply Forall_impl; [exact Hq2|]. cbv beta.
        intros u (p' & uaxes' & Hload' & Hpos' & Hua' & Hps').
        destruct (load_sub _ _ _ p' Hsub Hload') as (p'' & Hload'' & Hps'').
        exists p'', uaxes'. unfold update_ok.
        repeat match goal with |- _ /\ _ => split end; try assumption.
        congruence.
      * constructor; [|constructor]. exists p, uaxes. exact Hup.
Qed.

(** *** The loops *)

Variable datas : list array.
Hypothesis Hexch : can_exchange self datas.
Hypothesis Hbufs : NoDup (map arr_buf datas).

Lemma datas_lookup_ne (i j : nat) (r r' : array) :
  i <> j -> datas !! i = Some r -> datas !! j = Some r' ->
  arr_buf r <> arr_buf r'.
Proof.
  intros Hij Hi Hj E. apply Hij.
  eapply (NoDup_lookup (map arr_buf datas)); [exact Hbufs| |].
  - rewrite list_lookup_fmap, Hi. reflexivity.
  - rewrite list_lookup_fmap, Hj. cbn. rewrite E. reflexivity.
Qed.

Lemma onto_each_total (f : _Chunk -> _Chunk -> M V _Chunk) (src : _Chunk)
      (i : nat) (js : list nat) :
  pushes f ->
  datas !! i = Some (chunk_data src) ->
  chunk_updates src = [] ->
  (forall j, In j js -> (j < length datas)%nat /\ j <> i) ->
  forall (l : list _Chunk) (σ : store V),
    well_formed_chunk shape σ src ->
    Forall (well_formed_chunk shape σ) l ->
    map chunk_data l = datas ->
    exists l' σ',
      onto_each f src js l σ = (Ok l', σ') /\
      map chunk_data l' = datas /\
      map chunk_index l' = map chunk_index l /\
      Forall (well_formed_chunk shape σ') l' /\
      sub σ σ' /\
      forall p, ~ In p js -> l' !! p = l !! p.
Proof.
  intros Hf Hi Hnone. induction js as [|j js IH]; intros Hjs l σ Hsrc Hl Hdat.
  - exists l, σ. repeat split; try assumption; try reflexivity.
    apply sub_refl.
  - destruct (Hjs j ltac:(left; reflexivity)) as [Hj Hji].
    rewrite <- Hdat, length_map in Hj.
    destruct (lookup_lt_is_Some_2 l j Hj) as (dst & Hdst).
    assert (Hdj : datas !! j = Some (chunk_data dst)).
    { rewrite <- Hdat, list_lookup_fmap, Hdst. reflexivity. }
    destruct (Hf src dst σ) as (dst' & σ1 & Hrun & Hd' & Hi' & Hwf' & Hsub1);
      try assumption.
    { rewrite Forall_forall in Hl. apply Hl.
      eapply list_elem_of_lookup_2, Hdst. }
    { unfold buf_of. apply (datas_lookup_ne i j); auto. }
    { apply Hexch; apply list_elem_of_In; eapply list_elem_of_lookup_2;
        eassumption. }
    destruct (IH ltac:(intros j' Hj'; apply Hjs; right; exact Hj')
                 (<[j := dst']> l) σ1)
      as (l' & σ' & Hrun' & Hdat' & Hidx' & Hwf & Hsub' & Hfr').
    { eapply well_formed_sub; eassumption. }
    { apply Forall_insert; [|exact Hwf'].
      eapply well_formed_all_sub; eassumption. }
    { rewrite list_fmap_insert, Hd', <- Hdat. apply list_insert_id.
      rewrite list_lookup_fmap, Hdst. reflexivity. }
    exists l', σ'. split; [|split; [exact Hdat'|split; [|split; [exact Hwf|split]]]].
    + unfold onto_each in *. cbn [foldM].
      assert (Hstep : (dst_chunk ← lift (list_get l j);
                       dst_chunk' ← f src dst_chunk;
                       mret (<[j := dst_chunk']> l)) σ =
                      (Ok (<[j := dst']> l), σ1)).
      { rewrite (bind_run _ _ _ _ _ (list_get_run l j dst σ Hdst)).
        rewrite (bind_run _ _ _ _ _ Hrun). reflexivity. }
      rewrite (bind_run _ _ _ _ _ Hstep). exact Hrun'.
    + rewrite Hidx', list_fmap_insert, Hi'. apply list_insert_id.
      rewrite list_lookup_fmap, Hdst. reflexivity.
    + eapply sub_trans; eassumption.
    + intros p Hp. rewrite Hfr' by (intros H'; apply Hp; right; exact H').
      apply list_lookup_insert_ne. intros ->. apply Hp. left. reflexivity.
Qed.

Lemma turn_total (f : _Chunk -> _Chunk -> M V _Chunk) (mode : _Mode V)
      (js : nat -> list nat) (i : nat) (l : list _Chunk) (σ : store V) :
  pushes f ->
  (i < length datas)%nat ->
  (forall j, In j (js i) -> (j < length datas)%nat /\ j <> i) ->
  Forall (well_formed_chunk shape σ) l ->
  map chunk_data l = datas ->
  exists l' σ',
    turn f mode js l i σ = (Ok l', σ') /\
    map chunk_data l' = datas /\
    map chunk_index l' = map chunk_index l /\
    Forall (well_formed_chunk shape σ') l' /\
    sub σ σ' /\
    (exists c, l' !! i = Some c /\ chunk_updates c = []) /\
    forall p, p <> i -> ~ In p (js i) -> l' !! p = l !! p.
Proof.
  intros Hf Hi Hjs Hl Hdat.
  pose proof Hi as Hi'. rewrite <- Hdat, length_map in Hi'.
  destruct (lookup_lt_is_Some_2 l i Hi') as (src & Hsrc).
  assert (Hwsrc : well_formed_chunk shape σ src).
  { rewrite Forall_forall in Hl. apply Hl.
    eapply list_elem_of_lookup_2, Hsrc. }
  destruct (apply_updates_total src mode σ Hwsrc)
    as (σ1 & Hrun1 & Hwf1 & Hsub1 & Hlen1 & Hframe1).
  destruct (onto_each_total f (drained src) i (js i) Hf) with
      (l := <[i := drained src]> l) (σ := σ1)
    as (l' & σ' & Hrun' & Hdat' & Hidx' & Hwf' & Hsub' & Hfr');
    try assumption.
  { cbn [drained chunk_data]. rewrite <- Hdat, list_lookup_fmap, Hsrc.
    reflexivity. }
  { reflexivity. }
  { apply Forall_insert; [|exact Hwf1].
    eapply well_formed_all_sub; eassumption. }
  { rewrite list_fmap_insert. cbn [drained chunk_data]. rewrite <- Hdat.
    apply list_insert_id. rewrite list_lookup_fmap, Hsrc. reflexivity. }
  exists l', σ'.
  split; [|split; [exact Hdat'|split; [|split; [exact Hwf'|split; [|split]]]]].
  - unfold turn. rewrite (bind_run _ _ _ _ _ (list_get_run l i src σ Hsrc)).
    rewrite (bind_run _ _ _ _ _ Hrun1). exact Hrun'.
  - rewrite Hidx', list_fmap_insert. cbn [drained chunk_index].
    apply list_insert_id. rewrite list_lookup_fmap, Hsrc. reflexivity.
  - eapply sub_trans; eassumption.
  - exists (drained src). split; [|reflexivity].
    rewrite Hfr' by (intros H'; apply Hjs in H'; destruct H'; congruence).
    apply list_lookup_insert_eq. exact Hi'.
  - intros p Hp Hnp. rewrite Hfr' by exact Hnp.
    apply list_lookup_insert_ne. congruence.
Qed.

Lemma turns_total (f : _Chunk -> _Chunk -> M V _Chunk) (mode : _Mode V)
      (js : nat -> list nat) (ks : list nat) :
  pushes f ->
  (forall i, In i ks ->
             (i < length datas)%nat /\
             forall j, In j (js i) -> (j < length datas)%nat /\ j <> i) ->
  forall (l : list _Chunk) (σ : store V),
    Forall (well_formed_chunk shape σ) l ->
    map chunk_data l = datas ->
    exists l' σ',
      foldM (turn f mode js) l ks σ = (Ok l', σ') /\
      map chunk_data l' = datas /\
      map chunk_index l' = map chunk_index l /\
      Forall (well_formed_chunk shape σ') l' /\
      sub σ σ'.
Proof.
  intros Hf. induction ks as [|i ks IH]; intros Hks l σ Hl Hdat.
  - exists l, σ. repeat split; try assumption; try reflexivity.
    apply sub_refl.
  - destruct (Hks i ltac:(left; reflexivity)) as [Hi Hjs].
    destruct (turn_total f mode js i l σ Hf Hi Hjs Hl Hdat)
      as (l1 & σ1 & Hrun1 & Hdat1 & Hidx1 & Hwf1 & Hsub1 & _).
    destruct (IH ltac:(intros i' Hi'; apply Hks; right; exact Hi') l1 σ1 Hwf1 Hdat1)
      as (l' & σ' & Hrun' & Hdat' & Hidx' & Hwf' & Hsub').
    exists l', σ'. split; [|split; [exact Hdat'|split; [congruence|split; [exact Hwf'|]]]].
    + cbn [foldM]. rewrite (bind_run _ _ _ _ _ Hrun1). exact Hrun'.
    + eapply sub_trans; eassumption.
Qed.

(** The second loop, from the last chunk to the first: every queue ends
    empty. *)
Lemma copy_turns_total (m : nat) :
  forall (l : list _Chunk) (σ : store V),
    (m <= length datas)%nat ->
    Forall (well_formed_chunk shape σ) l ->
    map chunk_data l = datas ->
    (forall p c, (m <= p)%nat -> l !! p = Some c -> chunk_updates c = []) ->
    exists l' σ',
      foldM (turn (_copy_on_intersection self shape) _REPLICA_MODE
                  (fun j => seq 0 j)) l (rev (seq 0 m)) σ = (Ok l', σ') /\
      map chunk_data l' = datas /\
      map chunk_index l' = map chunk_index l /\
      Forall (well_formed_chunk shape σ') l' /\
      sub σ σ' /\
      Forall (fun c => chunk_updates c = []) l'.
Proof.
  induction m as [|m IH]; intros l σ Hm Hl Hdat Hdone.
  - exists l, σ. repeat split; try assumption; try reflexivity;
      [apply sub_refl|].
    apply Forall_lookup. intros p c Hp. apply (Hdone p c); [lia|exact Hp].
  - rewrite seq_S, rev_app_distr. cbn [rev app Nat.add].
    assert (Hm' : (m < length datas)%nat) by lia.
    assert (Hjs : forall j, In j (seq 0 m) ->
                            (j < length datas)%nat /\ j <> m)
      by (intros j Hj; apply in_seq in Hj; lia).
    destruct (turn_total (_copy_on_intersection self shape) _REPLICA_MODE
                (fun j => seq 0 j) m l σ pushes_copy_on_intersection
                Hm' Hjs Hl Hdat)
      as (l1 & σ1 & Hrun1 & Hdat1 & Hidx1 & Hwf1 & Hsub1 & (c & Hc & Hcn) & Hfr1).
    assert (Hdone1 : forall p c', (m <= p)%nat -> l1 !! p = Some c' ->
                                  chunk_updates c' = []).
    { intros p c' Hp Hc'. destruct (Nat.eq_dec p m) as [->|Hne].
      - rewrite Hc in Hc'. injection Hc' as <-. exact Hcn.
      - rewrite Hfr1 in Hc'; [|exact Hne|rewrite in_seq; lia].
        apply (Hdone p c'); [lia|exact Hc']. }
    destruct (IH l1 σ1 ltac:(lia) Hwf1 Hdat1 Hdone1)
      as (l' & σ' & Hrun' & Hdat' & Hidx' & Hwf' & Hsub' & Hnone').
    exists l', σ'.
    split; [|split; [exact Hdat'|split; [congruence|split; [exact Hwf'|split; [|exact Hnone']]]]].
    + cbn [foldM]. rewrite (bind_run _ _ _ _ _ Hrun1). exact Hrun'.
    + eapply sub_trans; eassumption.
Qed.

End Total.


Section Conversion.

Context {V : Type} `{!Dtype V} `{!Runtime V}.

(** The two loops of [_all_reduce_intersections], turn by turn. *)
Lemma _all_reduce_intersections_turns (self : _DistributedArray V)
      (op_mode : _OpMode V) (shape : list Z) (cm : dict (list _Chunk)) :
  _all_reduce_intersections self op_mode shape cm =
    (l ← foldM (turn (_apply_and_update_chunks self op_mode shape)
                     (Some op_mode)
                     (fun i => seq (S i) (length (flatten cm) - S i)))
               (flatten cm) (seq 0 (length (flatten cm)));
     l ← foldM (turn (_copy_on_intersection self shape) _REPLICA_MODE
                     (fun j => seq 0 j))
               l (rev (seq 0 (length (flatten cm))));
     mret (unflatten cm l)).
Proof. reflexivity. Qed.

Lemma flatten_unflatten (cm : dict (list _Chunk)) (l : list _Chunk) :
  length l = length (flatten cm) -> flatten (unflatten cm l) = l.
Proof.
  revert l. induction cm as [|[dev chunks] cm IH]; intros l Hlen.
  - destruct l; [reflexivity|discriminate].
  - unfold flatten in *. cbn [flat_map snd unflatten] in *.
    rewrite length_app in Hlen.
    rewrite IH by (rewrite length_drop; lia). apply take_drop.
Qed.

Lemma unflatten_keys (cm : dict (list _Chunk)) (l : list _Chunk) :
  map fst (unflatten cm l) = map fst cm.
Proof.
  revert l. induction cm as [|[dev chunks] cm IH]; intros l; [reflexivity|].
  cbn [unflatten map fst]. rewrite IH. reflexivity.
Qed.

(** The map with other chunks that have the same image under [g]. *)
Lemma unflatten_map {X} (g : _Chunk -> X) (cm : dict (list _Chunk))
      (l : list _Chunk) :
  map g l = map g (flatten cm) ->
  map (fun '(dev, chunks) => (dev, map g chunks)) (unflatten cm l) =
  map (fun '(dev, chunks) => (dev, map g chunks)) cm.
Proof.
  revert l. induction cm as [|[dev chunks] cm IH]; intros l Hl; [reflexivity|].
  unfold flatten in *. cbn [flat_map snd unflatten map] in *.
  rewrite map_app in Hl.
  assert (Hl' : g <$> l = (g <$> chunks) ++ (g <$> flat_map snd cm))
    by exact Hl.
  assert (H1 : map g (take (length chunks) l) = map g chunks).
  { change (g <$> take (length chunks) l = g <$> chunks).
    rewrite fmap_take, Hl', <- (length_fmap g chunks).
    apply take_app_length. }
  assert (H2 : map g (drop (length chunks) l) = map g (flat_map snd cm)).
  { change (g <$> drop (length chunks) l = g <$> flat_map snd cm).
    rewrite fmap_drop, Hl', <- (length_fmap g chunks).
    apply drop_app_length. }
  rewrite H1, (IH _ H2). reflexivity.
Qed.

(** *** The copies *)

(** The chunks of a list, each on a buffer of its own from [n] on. *)
Fixpoint copied (n : nat) (l : list _Chunk) : list _Chunk :=
  match l with
  | [] => []
  | chunk :: l' =>
      Chunk (Array (arr_dev (chunk_data chunk)) n []) (chunk_index chunk)
            (chunk_updates chunk) :: copied (S n) l'
  end.

Fixpoint copied_map (n : nat) (cm : dict (list _Chunk))
  : dict (list _Chunk) :=
  match cm with
  | [] => []
  | (dev, chunks) :: rest =>
      (dev, copied n chunks) :: copied_map (n + length chunks) rest
  end.

Lemma copied_length (n : nat) (l : list _Chunk) :
  length (copied n l) = length l.
Proof.
  revert n. induction l as [|c l IH]; intros n; [reflexivity|].
  cbn [copied length]. rewrite IH. reflexivity.
Qed.

Lemma copied_app (n : nat) (l1 l2 : list _Chunk) :
  copied n (l1 ++ l2) = copied n l1 ++ copied (n + length l1) l2.
Proof.
  revert n. induction l1 as [|c l1 IH]; intros n.
  - cbn [app copied length]. rewrite Nat.add_0_r. reflexivity.
  - cbn [app copied length]. rewrite IH. do 3 f_equal. lia.
Qed.

Lemma flatten_copied_map (n : nat) (cm : dict (list _Chunk)) :
  flatten (copied_map n cm) = copied n (flatten cm).
Proof.
  revert n. induction cm as [|[dev chunks] cm IH]; intros n; [reflexivity|].
  unfold flatten in *. cbn [copied_map flat_map snd].
  rewrite copied_app, IH. reflexivity.
Qed.

Lemma copied_lookup (n : nat) (l : list _Chunk) (j : nat) :
  copied n l !! j =
  (fun c => Chunk (Array (arr_dev (chunk_data c)) (n + j) [])
                  (chunk_index c) (chunk_updates c)) <$> l !! j.
Proof.
  revert n j. induction l as [|c l IH]; intros n j; [reflexivity|].
  destruct j as [|j]; cbn [copied].
  - cbn. rewrite Nat.add_0_r. reflexivity.
  - cbn [lookup list_lookup]. rewrite IH. f_equal.
    replace (S n + j)%nat with (n + S j)%nat by lia. reflexivity.
Qed.

Lemma copied_indices (n : nat) (l : list _Chunk) :
  map chunk_index (copied n l) = map chunk_index l.
Proof.
  revert n. induction l as [|c l IH]; intros n; [reflexivity|].
  cbn [copied map chunk_index]. rewrite IH. reflexivity.
Qed.

Lemma copied_bufs (n : nat) (l : list _Chunk) :
  map buf_of (copied n l) = seq n (length l).
Proof.
  revert n. induction l as [|c l IH]; intros n; [reflexivity|].
  cbn [copied map length seq]. rewrite IH. reflexivity.
Qed.

Lemma copied_map_keys (n : nat) (cm : dict (list _Chunk)) :
  map fst (copied_map n cm) = map fst cm.
Proof.
  revert n. induction cm as [|[dev chunks] cm IH]; intros n; [reflexivity|].
  cbn [copied_map map fst]. rewrite IH. reflexivity.
Qed.

Lemma copied_map_indices (n : nat) (cm : dict (list _Chunk)) :
  map (fun '(dev, chunks) => (dev, map chunk_index chunks)) (copied_map n cm) =
  map (fun '(dev, chunks) => (dev, map chunk_index chunks)) cm.
Proof.
  revert n. induction cm as [|[dev chunks] cm IH]; intros n; [reflexivity|].
  cbn [copied_map map]. rewrite IH, copied_indices. reflexivity.
Qed.

(** What the chunks hold: each is a whole buffer, of the store. *)
Definition contents (σ : store V) (l : list _Chunk) (ext : list (ndarray V))
  : Prop :=
  Forall2 (fun c a => arr_view (chunk_data c) = [] /\ σ !! buf_of c = Some a)
          l ext.

Lemma contents_app (σ σ' : store V) (l : list _Chunk) (ext : list (ndarray V)) :
  contents σ l ext -> contents (σ ++ σ') l ext.
Proof.
  intros H. eapply Forall2_impl; [exact H|].
  intros c a [Hv Hb]. split; [exact Hv|].
  rewrite lookup_app_l; [exact Hb|]. eapply lookup_lt_Some, Hb.
Qed.

Lemma contents_exist (shape : list Z) (σ : store V) (l : list _Chunk) :
  Forall (well_formed_chunk shape σ) l -> exists ext, contents σ l ext.
Proof.
  induction 1 as [|c l (a & axes & (Hv & Hb & _) & _) _ (ext & IH)].
  - exists []. constructor.
  - exists (a :: ext). constructor; [split; assumption|exact IH].
Qed.

Lemma copy_list_run (l : list _Chunk) (ext : list (ndarray V)) :
  forall σ : store V,
    contents σ l ext ->
    forM _Chunk_copy l σ = (Ok (copied (length σ) l), σ ++ ext).
Proof.
  revert ext. induction l as [|c l IH]; intros ext σ Hc.
  - apply Forall2_nil_inv_l in Hc. subst. rewrite app_nil_r. reflexivity.
  - apply Forall2_cons_inv_l in Hc.
    destruct Hc as (a & ext' & [Hv Hb] & Hc & ->).
    assert (Hrun : _Chunk_copy c σ =
                   (Ok (Chunk (Array (arr_dev (chunk_data c)) (length σ) [])
                              (chunk_index c) (chunk_updates c)), σ ++ [a])).
    { unfold _Chunk_copy, _ManagedData_copy, copy_to. cbn [managed_data].
      assert (Hload : load (chunk_data c) σ = (Ok a, σ)).
      { apply (load_run _ _ a a Hb). rewrite Hv. reflexivity. }
      rewrite (bind_run _ _ _ _ _ (bind_run _ _ _ _ _ (bind_run _ _ _ _ _ Hload))).
      reflexivity. }
    cbn [forM copied]. rewrite (bind_run _ _ _ _ _ Hrun).
    rewrite (bind_run _ _ _ _ _ (IH ext' (σ ++ [a]) (contents_app _ _ _ _ Hc))).
    rewrite length_app, Nat.add_1_r, <- app_assoc. reflexivity.
Qed.

Lemma copy_map_run (cm : dict (list _Chunk)) (ext : list (ndarray V)) :
  forall σ : store V,
    contents σ (flatten cm) ext ->
    map_chunks _Chunk_copy cm σ = (Ok (copied_map (length σ) cm), σ ++ ext).
Proof.
  unfold map_chunks. revert ext.
  induction cm as [|[dev chunks] cm IH]; intros ext σ Hc.
  - apply Forall2_nil_inv_l in Hc. subst. rewrite app_nil_r. reflexivity.
  - unfold flatten, contents in Hc. cbn [flat_map snd] in Hc.
    apply Forall2_app_inv_l in Hc.
    destruct Hc as (ext1 & ext2 & H1 & H2 & ->).
    pose proof (Forall2_length _ _ _ H1) as Hlen1.
    cbn [forM copied_map].
    assert (Hstep : (forM _Chunk_copy chunks ≫= λ chunks0, mret (dev, chunks0)) σ =
                    (Ok (dev, copied (length σ) chunks), σ ++ ext1))
      by (rewrite (bind_run _ _ _ _ _ (copy_list_run chunks ext1 σ H1));
          reflexivity).
    rewrite (bind_run _ _ _ _ _ Hstep).
    rewrite (bind_run _ _ _ _ _ (IH ext2 (σ ++ ext1) (contents_app _ _ _ _ H2))).
    rewrite length_app, <- Hlen1, <- app_assoc. reflexivity.
Qed.

Lemma well_formed_copied (shape : list Z) (σ : store V) (l : list _Chunk)
      (ext : list (ndarray V)) :
  Forall (well_formed_chunk shape σ) l -> contents σ l ext ->
  Forall (well_formed_chunk shape (σ ++ ext)) (copied (length σ) l).
Proof.
  intros Hwf Hc. apply Forall_lookup. intros j c' Hj.
  rewrite copied_lookup in Hj.
  destruct (l !! j) as [c|] eqn:E; [|discriminate]. injection Hj as <-.
  destruct (Forall2_lookup_l _ _ _ _ _ Hc E) as (a & Ea & Hv & Hb).
  rewrite Forall_forall in Hwf.
  destruct (Hwf c) as (a' & axes & (_ & Hb' & Hl & Hp & Hax & Hs) & Hq).
  { eapply list_elem_of_lookup_2, E. }
  unfold buf_of in Hb. rewrite Hb in Hb'. injection Hb' as <-.
  exists a, axes. split.
  - unfold chunk_ok. cbn [chunk_data chunk_index arr_view arr_buf].
    repeat match goal with |- _ /\ _ => split end; try assumption;
      try reflexivity.
    rewrite lookup_app_r by lia.
    replace (length σ + j - length σ)%nat with j by lia. exact Ea.
  - cbn [chunk_updates]. eapply Forall_impl; [exact Hq|]. cbv beta.
    intros u (p & uaxes & Hload & Hrest). exists p, uaxes.
    split; [apply load_app; exact Hload|exact Hrest].
Qed.

(** *** The conversion *)

Lemma can_exchange_copied (self : _DistributedArray V) (n : nat) (l : list _Chunk) :
  can_exchange self (map chunk_data l) -> can_exchange self (map chunk_data (copied n l)).
Proof.
  intros Hex r r' Hr Hr'.
  apply in_map_iff in Hr. destruct Hr as (c & <- & Hc).
  apply in_map_iff in Hr'. destruct Hr' as (c' & <- & Hc').
  apply list_elem_of_In, list_elem_of_lookup_1 in Hc. destruct Hc as (j & Hj).
  apply list_elem_of_In, list_elem_of_lookup_1 in Hc'. destruct Hc' as (j' & Hj').
  rewrite copied_lookup in Hj, Hj'.
  destruct (l !! j) as [d|] eqn:E; [|discriminate]. injection Hj as <-.
  destruct (l !! j') as [d'|] eqn:E'; [|discriminate]. injection Hj' as <-.
  assert (Hd : can_transfer self (chunk_data d) (chunk_data d')).
  { apply Hex; apply in_map; apply list_elem_of_In;
      eapply list_elem_of_lookup_2; eassumption. }
  exact Hd.
Qed.

(** [_all_reduce_intersections] on well-formed chunks in different
    buffers. *)
Lemma _all_reduce_intersections_total (self : _DistributedArray V)
      (op_mode : _OpMode V) (shape : list Z) (cm : dict (list _Chunk))
      (σ : store V) :
  Forall (fun n => 0 <= n) shape ->
  can_exchange self (map chunk_data (flatten cm)) ->
  NoDup (map buf_of (flatten cm)) ->
  Forall (well_formed_chunk shape σ) (flatten cm) ->
  exists l' σ',
    _all_reduce_intersections self op_mode shape cm σ =
      (Ok (unflatten cm l'), σ') /\
    map chunk_data l' = map chunk_data (flatten cm) /\
    map chunk_index l' = map chunk_index (flatten cm) /\
    Forall (well_formed_chunk shape σ') l' /\
    Forall (fun c => chunk_updates c = []) l'.
Proof.
  intros Hshape Hex Hnd Hwf.
  set (datas := map chunk_data (flatten cm)) in *.
  assert (Hbufs : NoDup (map arr_buf datas)).
  { unfold datas. rewrite map_map. exact Hnd. }
  assert (Hn : length datas = length (flatten cm))
    by (unfold datas; apply length_map).
  destruct (turns_total self shape datas Hex Hbufs
              (_apply_and_update_chunks self op_mode shape) (Some op_mode)
              (fun i => seq (S i) (length (flatten cm) - S i))
              (seq 0 (length (flatten cm)))
              (pushes_apply_and_update_chunks self shape Hshape op_mode))
    with (l := flatten cm) (σ := σ)
    as (l1 & σ1 & Hrun1 & Hdat1 & Hidx1 & Hwf1 & _);
    [|exact Hwf|reflexivity|].
  { intros i Hi. apply in_seq in Hi. split; [lia|].
    intros j Hj. apply in_seq in Hj. lia. }
  destruct (copy_turns_total self shape Hshape datas Hex Hbufs
              (length (flatten cm)) l1 σ1)
    as (l2 & σ2 & Hrun2 & Hdat2 & Hidx2 & Hwf2 & _ & Hnone2);
    try assumption; [lia| |].
  { intros p c Hp Hc. apply lookup_lt_Some in Hc.
    rewrite <- (length_map chunk_data), Hdat1 in Hc. lia. }
  exists l2, σ2. split; [|split; [exact Hdat2|split; [congruence|split; assumption]]].
  rewrite _all_reduce_intersections_turns.
  rewrite (bind_run _ _ _ _ _ Hrun1), (bind_run _ _ _ _ _ Hrun2).
  reflexivity.
Qed.

(** [to_replica_mode] on an op-mode array: a replica-mode array in new
    buffers, with the shape and index map of the array, well-formed chunks
    and nothing pending. *)
Lemma to_replica_mode_total (z : _DistributedArray V) (op_mode : _OpMode V)
      (σ : store V) :
  _mode z = Some op_mode ->
  Forall (fun n => 0 <= n) (da_shape z) ->
  (_comms z <> [] \/ nccl_available = true) ->
  can_exchange z (map chunk_data (flatten (_chunks_map z))) ->
  Forall (well_formed_chunk (da_shape z) σ) (flatten (_chunks_map z)) ->
  exists z' ext,
    to_replica_mode z σ = (Ok z', σ ++ ext) /\
    _mode z' = _REPLICA_MODE /\
    da_shape z' = da_shape z /\
    index_map z' = index_map z /\
    map fst (_chunks_map z') = map fst (_chunks_map z) /\
    Forall (well_formed_chunk (da_shape z) (σ ++ ext))
           (flatten (_chunks_map z')) /\
    Forall (fun c => chunk_updates c = []) (flatten (_chunks_map z')) /\
    map buf_of (flatten (_chunks_map z')) =
      seq (length σ) (length (flatten (_chunks_map z))).
Proof.
  intros Hmode Hshape Hcomms Hex Hwf.
  destruct (contents_exist _ _ _ Hwf) as (ext0 & Hc).
  pose proof (copy_map_run (_chunks_map z) ext0 σ Hc) as Hcopy.
  set (cm0 := copied_map (length σ) (_chunks_map z)) in *.
  assert (Hflat : flatten cm0 = copied (length σ) (flatten (_chunks_map z)))
    by apply flatten_copied_map.
  destruct (_all_reduce_intersections_total z op_mode (da_shape z) cm0
              (σ ++ ext0) Hshape)
    as (l' & σ' & Hred & Hdat & Hidx & Hwf' & Hnone).
  { rewrite Hflat. apply can_exchange_copied, Hex. }
  { rewrite Hflat, copied_bufs. apply NoDup_seq. }
  { rewrite Hflat. apply well_formed_copied; assumption. }
  assert (Hrep : _replica_mode_chunks_map z σ = (Ok (unflatten cm0 l'), σ')).
  { unfold _replica_mode_chunks_map, _copy_chunks_map.
    rewrite (bind_run _ _ _ _ _ Hcopy), Hmode. exact Hred. }
  assert (Hlen' : length l' = length (flatten cm0)).
  { rewrite <- (length_map chunk_data l'), Hdat, length_map. reflexivity. }
  destruct (_DistributedArray_new_ok (da_shape z) (unflatten cm0 l')
              _REPLICA_MODE (Some (_comms z))) as (cs & Hnew & _).
  { destruct Hcomms as [Hcs|Hcs]; [left|right; exact Hcs].
    destruct (_comms z); [contradiction|reflexivity]. }
  pose proof (fresh_replica_mode_chunks_map (length σ) z σ (le_n _))
    as (Hlen & Hkeep & _).
  rewrite Hrep in Hlen, Hkeep. cbn [fst snd] in Hlen, Hkeep.
  assert (Hσ' : σ' = σ ++ drop (length σ) σ').
  { rewrite <- (take_drop (length σ) σ') at 1. f_equal.
    apply list_eq. intros i. destruct (Nat.lt_ge_cases i (length σ)) as [Hi|Hi].
    - rewrite lookup_take_lt by exact Hi. apply Hkeep, Hi.
    - rewrite lookup_take_ge by exact Hi. symmetry.
      apply lookup_ge_None_2. exact Hi. }
  exists (DistributedArray (da_shape z) (unflatten cm0 l') _REPLICA_MODE cs),
         (drop (length σ) σ').
  rewrite <- Hσ'. cbn [_mode da_shape _chunks_map].
  rewrite (flatten_unflatten cm0 l' Hlen').
  split; [|split; [reflexivity|split; [reflexivity|split; [|split; [|split; [exact Hwf'|split; [exact Hnone|]]]]]]].
  - unfold to_replica_mode. rewrite Hmode. cbn [mode_is _REPLICA_MODE].
    rewrite (bind_run _ _ _ _ _ Hrep). apply lift_run. exact Hnew.
  - unfold index_map. cbn [_chunks_map].
    rewrite (unflatten_map chunk_index cm0 l' Hidx).
    apply copied_map_indices.
  - rewrite unflatten_keys. apply copied_map_keys.
  - unfold buf_of. rewrite <- map_map, Hdat, map_map.
    fold buf_of. change (map (fun x => buf_of x)) with (map buf_of).
    rewrite Hflat. apply copied_bufs.
Qed.

End Conversion.


(** ** The conversion of an operand, before and after an update is applied *)

Section Blind.

Context {V : Type} `{!Dtype V} `{!Runtime V}.

Lemma sim_run (B : nat -> Prop) {A1 A2} (R : A1 -> A2 -> Prop)
      (m1 : M V A1) (m2 : M V A2) (σ1 σ2 σ1' : store V) (a : A1) :
  sim B R m1 m2 -> agree B σ1 σ2 -> m1 σ1 = (Ok a, σ1') ->
  exists b σ2',
    m2 σ2 = (Ok b, σ2') /\ R a b /\ agree B σ1' σ2' /\
    forall i, B i -> σ1' !! i = σ1 !! i /\ σ2' !! i = σ2 !! i.
Proof.
  intros Hsim Hag Hrun. destruct (Hsim σ1 σ2 Hag) as (Hr & Hag' & Hfr).
  rewrite Hrun in Hr, Hag', Hfr. cbn [fst snd] in *.
  destruct (m2 σ2) as [[b|e] σ2']; cbn [fst snd res_rel] in *;
    [|contradiction].
  exists b, σ2'. split; [reflexivity|]. split; [exact Hr|].
  split; [exact Hag'|exact Hfr].
Qed.

Lemma foldM_app {A S} (f : S -> A -> M V S) (s : S) (l1 l2 : list A)
      (σ : store V) :
  foldM f s (l1 ++ l2) σ = (s' ← foldM f s l1; foldM f s' l2) σ.
Proof.
  revert s σ. induction l1 as [|x l1 IH]; intros s σ; cbn [app foldM].
  - reflexivity.
  - unfold mbind, M_bind. destruct (f s x σ) as [[s1|e] σ1]; [|reflexivity].
    apply IH.
Qed.

Lemma readable_queue_weaken (B B' : nat -> Prop) (q : list _PartialUpdate) :
  (forall i, B' i -> B i) -> readable_queue B q -> readable_queue B' q.
Proof.
  intros HB Hq. eapply Forall_impl; [exact Hq|].
  intros u Hu Hb. apply Hu, HB, Hb.
Qed.

(** Lists related chunk by chunk are equal when every chunk may be read. *)
Lemma chunks_sim_same (B : nat -> Prop) (u0 : _PartialUpdate) (datas : list array)
      (l1 l2 : list _Chunk) :
  chunks_sim B u0 datas l1 l2 -> Forall (readable B) datas -> l1 = l2.
Proof.
  intros [Hl Hdat] Hrd. subst datas. induction Hl as [|c1 c2 l1 l2 Hc Hl IH].
  - reflexivity.
  - cbn [map] in Hrd. apply Forall_cons in Hrd. destruct Hrd as [Hr Hrd].
    rewrite (chunk_sim_same B u0 c1 c2 Hc Hr), (IH Hrd). reflexivity.
Qed.

Lemma chunks_sim_refl (B : nat -> Prop) (u0 : _PartialUpdate) (l : list _Chunk) :
  Forall (fun c => readable B (chunk_data c) /\ readable_queue B (chunk_updates c)) l ->
  chunks_sim B u0 (map chunk_data l) l l.
Proof.
  intros H. split; [|reflexivity]. apply Forall_Forall2_diag.
  eapply Forall_impl; [exact H|]. intros c [Hr Hq].
  unfold chunk_sim. repeat split; try assumption. left. split; [reflexivity|exact Hr].
Qed.

(** [_all_reduce_intersections] on chunks in buffers outside [B], with
    payloads outside [B]. *)
Lemma sim_all_reduce_intersections (B : nat -> Prop)
      (self : _DistributedArray V) (op_mode : _OpMode V) (shape : list Z)
      (cm : dict (list _Chunk)) :
  Forall (fun c => readable B (chunk_data c) /\ readable_queue B (chunk_updates c))
         (flatten cm) ->
  sim B eq (_all_reduce_intersections self op_mode shape cm)
           (_all_reduce_intersections self op_mode shape cm).
Proof.
  intros Hall. rewrite _all_reduce_intersections_turns.
  set (u0 := (DataTransfer (Array 0 0%nat []) None, @nil slice) : _PartialUpdate).
  set (datas := map chunk_data (flatten cm)).
  assert (Hrd : Forall (readable B) datas).
  { unfold datas. apply Forall_fmap. eapply Forall_impl; [exact Hall|].
    intros c [Hr _]. exact Hr. }
  assert (Hrd' : forall ks i r, In i ks -> datas !! i = Some r -> readable B r).
  { intros ks i r _ Hi. rewrite Forall_forall in Hrd. apply Hrd.
    eapply list_elem_of_lookup_2, Hi. }
  eapply sim_bind.
  { apply (sim_turns B u0 _ _ _ datas).
    - intros src dst1 dst2. apply sim_apply_and_update_chunks.
    - apply Hrd'.
    - apply chunks_sim_refl, Hall. }
  intros l1 l1' Hl1. eapply sim_bind.
  { apply (sim_turns B u0 _ _ _ datas).
    - intros src dst1 dst2. apply sim_copy_on_intersection.
    - apply Hrd'.
    - exact Hl1. }
  intros l2 l2' Hl2. apply sim_ret.
  rewrite (chunks_sim_same B u0 datas l2 l2' Hl2 Hrd). reflexivity.
Qed.

(** What [to_replica_mode] leaves is the store it was given and new
    buffers. *)
Lemma to_replica_mode_appends (z z' : _DistributedArray V) (σ σ' : store V) :
  to_replica_mode z σ = (Ok z', σ') -> exists ext, σ' = σ ++ ext.
Proof.
  intros Hrun.
  assert (Hk : keeps (length σ) (to_replica_mode z)).
  { unfold to_replica_mode. destruct (mode_is _ _); [apply keeps_ret|].
    apply keeps_bind; [|intros cm; apply keeps_lift].
    eapply fresh_is_keeps, fresh_replica_mode_chunks_map. }
  destruct (Hk σ (le_n _)) as [Hlen Hkeep]. rewrite Hrun in Hlen, Hkeep.
  cbn [snd] in *. exists (drop (length σ) σ').
  rewrite <- (take_drop (length σ) σ') at 1. f_equal.
  apply list_eq. intros i. destruct (Nat.lt_ge_cases i (length σ)) as [Hi|Hi].
  - rewrite lookup_take_lt by exact Hi. apply Hkeep, Hi.
  - rewrite lookup_take_ge by exact Hi. symmetry.
    apply lookup_ge_None_2. exact Hi.
Qed.

Lemma contents_agree (B : nat -> Prop) (σ1 σ2 : store V) (l : list _Chunk)
      (ext : list (ndarray V)) :
  agree B σ1 σ2 -> Forall (fun c => ~ B (buf_of c)) l ->
  contents σ1 l ext -> contents σ2 l ext.
Proof.
  intros (_ & _ & Hsame) Hl Hc. unfold contents in *.
  eapply Forall2_impl_In; [exact Hc|]. intros c a Hin [Hv Hb].
  split; [exact Hv|]. rewrite <- Hsame; [exact Hb|].
  rewrite Forall_forall in Hl. apply Hl. apply list_elem_of_In. exact Hin.
Qed.

Lemma sim_copy_chunks_map (B : nat -> Prop) (cm : dict (list _Chunk)) :
  Forall (fun c => readable B (chunk_data c) /\ chunk_updates c = []) (flatten cm) ->
  sim (V := V) B
      (fun a b => a = b /\
                  Forall (fun c => readable B (chunk_data c) /\
                                   readable_queue B (chunk_updates c)) (flatten a))
      (map_chunks _Chunk_copy cm) (map_chunks _Chunk_copy cm).
Proof.
  unfold map_chunks.
  induction cm as [|[dev chunks] cm IH]; intros Hz; cbn [forM].
  - apply sim_ret. split; [reflexivity|constructor].
  - unfold flatten in Hz. cbn [flat_map snd] in Hz.
    apply Forall_app in Hz. destruct Hz as [Hz1 Hz2].
    eapply (sim_bind B (fun a b => a = b /\
                          Forall (fun c => readable B (chunk_data c) /\
                                           readable_queue B (chunk_updates c)) a.2)).
    { eapply (sim_bind B (Forall2 (fun a b => a = b /\ readable B (chunk_data a) /\
                                   readable_queue B (chunk_updates a)))).
      - apply (sim_forM B (fun a b => a = b /\ readable B (chunk_data a) /\
                                      chunk_updates a = [])).
        + apply Forall_Forall2_diag. eapply Forall_impl; [exact Hz1|].
          intros c [Hr Hu]. repeat split; assumption.
        + intros c ? (<- & Hr & Hu). unfold _Chunk_copy.
          eapply (sim_bind B (fun m1 m2 => m1 = m2 /\ readable B (managed_data m1))).
          * eapply sim_weaken; [apply sim_ManagedData_copy; exact Hr|].
            intros m1 m2 (-> & Hm & _). split; [reflexivity|exact Hm].
          * intros m ? (<- & Hm). apply sim_ret.
            cbn [chunk_data chunk_updates]. rewrite Hu.
            split; [reflexivity|]. split; [exact Hm|constructor].
      - intros cs cs' Hcs. apply sim_ret. cbn [snd].
        assert (E : cs = cs' /\
                    Forall (fun c => readable B (chunk_data c) /\
                                     readable_queue B (chunk_updates c)) cs).
        { clear -Hcs. induction Hcs as [|a b l l' (<- & Hab) _ [-> IH]].
          - split; [reflexivity|constructor].
          - split; [reflexivity|]. constructor; assumption. }
        destruct E as [<- E]. split; [reflexivity|exact E]. }
    intros p ? [<- Hp].
    eapply (sim_bind B (fun a b => a = b /\
                          Forall (fun c => readable B (chunk_data c) /\
                                           readable_queue B (chunk_updates c))
                                 (flat_map snd a))); [apply IH, Hz2|].
    intros rest ? [<- Hrest']. apply sim_ret. split; [reflexivity|].
    unfold flatten. cbn [flat_map]. apply Forall_app.
    split; assumption.
Qed.

(** The conversion of an op-mode operand with nothing pending, on two
    stores that differ in one buffer, which is not one of its chunks. *)
Lemma to_replica_mode_blind (z : _DistributedArray V) (op_mode : _OpMode V)
      (bk : nat) (σL σE : store V) :
  _mode z = Some op_mode ->
  Forall (fun n => 0 <= n) (da_shape z) ->
  (_comms z <> [] \/ nccl_available = true) ->
  can_exchange z (map chunk_data (flatten (_chunks_map z))) ->
  Forall (well_formed_chunk (da_shape z) σL) (flatten (_chunks_map z)) ->
  Forall (fun c => chunk_updates c = []) (flatten (_chunks_map z)) ->
  ~ In bk (map buf_of (flatten (_chunks_map z))) ->
  agree (fun i => i = bk) σL σE ->
  exists z' extL extE,
    to_replica_mode z σL = (Ok z', σL ++ extL) /\
    to_replica_mode z σE = (Ok z', σE ++ extE) /\
    agree (fun i => i = bk) (σL ++ extL) (σE ++ extE) /\
    _mode z' = _REPLICA_MODE /\
    da_shape z' = da_shape z /\
    index_map z' = index_map z /\
    map fst (_chunks_map z') = map fst (_chunks_map z) /\
    Forall (well_formed_chunk (da_shape z) (σL ++ extL))
           (flatten (_chunks_map z')) /\
    Forall (fun c => chunk_updates c = []) (flatten (_chunks_map z')) /\
    map buf_of (flatten (_chunks_map z')) =
      seq (length σL) (length (flatten (_chunks_map z))).
Proof.
  intros Hmode Hshape Hcomms Hex Hwf Hnone Hbk Hag.
  destruct (to_replica_mode_total z op_mode σL Hmode Hshape Hcomms Hex Hwf)
    as (z' & extL & Hrun & Hrest).
  set (B := fun i : nat => i = bk) in *.
  assert (Hsim : sim B eq (to_replica_mode z) (to_replica_mode z)).
  { unfold to_replica_mode. rewrite Hmode. cbn [mode_is _REPLICA_MODE].
    eapply (sim_bind B eq); [|intros cm ? <-; apply sim_lift_eq].
    unfold _replica_mode_chunks_map. rewrite Hmode.
    eapply (sim_bind B (fun a b => a = b /\
                          Forall (fun c => readable B (chunk_data c) /\
                                           readable_queue B (chunk_updates c))
                                 (flatten a))).
    - apply sim_copy_chunks_map. apply Forall_forall. intros c Hc. split.
      + intros Hb. apply Hbk. unfold B in Hb. rewrite <- Hb.
        apply (in_map buf_of). apply list_elem_of_In. exact Hc.
      + rewrite Forall_forall in Hnone. apply Hnone, Hc.
    - intros cm ? [<- Hcm]. apply sim_all_reduce_intersections, Hcm. }
  destruct (sim_run B eq _ _ σL σE _ z' Hsim Hag Hrun)
    as (z'' & σE' & HrunE & <- & HagE & _).
  destruct (to_replica_mode_appends z z' σE σE' HrunE) as (extE & ->).
  exists z', extL, extE. split; [exact Hrun|]. split; [exact HrunE|].
  split; [exact HagE|exact Hrest].
Qed.

End Blind.


Section Carried.

Context {V : Type} `{!Dtype V} `{!Runtime V}.

Lemma list_get_inv {A} (l : list A) (i : nat) (x : A) (σ σ' : store V) :
  lift (list_get l i) σ = (Ok x, σ') -> l !! i = Some x /\ σ' = σ.
Proof.
  unfold lift, list_get. destruct (l !! i); [|discriminate].
  intros H. injection H as -> ->. split; reflexivity.
Qed.

Lemma seq_split (k n : nat) :
  (k < n)%nat -> seq 0 n = seq 0 k ++ k :: seq (S k) (n - S k).
Proof.
  intros Hk. replace n with (k + S (n - S k))%nat at 1 by lia.
  rewrite seq_app. cbn [Nat.add seq]. reflexivity.
Qed.

Lemma fresh_turns n (f : _Chunk -> _Chunk -> M V _Chunk) (mode : _Mode V)
      (js : nat -> list nat) (ks : list nat) (l : list _Chunk) :
  (forall src dst, above n src -> above n dst ->
                   fresh n (above n) (f src dst)) ->
  Forall (above n) l ->
  fresh n (Forall (above n)) (foldM (turn f mode js) l ks).
Proof.
  intros Hf Hl. apply (fresh_foldM n (Forall (above n))); [exact Hl|].
  intros s i Hs. unfold turn.
  eapply fresh_bind; [apply fresh_list_get; exact Hs|]. intros src Hsrc.
  eapply fresh_bind; [apply fresh_apply_updates; exact Hsrc|].
  intros src' Hsrc'. apply fresh_onto_each.
  - intros dst Hd. apply Hf; assumption.
  - apply Forall_insert; assumption.
Qed.

Lemma unflatten_drained_map (cm : dict (list _Chunk)) (l : list _Chunk) :
  unflatten (drained_map cm) l = unflatten cm l.
Proof.
  revert l. induction cm as [|[dev chunks] cm IH]; intros l; [reflexivity|].
  cbn [drained_map map unflatten]. rewrite length_map.
  f_equal. apply IH.
Qed.

Lemma copied_drained (n : nat) (l : list _Chunk) :
  copied n (map drained l) = map drained (copied n l).
Proof.
  revert n. induction l as [|c l IH]; intros n; [reflexivity|].
  cbn [map copied]. rewrite IH. reflexivity.
Qed.

Lemma copied_map_drained (n : nat) (cm : dict (list _Chunk)) :
  copied_map n (drained_map cm) = drained_map (copied_map n cm).
Proof.
  revert n. induction cm as [|[dev chunks] cm IH]; intros n; [reflexivity|].
  cbn [drained_map map copied_map]. rewrite length_map, copied_drained.
  f_equal. apply IH.
Qed.

(** From the chunks up to the one that carried the update to all of
    them. *)
Lemma chunks_sim_switch (B B' : nat -> Prop) (u : _PartialUpdate)
      (datas : list array) (lp lpE : list _Chunk) (k : nat) (c2 s : _Chunk) :
  (forall i, B' i -> B i) ->
  chunks_sim B u datas lp lpE -> lpE !! k = Some c2 ->
  chunk_data s = chunk_data c2 -> chunk_updates s = [] ->
  readable B' (chunk_data s) ->
  (forall j r, j <> k -> datas !! j = Some r -> readable B r) ->
  chunks_sim B' u datas (<[k := s]> lp) (<[k := s]> lpE).
Proof.
  intros HB [Hfa Hdat] Hc2 Hds Hus Hrs Hrd. split.
  - apply Forall2_same_length_lookup_2.
    { rewrite !length_insert. eapply Forall2_length, Hfa. }
    intros i x y Hx Hy. destruct (Nat.eq_dec i k) as [->|Hne].
    + rewrite list_lookup_insert_eq in Hx
        by (rewrite (Forall2_length _ _ _ Hfa); eapply lookup_lt_Some, Hc2).
      rewrite list_lookup_insert_eq in Hy by (eapply lookup_lt_Some, Hc2).
      injection Hx as <-. injection Hy as <-.
      unfold chunk_sim. rewrite Hus. split; [reflexivity|]. split; [reflexivity|].
      split; [constructor|]. left. split; [reflexivity|exact Hrs].
    + rewrite list_lookup_insert_ne in Hx by congruence.
      rewrite list_lookup_insert_ne in Hy by congruence.
      pose proof (Forall2_lookup_lr _ _ _ _ _ _ Hfa Hx Hy)
        as (Hd & Hi & Hq & Hcase).
      assert (Hr : readable B (chunk_data y)).
      { apply (Hrd i); [exact Hne|]. rewrite <- Hdat, list_lookup_fmap, Hy.
        reflexivity. }
      destruct Hcase as [[Hu _]|[_ Hb]]; [|contradiction].
      unfold chunk_sim. split; [exact Hd|]. split; [exact Hi|].
      split; [exact (readable_queue_weaken B B' _ HB Hq)|]. left.
      split; [exact Hu|]. intros Hb. apply Hr, HB, Hb.
  - rewrite list_fmap_insert, Hds, <- Hdat. apply list_insert_id.
    rewrite list_lookup_fmap, Hc2. reflexivity.
Qed.

Variable self : _DistributedArray V.
Variable op_mode : _OpMode V.
Variable shape : list Z.

(** [_all_reduce_intersections] on chunks one of which carries an update,
    and on the same chunks after the update has been applied: the same
    chunks come back, in stores that differ only in the buffer [bk], which
    no chunk uses. *)
Lemma _all_reduce_intersections_drained
      (cm cm' : dict (list _Chunk)) (bk dk n0 k : nat) (ck : _Chunk)
      (u : _PartialUpdate) (a au p : ndarray V) (σL σE σL' : store V) :
  flatten cm !! k = Some ck ->
  chunk_updates ck = [u] -> buf_of ck = dk ->
  arr_view (chunk_data ck) = [] ->
  (forall j c, j <> k -> flatten cm !! j = Some c -> chunk_updates c = []) ->
  Forall (above n0) (flatten cm) ->
  (bk < n0)%nat -> (n0 <= length σL)%nat ->
  NoDup (map buf_of (flatten cm)) ->
  agree (fun i => i = bk \/ i = dk) σL σE ->
  σL !! dk = Some a -> σE !! dk = Some au ->
  load (transfer_data u.1) σL = (Ok p, σL) ->
  (arr_buf (transfer_data u.1) < n0)%nat ->
  applied (Some op_mode) a u.2 p = Ok au ->
  _all_reduce_intersections self op_mode shape cm σL = (Ok cm', σL') ->
  exists σE',
    _all_reduce_intersections self op_mode shape (drained_map cm) σE =
      (Ok cm', σE') /\
    agree (fun i => i = bk) σL' σE'.
Proof.
  intros Hk Hcku Hckb Hckv Hothers Habove Hbk Hn0 Hnd Hag HaL HaE Hp Hpb
         Happ Hrun.
  set (B := fun i : nat => i = bk \/ i = dk) in *.
  set (B' := fun i : nat => i = bk).
  assert (HB : forall i, B' i -> B i) by (intros i Hi; left; exact Hi).
  set (l0 := flatten cm) in *.
  set (n := length l0).
  set (datas := map chunk_data l0).
  set (f1 := _apply_and_update_chunks self op_mode shape).
  set (f2 := _copy_on_intersection self shape).
  set (js1 := fun i : nat => seq (S i) (n - S i)).
  assert (Hkn : (k < n)%nat) by (eapply lookup_lt_Some, Hk).
  assert (Hdk : datas !! k = Some (chunk_data ck)).
  { unfold datas. rewrite list_lookup_fmap, Hk. reflexivity. }
  (* the buffers of the chunks *)
  assert (Hrd_ne : forall j r, j <> k -> datas !! j = Some r -> readable B r).
  { intros j r Hj Hr. unfold datas in Hr. rewrite list_lookup_fmap in Hr.
    destruct (l0 !! j) as [c|] eqn:Ec; [|discriminate]. injection Hr as <-.
    intros [Hb|Hb].
    - rewrite Forall_forall in Habove.
      pose proof (Habove c (list_elem_of_lookup_2 _ _ _ Ec)) as Hc.
      unfold above in Hc. lia.
    - apply Hj. eapply (NoDup_lookup (map buf_of l0)); [exact Hnd| |].
      + rewrite list_lookup_fmap, Ec. cbn. unfold buf_of. rewrite Hb.
        reflexivity.
      + rewrite list_lookup_fmap, Hk. cbn. rewrite Hckb. reflexivity. }
  assert (Hrd' : Forall (readable B') datas).
  { unfold datas. apply Forall_fmap. eapply Forall_impl; [exact Habove|].
    intros c Hc Hb. unfold above in Hc. unfold B' in Hb. lia. }
  assert (Hrd'' : forall (ks : list nat) i r,
             In i ks -> datas !! i = Some r -> readable B' r).
  { intros ks i r _ Hr. rewrite Forall_forall in Hrd'. apply Hrd'.
    eapply list_elem_of_lookup_2, Hr. }
  (* the run on the chunks with the update, in parts *)
  rewrite _all_reduce_intersections_turns in Hrun.
  fold l0 n f1 f2 js1 in Hrun.
  apply bind_Ok_inv in Hrun. destruct Hrun as (l1 & σ1 & Hloop1 & Hrun).
  apply bind_Ok_inv in Hrun. destruct Hrun as (l2 & σ2 & Hloop2 & Hret).
  injection Hret as <- <-.
  rewrite (seq_split k n Hkn), foldM_app in Hloop1.
  apply bind_Ok_inv in Hloop1. destruct Hloop1 as (lp & σp & Hpre & Hloop1).
  cbn [foldM] in Hloop1.
  apply bind_Ok_inv in Hloop1. destruct Hloop1 as (lt & σt & Hturn & Hpost).
  unfold turn in Hturn.
  apply bind_Ok_inv in Hturn. destruct Hturn as (c1 & σp_ & Hget & Hturn).
  apply list_get_inv in Hget. destruct Hget as [Hc1 ->].
  apply bind_Ok_inv in Hturn. destruct Hturn as (s & σq & Hupd & Honto).
  (* the turns before the chunk with the update *)
  assert (HRl0 : chunks_sim B u datas l0 (map drained l0)).
  { split; [|unfold datas; rewrite map_map; reflexivity].
    apply Forall2_fmap_r. apply Forall_Forall2_diag. apply Forall_lookup.
    intros j c Hj. unfold chunk_sim, compose. cbn [drained chunk_data chunk_index chunk_updates].
    split; [reflexivity|]. split; [reflexivity|]. split; [constructor|].
    destruct (Nat.eq_dec j k) as [->|Hne].
    - right. rewrite Hk in Hj. injection Hj as <-. rewrite Hcku.
      split; [reflexivity|]. right. exact Hckb.
    - left. split; [apply (Hothers j c Hne Hj)|].
      apply (Hrd_ne j); [exact Hne|]. unfold datas.
      rewrite list_lookup_fmap, Hj. reflexivity. }
  assert (Hsim_pre : sim B (chunks_sim B u datas)
                       (foldM (turn f1 (Some op_mode) js1) l0 (seq 0 k))
                       (foldM (turn f1 (Some op_mode) js1) (map drained l0)
                              (seq 0 k))).
  { apply sim_turns; [| |exact HRl0].
    - intros src dst1 dst2. apply sim_apply_and_update_chunks.
    - intros i r Hi. apply Hrd_ne. apply in_seq in Hi. lia. }
  destruct (sim_run B _ _ _ σL σE _ lp Hsim_pre Hag Hpre)
    as (lpE & σpE & HpreE & HRl & Hagp & Hfrp).
  (* the chunk with the update *)
  pose proof HRl as [Hfa Hdat].
  destruct (Forall2_lookup_l _ _ _ _ _ Hfa Hc1) as (c2 & Hc2 & Hrc).
  assert (Hd2 : chunk_data c2 = chunk_data ck).
  { assert (E : datas !! k = Some (chunk_data c2))
      by (rewrite <- Hdat, list_lookup_fmap, Hc2; reflexivity).
    rewrite Hdk in E. injection E as E. symmetry. exact E. }
  destruct Hrc as (Hd & Hi & Hq & [[_ Hr]|[Hu _]]).
  { exfalso. apply Hr. right. rewrite Hd2. exact Hckb. }
  assert (Hb1 : buf_of c1 = dk) by (unfold buf_of; rewrite Hd, Hd2; exact Hckb).
  unfold _apply_updates in Hupd. rewrite Hu in Hupd. cbn [forM] in Hupd.
  apply bind_Ok_inv in Hupd. destruct Hupd as (ys0 & σq' & Hfor & Hret).
  injection Hret as Es Eσ. subst s σq'.
  apply bind_Ok_inv in Hfor. destruct Hfor as (y & σp1 & Hone & Hfor).
  apply bind_Ok_inv in Hfor. destruct Hfor as (ys & σq'' & Hqrun & Hret).
  injection Hret as _ Eσ. subst σq''.
  assert (Hkeep : forall i, (i < n0)%nat -> σp !! i = σL !! i).
  { pose proof (fresh_turns n0 f1 (Some op_mode) js1 (seq 0 k) l0) as Hfr.
    destruct (Hfr ltac:(intros src dst Hs Hd'; apply fresh_apply_and_update_chunks; assumption)
                  Habove σL Hn0) as (_ & Hsame & _).
    rewrite Hpre in Hsame. exact Hsame. }
  assert (Hone' : apply_update c1 (Some op_mode) u σp =
                  (Ok tt, <[dk := au]> σp)).
  { rewrite (apply_update_applied c1 (Some op_mode) u σp a p).
    - rewrite Happ, Hb1. reflexivity.
    - rewrite Hd, Hd2. exact Hckv.
    - rewrite Hb1. destruct (Hfrp dk) as [E _]; [right; reflexivity|].
      rewrite E. exact HaL.
    - apply (load_agree _ σL); [exact Hp|]. apply Hkeep, Hpb. }
  rewrite Hone' in Hone. injection Hone as _ Eσ. subst σp1.
  assert (Hlenp : (dk < length σp)%nat).
  { destruct Hagp as (_ & Hb & _). apply Hb. right. reflexivity. }
  assert (Hag1 : agree B' (<[dk := au]> σp) σpE).
  { destruct Hagp as (Hlen & Hb & Hsame). split; [|split].
    - rewrite length_insert. exact Hlen.
    - intros i Hbi. rewrite length_insert. apply Hb, HB, Hbi.
    - intros i Hbi. destruct (Nat.eq_dec i dk) as [->|Hne].
      + rewrite list_lookup_insert_eq by exact Hlenp.
        destruct (Hfrp dk) as [_ E]; [right; reflexivity|].
        rewrite E. symmetry. exact HaE.
      + rewrite list_lookup_insert_ne by congruence. apply Hsame.
        intros [Hb'|Hb']; [apply Hbi, Hb'|apply Hne, Hb']. }
  (* the rest of its queue *)
  assert (Hr2 : readable B' (chunk_data c2)).
  { rewrite Forall_forall in Hrd'. apply Hrd'. rewrite Hd2.
    eapply list_elem_of_lookup_2, Hdk. }
  pose proof (sim_apply_updates_from B' c1 c2 (Some op_mode)
                (chunk_updates c2) Hd Hi Hr2 (readable_queue_weaken B B' _ HB Hq))
    as Hsim_q.
  assert (Hqrun' : (_ ← forM (apply_update c1 (Some op_mode)) (chunk_updates c2);
                    mret (Chunk (chunk_data c1) (chunk_index c1) []))
                     (<[dk := au]> σp) =
                   (Ok (Chunk (chunk_data c1) (chunk_index c1) []), σq)).
  { rewrite (bind_run _ _ _ _ _ Hqrun). reflexivity. }
  destruct (sim_run B' _ _ _ _ σpE _ _ Hsim_q Hag1 Hqrun')
    as (s' & σqE & HupdE & [<- Hs] & Hagq & _).
  set (s := Chunk (chunk_data c1) (chunk_index c1) []) in *.
  (* its data sent on *)
  assert (HRl1 : chunks_sim B' u datas (<[k := s]> lp) (<[k := s]> lpE)).
  { apply (chunks_sim_switch B B' u datas lp lpE k c2 s HB HRl Hc2);
      [exact Hd|reflexivity| |exact Hrd_ne].
    unfold s. cbn [chunk_data]. rewrite Hd. exact Hr2. }
  assert (Hsim_onto : sim B' (chunks_sim B' u datas)
                        (onto_each f1 s (js1 k) (<[k := s]> lp))
                        (onto_each f1 s (js1 k) (<[k := s]> lpE))).
  { apply sim_onto_each; [|exact HRl1].
    intros dst1 dst2. apply sim_apply_and_update_chunks.
    unfold s. cbn [chunk_data]. rewrite Hd. exact Hr2. }
  destruct (sim_run B' _ _ _ _ σqE _ _ Hsim_onto Hagq Honto)
    as (ltE & σtE & HontoE & HRlt & Hagt & _).
  (* the turns after it *)
  assert (Hsim_post : sim B' (chunks_sim B' u datas)
                        (foldM (turn f1 (Some op_mode) js1) lt
                               (seq (S k) (n - S k)))
                        (foldM (turn f1 (Some op_mode) js1) ltE
                               (seq (S k) (n - S k)))).
  { apply sim_turns; [|apply Hrd''|exact HRlt].
    intros src dst1 dst2. apply sim_apply_and_update_chunks. }
  destruct (sim_run B' _ _ _ _ σtE _ _ Hsim_post Hagt Hpost)
    as (l1E & σ1E & HpostE & HRl1' & Hag1' & _).
  assert (Hsim_2 : sim B' (chunks_sim B' u datas)
                     (foldM (turn f2 _REPLICA_MODE (fun j => seq 0 j)) l1
                            (rev (seq 0 n)))
                     (foldM (turn f2 _REPLICA_MODE (fun j => seq 0 j)) l1E
                            (rev (seq 0 n)))).
  { apply sim_turns; [|apply Hrd''|exact HRl1'].
    intros src dst1 dst2. apply sim_copy_on_intersection. }
  destruct (sim_run B' _ _ _ _ σ1E _ _ Hsim_2 Hag1' Hloop2)
    as (l2E & σ2E & Hloop2E & HRl2 & Hag2 & _).
  pose proof (chunks_sim_same B' u datas l2 l2E HRl2 Hrd') as <-.
  (* the run on the chunks without the update *)
  exists σ2E. split; [|exact Hag2].
  rewrite _all_reduce_intersections_turns, flatten_drained_map, length_map.
  fold l0 n f1 f2 js1.
  assert (HturnE : turn f1 (Some op_mode) js1 lpE k σpE = (Ok ltE, σtE)).
  { unfold turn. rewrite (bind_run _ _ _ _ _ (list_get_run lpE k c2 σpE Hc2)).
    unfold _apply_updates. rewrite (bind_run _ _ _ _ _ HupdE).
    exact HontoE. }
  assert (Hloop1E : foldM (turn f1 (Some op_mode) js1) (map drained l0)
                          (seq 0 n) σE = (Ok l1E, σ1E)).
  { rewrite (seq_split k n Hkn), foldM_app.
    rewrite (bind_run _ _ _ _ _ HpreE). cbn [foldM].
    rewrite (bind_run _ _ _ _ _ HturnE). exact HpostE. }
  rewrite (bind_run _ _ _ _ _ Hloop1E), (bind_run _ _ _ _ _ Hloop2E).
  rewrite unflatten_drained_map. reflexivity.
Qed.


End Carried.

Section CarriedOperand.

Context {V : Type} `{!Dtype V} `{!Runtime V}.

Lemma lift_inv {A} (r : result A) (x : A) (σ σ' : store V) :
  lift r σ = (Ok x, σ') -> r = Ok x /\ σ' = σ.
Proof. unfold lift. intros H. injection H as -> ->. split; reflexivity. Qed.

(** [to_replica_mode] on an op-mode operand one of whose chunks carries
    an update, and on the operand after the update has been applied to the
    chunk: the same array, in stores that differ only in the buffer of the
    chunk of the operand. *)
Lemma to_replica_mode_carried (z : _DistributedArray V)
      (op_mode : _OpMode V) (bk k : nat)
      (ck : _Chunk) (u : _PartialUpdate) (a au p : ndarray V)
      (σL σE : store V) :
  _mode z = Some op_mode ->
  Forall (fun n => 0 <= n) (da_shape z) ->
  (_comms z <> [] \/ nccl_available = true) ->
  can_exchange z (map chunk_data (flatten (_chunks_map z))) ->
  Forall (well_formed_chunk (da_shape z) σL) (flatten (_chunks_map z)) ->
  NoDup (map buf_of (flatten (_chunks_map z))) ->
  flatten (_chunks_map z) !! k = Some ck ->
  buf_of ck = bk -> chunk_updates ck = [u] ->
  (forall j c, j <> k -> flatten (_chunks_map z) !! j = Some c ->
               chunk_updates c = []) ->
  agree (fun i => i = bk) σL σE ->
  σL !! bk = Some a -> σE !! bk = Some au ->
  load (transfer_data u.1) σL = (Ok p, σL) ->
  applied (Some op_mode) a u.2 p = Ok au ->
  exists z' extL extE,
    to_replica_mode z σL = (Ok z', σL ++ extL) /\
    to_replica_mode
      (DistributedArray (da_shape z) (drained_map (_chunks_map z))
                        (_mode z) (_comms z)) σE = (Ok z', σE ++ extE) /\
    agree (fun i => i = bk) (σL ++ extL) (σE ++ extE) /\
    _mode z' = _REPLICA_MODE /\
    da_shape z' = da_shape z /\
    index_map z' = index_map z /\
    map fst (_chunks_map z') = map fst (_chunks_map z) /\
    Forall (well_formed_chunk (da_shape z) (σL ++ extL))
           (flatten (_chunks_map z')) /\
    Forall (fun c => chunk_updates c = []) (flatten (_chunks_map z')) /\
    map buf_of (flatten (_chunks_map z')) =
      seq (length σL) (length (flatten (_chunks_map z))).
Proof.
  intros Hmode Hshape Hcomms Hex Hwf Hnd Hk Hckb Hcku Hothers Hag HaL HaE
         Hp Happ.
  destruct (to_replica_mode_total z op_mode σL Hmode Hshape Hcomms Hex Hwf)
    as (z' & extL & Hrun & Hrest).
  set (cm := _chunks_map z) in *.
  set (n0 := length σL).
  pose proof Hag as (Hlen & _ & Hsame).
  (* the run, in parts *)
  pose proof Hrun as Hrun'. unfold to_replica_mode in Hrun'.
  rewrite Hmode in Hrun'. cbn [mode_is _REPLICA_MODE] in Hrun'.
  apply bind_Ok_inv in Hrun'. destruct Hrun' as (cm' & σ' & Hrep & Hnew).
  apply lift_inv in Hnew. destruct Hnew as [Hnew Eσ]. subst σ'.
  unfold _replica_mode_chunks_map in Hrep. rewrite Hmode in Hrep.
  apply bind_Ok_inv in Hrep. destruct Hrep as (cm0 & σ0 & Hcopy & Hred).
  destruct (contents_exist _ _ _ Hwf) as (ext0 & Hc).
  pose proof (copy_map_run cm ext0 σL Hc) as Hcopy'.
  unfold _copy_chunks_map in Hcopy. fold cm in Hcopy.
  rewrite Hcopy' in Hcopy. injection Hcopy as <- <-. fold n0 in Hred.
  (* what the chunk with the update holds *)
  assert (Hckv : arr_view (chunk_data ck) = [] /\ ext0 !! k = Some a).
  { destruct (Forall2_lookup_l _ _ _ _ _ Hc Hk) as (x & Hx & Hv & Hb).
    rewrite Hckb, HaL in Hb. injection Hb as <-. split; assumption. }
  destruct Hckv as [Hckv Hext].
  assert (Hkl : (k < length ext0)%nat) by (eapply lookup_lt_Some, Hext).
  (* the copies of the chunks after the update *)
  assert (HcE : contents σE (flatten (drained_map cm)) (<[k := au]> ext0)).
  { rewrite flatten_drained_map. unfold contents.
    apply Forall2_same_length_lookup_2.
    { rewrite length_insert, length_map. eapply Forall2_length, Hc. }
    intros j c x Hj Hx. rewrite list_lookup_fmap in Hj.
    destruct (flatten cm !! j) as [c0|] eqn:Ec; [|discriminate].
    injection Hj as <-. cbn [drained chunk_data]. unfold buf_of.
    cbn [drained chunk_data].
    destruct (Forall2_lookup_l _ _ _ _ _ Hc Ec) as (x0 & Hx0 & Hv & Hb).
    split; [exact Hv|]. destruct (Nat.eq_dec j k) as [->|Hne].
    - rewrite list_lookup_insert_eq in Hx by exact Hkl. injection Hx as <-.
      rewrite Hk in Ec. injection Ec as <-. fold (buf_of ck).
      rewrite Hckb. exact HaE.
    - rewrite list_lookup_insert_ne in Hx by congruence.
      rewrite Hx0 in Hx. injection Hx as <-.
      rewrite <- Hsame; [exact Hb|]. intros E. apply Hne.
      eapply (NoDup_lookup (map buf_of (flatten cm))); [exact Hnd| |].
      + rewrite list_lookup_fmap, Ec. cbn. unfold buf_of. rewrite E.
        reflexivity.
      + rewrite list_lookup_fmap, Hk. cbn. rewrite Hckb. reflexivity. }
  pose proof (copy_map_run (drained_map cm) (<[k := au]> ext0) σE HcE)
    as HcopyE.
  rewrite <- Hlen in HcopyE. fold n0 in HcopyE.
  rewrite copied_map_drained in HcopyE.
  set (cm0 := copied_map n0 cm) in *.
  assert (Hflat : flatten cm0 = copied n0 (flatten cm))
    by apply flatten_copied_map.
  set (dk := (n0 + k)%nat).
  assert (Hag0 : agree (fun i => i = bk \/ i = dk)
                       (σL ++ ext0) (σE ++ <[k := au]> ext0)).
  { split; [|split].
    - rewrite !length_app, length_insert. lia.
    - intros i [->| ->]; rewrite length_app.
      + apply lookup_lt_Some in HaL. lia.
      + unfold dk, n0. lia.
    - intros i Hi. destruct (Nat.lt_ge_cases i n0) as [Hlt|Hge].
      + rewrite !lookup_app_l by (unfold n0 in *; lia). apply Hsame.
        intros ->. apply Hi. left. reflexivity.
      + rewrite !lookup_app_r by (unfold n0 in *; lia). rewrite <- Hlen.
        fold n0. rewrite list_lookup_insert_ne; [reflexivity|].
        intros ->. apply Hi. right. unfold dk. lia. }
  destruct (_all_reduce_intersections_drained z op_mode (da_shape z) cm0 cm'
              bk dk n0 k
              (Chunk (Array (arr_dev (chunk_data ck)) dk [])
                     (chunk_index ck) (chunk_updates ck))
              u a au p (σL ++ ext0) (σE ++ <[k := au]> ext0) (σL ++ extL))
    as (σE' & HredE & HagE); try assumption.
  - rewrite Hflat, copied_lookup, Hk. reflexivity.
  - reflexivity.
  - reflexivity.
  - intros j c Hj Hcj. rewrite Hflat, copied_lookup in Hcj.
    destruct (flatten cm !! j) as [c0|] eqn:Ec; [|discriminate].
    injection Hcj as <-. cbn [chunk_updates]. apply (Hothers j c0 Hj Ec).
  - rewrite Hflat. apply Forall_lookup. intros j c Hcj.
    rewrite copied_lookup in Hcj.
    destruct (flatten cm !! j) as [c0|]; [|discriminate].
    injection Hcj as <-. unfold above. cbn. lia.
  - apply lookup_lt_Some in HaL. exact HaL.
  - rewrite length_app. unfold n0. lia.
  - rewrite Hflat, copied_bufs. apply NoDup_seq.
  - unfold dk, n0. rewrite lookup_app_r by lia.
    replace (length σL + k - length σL)%nat with k by lia. exact Hext.
  - unfold dk, n0. rewrite lookup_app_r by lia. rewrite <- Hlen.
    replace (length σL + k - length σL)%nat with k by lia.
    apply list_lookup_insert_eq. exact Hkl.
  - apply load_app. exact Hp.
  - apply load_lt in Hp. exact Hp.
  - assert (HrunE : to_replica_mode
                      (DistributedArray (da_shape z) (drained_map cm)
                                        (_mode z) (_comms z)) σE =
                    (Ok z', σE')).
    { unfold to_replica_mode. cbn [_mode da_shape _comms].
      rewrite Hmode. cbn [mode_is _REPLICA_MODE].
      assert (HrepE : _replica_mode_chunks_map
                        (DistributedArray (da_shape z) (drained_map cm)
                                          (Some op_mode) (_comms z)) σE =
                      (Ok cm', σE')).
      { unfold _replica_mode_chunks_map, _copy_chunks_map.
        cbn [_chunks_map _mode da_shape].
        rewrite (bind_run _ _ _ _ _ HcopyE). exact HredE. }
      rewrite (bind_run _ _ _ _ _ HrepE). apply lift_run. exact Hnew. }
    destruct (to_replica_mode_appends _ z' σE σE' HrunE) as (extE & ->).
    exists z', extL, extE. split; [exact Hrun|]. split; [exact HrunE|].
    split; [exact HagE|exact Hrest].
Qed.

End CarriedOperand.


(** ** An operand of the kernel, converted before and after its update
    is applied *)

Section Operand.

Context {V : Type} `{!Dtype V} `{!Runtime V}.

(** The array that [drain_updates] returns. *)
Definition drained_array (z : _DistributedArray V) : _DistributedArray V :=
  DistributedArray (da_shape z) (drained_map (_chunks_map z)) (_mode z)
                   (_comms z).

Lemma drained_id (c : _Chunk) : chunk_updates c = [] -> drained c = c.
Proof. destruct c as [d i q]. cbn. intros ->. reflexivity. Qed.

Lemma map_drained_id (l : list _Chunk) :
  Forall (fun c => chunk_updates c = []) l -> map drained l = l.
Proof.
  induction 1 as [|c l Hc _ IH]; [reflexivity|].
  cbn [map]. rewrite (drained_id c Hc), IH. reflexivity.
Qed.

Lemma drained_map_id (cm : dict (list _Chunk)) :
  Forall (fun c => chunk_updates c = []) (flatten cm) -> drained_map cm = cm.
Proof.
  unfold flatten, drained_map.
  induction cm as [|[dev chunks] cm IH]; intros H; [reflexivity|].
  cbn [flat_map snd] in H. apply Forall_app in H. destruct H as [H1 H2].
  cbn [map]. rewrite (map_drained_id chunks H1), (IH H2). reflexivity.
Qed.

Lemma drained_array_id (z : _DistributedArray V) :
  Forall (fun c => chunk_updates c = []) (flatten (_chunks_map z)) ->
  drained_array z = z.
Proof.
  intros H. destruct z as [s cm m cs]. unfold drained_array.
  cbn [da_shape _chunks_map _mode _comms] in *.
  rewrite (drained_map_id cm H). reflexivity.
Qed.

(** Exactly one update pending among the chunks of a list. *)
Lemma single_update (l : list _Chunk) :
  length (flat_map chunk_updates l) = 1%nat ->
  exists k ck u,
    l !! k = Some ck /\ chunk_updates ck = [u] /\
    forall j c, j <> k -> l !! j = Some c -> chunk_updates c = [].
Proof.
  induction l as [|c l IH]; [discriminate|].
  cbn [flat_map]. rewrite length_app. intros Hlen.
  destruct (chunk_updates c) as [|u [|u' q]] eqn:E; cbn [length] in Hlen.
  - destruct (IH ltac:(lia)) as (k & ck & u & Hk & Hu & Hrest).
    exists (S k), ck, u. split; [exact Hk|]. split; [exact Hu|].
    intros [|j] c' Hj Hc'.
    + injection Hc' as <-. exact E.
    + apply (Hrest j); [lia|exact Hc'].
  - exists 0%nat, c, u. split; [reflexivity|]. split; [exact E|].
    intros [|j] c' Hj Hc'; [congruence|].
    assert (Hnil : flat_map chunk_updates l = []).
    { destruct (flat_map chunk_updates l); [reflexivity|simpl in Hlen; lia]. }
    apply (flat_map_nil chunk_updates l c' Hnil).
    apply list_elem_of_In. eapply list_elem_of_lookup_2, Hc'.
  - lia.
Qed.

Lemma no_update (l : list _Chunk) :
  length (flat_map chunk_updates l) = 0%nat ->
  Forall (fun c => chunk_updates c = []) l.
Proof.
  intros H. apply Forall_forall. intros c Hc.
  apply (flat_map_nil chunk_updates l c); [|apply list_elem_of_In, Hc].
  destruct (flat_map chunk_updates l); [reflexivity|discriminate].
Qed.

Lemma flat_map_updates_nil (l : list _Chunk) :
  Forall (fun c => chunk_updates c = []) l -> flat_map chunk_updates l = [].
Proof.
  induction 1 as [|c l Hc _ IH]; [reflexivity|].
  cbn [flat_map]. rewrite Hc, IH. reflexivity.
Qed.

Lemma holds_exist (shape : list Z) (σ : store V) (l : list _Chunk) :
  Forall (well_formed_chunk shape σ) l ->
  Forall (fun c => (length (chunk_updates c) <= 1)%nat) l ->
  exists vs, Forall2 (holds shape σ) l vs.
Proof.
  induction 1 as [|c l Hc _ IH]; intros Hq.
  - exists []. constructor.
  - apply Forall_cons in Hq. destruct Hq as [Hq1 Hq].
    destruct (well_formed_holds shape σ c Hc Hq1) as (v & Hv).
    destruct (IH Hq) as (vs & Hvs). exists (v :: vs).
    constructor; assumption.
Qed.

(** *** The updates applied *)

Lemma apply_updates_none (c : _Chunk) (mode : _Mode V) (σ : store V) :
  chunk_updates c = [] -> _apply_updates c mode σ = (Ok (drained c), σ).
Proof. intros H. unfold _apply_updates. rewrite H. reflexivity. Qed.

Lemma apply_updates_one (c : _Chunk) (mode : _Mode V) (u : _PartialUpdate)
      (a au p : ndarray V) (σ : store V) :
  chunk_updates c = [u] -> arr_view (chunk_data c) = [] ->
  σ !! buf_of c = Some a ->
  load (transfer_data u.1) σ = (Ok p, σ) ->
  applied mode a u.2 p = Ok au ->
  _apply_updates c mode σ = (Ok (drained c), <[buf_of c := au]> σ).
Proof.
  intros Hu Hv Hb Hp Ha. unfold _apply_updates. rewrite Hu. cbn [forM].
  pose proof (apply_update_applied c mode u σ a p Hv Hb Hp) as Hrun.
  rewrite Ha in Hrun.
  rewrite (bind_run _ _ _ _ _ (bind_run _ _ _ _ _ Hrun)). reflexivity.
Qed.

Lemma drain_list_none (mode : _Mode V) (l : list _Chunk) (σ : store V) :
  Forall (fun c => chunk_updates c = []) l ->
  forM (fun chunk => _apply_updates chunk mode) l σ = (Ok (map drained l), σ).
Proof.
  induction 1 as [|c l Hc _ IH]; [reflexivity|].
  cbn [forM map]. rewrite (bind_run _ _ _ _ _ (apply_updates_none c mode σ Hc)).
  rewrite (bind_run _ _ _ _ _ IH). reflexivity.
Qed.

Lemma drain_list_one (mode : _Mode V) (u : _PartialUpdate)
      (a au p : ndarray V) (ck : _Chunk) (σ : store V) (l : list _Chunk) :
  chunk_updates ck = [u] -> arr_view (chunk_data ck) = [] ->
  σ !! buf_of ck = Some a ->
  load (transfer_data u.1) σ = (Ok p, σ) ->
  applied mode a u.2 p = Ok au ->
  forall k,
    l !! k = Some ck ->
    (forall j c, j <> k -> l !! j = Some c -> chunk_updates c = []) ->
    forM (fun chunk => _apply_updates chunk mode) l σ =
      (Ok (map drained l), <[buf_of ck := au]> σ).
Proof.
  intros Hu Hv Hb Hp Ha. induction l as [|c l IH]; intros k Hk Hrest.
  - discriminate.
  - destruct k as [|k].
    + injection Hk as ->. cbn [forM map].
      rewrite (bind_run _ _ _ _ _
                 (apply_updates_one ck mode u a au p σ Hu Hv Hb Hp Ha)).
      assert (Hn : Forall (fun c => chunk_updates c = []) l).
      { apply Forall_lookup. intros j c Hj.
        apply (Hrest (S j) c); [lia|exact Hj]. }
      rewrite (bind_run _ _ _ _ _ (drain_list_none mode l _ Hn)).
      reflexivity.
    + cbn [forM map].
      rewrite (bind_run _ _ _ _ _ (apply_updates_none c mode σ
                                     (Hrest 0%nat c ltac:(lia) eq_refl))).
      assert (Hr' : forall j c', j <> k -> l !! j = Some c' ->
                                 chunk_updates c' = []).
      { intros j c' Hj Hc'. apply (Hrest (S j) c'); [lia|exact Hc']. }
      rewrite (bind_run _ _ _ _ _ (IH k Hk Hr')). reflexivity.
Qed.

Lemma drain_map_none (mode : _Mode V) (cm : dict (list _Chunk)) (σ : store V) :
  Forall (fun c => chunk_updates c = []) (flatten cm) ->
  map_chunks (fun chunk => _apply_updates chunk mode) cm σ =
    (Ok (drained_map cm), σ).
Proof.
  unfold map_chunks, flatten, drained_map.
  induction cm as [|[dev chunks] cm IH]; intros H; [reflexivity|].
  cbn [flat_map snd] in H. apply Forall_app in H. destruct H as [H1 H2].
  cbn [forM map].
  assert (Hstep : (forM (fun chunk => _apply_updates chunk mode) chunks ≫=
                   λ chunks0, mret (dev, chunks0)) σ =
                  (Ok (dev, map drained chunks), σ))
    by (rewrite (bind_run _ _ _ _ _ (drain_list_none mode chunks σ H1));
        reflexivity).
  rewrite (bind_run _ _ _ _ _ Hstep).
  rewrite (bind_run _ _ _ _ _ (IH H2)). reflexivity.
Qed.

Lemma drain_map_one (mode : _Mode V) (u : _PartialUpdate)
      (a au p : ndarray V) (ck : _Chunk) (σ : store V)
      (cm : dict (list _Chunk)) :
  chunk_updates ck = [u] -> arr_view (chunk_data ck) = [] ->
  σ !! buf_of ck = Some a ->
  load (transfer_data u.1) σ = (Ok p, σ) ->
  applied mode a u.2 p = Ok au ->
  forall k,
    flatten cm !! k = Some ck ->
    (forall j c, j <> k -> flatten cm !! j = Some c -> chunk_updates c = []) ->
    map_chunks (fun chunk => _apply_updates chunk mode) cm σ =
      (Ok (drained_map cm), <[buf_of ck := au]> σ).
Proof.
  intros Hu Hv Hb Hp Ha. unfold map_chunks, flatten, drained_map.
  induction cm as [|[dev chunks] cm IH]; intros k Hk Hrest.
  - discriminate.
  - cbn [flat_map snd] in Hk, Hrest. cbn [forM map].
    destruct (Nat.lt_ge_cases k (length chunks)) as [Hlt|Hge].
    + rewrite lookup_app_l in Hk by exact Hlt.
      assert (H1 : forM (fun chunk => _apply_updates chunk mode) chunks σ =
                   (Ok (map drained chunks), <[buf_of ck := au]> σ)).
      { apply (drain_list_one mode u a au p ck σ chunks Hu Hv Hb Hp Ha k Hk).
        intros j c Hj Hc. apply (Hrest j c Hj).
        rewrite lookup_app_l; [exact Hc|]. eapply lookup_lt_Some, Hc. }
      assert (Hstep : (forM (fun chunk => _apply_updates chunk mode) chunks ≫=
                       λ chunks0, mret (dev, chunks0)) σ =
                      (Ok (dev, map drained chunks), <[buf_of ck := au]> σ))
        by (rewrite (bind_run _ _ _ _ _ H1); reflexivity).
      rewrite (bind_run _ _ _ _ _ Hstep).
      assert (Hn : Forall (fun c => chunk_updates c = []) (flat_map snd cm)).
      { apply Forall_lookup. intros j c Hj.
        apply (Hrest (length chunks + j)%nat c); [lia|].
        rewrite lookup_app_r by lia.
        replace (length chunks + j - length chunks)%nat with j by lia.
        exact Hj. }
      pose proof (drain_map_none mode cm (<[buf_of ck := au]> σ) Hn) as H2.
      unfold map_chunks, drained_map in H2.
      rewrite (bind_run _ _ _ _ _ H2). reflexivity.
    + rewrite lookup_app_r in Hk by exact Hge.
      assert (H1 : forM (fun chunk => _apply_updates chunk mode) chunks σ =
                   (Ok (map drained chunks), σ)).
      { apply drain_list_none. apply Forall_lookup. intros j c Hj.
        apply (Hrest j c).
        - apply lookup_lt_Some in Hj. lia.
        - rewrite lookup_app_l; [exact Hj|]. eapply lookup_lt_Some, Hj. }
      assert (Hstep : (forM (fun chunk => _apply_updates chunk mode) chunks ≫=
                       λ chunks0, mret (dev, chunks0)) σ =
                      (Ok (dev, map drained chunks), σ))
        by (rewrite (bind_run _ _ _ _ _ H1); reflexivity).
      rewrite (bind_run _ _ _ _ _ Hstep).
      assert (Hr' : forall j c, j <> (k - length chunks)%nat ->
                                flat_map snd cm !! j = Some c ->
                                chunk_updates c = []).
      { intros j c Hj Hc. apply (Hrest (length chunks + j)%nat c); [lia|].
        rewrite lookup_app_r by lia.
        replace (length chunks + j - length chunks)%nat with j by lia.
        exact Hc. }
      rewrite (bind_run _ _ _ _ _ (IH (k - length chunks)%nat Hk Hr')).
      reflexivity.
Qed.

Lemma drain_updates_none (z : _DistributedArray V) (σ : store V) :
  Forall (fun c => chunk_updates c = []) (flatten (_chunks_map z)) ->
  drain_updates z σ = (Ok (drained_array z), σ).
Proof.
  intros H. unfold drain_updates.
  rewrite (bind_run _ _ _ _ _ (drain_map_none (_mode z) _ σ H)). reflexivity.
Qed.

Lemma drain_updates_one (z : _DistributedArray V) (u : _PartialUpdate)
      (a au p : ndarray V) (k : nat) (ck : _Chunk) (σ : store V) :
  flatten (_chunks_map z) !! k = Some ck ->
  chunk_updates ck = [u] -> arr_view (chunk_data ck) = [] ->
  (forall j c, j <> k -> flatten (_chunks_map z) !! j = Some c ->
               chunk_updates c = []) ->
  σ !! buf_of ck = Some a ->
  load (transfer_data u.1) σ = (Ok p, σ) ->
  applied (_mode z) a u.2 p = Ok au ->
  drain_updates z σ = (Ok (drained_array z), <[buf_of ck := au]> σ).
Proof.
  intros Hk Hu Hv Hrest Hb Hp Ha. unfold drain_updates.
  rewrite (bind_run _ _ _ _ _
             (drain_map_one (_mode z) u a au p ck σ (_chunks_map z)
                            Hu Hv Hb Hp Ha k Hk Hrest)).
  reflexivity.
Qed.

(** *** What the chunks hold after the update is applied *)

Lemma holds_drained_same (shape : list Z) (σ σ' : store V) (c : _Chunk)
      (v : ndarray V) :
  chunk_updates c = [] ->
  σ' !! buf_of c = σ !! buf_of c ->
  holds shape σ c v -> holds shape σ' (drained c) v.
Proof.
  intros Hu Hb Hh. rewrite (drained_id c Hu).
  apply (holds_frame shape σ σ' c v Hu Hb Hh).
Qed.

Lemma holds_drained_applied (shape : list Z) (σ σ' : store V) (c : _Chunk)
      (u : _PartialUpdate) (a au p v : ndarray V) :
  chunk_updates c = [u] ->
  holds shape σ c v ->
  σ !! buf_of c = Some a ->
  load (transfer_data u.1) σ = (Ok p, σ) ->
  applied _REPLICA_MODE a u.2 p = Ok au ->
  σ' !! buf_of c = Some au ->
  holds shape σ' (drained c) v.
Proof.
  intros Hu (a0 & axes & (Hv & Hb0 & Hl & Hp & Hax & Hs) & Hvs & Hh) Hb Hload
         Ha Hb'.
  unfold buf_of in *. rewrite Hb in Hb0. injection Hb0 as <-.
  rewrite Hu in Hh. destruct Hh as (p0 & uaxes & (Hl0 & Hpos & Hua & Hps) & Hit).
  rewrite Hload in Hl0. injection Hl0 as <-.
  pose proof (axes_of_pos _ _ _ Hpos Hua) as Hpos'.
  destruct (setitem_same_shape a u.2 p uaxes) as (a' & Hset & Hs' & Hit');
    try assumption; [rewrite Hs; exact Hua|].
  cbn [applied _REPLICA_MODE] in Ha. rewrite Hset in Ha. injection Ha as <-.
  exists a', axes. split.
  - unfold chunk_ok. cbn [drained chunk_data chunk_index].
    repeat match goal with |- _ /\ _ => split end; try assumption.
    congruence.
  - split; [exact Hvs|]. cbn [drained chunk_updates]. intros c0 Hc0.
    rewrite Hit by exact Hc0. rewrite Hit'. reflexivity.
Qed.

(** *** The conversion of an operand *)

(** The operand and the update: none of its chunks has an update, and
    none is in the buffer [bk]; or the chunk in [bk] is one of its chunks
    and has the update [u], alone: the buffer holds [a] before the update
    is applied and [au] after, and the payload holds [p]. *)
Definition role (z : _DistributedArray V) (bk : nat) (u : _PartialUpdate)
           (a au p : ndarray V) (σL σE : store V) : Prop :=
  (Forall (fun c => chunk_updates c = []) (flatten (_chunks_map z)) /\
   ~ In bk (map buf_of (flatten (_chunks_map z)))) \/
  exists k ck,
    flatten (_chunks_map z) !! k = Some ck /\ buf_of ck = bk /\
    chunk_updates ck = [u] /\
    (forall j c, j <> k -> flatten (_chunks_map z) !! j = Some c ->
                 chunk_updates c = []) /\
    σL !! bk = Some a /\ σE !! bk = Some au /\
    load (transfer_data u.1) σL = (Ok p, σL) /\
    applied (_mode z) a u.2 p = Ok au.

Lemma role_app (z : _DistributedArray V) (bk : nat) (u : _PartialUpdate)
      (a au p : ndarray V) (σL σE extL extE : store V) :
  role z bk u a au p σL σE -> role z bk u a au p (σL ++ extL) (σE ++ extE).
Proof.
  intros [H|(k & ck & Hk & Hb & Hu & Ho & HaL & HaE & Hp & Ha)];
    [left; exact H|right].
  exists k, ck. repeat match goal with |- _ /\ _ => split end;
    try assumption.
  - rewrite lookup_app_l; [exact HaL|]. eapply lookup_lt_Some, HaL.
  - rewrite lookup_app_l; [exact HaE|]. eapply lookup_lt_Some, HaE.
  - apply load_app. exact Hp.
Qed.

(** An operand [z] of a kernel call, in a store [σL] where one update is
    pending, on the chunk in buffer [bk], and in a store [σE] where it has
    been applied; the chunk is a chunk of [z] or of another array.  The
    conversion of [z] in [σL] and of [z] with its updates applied in [σE]
    return arrays with the same chunks, but for the pending update, that
    hold the same values. *)
Lemma operand_converted (z : _DistributedArray V) (bk : nat)
      (u : _PartialUpdate) (a au p : ndarray V) (σL σE : store V) :
  convertible z ->
  Forall (well_formed_chunk (da_shape z) σL) (flatten (_chunks_map z)) ->
  NoDup (map buf_of (flatten (_chunks_map z))) ->
  agree (fun i => i = bk) σL σE ->
  role z bk u a au p σL σE ->
  exists za extL extE vs,
    to_replica_mode z σL = (Ok za, σL ++ extL) /\
    to_replica_mode (drained_array z) σE =
      (Ok (drained_array za), σE ++ extE) /\
    agree (fun i => i = bk) (σL ++ extL) (σE ++ extE) /\
    _mode za = _REPLICA_MODE /\
    da_shape za = da_shape z /\
    index_map za = index_map z /\
    map fst (_chunks_map za) = map fst (_chunks_map z) /\
    Forall2 (holds (da_shape z) (σL ++ extL)) (flatten (_chunks_map za)) vs /\
    Forall2 (holds (da_shape z) (σE ++ extE))
            (map drained (flatten (_chunks_map za))) vs /\
    (length (flat_map chunk_updates (flatten (_chunks_map za))) <=
     length (flat_map chunk_updates (flatten (_chunks_map z))))%nat.
Proof.
  intros Hconv Hwf Hnd Hag Hrole. unfold role in Hrole.
  pose proof Hag as (Hlen & Hbk & Hsame).
  specialize (Hbk bk eq_refl).
  assert (Hne : forall k ck j c,
             flatten (_chunks_map z) !! k = Some ck -> buf_of ck = bk ->
             j <> k -> flatten (_chunks_map z) !! j = Some c ->
             buf_of c <> bk).
  { intros k ck j c Hk Hb Hj Hc E. apply Hj.
    eapply (NoDup_lookup (map buf_of (flatten (_chunks_map z))));
      [exact Hnd| |].
    - rewrite list_lookup_fmap, Hc. cbn. rewrite E. reflexivity.
    - rewrite list_lookup_fmap, Hk. cbn. rewrite Hb. reflexivity. }
  unfold convertible in Hconv.
  destruct (_mode z) as [op|] eqn:Hmode.
  - (* an op mode: the chunks are copied and exchanged *)
    destruct Hconv as (Hshape & Hcomms & Hex).
    assert (Hpost : forall z' extL extE,
               to_replica_mode z σL = (Ok z', σL ++ extL) ->
               to_replica_mode (drained_array z) σE = (Ok z', σE ++ extE) ->
               agree (fun i => i = bk) (σL ++ extL) (σE ++ extE) ->
               _mode z' = _REPLICA_MODE /\
               da_shape z' = da_shape z /\
               index_map z' = index_map z /\
               map fst (_chunks_map z') = map fst (_chunks_map z) /\
               Forall (well_formed_chunk (da_shape z) (σL ++ extL))
                      (flatten (_chunks_map z')) /\
               Forall (fun c => chunk_updates c = []) (flatten (_chunks_map z')) /\
               map buf_of (flatten (_chunks_map z')) =
                 seq (length σL) (length (flatten (_chunks_map z))) ->
               exists za extL extE vs,
                 to_replica_mode z σL = (Ok za, σL ++ extL) /\
                 to_replica_mode (drained_array z) σE =
                   (Ok (drained_array za), σE ++ extE) /\
                 agree (fun i => i = bk) (σL ++ extL) (σE ++ extE) /\
                 _mode za = _REPLICA_MODE /\
                 da_shape za = da_shape z /\
                 index_map za = index_map z /\
                 map fst (_chunks_map za) = map fst (_chunks_map z) /\
                 Forall2 (holds (da_shape z) (σL ++ extL))
                         (flatten (_chunks_map za)) vs /\
                 Forall2 (holds (da_shape z) (σE ++ extE))
                         (map drained (flatten (_chunks_map za))) vs /\
                 (length (flat_map chunk_updates (flatten (_chunks_map za))) <=
                  length (flat_map chunk_updates (flatten (_chunks_map z))))%nat).
    { intros z' extL extE HrunL HrunE HagE
             (Hm' & Hs' & Hi' & Hk' & Hwf' & Hnone' & Hbufs').
      destruct (holds_exist (da_shape z) (σL ++ extL)
                  (flatten (_chunks_map z')) Hwf') as (vs & Hvs).
      { eapply Forall_impl; [exact Hnone'|]. intros c ->. cbn. lia. }
      exists z', extL, extE, vs.
      rewrite (drained_array_id z' Hnone').
      repeat match goal with |- _ /\ _ => split end; try assumption.
      - apply Forall2_fmap_l. eapply Forall2_impl_In; [exact Hvs|].
        intros c v Hc Hh. unfold compose.
        assert (Hcb : (length σL <= buf_of c)%nat).
        { assert (Hin : In (buf_of c) (map buf_of (flatten (_chunks_map z'))))
            by (apply in_map; exact Hc).
          rewrite Hbufs' in Hin. apply in_seq in Hin. lia. }
        apply (holds_drained_same _ (σL ++ extL)); [| |exact Hh].
        + rewrite Forall_forall in Hnone'. apply Hnone'.
          apply list_elem_of_In. exact Hc.
        + destruct HagE as (_ & _ & HsameE). symmetry. apply HsameE. lia.
      - rewrite (flat_map_updates_nil _ Hnone'). cbn. lia. }
    destruct Hrole as [[Hnone Hnotin]|(k & ck & Hk & Hckb & Hcku & Hothers
                                        & HaL & HaE & Hp & Happ)].
    + destruct (to_replica_mode_blind z op bk σL σE Hmode Hshape Hcomms Hex
                  Hwf Hnone Hnotin Hag)
        as (z' & extL & extE & HrunL & HrunE & HagE & Hrest).
      apply (Hpost z' extL extE); try assumption.
      rewrite (drained_array_id z Hnone). exact HrunE.
    + destruct (to_replica_mode_carried z op bk k ck u a au p σL σE Hmode
                  Hshape Hcomms Hex Hwf Hnd Hk Hckb Hcku Hothers Hag HaL HaE
                  Hp Happ)
        as (z' & extL & extE & HrunL & HrunE & HagE & Hrest).
      apply (Hpost z' extL extE); assumption.
  - (* replica mode: the operand is taken as it is *)
    assert (Hq : Forall (fun c => (length (chunk_updates c) <= 1)%nat)
                        (flatten (_chunks_map z))).
    { apply Forall_lookup. intros j c Hc.
      destruct Hrole as [[Hnone _]|(k & ck & Hk & _ & Hcku & Hothers & _)].
      - rewrite Forall_forall in Hnone.
        rewrite (Hnone c (list_elem_of_lookup_2 _ _ _ Hc)). cbn. lia.
      - destruct (Nat.eq_dec j k) as [->|Hj].
        + rewrite Hk in Hc. injection Hc as <-. rewrite Hcku. cbn. lia.
        + rewrite (Hothers j c Hj Hc). cbn. lia. }
    destruct (holds_exist (da_shape z) σL (flatten (_chunks_map z)) Hwf Hq)
      as (vs & Hvs).
    exists z, [], [], vs. rewrite !app_nil_r.
    repeat match goal with |- _ /\ _ => split end;
      try assumption; try reflexivity.
    + unfold to_replica_mode. rewrite Hmode. reflexivity.
    + unfold to_replica_mode, drained_array. cbn [_mode]. rewrite Hmode.
      reflexivity.
    + apply Forall2_same_length_lookup_2.
      { rewrite length_map. eapply Forall2_length, Hvs. }
      intros j c' v Hc' Hv. rewrite list_lookup_fmap in Hc'.
      destruct (flatten (_chunks_map z) !! j) as [c|] eqn:Hc; [|discriminate].
      injection Hc' as <-.
      pose proof (Forall2_lookup_lr _ _ _ _ _ _ Hvs Hc Hv) as Hh.
      destruct Hrole as [[Hnone Hnotin]|(k & ck & Hk & Hckb & Hcku & Hothers
                                          & HaL & HaE & Hp & Happ)].
      * apply (holds_drained_same _ σL); [| |exact Hh].
        -- rewrite Forall_forall in Hnone. apply Hnone.
           eapply list_elem_of_lookup_2, Hc.
        -- symmetry. apply Hsame. intros E. apply Hnotin. rewrite <- E.
           apply in_map. apply list_elem_of_In.
           eapply list_elem_of_lookup_2, Hc.
      * destruct (Nat.eq_dec j k) as [->|Hj].
        -- rewrite Hk in Hc. injection Hc as <-.
           apply (holds_drained_applied _ σL σE ck u a au p v Hcku Hh);
             rewrite ?Hckb; assumption.
        -- apply (holds_drained_same _ σL); [| |exact Hh].
           ++ apply (Hothers j c Hj Hc).
           ++ symmetry. apply Hsame. apply (Hne k ck j c); assumption.
Qed.

End Operand.


Section KernelOnOperands.

Context {V : Type} `{!Dtype V} `{!Runtime V}.

(** The first loop of [_execute_kernel] on two operands of one shape and
    one index map: each is converted to replica mode. *)
Lemma collect_args_converted (x y xa ya : _DistributedArray V)
      (σ σ1 σ2 : store V) :
  da_shape y = da_shape x ->
  index_map_eqb (index_map y) (index_map x) = true ->
  NoDup (map fst (_chunks_map x)) ->
  to_replica_mode x σ = (Ok xa, σ1) ->
  to_replica_mode y σ1 = (Ok ya, σ2) ->
  collect_args x [ODist x; ODist y] σ =
    (Ok ([(KInt 0, xa); (KInt 1, ya)], []), σ2).
Proof.
  intros Hshape Hmap Hnd Hx Hy.
  assert (Hstep : forall (d d' : _DistributedArray V) acc i s s',
             da_shape d = da_shape x ->
             index_map_eqb (index_map d) (index_map x) = true ->
             to_replica_mode d s = (Ok d', s') ->
             (shape ← operand_shape (ODist d);
              if negb (list_eqb Z.eqb shape (da_shape x))
              then raise RuntimeError else
              if negb (index_map_eqb (index_map d) (index_map x))
              then raise RuntimeError else
              d' ← to_replica_mode d;
              mret (acc ++ [(KInt i, d')], @nil (arg_key * array))) s =
             (Ok (acc ++ [(KInt i, d')], []), s')).
  { intros d d' acc i s s' Hs Hi Hd. cbn [operand_shape].
    rewrite (bind_run _ _ _ _ _ (ret_run _ s)).
    rewrite Hs, (list_eqb_refl Z.eqb) by apply Z.eqb_refl.
    rewrite Hi. cbn [negb].
    rewrite (bind_run _ _ _ _ _ Hd). reflexivity. }
  unfold collect_args. cbn [imap foldM].
  rewrite (bind_run _ _ _ _ _
             (Hstep x xa [] 0%nat σ σ1 eq_refl (index_map_eqb_refl x Hnd) Hx)).
  cbn [app].
  rewrite (bind_run _ _ _ _ _
             (Hstep y ya [(KInt 0, xa)] 1%nat σ1 σ2 Hshape Hmap Hy)).
  reflexivity.
Qed.

Lemma on_device_self (x xa : _DistributedArray V) (f : kernel_fn V) :
  index_map xa = index_map x -> on_device x f = on_device xa f.
Proof.
  intros H. unfold on_device, execute_on_chunk. rewrite H. reflexivity.
Qed.

(** [_execute_kernel] on two operands that the first loop converts to
    [xa] and [ya], then [asnumpy] and a read of the host array: the host
    array assembled from what the kernel makes of what the chunks of [xa]
    and [ya] hold. *)
Lemma kernel_materialised (f : kernel_fn V) (x y xa ya : _DistributedArray V)
      (vxs vys : list (ndarray V)) (σ σa : store V) :
  collect_args x [ODist x; ODist y] σ =
    (Ok ([(KInt 0, xa); (KInt 1, ya)], []), σa) ->
  _mode xa = _REPLICA_MODE -> _mode ya = _REPLICA_MODE ->
  da_shape xa = da_shape x ->
  index_map xa = index_map x ->
  index_map_eqb (index_map ya) (index_map xa) = true ->
  NoDup (map fst (_chunks_map xa)) ->
  NoDup (map fst (_chunks_map ya)) ->
  (_comms x <> [] \/ nccl_available = true) ->
  Forall2 (holds (da_shape x) σa) (flatten (_chunks_map xa)) vxs ->
  Forall2 (holds (da_shape x) σa)
          (flatten (in_order_of (_chunks_map xa) (_chunks_map ya))) vys ->
  (length (flat_map chunk_updates (flatten (_chunks_map xa))) +
   length (flat_map chunk_updates (flatten (_chunks_map ya))) <= 1)%nat ->
  exists R σ' g,
    (d ← _execute_kernel x f [ODist x; ODist y] [];
     r ← asnumpy d; load r.1) σ = (Ok R, σ') /\
    nd_shape R = host_shape (da_shape x) /\
    (forall c,
       nd_item R c =
       assemble (da_shape x)
                (zip (map chunk_index (flatten (_chunks_map xa)))
                     (zip_with (kernel_value f) vxs vys)) g c) /\
    Forall2 (fun idx v =>
               forall c, index_mem (host_shape (da_shape x)) idx c = true ->
                         in_bounds (nd_shape v)
                                   (host_coord (da_shape x) idx c) = true)
            (map chunk_index (flatten (_chunks_map xa)))
            (zip_with (kernel_value f) vxs vys).
Proof.
  intros Hcollect Hmx Hmy Hsx Hix Hmap Hnd Hndy Hcomms Hhx Hhy Hcount.
  pose proof (in_order_of_updates xa ya Hmap Hndy) as Hperm.
  assert (Hal : aligned paired (_chunks_map xa)
                        (in_order_of (_chunks_map xa) (_chunks_map ya))).
  { eapply aligned_impl; [apply index_map_eqb_aligned; assumption|].
    intros cx cy Hx Hy Hidx. split; [exact Hidx|].
    pose proof (flat_map_length_In chunk_updates _ _ Hx).
    pose proof (flat_map_length_In chunk_updates _ _ Hy).
    destruct (chunk_updates cx); [left; reflexivity|right].
    destruct (chunk_updates cy); [reflexivity|]. simpl in *. lia. }
  destruct (execute_on_devices f (da_shape x) xa ya _ _ Hal vxs vys []
              (ODist x) (ODist y) σa)
    as (outs & ext & a0 & a1 & Hrun & Hidxs & Hhs & _ & Hnds & Hcnt);
    try assumption.
  { intros dev cxs Hin. apply dict_find_In; assumption. }
  { intros dev cys Hin. apply (in_order_of_lookup xa ya); assumption. }
  destruct (_DistributedArray_new_ok (da_shape x) outs _REPLICA_MODE
              (Some (_comms x))) as (cs & Hnew & _).
  { destruct Hcomms as [Hc|Hc]; [left|right; exact Hc].
    destruct (_comms x); [contradiction|reflexivity]. }
  set (d' := DistributedArray (V := V) (da_shape x) outs _REPLICA_MODE cs).
  assert (Hlen : forall dev cys,
             In (dev, cys) (_chunks_map ya) ->
             exists cxs, In (dev, cxs) (_chunks_map xa) /\
                         length cxs = length cys).
  { intros dev cys Hin.
    destruct (aligned_In_r paired _ _ dev cys Hal) as (cxs & Hinx & Hp).
    - eapply Permutation_in; [symmetry; apply in_order_of_perm; eassumption|].
      exact Hin.
    - exists cxs. split; [exact Hinx|]. eapply Forall2_length, Hp. }
  assert (Hexec : _execute_kernel x f [ODist x; ODist y] [] σ =
                  (Ok d', σa ++ ext)).
  { unfold _execute_kernel.
    rewrite (bind_run _ _ _ _ _ Hcollect).
    cbn [collect_kwargs foldM].
    rewrite (bind_run _ _ _ _ _ (ret_run _ σa)).
    rewrite (bind_run _ _ _ _ _
               (lift_run _ _ σa (_count_chunks_pair xa ya Hnd Hlen))).
    change (foldM _ ?s ?l) with (foldM (on_device x f) s l).
    rewrite (on_device_self x xa f Hix).
    rewrite (bind_run _ _ _ _ _ Hrun). cbn [app].
    apply lift_run. exact Hnew. }
  destruct (materialise_run d' (zip_with (kernel_value f) vxs vys) (σa ++ ext))
    as (R & σ' & g & Hmat & HRs & HR); try assumption; try reflexivity.
  { unfold d'. cbn [_chunks_map]. rewrite Hcnt, Hperm. exact Hcount. }
  exists R, σ', g. unfold d' in HRs, HR. cbn [da_shape _chunks_map] in HRs, HR.
  rewrite Hidxs in HR.
  split; [|split; [exact HRs|split; [exact HR|]]].
  - rewrite (bind_run _ _ _ _ _ Hexec). exact Hmat.
  - rewrite <- Hidxs. apply Forall2_fmap_l.
    eapply Forall2_impl; [exact Hhs|]. intros chunk v Hcv c. unfold compose.
    apply (host_coord_in_bounds (da_shape x) (σa ++ ext)). exact Hcv.
Qed.

Lemma Forall2_exists {A B} (P : A -> B -> Prop) (l : list A) :
  (forall x, In x l -> exists y, P x y) -> exists k, Forall2 P l k.
Proof.
  induction l as [|x l IH]; intros H.
  - exists []. constructor.
  - destruct (H x ltac:(left; reflexivity)) as (y & Hy).
    destruct (IH ltac:(intros x' Hx'; apply H; right; exact Hx')) as (k & Hk).
    exists (y :: k). constructor; assumption.
Qed.

Lemma index_map_flat (z : _DistributedArray V) :
  map chunk_index (flatten (_chunks_map z)) = flat_map snd (index_map z).
Proof.
  unfold flatten, index_map. induction (_chunks_map z) as [|[dev chunks] cm IH];
    [reflexivity|].
  cbn [flat_map snd map]. rewrite map_app, IH. reflexivity.
Qed.

(** The two calls of the kernel, given how the update lies with respect to
    the operands and what draining the operands does. *)
Lemma kernels_agree (f : kernel_fn V) (x y : _DistributedArray V) (bk : nat)
      (u : _PartialUpdate) (a au p : ndarray V) (σ σx σE : store V) :
  da_shape y = da_shape x ->
  index_map_eqb (index_map y) (index_map x) = true ->
  NoDup (map fst (_chunks_map x)) ->
  NoDup (map fst (_chunks_map y)) ->
  (_comms x <> [] \/ nccl_available = true) ->
  convertible x -> convertible y ->
  Forall (well_formed_chunk (da_shape x) σ) (flatten (_chunks_map x)) ->
  Forall (well_formed_chunk (da_shape x) σ) (flatten (_chunks_map y)) ->
  NoDup (map buf_of (flatten (_chunks_map x))) ->
  NoDup (map buf_of (flatten (_chunks_map y))) ->
  (length (flat_map chunk_updates (flatten (_chunks_map x))) +
   length (flat_map chunk_updates (flatten (_chunks_map y))) <= 1)%nat ->
  agree (fun i => i = bk) σ σE ->
  role x bk u a au p σ σE ->
  role y bk u a au p σ σE ->
  drain_updates x σ = (Ok (drained_array x), σx) ->
  drain_updates y σx = (Ok (drained_array y), σE) ->
  exists R1 R2 σ1 σ2,
    lazy_kernel f x y σ = (Ok R1, σ1) /\
    eager_kernel f x y σ = (Ok R2, σ2) /\
    nd_shape R1 = nd_shape R2 /\
    (forall c,
       Exists (fun chunk => index_mem (nd_shape R1) (chunk_index chunk) c = true)
              (flatten (_chunks_map x)) ->
       nd_item R1 c = nd_item R2 c) /\
    ((forall c, in_bounds (nd_shape R1) c = true ->
                Exists (fun chunk =>
                          index_mem (nd_shape R1) (chunk_index chunk) c = true)
                       (flatten (_chunks_map x))) ->
     nd_eq R1 R2).
Proof.
  intros Hshape Hmap Hkeys Hkeysy Hcomms Hcx Hcy Hwfx Hwfy Hbx Hby Hcount
         Hag Hrx Hry Hdx Hdy.
  set (shape := da_shape x) in *.
  (* the operands converted *)
  destruct (operand_converted x bk u a au p σ σE Hcx Hwfx Hbx Hag Hrx)
    as (xa & eL1 & eE1 & vxs & HxL & HxE & Hag1 & Hmxa & Hsxa & Hixa & Hkxa
        & Hhx1 & Hhx2 & Hcxa).
  fold shape in Hhx1, Hhx2.
  destruct (operand_converted y bk u a au p (σ ++ eL1) (σE ++ eE1))
    as (ya & eL2 & eE2 & vys0 & HyL & HyE & Hag2 & Hmya & Hsya & Hiya & Hkya
        & Hhy1 & Hhy2 & Hcya); try assumption.
  { rewrite Hshape. eapply well_formed_all_sub; [apply sub_app|exact Hwfy]. }
  { apply role_app. exact Hry. }
  rewrite Hshape in Hhy1, Hhy2. fold shape in Hhy1, Hhy2.
  set (σL2 := (σ ++ eL1) ++ eL2) in *.
  set (σE2 := (σE ++ eE1) ++ eE2) in *.
  assert (Hmapa : index_map_eqb (index_map ya) (index_map xa) = true)
    by (rewrite Hiya, Hixa; exact Hmap).
  assert (Hkxa' : NoDup (map fst (_chunks_map xa))) by (rewrite Hkxa; exact Hkeys).
  assert (Hkya' : NoDup (map fst (_chunks_map ya))) by (rewrite Hkya; exact Hkeysy).
  (* what the chunks hold, in the order of the devices of the first *)
  set (lo := flatten (in_order_of (_chunks_map xa) (_chunks_map ya))).
  assert (Hsub : forall c, In c lo -> In c (flatten (_chunks_map ya))).
  { intros c Hc. eapply Permutation_in; [|exact Hc].
    unfold lo, flatten. apply Permutation_flat_map.
    apply in_order_of_perm; assumption. }
  destruct (Forall2_exists (holds shape σL2) lo) as (vys & Hvys).
  { intros c Hc. apply Hsub in Hc.
    apply list_elem_of_In, list_elem_of_lookup_1 in Hc. destruct Hc as (j & Hj).
    destruct (Forall2_lookup_l _ _ _ _ _ Hhy1 Hj) as (v & _ & Hv).
    exists v. exact Hv. }
  assert (HvysE : Forall2 (holds shape σE2) (map drained lo) vys).
  { apply Forall2_fmap_l. eapply Forall2_impl_In; [exact Hvys|].
    intros c v Hin Hc. unfold compose.
    apply (holds_pointwise shape σL2 σE2 drained _ _ Hhy1 Hhy2);
      [apply Hsub, Hin|exact Hc]. }
  assert (HvxL : Forall2 (holds shape σL2) (flatten (_chunks_map xa)) vxs).
  { eapply Forall2_impl; [exact Hhx1|]. intros c v. apply holds_app. }
  assert (HvxE : Forall2 (holds shape σE2)
                         (map drained (flatten (_chunks_map xa))) vxs).
  { eapply Forall2_impl; [exact Hhx2|]. intros c v. apply holds_app. }
  (* the call as the code makes it *)
  pose proof (collect_args_converted x y xa ya σ (σ ++ eL1) σL2
                Hshape Hmap Hkeys HxL HyL) as HcollectL.
  assert (HcountL : (length (flat_map chunk_updates (flatten (_chunks_map xa))) +
                     length (flat_map chunk_updates (flatten (_chunks_map ya)))
                     <= 1)%nat) by lia.
  destruct (kernel_materialised f x y xa ya vxs vys σ σL2 HcollectL Hmxa Hmya
              Hsxa Hixa Hmapa Hkxa' Hkya' Hcomms HvxL Hvys HcountL)
    as (R1 & σ1 & g1 & Hrun1 & HRs1 & HR1 & Hin1).
  (* the call after the updates have been applied *)
  set (xE := drained_array x) in *. set (yE := drained_array y) in *.
  assert (HsE : da_shape yE = da_shape xE) by exact Hshape.
  assert (HmapE : index_map_eqb (index_map yE) (index_map xE) = true).
  { unfold xE, yE, drained_array. rewrite !drained_map_index_map. exact Hmap. }
  assert (HkE : NoDup (map fst (_chunks_map xE))).
  { unfold xE, drained_array. cbn [_chunks_map]. rewrite drained_map_keys.
    exact Hkeys. }
  pose proof (collect_args_converted xE yE _ _ σE (σE ++ eE1) σE2
                HsE HmapE HkE HxE HyE) as HcollectE.
  assert (HE1 : da_shape (drained_array xa) = da_shape xE) by exact Hsxa.
  assert (HE2 : index_map (drained_array xa) = index_map xE).
  { unfold xE, drained_array. rewrite !drained_map_index_map. exact Hixa. }
  assert (HE3 : index_map_eqb (index_map (drained_array ya))
                              (index_map (drained_array xa)) = true).
  { unfold drained_array. rewrite !drained_map_index_map. exact Hmapa. }
  assert (HE4 : NoDup (map fst (_chunks_map (drained_array xa)))).
  { unfold drained_array. cbn [_chunks_map]. rewrite drained_map_keys.
    exact Hkxa'. }
  assert (HE5 : NoDup (map fst (_chunks_map (drained_array ya)))).
  { unfold drained_array. cbn [_chunks_map]. rewrite drained_map_keys.
    exact Hkya'. }
  assert (HE6 : _comms xE <> [] \/ nccl_available = true) by exact Hcomms.
  assert (HE7 : Forall2 (holds (da_shape xE) σE2)
                        (flatten (_chunks_map (drained_array xa))) vxs).
  { unfold xE, drained_array. cbn [_chunks_map da_shape].
    rewrite flatten_drained_map. exact HvxE. }
  assert (HE8 : Forall2 (holds (da_shape xE) σE2)
                        (flatten (in_order_of (_chunks_map (drained_array xa))
                                              (_chunks_map (drained_array ya))))
                        vys).
  { unfold xE, drained_array. cbn [_chunks_map da_shape].
    rewrite in_order_of_drained, flatten_drained_map. exact HvysE. }
  assert (HE9 : (length (flat_map chunk_updates
                           (flatten (_chunks_map (drained_array xa)))) +
                 length (flat_map chunk_updates
                           (flatten (_chunks_map (drained_array ya)))) <= 1)%nat).
  { unfold drained_array. cbn [_chunks_map].
    rewrite !flatten_drained_map, !drained_updates. simpl. lia. }
  destruct (kernel_materialised f xE yE (drained_array xa) (drained_array ya)
              vxs vys σE σE2 HcollectE Hmxa Hmya HE1 HE2 HE3 HE4 HE5 HE6
              HE7 HE8 HE9)
    as (R2 & σ2 & g2 & Hrun2 & HRs2 & HR2 & _).
  unfold xE, drained_array in HRs2, HR2.
  cbn [da_shape _chunks_map] in HRs2, HR2.
  rewrite flatten_drained_map, drained_indices in HR2.
  fold shape in HRs1, HR1, HRs2, HR2, Hin1.
  assert (Hidx : map chunk_index (flatten (_chunks_map xa)) =
                 map chunk_index (flatten (_chunks_map x)))
    by (rewrite !index_map_flat, Hixa; reflexivity).
  assert (Hagree : forall c,
             Exists (fun chunk =>
                       index_mem (nd_shape R1) (chunk_index chunk) c = true)
                    (flatten (_chunks_map x)) ->
             nd_item R1 c = nd_item R2 c).
  { intros c Hc. rewrite HR1, HR2. apply assemble_agree.
    - clear. induction (zip_with (kernel_value f) vxs vys);
        constructor; [apply nd_eq_refl|assumption].
    - exact Hin1.
    - right. rewrite HRs1 in Hc. rewrite Hidx. apply Exists_fmap. exact Hc. }
  exists R1, R2, σ1, σ2.
  split; [|split; [|split; [congruence|split; [exact Hagree|]]]].
  - unfold lazy_kernel, __cupy_override_elementwise_kernel__. exact Hrun1.
  - unfold eager_kernel, __cupy_override_elementwise_kernel__.
    rewrite (bind_run _ _ _ _ _ Hdx). rewrite (bind_run _ _ _ _ _ Hdy).
    exact Hrun2.
  - intros Hcov. split; [congruence|]. intros c Hc. apply Hagree, Hcov, Hc.
Qed.

End KernelOnOperands.


Section LazyEager.

Context {V : Type} `{!Dtype V} `{!Runtime V}.

Lemma agree_insert_one (σ : store V) (bk : nat) (a au : ndarray V) :
  σ !! bk = Some a -> agree (fun i => i = bk) σ (<[bk := au]> σ).
Proof.
  intros Hb. split; [|split].
  - rewrite length_insert. reflexivity.
  - intros i ->. eapply lookup_lt_Some, Hb.
  - intros i Hi. rewrite list_lookup_insert_ne by congruence. reflexivity.
Qed.


End LazyEager.

